(** * Session and directive resolution engine of the chat front-end

    A shallow embedding of the reply entry point [getReplyFromConfig]
    (auto-reply), of the model selection helpers (agents/model-selection.ts)
    and of the scheduled turn (cron/isolated-agent.ts), with the properties
    of the specification stated over it.

    Conventions.
    - A JavaScript string is a [text]: the list of its UTF-16 code units,
      each a number.
    - [undefined] is [None]; an optional field is an [option].
    - Times are integers (milliseconds), as [Date.now()] returns them.
    - The session store is a finite map from session key to record. *)

From Stdlib Require Import ZArith List Ascii String Bool Lia.
From stdpp Require Import gmap strings list fin_maps.

Import ListNotations.
Local Open Scope Z_scope.
Local Open Scope list_scope.

(** ** Text *)

(** A code unit; a literal code unit is written [cu "c"]. *)
Definition cu (a : ascii) : N := N_of_ascii a.

Abbreviation text := (list N).

(** A literal of ASCII characters. *)
Definition str (s : string) : text := map cu (list_ascii_of_string s).

Module Text.

Definition between (lo hi : N) (c : N) : bool :=
  ((lo <=? c) && (c <=? hi))%N.

Definition is_char (a : ascii) (c : N) : bool := (c =? cu a)%N.

Definition is_upper := between 65 90.
Definition is_lower := between 97 122.
Definition is_alpha c := is_upper c || is_lower c.
Definition is_digit := between 48 57.

(** [\w] *)
Definition is_word c := is_alpha c || is_digit c || is_char "_" c.

(** Line terminators: LF, CR, LS and PS. *)
Definition is_line_terminator (c : N) : bool :=
  ((c =? 10) || (c =? 13) || (c =? 8232) || (c =? 8233))%N.

(** [\s] and the characters [trim] removes: the white space and the line
    terminators of the language. *)
Definition is_space (c : N) : bool :=
  (between 9 13 c || (c =? 32) || (c =? 160) || (c =? 5760)
   || between 8192 8202 c || (c =? 8232) || (c =? 8233) || (c =? 8239)
   || (c =? 8287) || (c =? 12288) || (c =? 65279))%N.

(** [toLowerCase] on one code unit: A-Z and the Latin-1 capitals; the case
    mapping of code units above 255 is not modelled, they are left as they
    are. *)
Definition lower_char (c : N) : N :=
  if is_upper c || (between 192 222 c && negb (c =? 215)%N)
  then (c + 32)%N else c.

(** Canonical form of a code unit under the [i] flag of a regular
    expression without the [u] flag: a-z fold to A-Z, and no code unit
    above 127 folds into ASCII. *)
Definition fold_char (c : N) : N :=
  if is_lower c then (c - 32)%N else c.

Definition toLowerCase (s : text) : text := map lower_char s.

Fixpoint trimStart (s : text) : text :=
  match s with
  | c :: s' => if is_space c then trimStart s' else s
  | [] => []
  end.

Definition trimEnd (s : text) : text := rev (trimStart (rev s)).

Definition trim (s : text) : text := trimEnd (trimStart s).

Definition eqb (a b : text) : bool := bool_decide (a = b).

Fixpoint startsWith (s p : text) : bool :=
  match p, s with
  | [], _ => true
  | a :: p', c :: s' => (c =? a)%N && startsWith s' p'
  | _ :: _, [] => false
  end.

(** [s.indexOf(p)], [None] for -1. *)
Fixpoint indexOf_from (s p : text) (i : nat) : option nat :=
  if startsWith s p then Some i
  else match s with
       | [] => None
       | _ :: s' => indexOf_from s' p (S i)
       end.

Definition indexOf (s p : text) : option nat := indexOf_from s p 0.

Definition includes (s p : text) : bool :=
  match indexOf s p with Some _ => true | None => false end.

(** [s.slice(i)] and [s.slice(0, i)] for [0 <= i]. *)
Definition slice_from (i : nat) (s : text) : text := skipn i s.
Definition slice_to (i : nat) (s : text) : text := firstn i s.

(** [s.replace(p, "")] with a string pattern: the first occurrence of
    [p] is removed. *)
Fixpoint remove_first (p s : text) : text :=
  if startsWith s p then skipn (length p) s
  else match s with
       | [] => []
       | c :: s' => c :: remove_first p s'
       end.

(** [parts.join(sep)] *)
Fixpoint join (sep : text) (parts : list text) : text :=
  match parts with
  | [] => []
  | [p] => p
  | p :: ps => p ++ sep ++ join sep ps
  end.

(** [s.split(/\s+/)]: the pieces between maximal runs of white space. *)
Fixpoint split_ws_go (s : text) (cur : text) (in_gap : bool) : list text :=
  match s with
  | [] => [rev cur]
  | c :: s' =>
      if is_space c
      then (if in_gap then split_ws_go s' cur true
            else rev cur :: split_ws_go s' [] true)
      else split_ws_go s' (c :: cur) false
  end.

Definition split_ws (s : text) : list text := split_ws_go s [] false.

(** Truthiness of a string: non-empty. *)
Definition truthy (s : text) : bool :=
  match s with [] => false | _ => true end.

(** Truthiness of an optional string. *)
Definition truthy_opt (o : option text) : bool :=
  match o with Some s => truthy s | None => false end.

End Text.

(** ** Regular expressions

    The fragment of ECMAScript regular expressions the sources use, with
    the backtracking order of the language: alternatives left to right,
    greedy repetition, the leftmost start first.  Repetition is only ever
    applied to a character class in the sources. *)

Module Regex.
Import Text.

Inductive re : Type :=
| Chr (c : N)                  (* one literal code unit *)
| Cls (p : N -> bool)          (* a character class *)
| Seq (a b : re)
| Alt (a b : re)
| Star (p : N -> bool)         (* greedy [p*] *)
| Opt (a : re)                 (* greedy [a?] *)
| Bol (multiline : bool)       (* [^] *)
| Eol                          (* [$] *)
| WordB                        (* [\b] *)
| Ahead (a : re)               (* [(?=a)] *)
| Grp (a : re).                (* the capturing group *)

(** [p+] *)
Definition Plus (p : N -> bool) : re := Seq (Cls p) (Star p).

(** A literal word, case-sensitive or under the [i] flag. *)
Fixpoint Lit (s : text) : re :=
  match s with
  | [] => Opt (Cls (fun _ => false))
  | [c] => Chr c
  | c :: s' => Seq (Chr c) (Lit s')
  end.

Definition ci (c : N) : N -> bool :=
  fun x => (fold_char x =? fold_char c)%N.

Fixpoint LitI (s : text) : re :=
  match s with
  | [] => Opt (Cls (fun _ => false))
  | [c] => Cls (ci c)
  | c :: s' => Seq (Cls (ci c)) (LitI s')
  end.

(** A sequence of parts. *)
Fixpoint seqs (l : list re) : re :=
  match l with
  | [] => Opt (Cls (fun _ => false))
  | [r] => r
  | r :: l' => Seq r (seqs l')
  end.

(** A continuation receives the code unit before the position, the rest of
    the input, the number of code units consumed so far and the capture. *)
Definition K (R : Type) : Type :=
  option N -> text -> nat -> option text -> option R.

Fixpoint star {R} (p : N -> bool) (pv : option N) (s : text) (n : nat)
    (k : option N -> text -> nat -> option R) : option R :=
  match s with
  | c :: s' =>
      if p c
      then match star p (Some c) s' (S n) k with
           | Some r => Some r
           | None => k pv s n
           end
      else k pv s n
  | [] => k pv s n
  end.

Definition word_at (o : option N) : bool :=
  match o with Some c => is_word c | None => false end.

Definition at_bol (multiline : bool) (pv : option N) : bool :=
  match pv with
  | None => true
  | Some c => multiline && is_line_terminator c
  end.

Fixpoint m {R} (r : re) (pv : option N) (s : text) (n : nat)
    (cp : option text) (k : K R) {struct r} : option R :=
  match r with
  | Chr c =>
      match s with
      | x :: s' => if (x =? c)%N then k (Some x) s' (S n) cp else None
      | [] => None
      end
  | Cls p =>
      match s with
      | x :: s' => if p x then k (Some x) s' (S n) cp else None
      | [] => None
      end
  | Seq a b => m a pv s n cp (fun pv' s' n' cp' => m b pv' s' n' cp' k)
  | Alt a b =>
      match m a pv s n cp k with
      | Some x => Some x
      | None => m b pv s n cp k
      end
  | Star p => star p pv s n (fun pv' s' n' => k pv' s' n' cp)
  | Opt a =>
      match m a pv s n cp k with
      | Some x => Some x
      | None => k pv s n cp
      end
  | Bol ml => if at_bol ml pv then k pv s n cp else None
  | Eol => match s with [] => k pv s n cp | _ :: _ => None end
  | WordB =>
      if xorb (word_at pv) (word_at (head s)) then k pv s n cp else None
  | Ahead a =>
      match m a pv s n cp (fun _ _ _ _ => Some tt) with
      | Some _ => k pv s n cp
      | None => None
      end
  | Grp a =>
      m a pv s n cp (fun pv' s' n' _ => k pv' s' n' (Some (firstn (n' - n) s)))
  end.

(** The result of a successful match: where it starts, how many code units
    it spans, and the text of the capturing group. *)
Record found := { at_index : nat; span : nat; group1 : option text }.

Definition here (r : re) (pv : option N) (s : text)
  : option (nat * option text) :=
  m r pv s 0%nat None (fun _ _ n cp => Some (n, cp)).

Fixpoint search (r : re) (pv : option N) (s : text) (i : nat)
  : option found :=
  match here r pv s with
  | Some (n, cp) => Some {| at_index := i; span := n; group1 := cp |}
  | None =>
      match s with
      | [] => None
      | c :: s' => search r (Some c) s' (S i)
      end
  end.

(** [s.match(r)] for a regular expression without the [g] flag. *)
Definition exec (r : re) (s : text) : option found := search r None s 0%nat.

(** [match[0]] *)
Definition matched (s : text) (f : found) : text :=
  firstn (span f) (skipn (at_index f) s).

(** [s.replace(r, rep)] without the [g] flag ([rep] has no [$]). *)
Definition replace_first (r : re) (rep : text) (s : text) : text :=
  match exec r s with
  | Some f => firstn (at_index f) s ++ rep ++ skipn (at_index f + span f) s
  | None => s
  end.

(** [s.replace(r, rep)] with the [g] flag: [skip] counts the code units of
    the current match that are still to be dropped. *)
Fixpoint replace_all_go (r : re) (rep : text) (pv : option N) (s : text)
    (skip : nat) {struct s} : text :=
  match skip with
  | S j =>
      match s with
      | [] => []
      | c :: s' => replace_all_go r rep (Some c) s' j
      end
  | O =>
      match here r pv s with
      | Some (S j, _) =>
          rep ++ match s with
                 | [] => []
                 | c :: s' => replace_all_go r rep (Some c) s' j
                 end
      | Some (O, _) =>
          rep ++ match s with
                 | [] => []
                 | c :: s' => c :: replace_all_go r rep (Some c) s' 0
                 end
      | None =>
          match s with
          | [] => []
          | c :: s' => c :: replace_all_go r rep (Some c) s' 0
          end
      end
  end.

Definition replace_all (r : re) (rep : text) (s : text) : text :=
  replace_all_go r rep None s 0.

(** Whether every match of [r] consumes the code unit [c]. *)
Fixpoint must (c : N) (r : re) : bool :=
  match r with
  | Chr x => (x =? c)%N
  | Seq a b => must c a || must c b
  | Alt a b => must c a && must c b
  | Grp a => must c a
  | Cls _ | Star _ | Opt _ | Bol _ | Eol | WordB | Ahead _ => false
  end.

(** [/\s+/g] to one space, the normalisation used throughout. *)
Definition collapse_ws (s : text) : text :=
  replace_all (Plus is_space) (str " ") s.

(** *** Vocabulary of the statements about matching *)

(** [k'] succeeds, on the text extended by [ws], wherever [k] succeeds. *)
Definition follows {R R'} (ws : text) (k : K R) (k' : K R') : Prop :=
  forall pv s n cp n' cp',
    is_Some (k pv s n cp) -> is_Some (k' pv (s ++ ws) n' cp').

(** Matching [r] succeeds on the extended text wherever it succeeds. *)
Definition extends_over (ws : text) (r : re) : Prop :=
  forall R R' (k : K R) (k' : K R') pv s n cp n' cp',
    follows ws k k' ->
    is_Some (m r pv s n cp k) -> is_Some (m r pv (s ++ ws) n' cp' k').

(** White space only. *)
Definition blank (ws : text) : Prop := Forall (fun c => is_space c = true) ws.

(** [(?:^|\s)], the start of both directive expressions. *)
Definition lead : re := Alt (Bol false) (Cls is_space).

(** The code unit before the position once [u] has been read. *)
Definition prev (pv : option N) (u : text) : option N :=
  fold_left (fun _ c => Some c) u pv.

(** [\b] between the code unit [pv] and the text [rest]. *)
Definition boundary (pv : option N) (rest : text) : bool :=
  xorb (word_at pv) (word_at (head rest)).

(** [matches r pv u rest]: after the code unit [pv], the expression [r]
    can match the code units [u] of the text [u ++ rest]. *)
Inductive matches : re -> option N -> text -> text -> Prop :=
| matches_Chr c pv rest : matches (Chr c) pv [c] rest
| matches_Cls (p : N -> bool) x pv rest :
    p x = true -> matches (Cls p) pv [x] rest
| matches_Seq a b pv u1 u2 rest :
    matches a pv u1 (u2 ++ rest) -> matches b (prev pv u1) u2 rest ->
    matches (Seq a b) pv (u1 ++ u2) rest
| matches_Alt_l a b pv u rest : matches a pv u rest -> matches (Alt a b) pv u rest
| matches_Alt_r a b pv u rest : matches b pv u rest -> matches (Alt a b) pv u rest
| matches_Star (p : N -> bool) pv u rest :
    Forall (fun c => p c = true) u -> matches (Star p) pv u rest
| matches_Opt_some a pv u rest : matches a pv u rest -> matches (Opt a) pv u rest
| matches_Opt_none a pv rest : matches (Opt a) pv [] rest
| matches_Bol ml pv rest : at_bol ml pv = true -> matches (Bol ml) pv [] rest
| matches_Eol pv : matches Eol pv [] []
| matches_WordB pv rest : boundary pv rest = true -> matches WordB pv [] rest
| matches_Ahead a pv u rest : matches a pv u rest -> matches (Ahead a) pv [] (u ++ rest)
| matches_Grp a pv u rest : matches a pv u rest -> matches (Grp a) pv u rest.

(** [expands c s]: [s] is [c] with every space of [c] replaced by a
    non-empty run of white space; [collapse_ws] undoes it. *)
Inductive expands : text -> text -> Prop :=
| expands_nil : expands [] []
| expands_char x c s :
    is_space x = false -> expands c s -> expands (x :: c) (x :: s)
| expands_space ws c s :
    ws <> [] -> blank ws -> expands c s -> expands (cu " " :: c) (ws ++ s).

End Regex.

(** ** Model selection (agents/model-selection.ts) *)

Module ModelSelection.
Import Text.

Record ModelRef := { provider : text; model : text }.

(** The fields of a catalog entry that the engine reads. *)
Record ModelCatalogEntry := {
  entry_provider : text;
  entry_id : text;
  entry_name : option text }.

Definition modelKey (provider model : text) : text :=
  provider ++ str "/" ++ model.

Definition parseModelRef (raw defaultProvider : text) : option ModelRef :=
  let trimmed := trim raw in
  if negb (truthy trimmed) then None
  else match indexOf trimmed (str "/") with
       | None => Some {| provider := defaultProvider; model := trimmed |}
       | Some slash =>
           let provider := trim (slice_to slash trimmed) in
           let model := trim (slice_from (slash + 1) trimmed) in
           if negb (truthy provider) || negb (truthy model) then None
           else Some {| provider := provider; model := model |}
       end.

(** [x?.trim() || ""] *)
Definition trim_or_empty (o : option text) : text :=
  match o with Some x => trim x | None => [] end.

Definition resolveConfiguredModelRef
    (cfg_provider cfg_model : option text) (defaultProvider defaultModel : text)
  : ModelRef :=
  let rawProvider := trim_or_empty cfg_provider in
  let rawModel := trim_or_empty cfg_model in
  let providerFallback := if truthy rawProvider then rawProvider else defaultProvider in
  if truthy rawModel then
    match parseModelRef rawModel providerFallback with
    | Some parsed => parsed
    | None => {| provider := providerFallback; model := rawModel |}
    end
  else {| provider := providerFallback; model := defaultModel |}.

Record AllowedModelSet := {
  allowAny : bool;
  allowedCatalog : list ModelCatalogEntry;
  allowedKeys : gset text }.

Definition entryKey (e : ModelCatalogEntry) : text :=
  modelKey (entry_provider e) (entry_id e).

Definition catalogKeys (catalog : list ModelCatalogEntry) : gset text :=
  list_to_set (map entryKey catalog).

(** The loop over the raw allow-list: a key is added when the entry parses
    and names a catalog model. *)
Fixpoint collectAllowed (keys : gset text) (defaultProvider : text)
    (rawAllowlist : list text) (acc : gset text) : gset text :=
  match rawAllowlist with
  | [] => acc
  | raw :: rest =>
      match parseModelRef raw defaultProvider with
      | None => collectAllowed keys defaultProvider rest acc
      | Some parsed =>
          let key := modelKey (provider parsed) (model parsed) in
          if bool_decide (key ∈ keys)
          then collectAllowed keys defaultProvider rest ({[ key ]} ∪ acc)
          else collectAllowed keys defaultProvider rest acc
      end
  end.

(** [allowedModels] is [cfg.agent?.allowedModels]. *)
Definition buildAllowedModelSet (allowedModels : option (list text))
    (catalog : list ModelCatalogEntry) (defaultProvider : text)
  : AllowedModelSet :=
  let rawAllowlist := default [] allowedModels in
  let allowAny := bool_decide (length rawAllowlist = 0%nat) in
  let keys := catalogKeys catalog in
  if allowAny then
    {| allowAny := true; allowedCatalog := catalog; allowedKeys := keys |}
  else
    let allowed := collectAllowed keys defaultProvider rawAllowlist ∅ in
    let filtered :=
      List.filter (fun e => bool_decide (entryKey e ∈ allowed)) catalog in
    if bool_decide (length filtered = 0%nat) then
      {| allowAny := true; allowedCatalog := catalog; allowedKeys := keys |}
    else
      {| allowAny := false; allowedCatalog := filtered; allowedKeys := allowed |}.

(** An entry of the raw allow-list is valid when it parses to the key of a
    catalog model. *)
Definition valid_entry (catalog : list ModelCatalogEntry) (defaultProvider raw : text)
  : bool :=
  match parseModelRef raw defaultProvider with
  | Some parsed =>
      bool_decide (modelKey (provider parsed) (model parsed) ∈ catalogKeys catalog)
  | None => false
  end.

(** The separator of provider and model. *)
Definition slash : N := cu "/".

End ModelSelection.

(** ** Session records and the store (config/sessions.ts)

    The record type is declared in config/sessions.ts; its fields are the
    ones the engine reads and writes. *)

Module Sessions.

(** The cached capability listing is opaque to the engine. *)
Definition SkillSnapshot := text.

Record SessionEntry := {
  sessionId : text;
  updatedAt : Z;
  systemSent : option bool;
  abortedLastRun : option bool;
  thinkingLevel : option text;
  verboseLevel : option text;
  modelOverride : option text;
  providerOverride : option text;
  groupActivation : option text;
  groupActivationNeedsSystemIntro : option bool;
  inputTokens : option Z;
  outputTokens : option Z;
  totalTokens : option Z;
  contextTokens : option Z;
  model : option text;
  skillsSnapshot : option SkillSnapshot;
  lastChannel : option text;
  lastTo : option text }.

(** A record with only the two mandatory fields, [{ sessionId, updatedAt }]. *)
Definition bare (id : text) (t : Z) : SessionEntry :=
  {| sessionId := id; updatedAt := t; systemSent := None;
     abortedLastRun := None; thinkingLevel := None; verboseLevel := None;
     modelOverride := None; providerOverride := None;
     groupActivation := None; groupActivationNeedsSystemIntro := None;
     inputTokens := None; outputTokens := None; totalTokens := None;
     contextTokens := None; model := None; skillsSnapshot := None;
     lastChannel := None; lastTo := None |}.

(** Field assignment [e.f = v]; [delete e.f] assigns [None]. *)
Definition set_sessionId (v : text) (e : SessionEntry) : SessionEntry :=
  {| sessionId := v; updatedAt := updatedAt e; systemSent := systemSent e; 
     abortedLastRun := abortedLastRun e; thinkingLevel := thinkingLevel e; 
     verboseLevel := verboseLevel e; modelOverride := modelOverride e; 
     providerOverride := providerOverride e; 
     groupActivation := groupActivation e; 
     groupActivationNeedsSystemIntro := groupActivationNeedsSystemIntro e; 
     inputTokens := inputTokens e; outputTokens := outputTokens e; 
     totalTokens := totalTokens e; contextTokens := contextTokens e; 
     model := model e; skillsSnapshot := skillsSnapshot e; 
     lastChannel := lastChannel e; lastTo := lastTo e |}.

Definition set_updatedAt (v : Z) (e : SessionEntry) : SessionEntry :=
  {| sessionId := sessionId e; updatedAt := v; systemSent := systemSent e; 
     abortedLastRun := abortedLastRun e; thinkingLevel := thinkingLevel e; 
     verboseLevel := verboseLevel e; modelOverride := modelOverride e; 
     providerOverride := providerOverride e; 
     groupActivation := groupActivation e; 
     groupActivationNeedsSystemIntro := groupActivationNeedsSystemIntro e; 
     inputTokens := inputTokens e; outputTokens := outputTokens e; 
     totalTokens := totalTokens e; contextTokens := contextTokens e; 
     model := model e; skillsSnapshot := skillsSnapshot e; 
     lastChannel := lastChannel e; lastTo := lastTo e |}.

Definition set_systemSent (v : option bool) (e : SessionEntry) : SessionEntry :=
  {| sessionId := sessionId e; updatedAt := updatedAt e; systemSent := v; 
     abortedLastRun := abortedLastRun e; thinkingLevel := thinkingLevel e; 
     verboseLevel := verboseLevel e; modelOverride := modelOverride e; 
     providerOverride := providerOverride e; 
     groupActivation := groupActivation e; 
     groupActivationNeedsSystemIntro := groupActivationNeedsSystemIntro e; 
     inputTokens := inputTokens e; outputTokens := outputTokens e; 
     totalTokens := totalTokens e; contextTokens := contextTokens e; 
     model := model e; skillsSnapshot := skillsSnapshot e; 
     lastChannel := lastChannel e; lastTo := lastTo e |}.

Definition set_abortedLastRun (v : option bool) (e : SessionEntry) : SessionEntry :=
  {| sessionId := sessionId e; updatedAt := updatedAt e; 
     systemSent := systemSent e; abortedLastRun := v; 
     thinkingLevel := thinkingLevel e; verboseLevel := verboseLevel e; 
     modelOverride := modelOverride e; 
     providerOverride := providerOverride e; 
     groupActivation := groupActivation e; 
     groupActivationNeedsSystemIntro := groupActivationNeedsSystemIntro e; 
     inputTokens := inputTokens e; outputTokens := outputTokens e; 
     totalTokens := totalTokens e; contextTokens := contextTokens e; 
     model := model e; skillsSnapshot := skillsSnapshot e; 
     lastChannel := lastChannel e; lastTo := lastTo e |}.

Definition set_thinkingLevel (v : option text) (e : SessionEntry) : SessionEntry :=
  {| sessionId := sessionId e; updatedAt := updatedAt e; 
     systemSent := systemSent e; abortedLastRun := abortedLastRun e; 
     thinkingLevel := v; verboseLevel := verboseLevel e; 
     modelOverride := modelOverride e; 
     providerOverride := providerOverride e; 
     groupActivation := groupActivation e; 
     groupActivationNeedsSystemIntro := groupActivationNeedsSystemIntro e; 
     inputTokens := inputTokens e; outputTokens := outputTokens e; 
     totalTokens := totalTokens e; contextTokens := contextTokens e; 
     model := model e; skillsSnapshot := skillsSnapshot e; 
     lastChannel := lastChannel e; lastTo := lastTo e |}.

Definition set_verboseLevel (v : option text) (e : SessionEntry) : SessionEntry :=
  {| sessionId := sessionId e; updatedAt := updatedAt e; 
     systemSent := systemSent e; abortedLastRun := abortedLastRun e; 
     thinkingLevel := thinkingLevel e; verboseLevel := v; 
     modelOverride := modelOverride e; 
     providerOverride := providerOverride e; 
     groupActivation := groupActivation e; 
     groupActivationNeedsSystemIntro := groupActivationNeedsSystemIntro e; 
     inputTokens := inputTokens e; outputTokens := outputTokens e; 
     totalTokens := totalTokens e; contextTokens := contextTokens e; 
     model := model e; skillsSnapshot := skillsSnapshot e; 
     lastChannel := lastChannel e; lastTo := lastTo e |}.

Definition set_modelOverride (v : option text) (e : SessionEntry) : SessionEntry :=
  {| sessionId := sessionId e; updatedAt := updatedAt e; 
     systemSent := systemSent e; abortedLastRun := abortedLastRun e; 
     thinkingLevel := thinkingLevel e; verboseLevel := verboseLevel e; 
     modelOverride := v; providerOverride := providerOverride e; 
     groupActivation := groupActivation e; 
     groupActivationNeedsSystemIntro := groupActivationNeedsSystemIntro e; 
     inputTokens := inputTokens e; outputTokens := outputTokens e; 
     totalTokens := totalTokens e; contextTokens := contextTokens e; 
     model := model e; skillsSnapshot := skillsSnapshot e; 
     lastChannel := lastChannel e; lastTo := lastTo e |}.

Definition set_providerOverride (v : option text) (e : SessionEntry) : SessionEntry :=
  {| sessionId := sessionId e; updatedAt := updatedAt e; 
     systemSent := systemSent e; abortedLastRun := abortedLastRun e; 
     thinkingLevel := thinkingLevel e; verboseLevel := verboseLevel e; 
     modelOverride := modelOverride e; providerOverride := v; 
     groupActivation := groupActivation e; 
     groupActivationNeedsSystemIntro := groupActivationNeedsSystemIntro e; 
     inputTokens := inputTokens e; outputTokens := outputTokens e; 
     totalTokens := totalTokens e; contextTokens := contextTokens e; 
     model := model e; skillsSnapshot := skillsSnapshot e; 
     lastChannel := lastChannel e; lastTo := lastTo e |}.

Definition set_groupActivation (v : option text) (e : SessionEntry) : SessionEntry :=
  {| sessionId := sessionId e; updatedAt := updatedAt e; 
     systemSent := systemSent e; abortedLastRun := abortedLastRun e; 
     thinkingLevel := thinkingLevel e; verboseLevel := verboseLevel e; 
     modelOverride := modelOverride e; 
     providerOverride := providerOverride e; groupActivation := v; 
     groupActivationNeedsSystemIntro := groupActivationNeedsSystemIntro e; 
     inputTokens := inputTokens e; outputTokens := outputTokens e; 
     totalTokens := totalTokens e; contextTokens := contextTokens e; 
     model := model e; skillsSnapshot := skillsSnapshot e; 
     lastChannel := lastChannel e; lastTo := lastTo e |}.

Definition set_groupActivationNeedsSystemIntro (v : option bool) (e : SessionEntry) : SessionEntry :=
  {| sessionId := sessionId e; updatedAt := updatedAt e; 
     systemSent := systemSent e; abortedLastRun := abortedLastRun e; 
     thinkingLevel := thinkingLevel e; verboseLevel := verboseLevel e; 
     modelOverride := modelOverride e; 
     providerOverride := providerOverride e; 
     groupActivation := groupActivation e; 
     groupActivationNeedsSystemIntro := v; inputTokens := inputTokens e; 
     outputTokens := outputTokens e; totalTokens := totalTokens e; 
     contextTokens := contextTokens e; model := model e; 
     skillsSnapshot := skillsSnapshot e; lastChannel := lastChannel e; 
     lastTo := lastTo e |}.

Definition set_inputTokens (v : option Z) (e : SessionEntry) : SessionEntry :=
  {| sessionId := sessionId e; updatedAt := updatedAt e; 
     systemSent := systemSent e; abortedLastRun := abortedLastRun e; 
     thinkingLevel := thinkingLevel e; verboseLevel := verboseLevel e; 
     modelOverride := modelOverride e; 
     providerOverride := providerOverride e; 
     groupActivation := groupActivation e; 
     groupActivationNeedsSystemIntro := groupActivationNeedsSystemIntro e; 
     inputTokens := v; outputTokens := outputTokens e; 
     totalTokens := totalTokens e; contextTokens := contextTokens e; 
     model := model e; skillsSnapshot := skillsSnapshot e; 
     lastChannel := lastChannel e; lastTo := lastTo e |}.

Definition set_outputTokens (v : option Z) (e : SessionEntry) : SessionEntry :=
  {| sessionId := sessionId e; updatedAt := updatedAt e; 
     systemSent := systemSent e; abortedLastRun := abortedLastRun e; 
     thinkingLevel := thinkingLevel e; verboseLevel := verboseLevel e; 
     modelOverride := modelOverride e; 
     providerOverride := providerOverride e; 
     groupActivation := groupActivation e; 
     groupActivationNeedsSystemIntro := groupActivationNeedsSystemIntro e; 
     inputTokens := inputTokens e; outputTokens := v; 
     totalTokens := totalTokens e; contextTokens := contextTokens e; 
     model := model e; skillsSnapshot := skillsSnapshot e; 
     lastChannel := lastChannel e; lastTo := lastTo e |}.

Definition set_totalTokens (v : option Z) (e : SessionEntry) : SessionEntry :=
  {| sessionId := sessionId e; updatedAt := updatedAt e; 
     systemSent := systemSent e; abortedLastRun := abortedLastRun e; 
     thinkingLevel := thinkingLevel e; verboseLevel := verboseLevel e; 
     modelOverride := modelOverride e; 
     providerOverride := providerOverride e; 
     groupActivation := groupActivation e; 
     groupActivationNeedsSystemIntro := groupActivationNeedsSystemIntro e; 
     inputTokens := inputTokens e; outputTokens := outputTokens e; 
     totalTokens := v; contextTokens := contextTokens e; model := model e; 
     skillsSnapshot := skillsSnapshot e; lastChannel := lastChannel e; 
     lastTo := lastTo e |}.

Definition set_contextTokens (v : option Z) (e : SessionEntry) : SessionEntry :=
  {| sessionId := sessionId e; updatedAt := updatedAt e; 
     systemSent := systemSent e; abortedLastRun := abortedLastRun e; 
     thinkingLevel := thinkingLevel e; verboseLevel := verboseLevel e; 
     modelOverride := modelOverride e; 
     providerOverride := providerOverride e; 
     groupActivation := groupActivation e; 
     groupActivationNeedsSystemIntro := groupActivationNeedsSystemIntro e; 
     inputTokens := inputTokens e; outputTokens := outputTokens e; 
     totalTokens := totalTokens e; contextTokens := v; model := model e; 
     skillsSnapshot := skillsSnapshot e; lastChannel := lastChannel e; 
     lastTo := lastTo e |}.

Definition set_model (v : option text) (e : SessionEntry) : SessionEntry :=
  {| sessionId := sessionId e; updatedAt := updatedAt e; 
     systemSent := systemSent e; abortedLastRun := abortedLastRun e; 
     thinkingLevel := thinkingLevel e; verboseLevel := verboseLevel e; 
     modelOverride := modelOverride e; 
     providerOverride := providerOverride e; 
     groupActivation := groupActivation e; 
     groupActivationNeedsSystemIntro := groupActivationNeedsSystemIntro e; 
     inputTokens := inputTokens e; outputTokens := outputTokens e; 
     totalTokens := totalTokens e; contextTokens := contextTokens e; 
     model := v; skillsSnapshot := skillsSnapshot e; 
     lastChannel := lastChannel e; lastTo := lastTo e |}.

Definition set_skillsSnapshot (v : option SkillSnapshot) (e : SessionEntry) : SessionEntry :=
  {| sessionId := sessionId e; updatedAt := updatedAt e; 
     systemSent := systemSent e; abortedLastRun := abortedLastRun e; 
     thinkingLevel := thinkingLevel e; verboseLevel := verboseLevel e; 
     modelOverride := modelOverride e; 
     providerOverride := providerOverride e; 
     groupActivation := groupActivation e; 
     groupActivationNeedsSystemIntro := groupActivationNeedsSystemIntro e; 
     inputTokens := inputTokens e; outputTokens := outputTokens e; 
     totalTokens := totalTokens e; contextTokens := contextTokens e; 
     model := model e; skillsSnapshot := v; lastChannel := lastChannel e; 
     lastTo := lastTo e |}.

Definition set_lastChannel (v : option text) (e : SessionEntry) : SessionEntry :=
  {| sessionId := sessionId e; updatedAt := updatedAt e; 
     systemSent := systemSent e; abortedLastRun := abortedLastRun e; 
     thinkingLevel := thinkingLevel e; verboseLevel := verboseLevel e; 
     modelOverride := modelOverride e; 
     providerOverride := providerOverride e; 
     groupActivation := groupActivation e; 
     groupActivationNeedsSystemIntro := groupActivationNeedsSystemIntro e; 
     inputTokens := inputTokens e; outputTokens := outputTokens e; 
     totalTokens := totalTokens e; contextTokens := contextTokens e; 
     model := model e; skillsSnapshot := skillsSnapshot e; lastChannel := v; 
     lastTo := lastTo e |}.

Definition set_lastTo (v : option text) (e : SessionEntry) : SessionEntry :=
  {| sessionId := sessionId e; updatedAt := updatedAt e; 
     systemSent := systemSent e; abortedLastRun := abortedLastRun e; 
     thinkingLevel := thinkingLevel e; verboseLevel := verboseLevel e; 
     modelOverride := modelOverride e; 
     providerOverride := providerOverride e; 
     groupActivation := groupActivation e; 
     groupActivationNeedsSystemIntro := groupActivationNeedsSystemIntro e; 
     inputTokens := inputTokens e; outputTokens := outputTokens e; 
     totalTokens := totalTokens e; contextTokens := contextTokens e; 
     model := model e; skillsSnapshot := skillsSnapshot e; 
     lastChannel := lastChannel e; lastTo := v |}.

(** The store: session key to record. *)
Definition SessionStore := gmap text SessionEntry.

End Sessions.

(** ** Configuration and inbound message (config/config.ts, templating.ts)

    Both types are declared outside the engine; the fields below are the
    ones it reads.  A mention pattern is a regular expression source in the
    configuration; it is kept here in compiled form, [None] standing for a
    source that [new RegExp] rejects. *)

Module Config.

Record AgentConfig := {
  agent_provider : option text;
  agent_model : option text;
  allowedModels : option (list text);
  thinkingDefault : option text;
  verboseDefault : option text;
  agent_contextTokens : option Z;
  timeoutSeconds : option Z }.

Record SessionConfig := {
  mainKey : option text;
  resetTriggers : option (list text);
  idleMinutes : option Z;
  scope : option text;
  store : option text }.

Record GroupChatConfig := {
  mentionPatterns : option (list (option Regex.re));
  requireMention : option bool }.

Record RoutingConfig := {
  allowFrom : option (list text);
  groupChat : option GroupChatConfig;
  transcribeAudio : bool }.

Record ClawdisConfig := {
  agent : option AgentConfig;
  session : option SessionConfig;
  routing : option RoutingConfig }.

Record MsgContext := {
  Body : option text;
  From : option text;
  To : option text;
  SenderE164 : option text;
  ChatType : option text;
  WasMentioned : option bool;
  GroupSubject : option text;
  GroupMembers : option text;
  MediaPath : option text;
  MediaType : option text;
  MediaUrl : option text }.

Definition set_Body (b : option text) (c : MsgContext) : MsgContext :=
  {| Body := b; From := From c; To := To c; SenderE164 := SenderE164 c;
     ChatType := ChatType c; WasMentioned := WasMentioned c;
     GroupSubject := GroupSubject c; GroupMembers := GroupMembers c;
     MediaPath := MediaPath c; MediaType := MediaType c;
     MediaUrl := MediaUrl c |}.

(** [cfg.agent?.f], [cfg.session?.f], [cfg.routing?.f] *)
Definition agent_opt {A} (f : AgentConfig -> option A) (cfg : ClawdisConfig)
  : option A := agent cfg ≫= f.
Definition session_opt {A} (f : SessionConfig -> option A) (cfg : ClawdisConfig)
  : option A := session cfg ≫= f.
Definition routing_opt {A} (f : RoutingConfig -> option A) (cfg : ClawdisConfig)
  : option A := routing cfg ≫= f.

Definition groupChat_opt {A} (f : GroupChatConfig -> option A)
    (cfg : ClawdisConfig) : option A := routing_opt groupChat cfg ≫= f.

End Config.

(** ** The agent engine and the other collaborators *)

Module Agent.
Import Sessions.

(** [ReplyPayload] (auto-reply/types.ts) *)
Record ReplyPayload := {
  payload_text : option text;
  mediaUrl : option text;
  mediaUrls : option (list text) }.

Definition text_payload (t : text) : ReplyPayload :=
  {| payload_text := Some t; mediaUrl := None; mediaUrls := None |}.

Record Usage := {
  usage_input : option Z;
  usage_output : option Z;
  cacheRead : option Z;
  cacheWrite : option Z;
  usage_total : option Z }.

Record AgentMeta := { meta_model : option text; usage : option Usage }.

Record RunResult := {
  payloads : option (list ReplyPayload);
  agentMeta : option AgentMeta }.

(** The arguments of [runEmbeddedPiAgent] that the engine computes; the
    streaming callbacks are not part of the model. *)
Record RunParams := {
  run_sessionId : text;
  run_sessionKey : text;
  run_skillsSnapshot : option SkillSnapshot;
  prompt : text;
  extraSystemPrompt : option text;
  ownerNumbers : option (list text);
  enforceFinalTag : option bool;
  lane : option text;
  run_provider : text;
  run_model : text;
  run_thinkLevel : option text;
  run_verboseLevel : option text;
  timeoutMs : Z;
  runId : text }.

(** What a rejected promise carries. *)
Definition Failure := text.

End Agent.

Module Collab.
Import Sessions Config Agent ModelSelection.

(** The result types of the directive helpers defined outside the engine. *)
Record ModelDirective := {
  model_cleaned : text;
  rawModel : option text;
  model_hasDirective : bool }.

Record ActivationCommand := {
  hasCommand : bool;
  mode : option text }.

(** A scheduled job (cron/types.ts): only an [agentTurn] payload carries
    options. *)
Inductive CronPayload : Type :=
| AgentTurn (thinking : option text) (timeoutSeconds : option Z)
    (deliver bestEffortDeliver : option bool) (channel to : option text)
| OtherPayload.

Record CronJob := {
  job_id : text;
  job_name : text;
  job_payload : CronPayload }.

Inductive CronStatus := StatusOk | StatusError | StatusSkipped.

Record RunCronAgentTurnResult := {
  status : CronStatus;
  summary : option text;
  error : option text }.

(** Functions and constants the engine imports from modules that are not
    part of it, and the sources of time and of fresh identifiers. *)
Class Collaborators := {
  (* agents/defaults.ts *)
  DEFAULT_PROVIDER : text;
  DEFAULT_MODEL : text;
  DEFAULT_CONTEXT_TOKENS : Z;
  (* config/sessions.ts *)
  DEFAULT_IDLE_MINUTES : Z;
  DEFAULT_RESET_TRIGGERS : list text;
  resolveSessionKey : text -> MsgContext -> text -> text;
  (* auto-reply/thinking.ts, model.ts, group-activation.ts, tokens.ts *)
  normalizeThinkLevel : option text -> option text;
  normalizeVerboseLevel : option text -> option text;
  extractModelDirective : option text -> ModelDirective;
  parseActivationCommand : text -> ActivationCommand;
  normalizeGroupActivation : option text -> option text;
  SILENT_REPLY_TOKEN : text;
  (* utils.ts *)
  normalizeE164 : text -> text;
  (* agents/context.ts, model-catalog.ts, skills.ts *)
  lookupContextTokens : text -> option Z;
  loadModelCatalog : ClawdisConfig -> list ModelCatalogEntry;
  buildWorkspaceSkillSnapshot : ClawdisConfig -> option SkillSnapshot;
  (* auto-reply/transcription.ts *)
  isAudio : option text -> bool;
  transcribeInboundAudio : ClawdisConfig -> MsgContext -> Failure + option text;
  (* infra/system-events.ts, provider-summary.ts *)
  drainSystemEvents : list text;
  buildProviderSummary : ClawdisConfig -> list text;
  (* auto-reply/status.ts: the status text also reads the transcript of the
     session and the state of the web login; no statement below depends on
     what it says *)
  buildStatusMessage :
    text -> text -> Z -> option SessionEntry -> text -> option text ->
    option text -> text;
  (* agents/pi-embedded.ts *)
  queueEmbeddedPiMessage : text -> text -> bool;
  runEmbeddedPiAgent : RunParams -> Failure + RunResult;
  (* cron/isolated-agent.ts, after the last store write: the summary and
     the delivery through the channel adapters *)
  deliverCronResult :
    ClawdisConfig -> CronJob -> list ReplyPayload -> RunCronAgentTurnResult;
  (* Date.now() and crypto.randomUUID(): the i-th reading *)
  clock : nat -> Z;
  uuid : nat -> text }.

End Collab.

(** ** Effects

    A turn reads the clock, draws identifiers, writes the store, keeps the
    process-wide abort memory and calls collaborators.  [World] is what it
    can change; a computation is a function on it. *)

Module Effects.
Import Sessions Agent Collab.

Inductive Call : Type :=
| RunAgent (p : RunParams)
| QueueMessage (sessionId body : text)
| Restart.

Record World := {
  disk : gmap text SessionEntry;     (* the session store, as persisted *)
  abortMemory : gmap text bool;      (* [ABORT_MEMORY] *)
  ticks : nat;                       (* clock readings taken *)
  drawn : nat;                       (* identifiers drawn *)
  calls : list Call }.               (* calls made, latest first *)

Definition M (A : Type) : Type := World -> A * World.

Definition ret {A} (a : A) : M A := fun w => (a, w).

Definition bind {A B} (c : M A) (f : A -> M B) : M B :=
  fun w => let r := c w in f (fst r) (snd r).

Declare Scope turn_scope.
Delimit Scope turn_scope with turn.

Notation "'let*' x := c 'in' k" := (bind c (fun x => k))
  (at level 10, x name, c at level 100, k at level 200) : turn_scope.

Section Primitives.
Context {col : Collaborators}.

(** [Date.now()] *)
Definition Date_now : M Z := fun w =>
  (clock (ticks w),
   {| disk := disk w; abortMemory := abortMemory w; ticks := S (ticks w);
      drawn := drawn w; calls := calls w |}).

(** [crypto.randomUUID()] *)
Definition randomUUID : M text := fun w =>
  (uuid (drawn w),
   {| disk := disk w; abortMemory := abortMemory w; ticks := ticks w;
      drawn := S (drawn w); calls := calls w |}).

(** [loadSessionStore(storePath)] *)
Definition loadSessionStore : M (gmap text SessionEntry) :=
  fun w => (disk w, w).

(** [saveSessionStore(storePath, store)] *)
Definition saveSessionStore (st : gmap text SessionEntry) : M unit := fun w =>
  (tt,
   {| disk := st; abortMemory := abortMemory w; ticks := ticks w;
      drawn := drawn w; calls := calls w |}).

Definition abortMemory_get (key : text) : M (option bool) :=
  fun w => (abortMemory w !! key, w).

Definition abortMemory_set (key : text) (v : bool) : M unit := fun w =>
  (tt,
   {| disk := disk w; abortMemory := <[key := v]> (abortMemory w);
      ticks := ticks w; drawn := drawn w; calls := calls w |}).

Definition record_call (c : Call) : M unit := fun w =>
  (tt,
   {| disk := disk w; abortMemory := abortMemory w; ticks := ticks w;
      drawn := drawn w; calls := c :: calls w |}).

(** The three calls with an effect outside the store. *)
Definition call_agent (p : RunParams) : M (Failure + RunResult) :=
  bind (record_call (RunAgent p)) (fun _ => ret (runEmbeddedPiAgent p)).

Definition call_queue (sessionId body : text) : M bool :=
  bind (record_call (QueueMessage sessionId body))
       (fun _ => ret (queueEmbeddedPiMessage sessionId body)).

Definition triggerClawdisRestart : M unit := record_call Restart.

End Primitives.

(** Whether the agent engine was run in a world's history. *)
Definition is_run (c : Call) : bool :=
  match c with RunAgent _ => true | _ => false end.

Definition delegated (w : World) : bool := existsb is_run (calls w).

End Effects.

(** ** Inline directives (auto-reply/reply.ts) *)

Section Directives.
Import Text Regex Collab.
Context {col : Collaborators}.

(** [ThinkLevel] and [VerboseLevel] are unions of string literals; at run
    time a level is a string. *)
Definition ThinkLevel := text.
Definition VerboseLevel := text.

Definition level_char (c : N) : bool := is_alpha c || is_char "-" c.

(** [/(?:^|\s)\/(?:thinking|think|t)\s*:?\s*([a-zA-Z-]+)\b/i] *)
Definition think_re : re :=
  seqs [ Alt (Bol false) (Cls is_space);
         Chr (cu "/");
         Alt (LitI (str "thinking")) (Alt (LitI (str "think")) (LitI (str "t")));
         Star is_space; Opt (Chr (cu ":")); Star is_space;
         Grp (Plus level_char);
         WordB ].

(** [/(?:^|\s)\/(?:verbose|v)(?=$|\s|:)\s*:?\s*([a-zA-Z-]+)\b/i] *)
Definition verbose_re : re :=
  seqs [ Alt (Bol false) (Cls is_space);
         Chr (cu "/");
         Alt (LitI (str "verbose")) (LitI (str "v"));
         Ahead (Alt Eol (Alt (Cls is_space) (Chr (cu ":"))));
         Star is_space; Opt (Chr (cu ":")); Star is_space;
         Grp (Plus level_char);
         WordB ].

Record ThinkDirective := {
  think_cleaned : text;
  think_level : option ThinkLevel;
  think_rawLevel : option text;
  think_hasDirective : bool }.

Record VerboseDirective := {
  verbose_cleaned : text;
  verbose_level : option VerboseLevel;
  verbose_rawLevel : option text;
  verbose_hasDirective : bool }.

(** The cleaned text both extractors return for a body and a match. *)
Definition clean_directive (r : re) (body : text) : text :=
  match exec r body with
  | Some f => trim (collapse_ws (remove_first (matched body f) body))
  | None => trim body
  end.

Definition rawLevel_of (r : re) (body : text) : option text :=
  match exec r body with
  | Some f => group1 f
  | None => None
  end.

Definition has_match (r : re) (body : text) : bool :=
  match exec r body with Some _ => true | None => false end.

Definition extractThinkDirective (body : option text) : ThinkDirective :=
  match body with
  | None | Some [] =>
      {| think_cleaned := []; think_level := None; think_rawLevel := None;
         think_hasDirective := false |}
  | Some body =>
      {| think_cleaned := clean_directive think_re body;
         think_level := normalizeThinkLevel (rawLevel_of think_re body);
         think_rawLevel := rawLevel_of think_re body;
         think_hasDirective := has_match think_re body |}
  end.

Definition extractVerboseDirective (body : option text) : VerboseDirective :=
  match body with
  | None | Some [] =>
      {| verbose_cleaned := []; verbose_level := None; verbose_rawLevel := None;
         verbose_hasDirective := false |}
  | Some body =>
      {| verbose_cleaned := clean_directive verbose_re body;
         verbose_level := normalizeVerboseLevel (rawLevel_of verbose_re body);
         verbose_rawLevel := rawLevel_of verbose_re body;
         verbose_hasDirective := has_match verbose_re body |}
  end.

(** How often the slash occurs in a body. *)
Definition slashes (body : text) : nat := count_occ N.eq_dec body (cu "/").

(** *** Vocabulary of the statements about directives *)

(** The keywords of the two directive expressions. *)
Definition think_keywords : list text := [str "thinking"; str "think"; str "t"].
Definition verbose_keywords : list text := [str "verbose"; str "v"].

(** What stands between a keyword and its level: white space, or white
    space with one colon in it. *)
Definition separator (sep : text) : Prop :=
  (blank sep /\ sep <> [])
  \/ exists ws1 ws2, blank ws1 /\ blank ws2 /\ sep = ws1 ++ str ":" ++ ws2.

(** A separator starts with white space or with the colon. *)
Definition sep_char (c : N) : Prop := is_space c = true \/ c = cu ":".

(** A level token: letters, at least one. *)
Definition level_token (level : text) : Prop :=
  level <> [] /\ Forall (fun c => is_alpha c = true) level.

(** A body that is one directive and nothing else: the slash, a keyword,
    a separator, a level token, and at most white space after it. *)
Definition lone_directive (keywords : list text) (level body : text) : Prop :=
  exists kw sep trail,
    In kw keywords /\ separator sep /\ level_token level /\ blank trail
    /\ body = str "/" ++ kw ++ sep ++ level ++ trail.

(** How often a slash is directly followed by the letter [c], in either
    case: the places where a directive whose keywords start with [c] can
    start. *)
Fixpoint marks (c : N) (s : text) : nat :=
  match s with
  | [] => 0
  | x :: s' =>
      (if (x =? cu "/")%N && match s' with y :: _ => ci c y | [] => false end
       then 1 else 0) + marks c s'
  end.

(** A keyword as written in a message: letters, the first one [c]. *)
Definition keyword (c : N) (kw : text) : Prop :=
  (exists y rest, kw = y :: rest /\ ci c y = true)
  /\ Forall (fun x => is_alpha x = true) kw.

(** The start of the text or white space before the slash. *)
Definition lead_ok (before : text) : Prop :=
  before = [] \/ exists b x, before = b ++ [x] /\ is_space x = true.

(** No longer level ends at a word boundary. *)
Definition maximal_level (post : text) : Prop :=
  forall x y, post = x ++ y -> x <> [] ->
    Forall (fun c => level_char c = true) x -> boundary (prev None x) y = false.

(** A directive read at the start of [s], [n] code units long. *)
Definition directive_here (c : N) (pv : option N) (s : text) (n : nat) : Prop :=
  exists l kw sep level post,
    s = l ++ cu "/" :: kw ++ sep ++ level ++ post
    /\ n = length (l ++ cu "/" :: kw ++ sep ++ level)
    /\ (l = [] /\ pv = None \/ exists x, l = [x] /\ is_space x = true)
    /\ keyword c kw /\ Forall sep_char sep
    /\ level <> [] /\ Forall (fun x => level_char x = true) level
    /\ boundary (prev None level) post = true
    /\ maximal_level post.

(** A directive somewhere in [s]. *)
Definition holds_directive (c : N) (s : text) : Prop :=
  exists before kw sep level post,
    s = before ++ cu "/" :: kw ++ sep ++ level ++ post
    /\ lead_ok before
    /\ keyword c kw /\ Forall sep_char sep
    /\ level <> [] /\ Forall (fun x => level_char x = true) level
    /\ boundary (prev None level) post = true.

End Directives.

(** ** Text helpers of the reply entry point *)

Section ReplyText.
Import Text Regex Config.

Definition ABORT_TRIGGERS : list text :=
  [str "stop"; str "esc"; str "abort"; str "wait"; str "exit"].

Definition BARE_SESSION_RESET_PROMPT : text :=
  str "A new session was started via /new or /reset. Say hi briefly (1-2 sentences) and ask what the user wants to do next. Do not mention internal steps, files, tools, or reasoning.".

Definition mem (x : text) (l : list text) : bool := existsb (Text.eqb x) l.

Definition isAbortTrigger (t : option text) : bool :=
  match t with
  | None | Some [] => false
  | Some t => mem (toLowerCase (trim t)) ABORT_TRIGGERS
  end.

Definition current_marker : text := str "[Current message - respond to this]".

(** [/\[[^\]]+\]\s*/g] *)
Definition bracket_re : re :=
  seqs [ Chr (cu "["); Plus (fun c => negb (is_char "]" c)); Chr (cu "]"); Star is_space ].

Definition label_char (c : N) : bool :=
  is_alpha c || is_digit c || is_char "+" c || is_char "(" c || is_char ")" c
  || is_char "-" c || is_char "_" c || is_char "." c || is_char " " c.

(** [/^[ \t]*[A-Za-z0-9+()\-_. ]+:\s*/gm] *)
Definition label_re : re :=
  seqs [ Bol true; Star (fun c => is_char " " c || (c =? 9)%N);
         Plus label_char; Chr (cu ":"); Star is_space ].

Definition stripStructuralPrefixes (t : text) : text :=
  let afterMarker :=
    match indexOf t current_marker with
    | Some i => slice_from (i + length current_marker) t
    | None => t
    end in
  trim (collapse_ws (replace_all label_re [] (replace_all bracket_re [] afterMarker))).

(** [/^whatsapp:/] *)
Definition whatsapp_prefix_re : re := Seq (Bol false) (Lit (str "whatsapp:")).

Definition strip_whatsapp (t : text) : text := replace_first whatsapp_prefix_re [] t.

Definition mention_digit (c : N) : bool := is_digit c || is_char "+" c.

(** [/@[0-9+]{5,}/g] *)
Definition generic_mention_re : re :=
  seqs [ Chr (cu "@"); Cls mention_digit; Cls mention_digit; Cls mention_digit;
         Cls mention_digit; Cls mention_digit; Star mention_digit ].

Definition apply_patterns (patterns : list (option re)) (t : text) : text :=
  fold_left (fun acc p => match p with
                          | Some r => replace_all r (str " ") acc
                          | None => acc
                          end) patterns t.

Definition stripMentions (t : text) (ctx : MsgContext) (cfg : ClawdisConfig) : text :=
  let patterns :=
    default [] (groupChat_opt mentionPatterns cfg) in
  let result := apply_patterns patterns t in
  let selfE164 := strip_whatsapp (default [] (To ctx)) in
  let result :=
    if truthy selfE164
    then replace_all (Seq (Chr (cu "@")) (LitI selfE164)) (str " ")
           (replace_all (LitI selfE164) (str " ") result)
    else result in
  trim (collapse_ws (replace_all generic_mention_re (str " ") result)).

End ReplyText.

(** ** Freshness (both turn paths) *)

Section Freshness.
Import Sessions Config Collab.
Context {col : Collaborators}.

(** [Math.max(sessionCfg?.idleMinutes ?? DEFAULT_IDLE_MINUTES, 1) * 60_000] *)
Definition idleMs_of (cfg : ClawdisConfig) : Z :=
  Z.max (default DEFAULT_IDLE_MINUTES (session_opt idleMinutes cfg)) 1 * 60000.

(** [entry && now - entry.updatedAt <= idleMs] *)
Definition is_fresh (entry : option SessionEntry) (now idleMs : Z) : bool :=
  match entry with
  | Some e => now - updatedAt e <=? idleMs
  | None => false
  end.

End Freshness.

(** ** The scheduled turn (cron/isolated-agent.ts) *)

Module Cron.
Import Text Sessions Config Agent Collab Effects ModelSelection.
Local Open Scope turn_scope.

Section WithCollaborators.
Context {col : Collaborators}.

Record CronSession := {
  cron_store : gmap text SessionEntry;
  cron_sessionEntry : SessionEntry;
  cron_systemSent : bool;
  cron_isNewSession : bool }.

Definition resolveCronSession (cfg : ClawdisConfig) (sessionKey : text)
    (nowMs : Z) : M CronSession :=
  let idleMs := idleMs_of cfg in
  let* store := loadSessionStore in
  let entry := store !! sessionKey in
  let fresh := is_fresh entry nowMs idleMs in
  let* sessionId := match entry with
               | Some e => if fresh then ret (sessionId e) else randomUUID
               | None => randomUUID
               end in
  let systemSent :=
    if fresh then default false (entry ≫= Sessions.systemSent) else false in
  let sessionEntry :=
    {| sessionId := sessionId;
       updatedAt := nowMs;
       systemSent := Some systemSent;
       abortedLastRun := None;
       thinkingLevel := entry ≫= thinkingLevel;
       verboseLevel := entry ≫= verboseLevel;
       modelOverride := None;
       providerOverride := None;
       groupActivation := None;
       groupActivationNeedsSystemIntro := None;
       inputTokens := None;
       outputTokens := None;
       totalTokens := None;
       contextTokens := entry ≫= contextTokens;
       Sessions.model := entry ≫= Sessions.model;
       skillsSnapshot := None;
       lastChannel := entry ≫= lastChannel;
       lastTo := entry ≫= lastTo |} in
  ret {| cron_store := store; cron_sessionEntry := sessionEntry;
         cron_systemSent := systemSent; cron_isNewSession := negb fresh |}.

(** [store[key] = entry; await saveSessionStore(storePath, store)] *)
Definition put_and_save (store : gmap text SessionEntry) (key : text)
    (e : SessionEntry) : M (gmap text SessionEntry) :=
  let store' := <[key := e]> store in
  let* _ := saveSessionStore store' in ret store'.

(** The token counters written after a run. *)
Definition apply_usage (u : Usage) (e : SessionEntry) : SessionEntry :=
  let input := default 0 (usage_input u) in
  let output := default 0 (usage_output u) in
  let promptTokens := input + default 0 (cacheRead u) + default 0 (cacheWrite u) in
  set_totalTokens
    (Some (if 0 <? promptTokens then promptTokens else default input (usage_total u)))
    (set_outputTokens (Some output) (set_inputTokens (Some input) e)).

Definition cron_prompt (job : CronJob) (message : text) : text :=
  trim (str "[cron:" ++ job_id job ++ str " " ++ job_name job ++ str "] " ++ message).

Definition runCronIsolatedAgentTurn (cfg : ClawdisConfig) (job : CronJob)
    (message sessionKey : text) (lane : option text)
  : M RunCronAgentTurnResult :=
  let ref :=
    resolveConfiguredModelRef (agent_opt agent_provider cfg)
      (agent_opt agent_model cfg) DEFAULT_PROVIDER DEFAULT_MODEL in
  let* now := Date_now in
  let* cronSession := resolveCronSession cfg sessionKey now in
  let isFirstTurnInSession :=
    cron_isNewSession cronSession || negb (cron_systemSent cronSession) in
  let thinkOverride := normalizeThinkLevel (agent_opt thinkingDefault cfg) in
  let jobThink :=
    normalizeThinkLevel
      match job_payload job with
      | AgentTurn thinking _ _ _ _ _ => thinking
      | OtherPayload => None
      end in
  let thinkLevel :=
    match jobThink with Some l => Some l | None => thinkOverride end in
  let timeoutSecondsRaw :=
    match job_payload job with
    | AgentTurn _ (Some t) _ _ _ _ =>
        if t =? 0 then default 600 (agent_opt timeoutSeconds cfg) else t
    | _ => default 600 (agent_opt timeoutSeconds cfg)
    end in
  let timeoutMs := Z.max timeoutSecondsRaw 1 * 1000 in
  let commandBody := cron_prompt job message in
  let entry0 := cron_sessionEntry cronSession in
  let store0 := cron_store cronSession in
  let needsSkillsSnapshot :=
    cron_isNewSession cronSession
    || negb (bool_decide (is_Some (skillsSnapshot entry0))) in
  let skills :=
    if needsSkillsSnapshot then buildWorkspaceSkillSnapshot cfg
    else skillsSnapshot entry0 in
  let* es1 := (if needsSkillsSnapshot && bool_decide (is_Some skills) then
            let* t := Date_now in
            let e := set_skillsSnapshot skills (set_updatedAt t entry0) in
            let* store' := put_and_save store0 sessionKey e in
            ret (e, store')
          else ret (entry0, store0)) in
  let entry1 := fst es1 in
  let store1 := snd es1 in
  (* Persist systemSent before the run. *)
  let entry2 :=
    if isFirstTurnInSession then set_systemSent (Some true) entry1 else entry1 in
  let* store2 := put_and_save store1 sessionKey entry2 in
  let* outcome := call_agent
    {| run_sessionId := sessionId entry2;
       run_sessionKey := sessionKey;
       run_skillsSnapshot := skills;
       prompt := commandBody;
       extraSystemPrompt := None;
       ownerNumbers := None;
       enforceFinalTag := None;
       lane := Some (default (str "cron") lane);
       run_provider := provider ref;
       run_model := ModelSelection.model ref;
       run_thinkLevel := thinkLevel;
       run_verboseLevel :=
         match verboseLevel entry2 with
         | Some v => Some v
         | None => agent_opt verboseDefault cfg
         end;
       timeoutMs := timeoutMs;
       runId := sessionId entry2 |} in
  match outcome with
  | inl err =>
      ret {| status := StatusError; summary := None; error := Some err |}
  | inr runResult =>
      let payloads := default [] (Agent.payloads runResult) in
      (* Update token+model fields in the session store. *)
      let modelUsed :=
        default (ModelSelection.model ref) (agentMeta runResult ≫= meta_model) in
      let ctxTokens :=
        match agent_opt agent_contextTokens cfg with
        | Some c => c
        | None => default DEFAULT_CONTEXT_TOKENS (lookupContextTokens modelUsed)
        end in
      let entry3 :=
        set_contextTokens (Some ctxTokens) (set_model (Some modelUsed) entry2) in
      let entry4 :=
        match agentMeta runResult ≫= usage with
        | Some u => apply_usage u entry3
        | None => entry3
        end in
      let* _ := put_and_save store2 sessionKey entry4 in
      ret (deliverCronResult cfg job payloads)
  end.

(** The fields a scheduled turn never carries over. *)
Definition dropped_fields_absent (e : SessionEntry) : Prop :=
  modelOverride e = None /\ providerOverride e = None
  /\ abortedLastRun e = None /\ groupActivation e = None.

(** The fields it copies from the previous record and never touches. *)
Definition kept_fields (old : option SessionEntry) (e : SessionEntry) : Prop :=
  thinkingLevel e = old ≫= thinkingLevel
  /\ verboseLevel e = old ≫= verboseLevel
  /\ lastChannel e = old ≫= lastChannel
  /\ lastTo e = old ≫= lastTo.

Definition configured_ref (cfg : ClawdisConfig) : ModelRef :=
  resolveConfiguredModelRef (agent_opt agent_provider cfg)
    (agent_opt agent_model cfg) DEFAULT_PROVIDER DEFAULT_MODEL.

(** The record keeps both groups of fields through the writes of the turn. *)
Definition cron_shape (old : option SessionEntry) (e : SessionEntry) : Prop :=
  dropped_fields_absent e /\ kept_fields old e.

End WithCollaborators.
End Cron.

(** *** The summary and the delivery target of a scheduled turn *)

Module CronDelivery.
Import Text Sessions Config Agent Collab Effects.
Local Open Scope turn_scope.

Section WithCollaborators.
Context {col : Collaborators}.

Definition SUMMARY_LIMIT : nat := 2000.

(** What the template appends after the cut: the three code units the
    source file holds there. *)
Definition SUMMARY_TAIL : text := [226%N; 8364%N; 166%N].

Definition pickSummaryFromOutput (t : option text) : option text :=
  let clean := trim (default [] t) in
  if negb (truthy clean) then None
  else if (SUMMARY_LIMIT <? length clean)%nat
  then Some (slice_to SUMMARY_LIMIT clean ++ SUMMARY_TAIL)
  else Some clean.

(** The loop from the last payload down to the first; the argument is the
    list of payloads not yet visited, last first. *)
Fixpoint pickSummary_down (visited_last_first : list ReplyPayload) : option text :=
  match visited_last_first with
  | [] => None
  | p :: rest =>
      match pickSummaryFromOutput (payload_text p) with
      | Some summary =>
          if truthy summary then Some summary else pickSummary_down rest
      | None => pickSummary_down rest
      end
  end.

Definition pickSummaryFromPayloads (payloads : list ReplyPayload) : option text :=
  pickSummary_down (rev payloads).

Record DeliveryTarget := {
  target_channel : text;
  target_to : option text }.

(** [rawAllow.map((val) => normalizeE164(val)).filter((val) => val.length > 1)] *)
Definition normalizedAllowFrom (rawAllow : list text) : list text :=
  List.filter (fun val => (1 <? length val)%nat) (map normalizeE164 rawAllow).

Definition sanitizedWhatsappTo (cfg : ClawdisConfig) (channel : text)
    (to : option text) : option text :=
  if negb (Text.eqb channel (str "whatsapp")) then to
  else
    let rawAllow := default [] (routing_opt allowFrom cfg) in
    if existsb (Text.eqb (str "*")) rawAllow then to
    else
      match normalizedAllowFrom rawAllow with
      | [] => to
      | first :: rest =>
          match to with
          | None => Some first
          | Some t =>
              let normalized := normalizeE164 t in
              if existsb (Text.eqb normalized) (first :: rest)
              then Some normalized else Some first
          end
      end.

(** [channel] and [to] are the fields of the job payload. *)
Definition resolveDeliveryTarget (cfg : ClawdisConfig) (channel to : option text)
  : M DeliveryTarget :=
  let requestedChannel := default (str "last") channel in
  let explicitTo :=
    match to with
    | Some t => if truthy (trim t) then Some (trim t) else None
    | None => None
    end in
  let mainKey :=
    let k := trim (default (str "main") (session_opt mainKey cfg)) in
    if truthy k then k else str "main" in
  let* store := loadSessionStore in
  let main := store !! mainKey in
  let lastChannel :=
    match main ≫= lastChannel with
    | Some c => if truthy c && negb (Text.eqb c (str "webchat")) then Some c else None
    | None => None
    end in
  let lastTo := match main ≫= lastTo with Some t => trim t | None => [] end in
  let channel :=
    if Text.eqb requestedChannel (str "whatsapp")
       || Text.eqb requestedChannel (str "telegram")
    then requestedChannel
    else default (str "whatsapp") lastChannel in
  let to :=
    match explicitTo with
    | Some t => Some t
    | None => if truthy lastTo then Some lastTo else None
    end in
  ret {| target_channel := channel;
         target_to :=
           if Text.eqb channel (str "whatsapp")
           then sanitizedWhatsappTo cfg channel to else to |}.

End WithCollaborators.
End CronDelivery.

(** ** The reply entry point (auto-reply/reply.ts)

    Left out of the model: the typing-indicator callbacks, logging, the
    streaming callbacks handed to the agent engine and the bootstrap of the
    workspace directory.  None of them reads or writes the session store or
    changes the reply.

    After session initialisation [sessionEntry] and [sessionStore] are always
    defined, so a guard [sessionEntry && sessionStore && sessionKey] holds
    exactly when the key is a non-empty string. *)

Module Reply.
Import Text Regex Sessions Config Agent Collab Effects ModelSelection.
Local Open Scope turn_scope.

(** What the entry point resolves to: one payload, a list of payloads, or
    nothing. *)
Inductive ReplyValue : Type :=
| Single (p : ReplyPayload)
| Several (ps : list ReplyPayload).

(** The promise of the entry point: rejected, or resolved with a value or
    with [undefined]. *)
Definition Outcome : Type := Failure + option ReplyValue.

Definition reply_text (t : text) : Outcome := inr (Some (Single (text_payload t))).
Definition no_reply : Outcome := inr None.

(** A stage of the turn either ends it or hands over to the next one. *)
Definition Stage (A : Type) : Type := M (Outcome + A).

Definition finish {A} (o : Outcome) : Stage A := ret (inl o).
Definition continue {A} (a : A) : Stage A := ret (inr a).

Definition and_then {A B} (c : Stage A) (f : A -> Stage B) : Stage B :=
  let* r := c in
  match r with
  | inl o => ret (inl o)
  | inr a => f a
  end.

Section WithCollaborators.
Context {col : Collaborators}.

(** *** Reset triggers *)

(** The loop over the reset triggers: whether one matched and, if so, the
    body that is left. *)
Fixpoint scanResetTriggers (triggers : list text)
    (trimmedBody strippedForReset : text) : bool * option text :=
  match triggers with
  | [] => (false, None)
  | trigger :: rest =>
      if negb (truthy trigger)
      then scanResetTriggers rest trimmedBody strippedForReset
      else if Text.eqb trimmedBody trigger || Text.eqb strippedForReset trigger
      then (true, Some [])
      else
        let triggerPrefix := trigger ++ str " " in
        if startsWith trimmedBody triggerPrefix
           || startsWith strippedForReset triggerPrefix
        then (true, Some (trimStart (slice_from (length trigger) strippedForReset)))
        else scanResetTriggers rest trimmedBody strippedForReset
  end.

Definition resetTriggers_of (cfg : ClawdisConfig) : list text :=
  match session_opt resetTriggers cfg with
  | Some (t :: ts) => t :: ts
  | _ => DEFAULT_RESET_TRIGGERS
  end.

Definition isGroup_of (ctx : MsgContext) : bool :=
  match From ctx with
  | Some f => includes f (str "@g.us") || startsWith f (str "group:")
  | None => false
  end.

Definition triggerBodyNormalized_of (ctx : MsgContext) : text :=
  toLowerCase (trim (stripStructuralPrefixes (default [] (Body ctx)))).

Definition strippedForReset_of (ctx : MsgContext) (cfg : ClawdisConfig) : text :=
  if isGroup_of ctx
  then stripMentions (triggerBodyNormalized_of ctx) ctx cfg
  else triggerBodyNormalized_of ctx.

Definition resolveReset (ctx : MsgContext) (cfg : ClawdisConfig)
  : bool * option text :=
  scanResetTriggers (resetTriggers_of cfg) (trim (default [] (Body ctx)))
    (strippedForReset_of ctx cfg).

(** *** Session initialisation *)

Record SessionInit := {
  init_sessionKey : text;
  init_sessionStore : gmap text SessionEntry;
  init_sessionEntry : SessionEntry;
  init_sessionId : text;
  init_isNewSession : bool;
  init_systemSent : bool;
  init_abortedLastRun : bool }.

(** [entry && Date.now() - entry.updatedAt <= idleMs]: the clock is read
    only when there is a record. *)
Definition freshEntry_of (entry : option SessionEntry) (idleMs : Z) : M bool :=
  match entry with
  | Some e => let* now := Date_now in ret (is_fresh (Some e) now idleMs)
  | None => ret false
  end.

Definition sessionKey_of (ctx : MsgContext) (cfg : ClawdisConfig) : text :=
  resolveSessionKey (default (str "per-sender") (session_opt scope cfg)) ctx
    (default (str "main") (session_opt mainKey cfg)).

(** [{ ...baseEntry, sessionId, updatedAt }] *)
Definition spread_base (baseEntry : option SessionEntry) (id : text) (now : Z)
  : SessionEntry :=
  match baseEntry with
  | Some e => set_updatedAt now (set_sessionId id e)
  | None => bare id now
  end.

(** From the lookup of the record to the first write of the store;
    [isNewSession] is the flag the reset triggers left. *)
Definition initSession (ctx : MsgContext) (cfg : ClawdisConfig)
    (isNewSession : bool) : M SessionInit :=
  let sessionKey := sessionKey_of ctx cfg in
  let* sessionStore := loadSessionStore in
  let entry := sessionStore !! sessionKey in
  let idleMs := idleMs_of cfg in
  let* freshEntry := freshEntry_of entry idleMs in
  let reuse := negb isNewSession && freshEntry in
  let baseEntry := if reuse then entry else None in
  let* sessionId :=
    match baseEntry with
    | Some e => ret (sessionId e)
    | None => randomUUID
    end in
  let systemSent := default false (baseEntry ≫= Sessions.systemSent) in
  let abortedLastRun := default false (baseEntry ≫= Sessions.abortedLastRun) in
  let* now := Date_now in
  let sessionEntry :=
    set_abortedLastRun (Some abortedLastRun)
      (set_systemSent (Some systemSent) (spread_base baseEntry sessionId now)) in
  let store' := <[sessionKey := sessionEntry]> sessionStore in
  let* _ := saveSessionStore store' in
  ret {| init_sessionKey := sessionKey; init_sessionStore := store';
         init_sessionEntry := sessionEntry;
         init_sessionId := sessionId;
         init_isNewSession := negb reuse;
         init_systemSent := systemSent;
         init_abortedLastRun := abortedLastRun |}.

(** *** The state of a turn *)

Record Turn := {
  t_ctx : MsgContext;                 (* with the transcript as body, if any *)
  t_transcribedText : option text;
  t_defaultProvider : text;
  t_defaultModel : text;
  t_sessionKey : text;
  t_sessionStore : gmap text SessionEntry;
  t_sessionEntry : SessionEntry;
  t_sessionId : text;
  t_isNewSession : bool;
  t_systemSent : bool;
  t_abortedLastRun : bool;
  t_think : ThinkDirective;
  t_verbose : VerboseDirective;
  t_modelDirective : ModelDirective;
  t_resolvedThinkLevel : option text;
  t_resolvedVerboseLevel : option text;
  t_allowedModelKeys : gset text;
  t_allowedModelCatalog : list ModelCatalogEntry;
  t_resetModelOverride : bool;
  t_provider : text;
  t_model : text;
  t_contextTokens : Z }.

(** The record and the store after a write; the rest of the state stays. *)
Definition with_session (e : SessionEntry) (st : gmap text SessionEntry)
    (t : Turn) : Turn :=
  {| t_ctx := t_ctx t; t_transcribedText := t_transcribedText t;
     t_defaultProvider := t_defaultProvider t; t_defaultModel := t_defaultModel t;
     t_sessionKey := t_sessionKey t; t_sessionStore := st; t_sessionEntry := e;
     t_sessionId := t_sessionId t; t_isNewSession := t_isNewSession t;
     t_systemSent := t_systemSent t; t_abortedLastRun := t_abortedLastRun t;
     t_think := t_think t; t_verbose := t_verbose t;
     t_modelDirective := t_modelDirective t;
     t_resolvedThinkLevel := t_resolvedThinkLevel t;
     t_resolvedVerboseLevel := t_resolvedVerboseLevel t;
     t_allowedModelKeys := t_allowedModelKeys t;
     t_allowedModelCatalog := t_allowedModelCatalog t;
     t_resetModelOverride := t_resetModelOverride t;
     t_provider := t_provider t; t_model := t_model t;
     t_contextTokens := t_contextTokens t |}.

(** [resetModelOverride = true] *)
Definition mark_override_reset (t : Turn) : Turn :=
  {| t_ctx := t_ctx t; t_transcribedText := t_transcribedText t;
     t_defaultProvider := t_defaultProvider t; t_defaultModel := t_defaultModel t;
     t_sessionKey := t_sessionKey t; t_sessionStore := t_sessionStore t;
     t_sessionEntry := t_sessionEntry t;
     t_sessionId := t_sessionId t; t_isNewSession := t_isNewSession t;
     t_systemSent := t_systemSent t; t_abortedLastRun := t_abortedLastRun t;
     t_think := t_think t; t_verbose := t_verbose t;
     t_modelDirective := t_modelDirective t;
     t_resolvedThinkLevel := t_resolvedThinkLevel t;
     t_resolvedVerboseLevel := t_resolvedVerboseLevel t;
     t_allowedModelKeys := t_allowedModelKeys t;
     t_allowedModelCatalog := t_allowedModelCatalog t;
     t_resetModelOverride := true;
     t_provider := t_provider t; t_model := t_model t;
     t_contextTokens := t_contextTokens t |}.

Definition with_model (p mdl : text) (c : Z) (t : Turn) : Turn :=
  {| t_ctx := t_ctx t; t_transcribedText := t_transcribedText t;
     t_defaultProvider := t_defaultProvider t; t_defaultModel := t_defaultModel t;
     t_sessionKey := t_sessionKey t; t_sessionStore := t_sessionStore t;
     t_sessionEntry := t_sessionEntry t;
     t_sessionId := t_sessionId t; t_isNewSession := t_isNewSession t;
     t_systemSent := t_systemSent t; t_abortedLastRun := t_abortedLastRun t;
     t_think := t_think t; t_verbose := t_verbose t;
     t_modelDirective := t_modelDirective t;
     t_resolvedThinkLevel := t_resolvedThinkLevel t;
     t_resolvedVerboseLevel := t_resolvedVerboseLevel t;
     t_allowedModelKeys := t_allowedModelKeys t;
     t_allowedModelCatalog := t_allowedModelCatalog t;
     t_resetModelOverride := t_resetModelOverride t;
     t_provider := p; t_model := mdl; t_contextTokens := c |}.

(** [sessionEntry.updatedAt = Date.now(); sessionStore[sessionKey] =
    sessionEntry; await saveSessionStore(storePath, sessionStore)] *)
Definition touch_and_save (e : SessionEntry) (t : Turn) : M Turn :=
  let* now := Date_now in
  let e' := set_updatedAt now e in
  let store' := <[t_sessionKey t := e']> (t_sessionStore t) in
  let* _ := saveSessionStore store' in
  ret (with_session e' store' t).

(** [agentCfg?.contextTokens ?? lookupContextTokens(model) ??
    DEFAULT_CONTEXT_TOKENS] *)
Definition contextTokens_for (cfg : ClawdisConfig) (mdl : text) : Z :=
  match agent_opt agent_contextTokens cfg with
  | Some c => c
  | None => default DEFAULT_CONTEXT_TOKENS (lookupContextTokens mdl)
  end.

(** [x?.trim()] *)
Definition opt_trim (o : option text) : option text := trim <$> o.

(** [a || b] on strings *)
Definition or_else (a : option text) (b : text) : text :=
  match a with
  | Some x => if truthy x then x else b
  | None => b
  end.

Definition inlineThink (t : Turn) : option text := think_level (t_think t).
Definition inlineVerbose (t : Turn) : option text := verbose_level (t_verbose t).
Definition hasThinkDirective (t : Turn) : bool := think_hasDirective (t_think t).
Definition hasVerboseDirective (t : Turn) : bool := verbose_hasDirective (t_verbose t).
Definition hasModelDirective (t : Turn) : bool := model_hasDirective (t_modelDirective t).
Definition rawModelDirective (t : Turn) : option text := rawModel (t_modelDirective t).
Definition modelCleaned (t : Turn) : text := model_cleaned (t_modelDirective t).

(** [a ?? b ?? c] *)
Definition first_of (a b c : option text) : option text :=
  match a with
  | Some x => Some x
  | None => match b with Some y => Some y | None => c end
  end.

(** *** Opening a turn: transcription, session, directives, model *)

(** The check of a stored override against the allowed set, clearing it
    when it is not listed. *)
Definition validateStoredOverride (t : Turn) : M Turn :=
  let e := t_sessionEntry t in
  let hasStoredOverride :=
    truthy_opt (modelOverride e) || truthy_opt (providerOverride e) in
  if truthy (t_sessionKey t) && hasStoredOverride then
    let overrideProvider :=
      or_else (opt_trim (providerOverride e)) (t_defaultProvider t) in
    match opt_trim (modelOverride e) with
    | Some overrideModel =>
        if truthy overrideModel then
          let key := modelKey overrideProvider overrideModel in
          if negb (bool_decide (size (t_allowedModelKeys t) = 0%nat))
             && negb (bool_decide (key ∈ t_allowedModelKeys t))
          then
            let* t' :=
              touch_and_save
                (set_modelOverride None (set_providerOverride None e)) t in
            ret (mark_override_reset t')
          else ret t
        else ret t
    | None => ret t
    end
  else ret t.

(** The provider and model a stored override selects, when it is allowed. *)
Definition applyStoredOverride (cfg : ClawdisConfig) (t : Turn) : Turn :=
  let e := t_sessionEntry t in
  let storedProviderOverride := opt_trim (providerOverride e) in
  let pm :=
    match opt_trim (modelOverride e) with
    | Some storedModelOverride =>
        if truthy storedModelOverride then
          let candidateProvider :=
            or_else storedProviderOverride (t_defaultProvider t) in
          let key := modelKey candidateProvider storedModelOverride in
          if bool_decide (size (t_allowedModelKeys t) = 0%nat)
             || bool_decide (key ∈ t_allowedModelKeys t)
          then (candidateProvider, storedModelOverride)
          else (t_provider t, t_model t)
        else (t_provider t, t_model t)
    | None => (t_provider t, t_model t)
    end in
  with_model (fst pm) (snd pm) (contextTokens_for cfg (snd pm)) t.

Definition openTurn (ctx0 : MsgContext) (cfg : ClawdisConfig) : Stage Turn :=
  let ref :=
    resolveConfiguredModelRef (agent_opt agent_provider cfg)
      (agent_opt agent_model cfg) DEFAULT_PROVIDER DEFAULT_MODEL in
  let defaultProvider := provider ref in
  let defaultModel := model ref in
  (* Optional audio transcription before templating/session handling. *)
  let transcription :=
    if default false (transcribeAudio <$> routing cfg) && isAudio (MediaType ctx0)
    then transcribeInboundAudio cfg ctx0
    else inr None in
  match transcription with
  | inl failure => finish (inl failure)
  | inr transcribed =>
      let transcribedText :=
        if truthy_opt transcribed then transcribed else None in
      let ctx :=
        match transcribedText with
        | Some tx => set_Body (Some tx) ctx0
        | None => ctx0
        end in
      let reset := resolveReset ctx cfg in
      let bodyStripped := snd reset in
      let* init := initSession ctx cfg (fst reset) in
      let body :=
        match bodyStripped with
        | Some b => b
        | None => default [] (Body ctx)
        end in
      let think := extractThinkDirective (Some body) in
      let verbose := extractVerboseDirective (Some (think_cleaned think)) in
      let modelDirective := extractModelDirective (Some (verbose_cleaned verbose)) in
      let e := init_sessionEntry init in
      let hasAllowlist :=
        negb (bool_decide
                (length (default [] (agent_opt allowedModels cfg)) = 0%nat)) in
      let hasStoredOverride :=
        truthy_opt (modelOverride e) || truthy_opt (providerOverride e) in
      let needsModelCatalog :=
        model_hasDirective modelDirective || hasAllowlist || hasStoredOverride in
      let allowed :=
        buildAllowedModelSet (agent_opt allowedModels cfg)
          (loadModelCatalog cfg) defaultProvider in
      let t0 :=
        {| t_ctx := ctx; t_transcribedText := transcribedText;
           t_defaultProvider := defaultProvider; t_defaultModel := defaultModel;
           t_sessionKey := init_sessionKey init;
           t_sessionStore := init_sessionStore init;
           t_sessionEntry := e;
           t_sessionId := init_sessionId init;
           t_isNewSession := init_isNewSession init;
           t_systemSent := init_systemSent init;
           t_abortedLastRun := init_abortedLastRun init;
           t_think := think; t_verbose := verbose;
           t_modelDirective := modelDirective;
           t_resolvedThinkLevel :=
             first_of (think_level think) (thinkingLevel e)
               (agent_opt thinkingDefault cfg);
           t_resolvedVerboseLevel :=
             first_of (verbose_level verbose) (verboseLevel e)
               (agent_opt verboseDefault cfg);
           t_allowedModelKeys :=
             if needsModelCatalog then allowedKeys allowed else ∅;
           t_allowedModelCatalog :=
             if needsModelCatalog then allowedCatalog allowed else [];
           t_resetModelOverride := false;
           t_provider := defaultProvider; t_model := defaultModel;
           t_contextTokens := contextTokens_for cfg defaultModel |} in
      let* t1 := validateStoredOverride t0 in
      continue (applyStoredOverride cfg t1)
  end.

(** *** Directives: the pure-command turn and inline persistence *)

Definition dquote : text := [34%N].
Definition newline : text := [10%N].

(** "⚙️" *)
Definition SYSTEM_MARK : text := [9881%N; 65039%N].

Definition directiveOnly (cfg : ClawdisConfig) (t : Turn) : bool :=
  if negb (hasThinkDirective t || hasVerboseDirective t || hasModelDirective t)
  then false
  else
    let stripped := stripStructuralPrefixes (modelCleaned t) in
    let noMentions :=
      if isGroup_of (t_ctx t) then stripMentions stripped (t_ctx t) cfg
      else stripped in
    bool_decide (length noMentions = 0%nat).

(** " — " *)
Definition name_separator : text := [32%N; 8212%N; 32%N].

Definition model_line (entry : ModelCatalogEntry) : text :=
  let label := entry_provider entry ++ str "/" ++ entry_id entry in
  let suffix :=
    match entry_name entry with
    | Some name =>
        if truthy name && negb (Text.eqb name (entry_id entry))
        then name_separator ++ name else []
    | None => []
    end in
  str "- " ++ label ++ suffix.

(** The listing a bare [/model] is answered with. *)
Definition models_listing (t : Turn) : text :=
  let current := t_provider t ++ str "/" ++ t_model t in
  let defaultLabel := t_defaultProvider t ++ str "/" ++ t_defaultModel t in
  let header :=
    if Text.eqb current defaultLabel
    then str "Models (current: " ++ current ++ str "):"
    else str "Models (current: " ++ current ++ str ", default: "
           ++ defaultLabel ++ str "):" in
  join newline
    ([header]
     ++ (if t_resetModelOverride t
         then [str "(previous selection reset to default)"] else [])
     ++ map model_line (t_allowedModelCatalog t)).

Definition unrecognized_think (t : Turn) : text :=
  str "Unrecognized thinking level " ++ dquote
    ++ default [] (think_rawLevel (t_think t)) ++ dquote
    ++ str ". Valid levels: off, minimal, low, medium, high.".

Definition unrecognized_verbose (t : Turn) : text :=
  str "Unrecognized verbose level " ++ dquote
    ++ default [] (verbose_rawLevel (t_verbose t)) ++ dquote
    ++ str ". Valid levels: off, on.".

Definition unrecognized_model (raw : text) : text :=
  str "Unrecognized model " ++ dquote ++ raw ++ dquote
    ++ str ". Use /model to list available models.".

Definition model_not_allowed (parsed : ModelRef) : text :=
  str "Model " ++ dquote ++ provider parsed ++ str "/" ++ model parsed ++ dquote
    ++ str " is not allowed. Use /model to list available models.".

Record ModelSelection := {
  sel_provider : text;
  sel_model : text;
  isDefault : bool }.

Definition is_default_pair (t : Turn) (parsed : ModelRef) : bool :=
  Text.eqb (provider parsed) (t_defaultProvider t)
  && Text.eqb (model parsed) (t_defaultModel t).

(** [if (level === "off") delete e.f; else e.f = level] for the two levels *)
Definition store_think (level : text) (e : SessionEntry) : SessionEntry :=
  if Text.eqb level (str "off") then set_thinkingLevel None e
  else set_thinkingLevel (Some level) e.

Definition store_verbose (level : text) (e : SessionEntry) : SessionEntry :=
  if Text.eqb level (str "off") then set_verboseLevel None e
  else set_verboseLevel (Some level) e.

Definition persist_think (t : Turn) (e : SessionEntry) : SessionEntry :=
  match inlineThink t with
  | Some level =>
      if hasThinkDirective t && truthy level then store_think level e else e
  | None => e
  end.

Definition persist_verbose (t : Turn) (e : SessionEntry) : SessionEntry :=
  match inlineVerbose t with
  | Some level =>
      if hasVerboseDirective t && truthy level then store_verbose level e else e
  | None => e
  end.

Definition store_selection (sel : ModelSelection) (e : SessionEntry)
  : SessionEntry :=
  if isDefault sel
  then set_modelOverride None (set_providerOverride None e)
  else set_modelOverride (Some (sel_model sel))
         (set_providerOverride (Some (sel_provider sel)) e).

Definition think_applies (t : Turn) : bool :=
  hasThinkDirective t && truthy_opt (inlineThink t).
Definition verbose_applies (t : Turn) : bool :=
  hasVerboseDirective t && truthy_opt (inlineVerbose t).

(** The acknowledgement of a pure-command turn. *)
Definition directive_ack (t : Turn) (sel : option ModelSelection) : text :=
  let parts :=
    (if think_applies t
     then [if Text.eqb (default [] (inlineThink t)) (str "off")
           then str "Thinking disabled."
           else str "Thinking level set to " ++ default [] (inlineThink t) ++ str "."]
     else [])
    ++ (if verbose_applies t
        then [if Text.eqb (default [] (inlineVerbose t)) (str "off")
              then SYSTEM_MARK ++ str " Verbose logging disabled."
              else SYSTEM_MARK ++ str " Verbose logging enabled."]
        else [])
    ++ match sel with
       | Some ms =>
           let label := sel_provider ms ++ str "/" ++ sel_model ms in
           [if isDefault ms
            then str "Model reset to default (" ++ label ++ str ")."
            else str "Model set to " ++ label ++ str "."]
       | None => []
       end in
  let ack := trim (join (str " ") parts) in
  if truthy ack then ack else str "OK.".

(** The end of a pure-command turn once the selection is settled: the
    store is written and the acknowledgement returned. *)
Definition commit_directives {A} (t : Turn) (sel : option ModelSelection)
  : Stage A :=
  let e1 := persist_verbose t (persist_think t (t_sessionEntry t)) in
  let e2 := match sel with Some ms => store_selection ms e1 | None => e1 end in
  let* _ := if truthy (t_sessionKey t)
            then let* t' := touch_and_save e2 t in ret tt
            else ret tt in
  finish (reply_text (directive_ack t sel)).

(** [if (directiveOnly) { ... }]: every path of the block returns. *)
Definition answerDirectives {A} (t : Turn) : Stage A :=
  if hasModelDirective t && negb (truthy_opt (rawModelDirective t)) then
    if bool_decide (length (t_allowedModelCatalog t) = 0%nat)
    then finish (reply_text (str "No models available."))
    else finish (reply_text (models_listing t))
  else if hasThinkDirective t && negb (truthy_opt (inlineThink t)) then
    finish (reply_text (unrecognized_think t))
  else if hasVerboseDirective t && negb (truthy_opt (inlineVerbose t)) then
    finish (reply_text (unrecognized_verbose t))
  else
    match rawModelDirective t with
    | Some raw =>
        if hasModelDirective t && truthy raw then
          match parseModelRef raw (t_defaultProvider t) with
          | None => finish (reply_text (unrecognized_model raw))
          | Some parsed =>
              let key := modelKey (provider parsed) (model parsed) in
              if negb (bool_decide (size (t_allowedModelKeys t) = 0%nat))
                 && negb (bool_decide (key ∈ t_allowedModelKeys t))
              then finish (reply_text (model_not_allowed parsed))
              else
                commit_directives t
                  (Some {| sel_provider := provider parsed;
                           sel_model := model parsed;
                           isDefault := is_default_pair t parsed |})
          end
        else commit_directives t None
    | None => commit_directives t None
    end.

(** The model an inline directive selects when text follows it: it is
    applied when it parses and is allowed, and skipped otherwise. *)
Definition inline_selection (t : Turn) : option ModelSelection :=
  match rawModelDirective t with
  | Some raw =>
      if hasModelDirective t && truthy raw then
        match parseModelRef raw (t_defaultProvider t) with
        | Some parsed =>
            let key := modelKey (provider parsed) (model parsed) in
            if bool_decide (size (t_allowedModelKeys t) = 0%nat)
               || bool_decide (key ∈ t_allowedModelKeys t)
            then Some {| sel_provider := provider parsed;
                         sel_model := model parsed;
                         isDefault := is_default_pair t parsed |}
            else None
        | None => None
        end
      else None
  | None => None
  end.

(** Persist inline think/verbose/model settings even when additional
    content follows. *)
Definition persistInlineDirectives (cfg : ClawdisConfig) (t : Turn) : M Turn :=
  if truthy (t_sessionKey t) then
    let e1 := persist_verbose t (persist_think t (t_sessionEntry t)) in
    let sel := inline_selection t in
    let e2 := match sel with Some ms => store_selection ms e1 | None => e1 end in
    let t1 :=
      match sel with
      | Some ms =>
          with_model (sel_provider ms) (sel_model ms)
            (contextTokens_for cfg (sel_model ms)) t
      | None => t
      end in
    let updated :=
      think_applies t || verbose_applies t || bool_decide (is_Some sel) in
    if updated then touch_and_save e2 t1 else ret t1
  else ret t.

Definition directiveStage (cfg : ClawdisConfig) (t : Turn) : Stage Turn :=
  if directiveOnly cfg t then answerDirectives t
  else let* t' := persistInlineDirectives cfg t in continue t'.

(** *** Access control and the commands answered without the agent *)

Definition from_of (ctx : MsgContext) : text := strip_whatsapp (default [] (From ctx)).
Definition to_of (ctx : MsgContext) : text := strip_whatsapp (default [] (To ctx)).

Definition isSamePhone (ctx : MsgContext) : bool :=
  truthy (from_of ctx) && truthy (to_of ctx) && Text.eqb (from_of ctx) (to_of ctx).

(** The configured list when it is non-empty, else the recipient alone;
    [None] for [undefined]. *)
Definition allowFrom_of (ctx : MsgContext) (cfg : ClawdisConfig)
  : option (list text) :=
  match routing_opt allowFrom cfg with
  | Some (a :: l) => Some (a :: l)
  | _ => if truthy (to_of ctx) then Some [to_of ctx] else None
  end.

Definition commandBodyNormalized (ctx : MsgContext) (cfg : ClawdisConfig) : text :=
  if isGroup_of ctx
  then stripMentions (triggerBodyNormalized_of ctx) ctx cfg
  else triggerBodyNormalized_of ctx.

Definition ownerList (ctx : MsgContext) (cfg : ClawdisConfig) : list text :=
  let candidates :=
    List.filter (fun entry => truthy entry && negb (Text.eqb entry (str "*")))
      (default [] (allowFrom_of ctx cfg)) in
  let candidates :=
    if bool_decide (length candidates = 0%nat) && truthy (to_of ctx)
    then candidates ++ [to_of ctx] else candidates in
  List.filter (fun entry => truthy entry) (map normalizeE164 candidates).

Definition isOwnerSender (ctx : MsgContext) (cfg : ClawdisConfig) : bool :=
  let senderE164 := normalizeE164 (default [] (SenderE164 ctx)) in
  truthy senderE164 && mem senderE164 (ownerList ctx cfg).

(** The sender of a direct message is refused: neither the wildcard nor
    the sender is on a non-empty list, and it is not a self-chat. *)
Definition senderRefused (ctx : MsgContext) (cfg : ClawdisConfig) : bool :=
  if isSamePhone ctx then false
  else if negb (isGroup_of ctx) then
    match allowFrom_of ctx cfg with
    | Some (a :: l) =>
        negb (mem (str "*") (a :: l)) && negb (mem (from_of ctx) (a :: l))
    | _ => false
    end
  else false.

Definition isRestartCommand (body : text) : bool :=
  Text.eqb body (str "/restart") || Text.eqb body (str "restart")
  || startsWith body (str "/restart ").

Definition isStatusCommand (body : text) : bool :=
  Text.eqb body (str "/status") || Text.eqb body (str "status")
  || startsWith body (str "/status ").

Definition activation_not_group : text :=
  SYSTEM_MARK ++ str " Group activation only applies to group chats.".
Definition activation_usage : text :=
  SYSTEM_MARK ++ str " Usage: /activation mention|always".
Definition activation_set (mode : text) : text :=
  SYSTEM_MARK ++ str " Group activation set to " ++ mode ++ str ".".
Definition restart_ack : text :=
  SYSTEM_MARK ++ str " Restarting clawdis via launchctl; give me a few seconds to come back online.".
Definition abort_ack : text := SYSTEM_MARK ++ str " Agent was aborted.".

Definition commandStage (cfg : ClawdisConfig) (t : Turn) : Stage Turn :=
  let ctx := t_ctx t in
  let isGroup := isGroup_of ctx in
  let body := commandBodyNormalized ctx cfg in
  let activationCommand := parseActivationCommand body in
  let owner := isOwnerSender ctx cfg in
  if senderRefused ctx cfg then finish no_reply
  else if hasCommand activationCommand then
    if negb isGroup then finish (reply_text activation_not_group)
    else if negb owner then finish no_reply
    else
      match mode activationCommand with
      | Some md =>
          if truthy md then
            let* _ :=
              if truthy (t_sessionKey t) then
                let* t' :=
                  touch_and_save
                    (set_groupActivationNeedsSystemIntro (Some true)
                       (set_groupActivation (Some md) (t_sessionEntry t))) t in
                ret tt
              else ret tt in
            finish (reply_text (activation_set md))
          else finish (reply_text activation_usage)
      | None => finish (reply_text activation_usage)
      end
  else if isRestartCommand body then
    if isGroup && negb owner then finish no_reply
    else
      let* _ := triggerClawdisRestart in
      finish (reply_text restart_ack)
  else if isStatusCommand body then
    if isGroup && negb owner then finish no_reply
    else
      finish (reply_text
                (buildStatusMessage (t_provider t) (t_model t) (t_contextTokens t)
                   (Some (t_sessionEntry t)) (t_sessionKey t)
                   (t_resolvedThinkLevel t) (t_resolvedVerboseLevel t)))
  else if isAbortTrigger (Some (triggerBodyNormalized_of ctx)) then
    let* _ :=
      if truthy (t_sessionKey t) then
        let* t' :=
          touch_and_save (set_abortedLastRun (Some true) (t_sessionEntry t)) t in
        ret tt
      else
        (* abortKey is the session key, empty here: the memory is not set *)
        if truthy (t_sessionKey t) then abortMemory_set (t_sessionKey t) true
        else ret tt in
    finish (reply_text abort_ack)
  else continue t.

(** *** The prompt *)

Definition defaultGroupActivation (cfg : ClawdisConfig) : text :=
  match groupChat_opt requireMention cfg with
  | Some false => str "always"
  | _ => str "mention"
  end.

(** [parts.filter(Boolean)] on optional strings *)
Definition present (parts : list (option text)) : list text :=
  omap (fun o => match o with
                 | Some x => if truthy x then Some x else None
                 | None => None
                 end) parts.

Definition groupIntro_text (cfg : ClawdisConfig) (t : Turn) : text :=
  let activation :=
    default (defaultGroupActivation cfg)
      (normalizeGroupActivation (groupActivation (t_sessionEntry t))) in
  let always := Text.eqb activation (str "always") in
  let subject := opt_trim (GroupSubject (t_ctx t)) in
  let members := opt_trim (GroupMembers (t_ctx t)) in
  let subjectLine :=
    if truthy_opt subject
    then str "You are replying inside the WhatsApp group " ++ dquote
           ++ default [] subject ++ dquote ++ str "."
    else str "You are replying inside a WhatsApp group chat." in
  let membersLine :=
    if truthy_opt members
    then Some (str "Group members: " ++ default [] members ++ str ".")
    else None in
  let activationLine :=
    if always
    then str "Activation: always-on (you receive every group message)."
    else str "Activation: trigger-only (you are invoked only when explicitly mentioned; recent context may be included)." in
  let silenceLine :=
    if always
    then Some (str "If no response is needed, reply with exactly " ++ dquote
                 ++ SILENT_REPLY_TOKEN ++ dquote
                 ++ str " (no other text) so Clawdis stays silent.")
    else None in
  let cautionLine :=
    if always
    then Some (str "Be extremely selective: reply only when you are directly addressed, asked a question, or can add clear value. Otherwise stay silent.")
    else None in
  join (str " ")
    (present [Some subjectLine; membersLine; Some activationLine;
              silenceLine; cautionLine])
  ++ str " Address the specific sender noted in the message context.".

(** " · last input [^·]+" under the [i] flag; the middle dot is 183. *)
Definition last_input_re : re :=
  seqs [ Chr (cu " "); Chr 183%N; LitI (str " last input ");
         Plus (fun c => negb (c =? 183)%N) ].

Definition compactSystemEvent (line : text) : option text :=
  let trimmed := trim line in
  if negb (truthy trimmed) then None
  else
    let lower := toLowerCase trimmed in
    if includes lower (str "reason periodic") then None
    else if includes lower (str "heartbeat") then None
    else if startsWith trimmed (str "Node:")
    then Some (trim (replace_first last_input_re [] trimmed))
    else Some trimmed.

Definition isFirstTurnInSession (t : Turn) : bool :=
  t_isNewSession t || negb (t_systemSent t).

Definition shouldInjectGroupIntro (t : Turn) : bool :=
  bool_decide (ChatType (t_ctx t) = Some (str "group"))
  && (isFirstTurnInSession t
      || default false (groupActivationNeedsSystemIntro (t_sessionEntry t))).

Definition isBareSessionReset (t : Turn) : bool :=
  t_isNewSession t
  && bool_decide (length (trim (modelCleaned t)) = 0%nat)
  && negb (bool_decide (length (trim (default [] (Body (t_ctx t)))) = 0%nat)).

Definition baseBodyFinal (t : Turn) : text :=
  if isBareSessionReset t then BARE_SESSION_RESET_PROMPT else modelCleaned t.

Definition empty_body_reply : text :=
  str "I didn't receive any text in your message. Please resend or add a caption.".

Definition abortedHint : text :=
  str "Note: The previous agent run was aborted by the user. Resume carefully or ask for clarification.".

Definition isMainSession (cfg : ClawdisConfig) (t : Turn) : bool :=
  negb (isGroup_of (t_ctx t))
  && Text.eqb (t_sessionKey t) (default (str "main") (session_opt mainKey cfg)).

(** The block of system lines put before the body in the main session. *)
Definition systemLines (cfg : ClawdisConfig) (t : Turn) : list text :=
  let queued := present (map compactSystemEvent drainSystemEvents) in
  if t_isNewSession t then buildProviderSummary cfg ++ queued else queued.

Definition with_system_block (cfg : ClawdisConfig) (t : Turn) (body : text) : text :=
  if isMainSession cfg t then
    match systemLines cfg t with
    | [] => body
    | l :: ls =>
        join newline (map (fun x => str "System: " ++ x) (l :: ls))
          ++ newline ++ newline ++ body
    end
  else body.

Definition with_transcript (t : Turn) (body : text) : text :=
  match t_transcribedText t with
  | Some tx =>
      join (newline ++ newline)
        (present [Some body; Some (str "Transcript:" ++ newline ++ tx)])
  | None => body
  end.

Definition mediaNote (ctx : MsgContext) : option text :=
  if truthy_opt (MediaPath ctx) then
    Some (str "[media attached: " ++ default [] (MediaPath ctx)
          ++ (if truthy_opt (MediaType ctx)
              then str " (" ++ default [] (MediaType ctx) ++ str ")" else [])
          ++ (if truthy_opt (MediaUrl ctx)
              then str " | " ++ default [] (MediaUrl ctx) else [])
          ++ str "]")
  else None.

Definition mediaReplyHint : text :=
  str "To send an image back, add a line like: MEDIA:https://example.com/image.jpg (no spaces). Keep caption in the text body.".

Definition with_media (ctx : MsgContext) (body : text) : text :=
  match mediaNote ctx with
  | Some note =>
      trim (join newline (present [Some note; Some mediaReplyHint; Some body]))
  | None => body
  end.

(** Fallback: if a stray leading level token remains, consume it. *)
Definition consumeLeadingLevel (resolvedThinkLevel : option text)
    (commandBody : text) : option text * text :=
  if negb (truthy_opt resolvedThinkLevel) && truthy commandBody then
    let parts := split_ws commandBody in
    match normalizeThinkLevel (head parts) with
    | Some level =>
        if truthy level
        then (Some level, trim (join (str " ") (tail parts)))
        else (resolvedThinkLevel, commandBody)
    | None => (resolvedThinkLevel, commandBody)
    end
  else (resolvedThinkLevel, commandBody).

(** The body with the hint of an earlier abort and the system lines. *)
Definition prefixedBodyBase (cfg : ClawdisConfig) (t : Turn) : text :=
  with_system_block cfg t
    (if t_abortedLastRun t
     then abortedHint ++ newline ++ newline ++ baseBodyFinal t
     else baseBodyFinal t).

(** The command body before the fallback on a leading level. *)
Definition commandBody_of (cfg : ClawdisConfig) (t : Turn) : text :=
  with_media (t_ctx t) (with_transcript t (prefixedBodyBase cfg t)).

(** What the last stage needs besides the state of the turn. *)
Record Prepared := {
  p_turn : Turn;
  p_commandBody : text;
  p_resolvedThinkLevel : option text;
  p_skillsSnapshot : option SkillSnapshot;
  p_groupIntro : text;
  p_shouldInjectGroupIntro : bool;
  p_isNewSession : bool }.

(** [sessionEntry = { ...current, sessionId, updatedAt: Date.now(), ... };
    sessionStore[sessionKey] = sessionEntry; await saveSessionStore(...)] *)
Definition replace_and_save (f : SessionEntry -> SessionEntry) (t : Turn) : M Turn :=
  touch_and_save (f (set_sessionId (t_sessionId t) (t_sessionEntry t))) t.

Definition with_systemSent (b : bool) (t : Turn) : Turn :=
  {| t_ctx := t_ctx t; t_transcribedText := t_transcribedText t;
     t_defaultProvider := t_defaultProvider t; t_defaultModel := t_defaultModel t;
     t_sessionKey := t_sessionKey t; t_sessionStore := t_sessionStore t;
     t_sessionEntry := t_sessionEntry t;
     t_sessionId := t_sessionId t; t_isNewSession := t_isNewSession t;
     t_systemSent := b; t_abortedLastRun := t_abortedLastRun t;
     t_think := t_think t; t_verbose := t_verbose t;
     t_modelDirective := t_modelDirective t;
     t_resolvedThinkLevel := t_resolvedThinkLevel t;
     t_resolvedVerboseLevel := t_resolvedVerboseLevel t;
     t_allowedModelKeys := t_allowedModelKeys t;
     t_allowedModelCatalog := t_allowedModelCatalog t;
     t_resetModelOverride := t_resetModelOverride t;
     t_provider := t_provider t; t_model := t_model t;
     t_contextTokens := t_contextTokens t |}.

Definition promptStage (cfg : ClawdisConfig) (t : Turn) : Stage Prepared :=
  let ctx := t_ctx t in
  let firstTurn := isFirstTurnInSession t in
  let inject := shouldInjectGroupIntro t in
  let groupIntro := if inject then groupIntro_text cfg t else [] in
  let base := baseBodyFinal t in
  (* Bail early if the cleaned body is empty. *)
  if negb (truthy (trim base)) then finish (reply_text empty_body_reply)
  else
    let* t1 :=
      if t_abortedLastRun t then
        if truthy (t_sessionKey t)
        then touch_and_save (set_abortedLastRun (Some false) (t_sessionEntry t)) t
        else
          let* _ := if truthy (t_sessionKey t)
                    then abortMemory_set (t_sessionKey t) false else ret tt in
          ret t
      else ret t in
    let* t2 :=
      if firstTurn && truthy (t_sessionKey t1) then
        let* t' :=
          replace_and_save
            (fun e => set_skillsSnapshot (buildWorkspaceSkillSnapshot cfg)
                        (set_systemSent (Some true) e)) t1 in
        ret (with_systemSent true t')
      else ret t1 in
    let skills :=
      match skillsSnapshot (t_sessionEntry t2) with
      | Some sk => Some sk
      | None => if firstTurn then None else buildWorkspaceSkillSnapshot cfg
      end in
    let* t3 :=
      if bool_decide (is_Some skills) && truthy (t_sessionKey t2)
         && negb firstTurn
         && negb (bool_decide (is_Some (skillsSnapshot (t_sessionEntry t2))))
      then replace_and_save (set_skillsSnapshot skills) t2
      else ret t2 in
    let fallback := consumeLeadingLevel (t_resolvedThinkLevel t) (commandBody_of cfg t) in
    let queuedBody := with_media ctx (with_transcript t base) in
    let* queued := call_queue (t_sessionId t) queuedBody in
    if queued then
      let* _ := if truthy (t_sessionKey t3)
                then let* t' := touch_and_save (t_sessionEntry t3) t3 in ret tt
                else ret tt in
      finish no_reply
    else
      continue {| p_turn := t3;
                  p_commandBody := snd fallback;
                  p_resolvedThinkLevel := fst fallback;
                  p_skillsSnapshot := skills;
                  p_groupIntro := groupIntro;
                  p_shouldInjectGroupIntro := inject;
                  p_isNewSession := t_isNewSession t |}.

(** *** Delegation and what follows it *)

(** "🧭" *)
Definition compass : text := [55358%N; 56813%N].

Definition has_content (p : ReplyPayload) : bool :=
  truthy_opt (payload_text p) || truthy_opt (mediaUrl p)
  || negb (bool_decide (length (default [] (mediaUrls p)) = 0%nat)).

(** The record written after a run that returned payloads. *)
Definition recordUsage (cfg : ClawdisConfig) (t : Turn) (r : RunResult) : M Turn :=
  if truthy (t_sessionKey t) then
    let modelUsed := default (t_defaultModel t) (agentMeta r ≫= meta_model) in
    let contextTokensUsed :=
      match agent_opt agent_contextTokens cfg with
      | Some c => c
      | None =>
          match lookupContextTokens modelUsed with
          | Some c => c
          | None =>
              default DEFAULT_CONTEXT_TOKENS (contextTokens (t_sessionEntry t))
          end
      end in
    match agentMeta r ≫= usage with
    | Some u =>
        touch_and_save
          (set_contextTokens (Some contextTokensUsed)
             (set_model (Some modelUsed)
                (Cron.apply_usage u (t_sessionEntry t)))) t
    | None =>
        if truthy modelUsed || negb (contextTokensUsed =? 0) then
          let e :=
            set_contextTokens (Some contextTokensUsed)
              (set_model (Some modelUsed) (t_sessionEntry t)) in
          let store' := <[t_sessionKey t := e]> (t_sessionStore t) in
          let* _ := saveSessionStore store' in
          ret (with_session e store' t)
        else ret t
    end
  else ret t.

(** The arguments of the run. *)
Definition runParams (cfg : ClawdisConfig) (p : Prepared) (runId : text)
  : RunParams :=
  let t := p_turn p in
  {| run_sessionId := t_sessionId t;
     run_sessionKey := t_sessionKey t;
     run_skillsSnapshot := p_skillsSnapshot p;
     prompt := p_commandBody p;
     extraSystemPrompt :=
       if truthy (p_groupIntro p) then Some (p_groupIntro p) else None;
     ownerNumbers :=
       match ownerList (t_ctx t) cfg with
       | [] => None
       | l => Some l
       end;
     enforceFinalTag :=
       if Text.eqb (t_provider t) (str "lmstudio")
          || Text.eqb (t_provider t) (str "ollama")
       then Some true else None;
     lane := None;
     run_provider := t_provider t;
     run_model := t_model t;
     run_thinkLevel := p_resolvedThinkLevel p;
     run_verboseLevel := t_resolvedVerboseLevel t;
     timeoutMs := Z.max (default 600 (agent_opt timeoutSeconds cfg)) 1 * 1000;
     runId := runId |}.

(** What the entry point returns for the payloads of a run. *)
Definition finalReply (p : Prepared) (pl : ReplyPayload) (pls : list ReplyPayload)
  : Outcome :=
  let t := p_turn p in
  (* If verbose is enabled and this is a new session, prepend a session
     hint. *)
  let finalPayloads :=
    if bool_decide (t_resolvedVerboseLevel t = Some (str "on"))
       && p_isNewSession p
    then text_payload (compass ++ str " New session: " ++ t_sessionId t)
           :: pl :: pls
    else pl :: pls in
  match finalPayloads with
  | [one] => inr (Some (Single one))
  | several => inr (Some (Several several))
  end.

Definition delegateStage (cfg : ClawdisConfig) (p : Prepared) : M Outcome :=
  let t := p_turn p in
  let* runId := randomUUID in
  let* outcome := call_agent (runParams cfg p runId) in
  match outcome with
  | inl failure => ret (inl failure)
  | inr runResult =>
      let* t1 :=
        if p_shouldInjectGroupIntro p && truthy (t_sessionKey t)
           && default false (groupActivationNeedsSystemIntro (t_sessionEntry t))
        then touch_and_save
               (set_groupActivationNeedsSystemIntro (Some false) (t_sessionEntry t)) t
        else ret t in
      match default [] (payloads runResult) with
      | [] => ret no_reply
      | pl :: pls =>
          let* _ := recordUsage cfg t1 runResult in
          ret (finalReply p pl pls)
      end
  end.

(** *** The entry point

    The stages in their order; each prefix is named for the statements
    about the state a turn has reached. *)

Definition upToDirectives (ctx : MsgContext) (cfg : ClawdisConfig) : Stage Turn :=
  and_then (openTurn ctx cfg) (directiveStage cfg).

Definition upToCommands (ctx : MsgContext) (cfg : ClawdisConfig) : Stage Turn :=
  and_then (upToDirectives ctx cfg) (commandStage cfg).

Definition upToPrompt (ctx : MsgContext) (cfg : ClawdisConfig) : Stage Prepared :=
  and_then (upToCommands ctx cfg) (promptStage cfg).

Definition getReplyFromConfig (ctx : MsgContext) (cfg : ClawdisConfig) : M Outcome :=
  let* r := upToPrompt ctx cfg in
  match r with
  | inl o => ret o
  | inr p => delegateStage cfg p
  end.

(** *** Vocabulary of the statements about a turn *)

(** A computation that calls no collaborator. *)
Definition quiet {A} (c : M A) : Prop := forall w, calls (snd (c w)) = calls w.

(** Whether a parsed pair passes the check against the allowed set. *)
Definition pair_allowed (t : Turn) (parsed : ModelRef) : bool :=
  bool_decide (size (t_allowedModelKeys t) = 0%nat)
  || bool_decide (modelKey (provider parsed) (model parsed) ∈ t_allowedModelKeys t).

Definition selection_of (t : Turn) (parsed : ModelRef) : ModelSelection :=
  {| sel_provider := provider parsed; sel_model := model parsed;
     isDefault := is_default_pair t parsed |}.

(** The state of the turn and the persisted store agree: the store in
    memory is the one on disk, and it holds the record of the turn under
    the key. *)
Definition synced (t : Turn) (w : World) : Prop :=
  disk w = t_sessionStore t
  /\ t_sessionStore t !! t_sessionKey t = Some (t_sessionEntry t).

(** What is stored for a valid level: nothing for [off]. *)
Definition stored_level (level : option text) : option text :=
  match level with
  | Some l => if Text.eqb l (str "off") then None else Some l
  | None => None
  end.

(** The settings a directive can change, and the identity of the session. *)
Definition same_settings (e e' : SessionEntry) : Prop :=
  sessionId e' = sessionId e
  /\ thinkingLevel e' = thinkingLevel e
  /\ verboseLevel e' = verboseLevel e
  /\ modelOverride e' = modelOverride e
  /\ providerOverride e' = providerOverride e.

(** The invariant of a turn: the store is in step and the record carries
    the identifier of the turn. *)
Definition good (t : Turn) (w : World) : Prop :=
  synced t w /\ sessionId (t_sessionEntry t) = t_sessionId t.

(** Two states of one turn with the same session and settings. *)
Definition kept (t t' : Turn) : Prop :=
  t_sessionKey t' = t_sessionKey t /\ t_sessionId t' = t_sessionId t
  /\ same_settings (t_sessionEntry t) (t_sessionEntry t').

(** The override a selection leaves in a record. *)
Definition override_of (sel : ModelSelection) : option text * option text :=
  if isDefault sel then (None, None)
  else (Some (sel_provider sel), Some (sel_model sel)).

(** What the stage has persisted when the turn goes on after it. *)
Definition directives_persisted (t : Turn) (e : SessionEntry) : Prop :=
  (think_applies t = true -> thinkingLevel e = stored_level (inlineThink t))
  /\ (verbose_applies t = true -> verboseLevel e = stored_level (inlineVerbose t))
  /\ (forall sel, inline_selection t = Some sel ->
      providerOverride e = fst (override_of sel)
      /\ modelOverride e = snd (override_of sel)).

(** A step of the prompt stage: it keeps the invariant, the session and
    the settings. *)
Definition session_step (t : Turn) (w : World) (c : M Turn) : Prop :=
  good t w -> good (fst (c w)) (snd (c w)) /\ kept t (fst (c w)).

(** No configured trigger, followed by a space, starts the body. *)
Definition no_trailing_text (triggers : list text) (trimmedBody stripped : text)
  : Prop :=
  forall t', In t' triggers ->
    startsWith trimmedBody (t' ++ str " ") = false
    /\ startsWith stripped (t' ++ str " ") = false.

(** The message adds nothing around the body of the prompt: no system
    lines, no transcript, no media note. *)
Definition undecorated (cfg : ClawdisConfig) (t : Turn) : Prop :=
  (isMainSession cfg t = false \/ systemLines cfg t = [])
  /\ t_transcribedText t = None
  /\ mediaNote (t_ctx t) = None.

(** The model of the turn is the configured default, or it is covered by
    the allowed set of the turn (an empty set allows everything). *)
Definition model_in_bounds (t : Turn) : Prop :=
  (t_provider t = t_defaultProvider t /\ t_model t = t_defaultModel t)
  \/ size (t_allowedModelKeys t) = 0%nat
  \/ modelKey (t_provider t) (t_model t) ∈ t_allowedModelKeys t.

(** The record a turn starts from: the stored record when the session is
    reused, none when the session is new. *)
Definition base_record (t : Turn) (w : World) : option SessionEntry :=
  if t_isNewSession t then None else disk w !! t_sessionKey t.

(** The fields that neither session initialisation nor a directive sets
    are those of the record the turn starts from. *)
Definition carried_over (base : option SessionEntry) (e : SessionEntry) : Prop :=
  groupActivation e = base ≫= groupActivation
  /\ groupActivationNeedsSystemIntro e = base ≫= groupActivationNeedsSystemIntro
  /\ inputTokens e = base ≫= inputTokens
  /\ outputTokens e = base ≫= outputTokens
  /\ totalTokens e = base ≫= totalTokens
  /\ contextTokens e = base ≫= contextTokens
  /\ Sessions.model e = base ≫= Sessions.model
  /\ skillsSnapshot e = base ≫= skillsSnapshot
  /\ lastChannel e = base ≫= lastChannel
  /\ lastTo e = base ≫= lastTo.

(** Whether the override of a stored record is deleted when the turn is
    opened: the key is a non-empty string, the record carries a model
    override, and the allowed set is not empty and does not hold it. *)
Definition override_stale (t : Turn) (e : SessionEntry) : bool :=
  truthy (t_sessionKey t)
  && (truthy_opt (modelOverride e) || truthy_opt (providerOverride e))
  && match opt_trim (modelOverride e) with
     | Some overrideModel =>
         truthy overrideModel
         && negb (bool_decide (size (t_allowedModelKeys t) = 0%nat))
         && negb (bool_decide
                    (modelKey
                       (or_else (opt_trim (providerOverride e))
                          (t_defaultProvider t)) overrideModel
                     ∈ t_allowedModelKeys t))
     | None => false
     end.

(** The override fields of a record once the turn is opened: those of the
    record the turn starts from, unless they are deleted. *)
Definition opened_override (t : Turn) (base : option SessionEntry)
  : option text * option text :=
  match base with
  | Some b =>
      if override_stale t b then (None, None)
      else (providerOverride b, modelOverride b)
  | None => (None, None)
  end.

(** What a turn has written when it reaches access control and the
    commands: only the record under the key of the session, as session
    initialisation built it from the record the turn starts from, without
    a stale override, and with the levels and the selection the
    directives of the message persist; its time stamp is the last reading
    of the clock.  [w] is the world before the turn, [w1] the world the
    turn has reached. *)
Definition written_before_commands (t : Turn) (w w1 : World) : Prop :=
  let key := t_sessionKey t in
  let base := base_record t w in
  let e := t_sessionEntry t in
  let persisted := truthy key in
  disk w1 = <[key := e]> (disk w)
  /\ abortMemory w1 = abortMemory w
  /\ updatedAt e = clock (Nat.pred (ticks w1))
  /\ sessionId e
     = match base with Some b => sessionId b | None => uuid (drawn w) end
  /\ systemSent e = Some (default false (base ≫= systemSent))
  /\ abortedLastRun e = Some (default false (base ≫= abortedLastRun))
  /\ thinkingLevel e
     = (if persisted && think_applies t then stored_level (inlineThink t)
        else base ≫= thinkingLevel)
  /\ verboseLevel e
     = (if persisted && verbose_applies t then stored_level (inlineVerbose t)
        else base ≫= verboseLevel)
  /\ (providerOverride e, modelOverride e)
     = match (if persisted then inline_selection t else None) with
       | Some sel => override_of sel
       | None => opened_override t base
       end
  /\ carried_over base e.

(** Nothing is left of a text once the structural prefixes and, in a
    group, the mentions are taken out: with [rest] the text that the three
    directive extractors leave, the message consists of directives only. *)
Definition directives_alone (ctx : MsgContext) (cfg : ClawdisConfig)
    (rest : text) : Prop :=
  let stripped := stripStructuralPrefixes rest in
  (if isGroup_of ctx then stripMentions stripped ctx cfg else stripped) = [].

(** The two corrections, for the level as the message has it. *)
Definition think_correction (raw : text) : text :=
  str "Unrecognized thinking level " ++ dquote ++ raw ++ dquote
    ++ str ". Valid levels: off, minimal, low, medium, high.".

Definition verbose_correction (raw : text) : text :=
  str "Unrecognized verbose level " ++ dquote ++ raw ++ dquote
    ++ str ". Valid levels: off, on.".

End WithCollaborators.
End Reply.

(** ** A concrete set of collaborators

    Used to run the engine on examples.  The two directive parsers that are
    not among the sources follow the specification. *)

Module Sample.
Import Text Regex Sessions Config Agent Collab Effects ModelSelection.

Definition model_char (c : N) : bool :=
  is_alpha c || is_digit c || is_char "_" c || is_char "." c
  || is_char ":" c || is_char "/" c || is_char "-" c.

Definition model_re : re :=
  seqs [ Alt (Bol false) (Cls is_space);
         Chr (cu "/");
         LitI (str "model");
         Ahead (Alt Eol (Alt (Cls is_space) (Chr (cu ":"))));
         Star is_space; Opt (Chr (cu ":")); Star is_space;
         Opt (Grp (Plus model_char)) ].

(** Modelled from the spec: the inline model selector of
    auto-reply/model.ts, which is not among the sources.  It is a
    directive like the two above: the keyword [/model], an optional colon
    and an optional [provider/model] argument; without an argument the
    directive asks for the listing. *)
Definition extractModelDirective (body : option text) : ModelDirective :=
  match body with
  | None | Some [] =>
      {| model_cleaned := []; rawModel := None; model_hasDirective := false |}
  | Some body =>
      {| model_cleaned := clean_directive model_re body;
         rawModel := trim <$> rawLevel_of model_re body;
         model_hasDirective := has_match model_re body |}
  end.

(** Modelled from the spec: the group activation command of
    auto-reply/group-activation.ts, which is not among the sources:
    [/activation mention|always]; any other argument leaves the mode
    undefined. *)
Definition parseActivationCommand (body : text) : ActivationCommand :=
  if Text.eqb body (str "/activation")
  then {| hasCommand := true; mode := None |}
  else if startsWith body (str "/activation ")
  then
    let arg := trim (slice_from 12 body) in
    {| hasCommand := true;
       mode := if Text.eqb arg (str "mention") || Text.eqb arg (str "always")
               then Some arg else None |}
  else {| hasCommand := false; mode := None |}.

Definition one_of (levels : list text) (raw : option text) : option text :=
  match raw with
  | Some l =>
      if mem (toLowerCase (trim l)) levels then Some (toLowerCase (trim l))
      else None
  | None => None
  end.

(** Modelled from the spec: the levels the correction messages list. *)
Definition normalizeThinkLevel : option text -> option text :=
  one_of [str "off"; str "minimal"; str "low"; str "medium"; str "high"].

Definition normalizeVerboseLevel : option text -> option text :=
  one_of [str "off"; str "on"].

(** The agent engine of the examples: it answers with the prompt, or
    rejects when asked to. *)
Definition echo_agent (rejects : bool) (p : RunParams) : Failure + RunResult :=
  if rejects then inl (str "agent failed")
  else inr {| payloads := Some [text_payload (prompt p)]; agentMeta := None |}.

Definition catalog : list ModelCatalogEntry :=
  [ {| entry_provider := str "anthropic"; entry_id := str "claude-opus-4-5";
       entry_name := None |};
    {| entry_provider := str "openai"; entry_id := str "gpt-5";
       entry_name := None |} ].

(** Time starts at [t0] and advances by one millisecond a reading;
    identifiers are ["id0"], ["id1"], ... *)
Definition collaborators (t0 : Z) (rejects : bool) : Collaborators :=
  {| DEFAULT_PROVIDER := str "anthropic";
     DEFAULT_MODEL := str "claude-opus-4-5";
     DEFAULT_CONTEXT_TOKENS := 200000;
     DEFAULT_IDLE_MINUTES := 60;
     DEFAULT_RESET_TRIGGERS := [str "/new"; str "/reset"];
     resolveSessionKey := fun _ ctx _ => default (str "unknown") (From ctx);
     Collab.normalizeThinkLevel := normalizeThinkLevel;
     Collab.normalizeVerboseLevel := normalizeVerboseLevel;
     Collab.extractModelDirective := extractModelDirective;
     Collab.parseActivationCommand := parseActivationCommand;
     normalizeGroupActivation := fun o => o;
     SILENT_REPLY_TOKEN := str "NO_REPLY";
     normalizeE164 := fun x => x;
     lookupContextTokens := fun _ => None;
     loadModelCatalog := fun _ => catalog;
     buildWorkspaceSkillSnapshot := fun _ => Some (str "skills");
     isAudio := fun _ => false;
     transcribeInboundAudio := fun _ _ => inr None;
     drainSystemEvents := [];
     buildProviderSummary := fun _ => [];
     buildStatusMessage := fun _ _ _ _ _ _ _ => str "status";
     queueEmbeddedPiMessage := fun _ _ => false;
     runEmbeddedPiAgent := echo_agent rejects;
     deliverCronResult := fun _ _ _ =>
       {| status := StatusOk; summary := None; error := None |};
     clock := fun i => t0 + Z.of_nat i;
     uuid := fun i => str "id" ++ [(48 + N.of_nat i)%N] |}.

Definition no_config : ClawdisConfig :=
  {| agent := None; session := None; routing := None |}.

(** A direct message. *)
Definition message (body sender recipient : string) : MsgContext :=
  {| Body := Some (str body); From := Some (str sender);
     To := Some (str recipient); SenderE164 := Some (str sender);
     ChatType := None; WasMentioned := None; GroupSubject := None;
     GroupMembers := None; MediaPath := None; MediaType := None;
     MediaUrl := None |}.

(** A world whose store holds the given records and nothing else has
    happened. *)
Definition world (store : gmap text SessionEntry) : World :=
  {| disk := store; abortMemory := ∅; ticks := 0; drawn := 0; calls := [] |}.

(** A record last written at [t]. *)
Definition record (id : string) (t : Z) : SessionEntry := bare (str id) t.

(** The collaborators of the examples: the clock starts at 2000; the
    agent engine answers, or rejects every run. *)
Definition answering : Collaborators := collaborators 2000 false.

Definition rejecting : Collaborators := collaborators 2000 true.

(** A store with one record under the key of the sender, written at time
    1000; the clock of the turn starts at 2000 and the idle window is the
    default of one hour. *)
Definition store : gmap text SessionEntry :=
  {[ str "+15550001" := record "old" 1000 ]}.

(** [/restart] sent in a group by someone other than the owner of the
    account. *)
Definition restart_in_group : MsgContext :=
  {| Body := Some (str "/restart"); From := Some (str "120363@g.us");
     To := Some (str "+15550001"); SenderE164 := Some (str "+15550002");
     ChatType := Some (str "group"); WasMentioned := Some true;
     GroupSubject := None; GroupMembers := None; MediaPath := None;
     MediaType := None; MediaUrl := None |}.

Definition gpt5 : ModelRef := {| provider := str "openai"; model := str "gpt-5" |}.

(** A configuration whose default model is not in the catalog. *)
Definition custom_default : ClawdisConfig :=
  {| agent := Some {| agent_provider := None;
                      agent_model := Some (str "custom/llama");
                      allowedModels := None; thinkingDefault := None;
                      verboseDefault := None; agent_contextTokens := None;
                      timeoutSeconds := None |};
     session := None; routing := None |}.

Definition with_override : SessionEntry :=
  set_providerOverride (Some (str "openai"))
    (set_modelOverride (Some (str "gpt-5")) (record "old" 1000)).

(** [/new] from the owner of the account, with an image attached. *)
Definition new_with_media : MsgContext :=
  {| Body := Some (str "/new"); From := Some (str "+15550001");
     To := Some (str "+15550001"); SenderE164 := Some (str "+15550001");
     ChatType := None; WasMentioned := None; GroupSubject := None;
     GroupMembers := None; MediaPath := Some (str "/tmp/a.png");
     MediaType := None; MediaUrl := None |}.

(** Collaborators whose running agent takes every message into its queue. *)
Definition queueing : Collaborators :=
  {| DEFAULT_PROVIDER := @DEFAULT_PROVIDER answering;
     DEFAULT_MODEL := @DEFAULT_MODEL answering;
     DEFAULT_CONTEXT_TOKENS := @DEFAULT_CONTEXT_TOKENS answering;
     DEFAULT_IDLE_MINUTES := @DEFAULT_IDLE_MINUTES answering;
     DEFAULT_RESET_TRIGGERS := @DEFAULT_RESET_TRIGGERS answering;
     resolveSessionKey := @resolveSessionKey answering;
     Collab.normalizeThinkLevel := @Collab.normalizeThinkLevel answering;
     Collab.normalizeVerboseLevel := @Collab.normalizeVerboseLevel answering;
     Collab.extractModelDirective := @Collab.extractModelDirective answering;
     Collab.parseActivationCommand := @Collab.parseActivationCommand answering;
     normalizeGroupActivation := @normalizeGroupActivation answering;
     SILENT_REPLY_TOKEN := @SILENT_REPLY_TOKEN answering;
     normalizeE164 := @normalizeE164 answering;
     lookupContextTokens := @lookupContextTokens answering;
     loadModelCatalog := @loadModelCatalog answering;
     buildWorkspaceSkillSnapshot := @buildWorkspaceSkillSnapshot answering;
     isAudio := @isAudio answering;
     transcribeInboundAudio := @transcribeInboundAudio answering;
     drainSystemEvents := @drainSystemEvents answering;
     buildProviderSummary := @buildProviderSummary answering;
     buildStatusMessage := @buildStatusMessage answering;
     queueEmbeddedPiMessage := fun _ _ => true;
     runEmbeddedPiAgent := @runEmbeddedPiAgent answering;
     deliverCronResult := @deliverCronResult answering;
     clock := @clock answering;
     uuid := @uuid answering |}.

(** [/activation always] sent in a group by the owner of the account. *)
Definition activation_in_group : MsgContext :=
  {| Body := Some (str "/activation always"); From := Some (str "120363@g.us");
     To := Some (str "+15550001"); SenderE164 := Some (str "+15550001");
     ChatType := Some (str "group"); WasMentioned := Some true;
     GroupSubject := None; GroupMembers := None; MediaPath := None;
     MediaType := None; MediaUrl := None |}.

(** The store of the examples after the run of the session was aborted. *)
Definition aborted_store : gmap text SessionEntry :=
  {[ str "+15550001" := set_abortedLastRun (Some true) (record "old" 1000) ]}.

(** A record whose override names a model that is not in the catalog. *)
Definition stale_override : SessionEntry :=
  set_providerOverride (Some (str "custom"))
    (set_modelOverride (Some (str "llama")) (record "old" 1000)).

End Sample.

(** * Properties *)

(** ** Allow-list fail-open *)

Module ModelSelectionFacts.
Import Text ModelSelection.

Lemma collectAllowed_no_valid catalog dp rawAllowlist acc :
  forallb (fun raw => negb (valid_entry catalog dp raw)) rawAllowlist = true ->
  collectAllowed (catalogKeys catalog) dp rawAllowlist acc = acc.
Proof.
  revert acc. induction rawAllowlist as [|raw rest IH]; intros acc H; simpl in *.
  - reflexivity.
  - apply andb_true_iff in H as [Hraw Hrest].
    unfold valid_entry in Hraw.
    destruct (parseModelRef raw dp) as [parsed|]; [|now apply IH].
    apply negb_true_iff in Hraw. rewrite Hraw. now apply IH.
Qed.

Lemma filter_none_in_empty (catalog : list ModelCatalogEntry) :
  List.filter (fun e => bool_decide (entryKey e ∈ (∅ : gset text))) catalog = [].
Proof.
  induction catalog as [|e l IH]; [reflexivity|].
  cbn [List.filter]. rewrite bool_decide_eq_false_2; [exact IH|].
  apply not_elem_of_empty.
Qed.

(** C4. An allow-list none of whose entries names a catalog model gives
    the result of an absent allow-list: every model allowed, the whole
    catalog, all catalog keys. *)
Theorem allowlist_without_valid_entry_is_no_allowlist
    (allowedModels : option (list text)) (catalog : list ModelCatalogEntry)
    (defaultProvider : text) :
  forallb (fun raw => negb (valid_entry catalog defaultProvider raw))
    (default [] allowedModels) = true ->
  buildAllowedModelSet allowedModels catalog defaultProvider
    = buildAllowedModelSet None catalog defaultProvider
  /\ buildAllowedModelSet allowedModels catalog defaultProvider
    = {| allowAny := true; allowedCatalog := catalog;
         allowedKeys := catalogKeys catalog |}.
Proof.
  intros Hnone.
  assert (Habsent : buildAllowedModelSet None catalog defaultProvider
                    = {| allowAny := true; allowedCatalog := catalog;
                         allowedKeys := catalogKeys catalog |}) by reflexivity.
  assert (Hopen : buildAllowedModelSet allowedModels catalog defaultProvider
                  = {| allowAny := true; allowedCatalog := catalog;
                       allowedKeys := catalogKeys catalog |}).
  { unfold buildAllowedModelSet.
    destruct (bool_decide (length (default [] allowedModels) = 0%nat));
      [reflexivity|].
    rewrite (collectAllowed_no_valid _ _ _ ∅ Hnone).
    rewrite filter_none_in_empty. reflexivity. }
  split; [now rewrite Hopen, Habsent | exact Hopen].
Qed.

End ModelSelectionFacts.

Module ModelSelectionExamples.
Import Text ModelSelection ModelSelectionFacts.

Lemma allowlist_without_valid_entry_is_no_allowlist_witness :
  forallb (fun raw => negb (valid_entry Sample.catalog (str "anthropic") raw))
    (default [] (Some [str "nope/none"; str " / "])) = true
  /\ buildAllowedModelSet (Some [str "nope/none"; str " / "]) Sample.catalog
       (str "anthropic")
     = buildAllowedModelSet None Sample.catalog (str "anthropic")
  /\ buildAllowedModelSet (Some [str "nope/none"; str " / "]) Sample.catalog
       (str "anthropic")
     = {| allowAny := true; allowedCatalog := Sample.catalog;
          allowedKeys := catalogKeys Sample.catalog |}.
Proof.
  split; [vm_compute; reflexivity|].
  apply (allowlist_without_valid_entry_is_no_allowlist
           (Some [str "nope/none"; str " / "]) Sample.catalog (str "anthropic")).
  vm_compute. reflexivity.
Defined.

End ModelSelectionExamples.

(** ** The scheduled turn *)

Module CronFacts.
Import Sessions Config Agent Collab Effects ModelSelection Cron.

Section WithCollaborators.
Context {col : Collaborators}.

(** The record [resolveCronSession] builds, field by field. *)
Lemma resolveCronSession_record cfg sessionKey nowMs w :
  let r := resolveCronSession cfg sessionKey nowMs w in
  let old := disk w !! sessionKey in
  let fresh := is_fresh old nowMs (idleMs_of cfg) in
  let e := cron_sessionEntry (fst r) in
  disk (snd r) = disk w /\ calls (snd r) = calls w /\ ticks (snd r) = ticks w
  /\ cron_store (fst r) = disk w
  /\ cron_isNewSession (fst r) = negb fresh
  /\ systemSent e = Some (cron_systemSent (fst r))
  /\ sessionId e
     = (if fresh then default [] (sessionId <$> old) else uuid (drawn w))
  /\ updatedAt e = nowMs
  /\ Sessions.model e = old ≫= Sessions.model
  /\ contextTokens e = old ≫= contextTokens
  /\ skillsSnapshot e = None
  /\ inputTokens e = None /\ outputTokens e = None /\ totalTokens e = None
  /\ groupActivationNeedsSystemIntro e = None
  /\ dropped_fields_absent e
  /\ kept_fields old e.
Proof.
  unfold resolveCronSession, bind, loadSessionStore, randomUUID, ret.
  cbn [fst snd].
  destruct (disk w !! sessionKey) as [e|];
    [destruct (is_fresh (Some e) nowMs (idleMs_of cfg))|];
    cbn; unfold dropped_fields_absent, kept_fields; cbn; intuition reflexivity.
Qed.

(** C10.  After a scheduled turn the record under the key is the one the
    turn rebuilt, whatever the store held before.  Its session identifier
    is that of the previous record when that record is fresh and a new
    one otherwise, and the agent engine ran with it; [updatedAt] is the
    time read by the turn (read again when the skill snapshot is stored);
    [systemSent] is set; the level and delivery fields are those of the
    previous record; [model] and [contextTokens] are those of the previous
    record when the run fails and those of the run when it succeeds; the
    token counts are absent unless the run reports its usage; there is no
    model or provider override, no abort flag and no group activation;
    and the agent engine was run once, on the configured default provider
    and model. *)
Theorem cron_turn_rebuilds_record
    (cfg : ClawdisConfig) (job : CronJob) (message sessionKey : text)
    (lane : option text) (w : World) :
  let w' := snd (runCronIsolatedAgentTurn cfg job message sessionKey lane w) in
  let old := disk w !! sessionKey in
  let fresh := is_fresh old (clock (ticks w)) (idleMs_of cfg) in
  let skills := buildWorkspaceSkillSnapshot cfg in
  exists e p,
    disk w' !! sessionKey = Some e
    /\ calls w' = RunAgent p :: calls w
    /\ run_provider p = provider (configured_ref cfg)
    /\ run_model p = model (configured_ref cfg)
    /\ run_sessionId p = sessionId e
    /\ prompt p = cron_prompt job message
    /\ sessionId e
       = (if fresh then default [] (sessionId <$> old) else uuid (drawn w))
    /\ updatedAt e
       = (if bool_decide (is_Some skills) then clock (S (ticks w))
          else clock (ticks w))
    /\ systemSent e = Some true
    /\ kept_fields old e
    /\ match runEmbeddedPiAgent p with
       | inl _ =>
           Sessions.model e = old ≫= Sessions.model
           /\ contextTokens e = old ≫= contextTokens
           /\ inputTokens e = None /\ outputTokens e = None
           /\ totalTokens e = None
       | inr runResult =>
           let modelUsed :=
             default (model (configured_ref cfg))
               (agentMeta runResult ≫= meta_model) in
           Sessions.model e = Some modelUsed
           /\ contextTokens e
              = Some match agent_opt agent_contextTokens cfg with
                     | Some c => c
                     | None =>
                         default DEFAULT_CONTEXT_TOKENS
                           (lookupContextTokens modelUsed)
                     end
           /\ match agentMeta runResult ≫= usage with
              | Some u =>
                  let input := default 0 (usage_input u) in
                  let promptTokens :=
                    input + default 0 (cacheRead u) + default 0 (cacheWrite u) in
                  inputTokens e = Some input
                  /\ outputTokens e = Some (default 0 (usage_output u))
                  /\ totalTokens e
                     = Some (if 0 <? promptTokens then promptTokens
                             else default input (usage_total u))
              | None =>
                  inputTokens e = None /\ outputTokens e = None
                  /\ totalTokens e = None
              end
       end
    /\ dropped_fields_absent e
    /\ groupActivationNeedsSystemIntro e = None
    /\ skillsSnapshot e = skills.
Proof.
  cbv zeta.
  destruct (runCronIsolatedAgentTurn cfg job message sessionKey lane w)
    as [res w'] eqn:Hrun.
  cbn [snd].
  unfold runCronIsolatedAgentTurn in Hrun.
  unfold bind at 1 in Hrun. unfold Date_now at 1 in Hrun. cbn [fst snd] in Hrun.
  unfold bind at 1 in Hrun.
  match type of Hrun with
  | context [resolveCronSession cfg sessionKey ?n ?w1] =>
      pose proof (resolveCronSession_record cfg sessionKey n w1) as Hres;
      destruct (resolveCronSession cfg sessionKey n w1) as [cs w2]
  end.
  unfold Date_now in Hres, Hrun.
  cbn [fst snd disk calls ticks drawn] in Hres, Hrun.
  set (old := disk w !! sessionKey) in *.
  set (fresh := is_fresh old (clock (ticks w)) (idleMs_of cfg)) in *.
  clearbody fresh. clearbody old.
  destruct Hres as (Hdisk & Hcalls & Hticks & Hstore & Hnew & Hsent & Hid & Hupd
                    & Hmodel & Hctx & Hskills & Hin & Hout & Htot & Hintro
                    & Hdrop & Hkept).
  unfold dropped_fields_absent in Hdrop. unfold kept_fields in Hkept.
  destruct Hdrop as (Hd1 & Hd2 & Hd3 & Hd4). destruct Hkept as (Hk1 & Hk2 & Hk3 & Hk4).
  unfold dropped_fields_absent, kept_fields.
  rewrite Hskills in Hrun.
  rewrite (bool_decide_eq_false_2 (is_Some (@None SkillSnapshot))) in Hrun
    by (intros [? ?]; discriminate).
  rewrite orb_true_r in Hrun. cbn [negb orb andb] in Hrun.
  unfold bind at 1 in Hrun.
  (* the write of the skills *)
  match type of Hrun with
  | context [(if ?c then ?a else ret ?b) w2] =>
      set (es1 := (if c then a else ret b) w2) in Hrun;
      assert (Hes1 :
        let e1 := fst (fst es1) in
        calls (snd es1) = calls w
        /\ updatedAt e1
           = (if bool_decide (is_Some (buildWorkspaceSkillSnapshot cfg))
              then clock (S (ticks w)) else clock (ticks w))
        /\ skillsSnapshot e1 = buildWorkspaceSkillSnapshot cfg
        /\ systemSent e1 = systemSent (cron_sessionEntry cs)
        /\ sessionId e1 = sessionId (cron_sessionEntry cs)
        /\ Sessions.model e1 = Sessions.model (cron_sessionEntry cs)
        /\ contextTokens e1 = contextTokens (cron_sessionEntry cs)
        /\ inputTokens e1 = None /\ outputTokens e1 = None /\ totalTokens e1 = None
        /\ groupActivationNeedsSystemIntro e1 = None
        /\ (modelOverride e1 = None /\ providerOverride e1 = None
            /\ abortedLastRun e1 = None /\ groupActivation e1 = None)
        /\ (thinkingLevel e1 = old ≫= thinkingLevel
            /\ verboseLevel e1 = old ≫= verboseLevel
            /\ lastChannel e1 = old ≫= lastChannel
            /\ lastTo e1 = old ≫= lastTo));
      [ subst es1; cbv zeta;
        destruct (buildWorkspaceSkillSnapshot cfg) as [sk|] eqn:Hsk;
        [ rewrite !(bool_decide_eq_true_2 (is_Some (Some sk)))
            by (eexists; reflexivity);
          unfold bind, Date_now, put_and_save, saveSessionStore, ret;
          cbn [fst snd calls ticks]; rewrite Hticks; cbn;
          repeat split; first [assumption | reflexivity | tauto]
        | rewrite !(bool_decide_eq_false_2 (is_Some (@None SkillSnapshot)))
            by (intros [? ?]; discriminate);
          unfold ret; cbn [fst snd];
          repeat split; first [assumption | reflexivity | tauto] ]
      | ]
  end.
  destruct es1 as [[entry1 store1] w3]. cbn [fst snd] in Hes1, Hrun.
  cbv zeta in Hes1.
  destruct Hes1 as (Hcalls3 & Hupd1 & Hsk1 & Hsent1 & Hid1 & Hmodel1 & Hctx1
                    & Hin1 & Hout1 & Htot1 & Hintro1 & (Hd11 & Hd12 & Hd13 & Hd14)
                    & (Hk11 & Hk12 & Hk13 & Hk14)).
  (* the write before the run *)
  match type of Hrun with
  | context [put_and_save store1 sessionKey ?e] =>
      set (entry2 := e) in Hrun;
      assert (H2 :
        systemSent entry2 = Some true
        /\ updatedAt entry2 = updatedAt entry1
        /\ skillsSnapshot entry2 = skillsSnapshot entry1
        /\ sessionId entry2 = sessionId entry1
        /\ Sessions.model entry2 = Sessions.model entry1
        /\ contextTokens entry2 = contextTokens entry1
        /\ inputTokens entry2 = None /\ outputTokens entry2 = None
        /\ totalTokens entry2 = None
        /\ groupActivationNeedsSystemIntro entry2 = None
        /\ (modelOverride entry2 = None /\ providerOverride entry2 = None
            /\ abortedLastRun entry2 = None /\ groupActivation entry2 = None)
        /\ (thinkingLevel entry2 = old ≫= thinkingLevel
            /\ verboseLevel entry2 = old ≫= verboseLevel
            /\ lastChannel entry2 = old ≫= lastChannel
            /\ lastTo entry2 = old ≫= lastTo));
      [ subst entry2; rewrite Hnew;
        destruct fresh; cbn [negb orb];
        [ destruct (cron_systemSent cs) eqn:Hss; cbn;
          repeat split; first [assumption | reflexivity | tauto | congruence]
        | cbn; repeat split; first [assumption | reflexivity | tauto] ]
      | clearbody entry2 ]
  end.
  destruct H2 as (Hsent2 & Hupd2 & Hsk2 & Hid2 & Hmodel2 & Hctx2 & Hin2 & Hout2
                  & Htot2 & Hintro2 & (Hd21 & Hd22 & Hd23 & Hd24)
                  & (Hk21 & Hk22 & Hk23 & Hk24)).
  unfold bind at 1, put_and_save at 1, bind at 1, saveSessionStore at 1,
    ret at 1 in Hrun.
  cbn [fst snd] in Hrun.
  unfold bind at 1, call_agent at 1, bind at 1, record_call at 1, ret at 1 in Hrun.
  cbn [fst snd] in Hrun.
  match type of Hrun with
  | context [runEmbeddedPiAgent ?p] =>
      set (params := p) in Hrun;
      assert (Hparams : run_provider params = provider (configured_ref cfg)
                        /\ run_model params = model (configured_ref cfg)
                        /\ run_sessionId params = sessionId entry2
                        /\ prompt params = cron_prompt job message)
        by (repeat split; reflexivity);
      clearbody params
  end.
  destruct Hparams as (Hpp & Hpm & Hpid & Hprompt).
  destruct (runEmbeddedPiAgent params) as [failure|runResult] eqn:Hagent.
  - unfold ret in Hrun. injection Hrun as <- <-. cbn [disk calls].
    exists entry2, params. rewrite Hagent.
    split; [apply lookup_insert_eq|].
    split; [now rewrite Hcalls3|].
    repeat split; try assumption; try tauto; congruence.
  - unfold bind at 1, put_and_save at 1, bind at 1, saveSessionStore at 1,
      ret in Hrun.
    cbn [fst snd] in Hrun. injection Hrun as <- <-. cbn [disk calls].
    eexists. exists params. rewrite Hagent.
    split; [apply lookup_insert_eq|].
    split; [now rewrite Hcalls3|].
    destruct (agentMeta runResult ≫= usage) as [u|] eqn:Hu;
      cbn; repeat split; try assumption; try tauto; try congruence.
Qed.

End WithCollaborators.
End CronFacts.

(** ** Freshness and the reuse of a session *)

Module FreshnessFacts.
Import Sessions Config Agent Collab Effects Reply.

Section WithCollaborators.
Context {col : Collaborators}.

Lemma is_fresh_iff (e : SessionEntry) (now idleMs : Z) :
  is_fresh (Some e) now idleMs = true <-> now - updatedAt e <= idleMs.
Proof. unfold is_fresh. apply Z.leb_le. Qed.

Lemma is_fresh_stale (e : SessionEntry) (now idleMs : Z) :
  is_fresh (Some e) now idleMs = false <-> now - updatedAt e > idleMs.
Proof. unfold is_fresh. rewrite Z.leb_gt. lia. Qed.

(** What session initialisation decides, given the record under the key. *)
Lemma initSession_decision ctx cfg isNewSession w e :
  disk w !! sessionKey_of ctx cfg = Some e ->
  let r := fst (initSession ctx cfg isNewSession w) in
  let reuse :=
    negb isNewSession && is_fresh (Some e) (clock (ticks w)) (idleMs_of cfg) in
  init_isNewSession r = negb reuse
  /\ init_sessionId r = (if reuse then sessionId e else uuid (drawn w)).
Proof.
  intros He. unfold initSession, bind, loadSessionStore, freshEntry_of.
  cbn [fst snd]. rewrite He.
  unfold bind, Date_now, ret. cbn [fst snd].
  destruct (negb isNewSession
            && is_fresh (Some e) (clock (ticks w)) (idleMs_of cfg));
    cbn; split; reflexivity.
Qed.

(** C1, as amended.  The check is [now - T <= W]: fresh at [T + W], stale
    at [T + W + 1].  In the interactive path a fresh record keeps its
    identifier and the turn is not new provided no reset trigger matched
    the message; a stale record, or a matched trigger, gives a generated
    identifier and a new session. *)
Theorem fresh_record_reused_unless_reset
    (ctx : MsgContext) (cfg : ClawdisConfig) (w : World) (e : SessionEntry) :
  disk w !! sessionKey_of ctx cfg = Some e ->
  let W := idleMs_of cfg in
  let T := updatedAt e in
  let now := clock (ticks w) in
  let r := fst (initSession ctx cfg (fst (resolveReset ctx cfg)) w) in
  (forall t, is_fresh (Some e) t W = true <-> t - T <= W)
  /\ is_fresh (Some e) (T + W) W = true
  /\ is_fresh (Some e) (T + W + 1) W = false
  /\ (now - T <= W -> fst (resolveReset ctx cfg) = false ->
      init_sessionId r = sessionId e /\ init_isNewSession r = false)
  /\ (now - T > W \/ fst (resolveReset ctx cfg) = true ->
      init_sessionId r = uuid (drawn w) /\ init_isNewSession r = true).
Proof.
  intros He W T now r.
  destruct (initSession_decision ctx cfg (fst (resolveReset ctx cfg)) w e He)
    as [Hnew Hid].
  fold r in Hnew, Hid. fold W in Hnew, Hid.
  split; [intros t; apply is_fresh_iff|].
  split; [apply is_fresh_iff; subst T; lia|].
  split; [apply is_fresh_stale; subst T; lia|].
  split.
  - intros Hfresh Hreset. apply is_fresh_iff in Hfresh.
    fold now in Hnew, Hid. rewrite Hreset, Hfresh in Hnew, Hid. cbn in Hnew, Hid.
    split; assumption.
  - intros Hor. fold now in Hnew, Hid.
    assert (Hreuse : negb (fst (resolveReset ctx cfg))
                     && is_fresh (Some e) now W = false).
    { destruct Hor as [Hstale|Hreset].
      - apply is_fresh_stale in Hstale. rewrite Hstale. apply andb_false_r.
      - rewrite Hreset. reflexivity. }
    rewrite Hreuse in Hnew, Hid. split; assumption.
Qed.

End WithCollaborators.
End FreshnessFacts.

Module FreshnessExamples.
Import Sessions Config Agent Collab Effects Reply Sample FreshnessFacts.

#[local] Existing Instance answering.

(** The record is fresh and no trigger matches: the session is reused. *)
Lemma fresh_record_reused_unless_reset_witness :
  let ctx := message "hello" "+15550001" "+15550001" in
  let r := fst (initSession ctx no_config (fst (resolveReset ctx no_config))
                  (world store)) in
  init_sessionId r = str "old" /\ init_isNewSession r = false.
Proof.
  intros ctx r.
  refine (proj1 (proj2 (proj2 (proj2
    (fresh_record_reused_unless_reset ctx no_config (world store)
       (record "old" 1000) _)))) _ _).
  - vm_compute. reflexivity.
  - vm_compute. discriminate.
  - vm_compute. reflexivity.
Defined.

(** Counterexample to C1 as stated: the record is fresh at the time of
    the turn, yet the message [/new] gets a generated identifier and a new
    session, and that identifier is what the store holds afterwards. *)
Lemma fresh_record_not_reused_on_reset :
  let ctx := message "/new" "+15550001" "+15550001" in
  let w := world store in
  let r := fst (initSession ctx no_config (fst (resolveReset ctx no_config)) w) in
  is_fresh (disk w !! str "+15550001") (clock (ticks w)) (idleMs_of no_config) = true
  /\ init_sessionId r = str "id0"
  /\ init_isNewSession r = true
  /\ sessionId <$> disk (snd (getReplyFromConfig ctx no_config w)) !! str "+15550001"
     = Some (str "id0").
Proof. vm_compute. repeat split; reflexivity. Qed.

End FreshnessExamples.

(** ** Reasoning about a turn *)

Module TurnFacts.
Import Text Sessions Config Agent Collab Effects ModelSelection Reply.

Section WithCollaborators.
Context {col : Collaborators}.

(** *** Stages *)

Lemma and_then_ends {A B} (c : Stage A) (f : A -> Stage B) w o w' :
  c w = (inl o, w') -> and_then c f w = (inl o, w').
Proof. intros H. unfold and_then, bind. rewrite H. reflexivity. Qed.

Lemma and_then_goes_on {A B} (c : Stage A) (f : A -> Stage B) w a w' :
  c w = (inr a, w') -> and_then c f w = f a w'.
Proof. intros H. unfold and_then, bind. rewrite H. reflexivity. Qed.

Lemma turn_ends_before_the_agent ctx cfg w o w' :
  upToPrompt ctx cfg w = (inl o, w') -> getReplyFromConfig ctx cfg w = (o, w').
Proof. intros H. unfold getReplyFromConfig, bind. rewrite H. reflexivity. Qed.

Lemma turn_reaches_the_agent ctx cfg w p w' :
  upToPrompt ctx cfg w = (inr p, w') ->
  getReplyFromConfig ctx cfg w = delegateStage cfg p w'.
Proof. intros H. unfold getReplyFromConfig, bind. rewrite H. reflexivity. Qed.

(** A turn answered while handling directives. *)
Lemma turn_ends_in_directives ctx cfg w t w1 o w' :
  openTurn ctx cfg w = (inr t, w1) ->
  directiveStage cfg t w1 = (inl o, w') ->
  getReplyFromConfig ctx cfg w = (o, w').
Proof.
  intros Hopen Hdir. apply turn_ends_before_the_agent.
  unfold upToPrompt, upToCommands, upToDirectives.
  do 2 apply and_then_ends. rewrite (and_then_goes_on _ _ _ _ _ Hopen).
  exact Hdir.
Qed.

(** A turn answered by access control or a command. *)
Lemma turn_ends_in_commands ctx cfg w t w1 o w' :
  upToDirectives ctx cfg w = (inr t, w1) ->
  commandStage cfg t w1 = (inl o, w') ->
  getReplyFromConfig ctx cfg w = (o, w').
Proof.
  intros Hdir Hcmd. apply turn_ends_before_the_agent.
  unfold upToPrompt, upToCommands.
  apply and_then_ends. rewrite (and_then_goes_on _ _ _ _ _ Hdir).
  exact Hcmd.
Qed.

(** *** Computations that call no collaborator *)

Lemma quiet_ret {A} (a : A) : quiet (ret a).
Proof. intros w. reflexivity. Qed.

Lemma quiet_bind {A B} (c : M A) (f : A -> M B) :
  quiet c -> (forall a, quiet (f a)) -> quiet (bind c f).
Proof.
  intros Hc Hf w. unfold bind. cbn zeta. rewrite (Hf (fst (c w)) (snd (c w))).
  apply Hc.
Qed.

Lemma quiet_Date_now : quiet Date_now.
Proof. intros w. reflexivity. Qed.

Lemma quiet_randomUUID : quiet randomUUID.
Proof. intros w. reflexivity. Qed.

Lemma quiet_loadSessionStore : quiet loadSessionStore.
Proof. intros w. reflexivity. Qed.

Lemma quiet_saveSessionStore st : quiet (saveSessionStore st).
Proof. intros w. reflexivity. Qed.

Lemma quiet_abortMemory_set k v : quiet (abortMemory_set k v).
Proof. intros w. reflexivity. Qed.

Lemma quiet_finish {A} (o : Outcome) : quiet (@finish A o).
Proof. apply quiet_ret. Qed.

Lemma quiet_continue {A} (a : A) : quiet (@continue A a).
Proof. apply quiet_ret. Qed.

End WithCollaborators.

Ltac quiet_step :=
  first
    [ apply quiet_ret | apply quiet_finish | apply quiet_continue
    | apply quiet_Date_now | apply quiet_randomUUID
    | apply quiet_loadSessionStore | apply quiet_saveSessionStore
    | apply quiet_abortMemory_set
    | apply quiet_bind; [|intros ?]
    | match goal with
      | |- quiet (if ?b then _ else _) => destruct b
      | |- quiet (match ?x with _ => _ end) => destruct x
      end ].

Section WithCollaborators.
Context {col : Collaborators}.

Lemma quiet_touch_and_save e t : quiet (touch_and_save e t).
Proof. unfold touch_and_save. repeat quiet_step. Qed.

Lemma quiet_initSession ctx cfg isNew : quiet (initSession ctx cfg isNew).
Proof. unfold initSession, freshEntry_of. repeat quiet_step. Qed.

Lemma quiet_validateStoredOverride t : quiet (validateStoredOverride t).
Proof.
  unfold validateStoredOverride.
  repeat first [apply quiet_touch_and_save | quiet_step].
Qed.

Lemma quiet_openTurn ctx cfg : quiet (openTurn ctx cfg).
Proof.
  unfold openTurn.
  repeat first [apply quiet_initSession | apply quiet_validateStoredOverride
               | quiet_step].
Qed.

Lemma quiet_directiveStage cfg t : quiet (directiveStage cfg t).
Proof.
  unfold directiveStage, answerDirectives, commit_directives,
    persistInlineDirectives.
  repeat first [apply quiet_touch_and_save | quiet_step].
Qed.

Lemma quiet_upToDirectives ctx cfg : quiet (upToDirectives ctx cfg).
Proof.
  unfold upToDirectives, and_then.
  repeat first [apply quiet_openTurn | apply quiet_directiveStage | quiet_step].
Qed.

End WithCollaborators.
End TurnFacts.

(** ** Owner-only commands in a group *)

Module GroupGateFacts.
Import Text Sessions Config Agent Collab Effects ModelSelection Reply TurnFacts.

Section WithCollaborators.
Context {col : Collaborators}.

Lemma commandStage_drops_non_owner cfg t w :
  isGroup_of (t_ctx t) = true ->
  isOwnerSender (t_ctx t) cfg = false ->
  hasCommand (parseActivationCommand (commandBodyNormalized (t_ctx t) cfg)) = true
  \/ isRestartCommand (commandBodyNormalized (t_ctx t) cfg) = true ->
  commandStage cfg t w = (inl no_reply, w).
Proof.
  intros Hgroup Howner Hcmd. unfold commandStage.
  rewrite Hgroup, Howner.
  destruct (senderRefused (t_ctx t) cfg); [reflexivity|].
  destruct (hasCommand (parseActivationCommand (commandBodyNormalized (t_ctx t) cfg)));
    [reflexivity|].
  destruct Hcmd as [Habs|Hrestart]; [discriminate|].
  rewrite Hrestart. reflexivity.
Qed.

End WithCollaborators.
End GroupGateFacts.

(** ** Invalid levels *)

Module InvalidLevelFacts.
Import Text Sessions Config Agent Collab Effects ModelSelection Reply TurnFacts.

Section WithCollaborators.
Context {col : Collaborators}.

Lemma persist_think_invalid t e :
  truthy_opt (inlineThink t) = false -> persist_think t e = e.
Proof.
  unfold persist_think, truthy_opt. intros H.
  destruct (inlineThink t) as [level|]; [|reflexivity].
  rewrite H, andb_false_r. reflexivity.
Qed.

Lemma persist_verbose_invalid t e :
  truthy_opt (inlineVerbose t) = false -> persist_verbose t e = e.
Proof.
  unfold persist_verbose, truthy_opt. intros H.
  destruct (inlineVerbose t) as [level|]; [|reflexivity].
  rewrite H, andb_false_r. reflexivity.
Qed.

Lemma store_selection_keeps_levels sel e :
  thinkingLevel (store_selection sel e) = thinkingLevel e
  /\ verboseLevel (store_selection sel e) = verboseLevel e.
Proof. unfold store_selection. destruct (isDefault sel); split; reflexivity. Qed.

Lemma store_verbose_keeps_think level e :
  thinkingLevel (store_verbose level e) = thinkingLevel e.
Proof. unfold store_verbose. destruct (Text.eqb _ _); reflexivity. Qed.

Lemma store_think_keeps_verbose level e :
  verboseLevel (store_think level e) = verboseLevel e.
Proof. unfold store_think. destruct (Text.eqb _ _); reflexivity. Qed.

Lemma persist_verbose_keeps_think t e :
  thinkingLevel (persist_verbose t e) = thinkingLevel e.
Proof.
  unfold persist_verbose. destruct (inlineVerbose t); [|reflexivity].
  destruct (_ && _); [apply store_verbose_keeps_think | reflexivity].
Qed.

Lemma persist_think_keeps_verbose t e :
  verboseLevel (persist_think t e) = verboseLevel e.
Proof.
  unfold persist_think. destruct (inlineThink t); [|reflexivity].
  destruct (_ && _); [apply store_think_keeps_verbose | reflexivity].
Qed.

(** What inline persistence leaves of the two levels. *)
Lemma persistInlineDirectives_levels cfg t w :
  let t' := fst (persistInlineDirectives cfg t w) in
  (truthy_opt (inlineThink t) = false ->
   thinkingLevel (t_sessionEntry t') = thinkingLevel (t_sessionEntry t))
  /\ (truthy_opt (inlineVerbose t) = false ->
      verboseLevel (t_sessionEntry t') = verboseLevel (t_sessionEntry t))
  /\ t_modelDirective t' = t_modelDirective t.
Proof.
  unfold persistInlineDirectives.
  destruct (truthy (t_sessionKey t)); [|cbn; tauto].
  set (sel := inline_selection t).
  set (e2 := match sel with
             | Some ms => store_selection ms _
             | None => _
             end).
  assert (He2 : thinkingLevel e2
                = thinkingLevel (persist_verbose t (persist_think t (t_sessionEntry t)))
                /\ verboseLevel e2
                   = verboseLevel (persist_verbose t (persist_think t (t_sessionEntry t)))).
  { subst e2. destruct sel; [apply store_selection_keeps_levels | tauto]. }
  destruct He2 as [Hth Hvb]. clearbody e2.
  destruct (_ || _).
  - unfold touch_and_save, bind, Date_now, saveSessionStore, ret.
    cbn [fst snd]. destruct sel; cbn;
      (split; [intros H; rewrite Hth, persist_verbose_keeps_think,
                 (persist_think_invalid _ _ H); reflexivity|]);
      (split; [intros H; rewrite Hvb, (persist_verbose_invalid _ _ H),
                 persist_think_keeps_verbose; reflexivity|]);
      reflexivity.
  - unfold ret. cbn [fst]. destruct sel; cbn; tauto.
Qed.

(** Where the directives of a message are handled.  In a turn that
    consists of directives only, and in which no bare [/model] asks for
    the listing, a think or verbose directive whose level is not
    recognised is answered with the correction: the turn ends there, no
    collaborator is called and nothing more is written.  When other text
    follows, the turn is not answered at this point: the invalid level is
    not persisted and the remaining text goes on through the turn. *)
Lemma invalid_level_where_directives_are_handled
    (ctx : MsgContext) (cfg : ClawdisConfig) (w : World) (t : Turn) (w1 : World) :
  openTurn ctx cfg w = (inr t, w1) ->
  hasModelDirective t && negb (truthy_opt (rawModelDirective t)) = false ->
  (directiveOnly cfg t = true ->
   (hasThinkDirective t = true -> truthy_opt (inlineThink t) = false ->
    getReplyFromConfig ctx cfg w = (reply_text (unrecognized_think t), w1))
   /\ (hasThinkDirective t && negb (truthy_opt (inlineThink t)) = false ->
       hasVerboseDirective t = true -> truthy_opt (inlineVerbose t) = false ->
       getReplyFromConfig ctx cfg w = (reply_text (unrecognized_verbose t), w1)))
  /\ calls w1 = calls w
  /\ (directiveOnly cfg t = false ->
      exists t' w2,
        directiveStage cfg t w1 = (inr t', w2)
        /\ modelCleaned t' = modelCleaned t
        /\ (truthy_opt (inlineThink t) = false ->
            thinkingLevel (t_sessionEntry t') = thinkingLevel (t_sessionEntry t))
        /\ (truthy_opt (inlineVerbose t) = false ->
            verboseLevel (t_sessionEntry t') = verboseLevel (t_sessionEntry t))).
Proof.
  intros Hopen Hlisting. split; [|split].
  - intros Honly. split.
    + intros Hhas Hbad.
      apply (turn_ends_in_directives ctx cfg w t w1 _ _ Hopen).
      unfold directiveStage. rewrite Honly. unfold answerDirectives.
      rewrite Hlisting, Hhas, Hbad. reflexivity.
    + intros Hthink Hhas Hbad.
      apply (turn_ends_in_directives ctx cfg w t w1 _ _ Hopen).
      unfold directiveStage. rewrite Honly. unfold answerDirectives.
      rewrite Hlisting, Hthink, Hhas, Hbad. reflexivity.
  - pose proof (quiet_openTurn ctx cfg w) as Hq. rewrite Hopen in Hq. exact Hq.
  - intros Hmixed. unfold directiveStage. rewrite Hmixed.
    exists (fst (persistInlineDirectives cfg t w1)),
           (snd (persistInlineDirectives cfg t w1)).
    destruct (persistInlineDirectives_levels cfg t w1) as (Hth & Hvb & Hmd).
    split; [unfold bind, continue, ret; reflexivity|].
    split; [unfold modelCleaned; now rewrite Hmd|].
    split; assumption.
Qed.

End WithCollaborators.
End InvalidLevelFacts.

(** ** Abort *)

Module AbortFacts.
Import Text Sessions Config Agent Collab Effects ModelSelection Reply TurnFacts.

Section WithCollaborators.
Context {col : Collaborators}.

Lemma stop_is_abort_trigger : isAbortTrigger (Some (str "stop")) = true.
Proof. vm_compute. reflexivity. Qed.

Lemma stop_is_no_other_command :
  isRestartCommand (str "stop") = false /\ isStatusCommand (str "stop") = false.
Proof. split; vm_compute; reflexivity. Qed.

Lemma touch_and_save_record e t w :
  let r := touch_and_save e t w in
  disk (snd r) !! t_sessionKey t = Some (set_updatedAt (clock (ticks w)) e)
  /\ calls (snd r) = calls w.
Proof.
  unfold touch_and_save, bind, Date_now, saveSessionStore, ret. cbn.
  split; [apply lookup_insert_eq | reflexivity].
Qed.

Lemma commandStage_abort cfg t w :
  senderRefused (t_ctx t) cfg = false ->
  triggerBodyNormalized_of (t_ctx t) = str "stop" ->
  commandBodyNormalized (t_ctx t) cfg = str "stop" ->
  hasCommand (parseActivationCommand (str "stop")) = false ->
  truthy (t_sessionKey t) = true ->
  commandStage cfg t w
  = (inl (reply_text abort_ack),
     snd (touch_and_save (set_abortedLastRun (Some true) (t_sessionEntry t)) t w)).
Proof.
  intros Hsender Htrigger Hbody Hact Hkey. unfold commandStage.
  rewrite Hsender, Hbody, Hact, Htrigger.
  rewrite (proj1 stop_is_no_other_command), (proj2 stop_is_no_other_command).
  rewrite stop_is_abort_trigger, Hkey.
  reflexivity.
Qed.

(** C8, as amended.  When the normalized body is exactly [stop] (also
    after mention stripping in a group), the sender passes access control,
    the message was not answered as a pure directive turn, and the key is
    a non-empty string, the turn sets [abortedLastRun] of the record under
    the key in the persisted store, answers with the fixed
    acknowledgement and calls no collaborator. *)
Theorem stop_aborts_the_session
    (ctx : MsgContext) (cfg : ClawdisConfig) (w : World) (t : Turn) (w1 : World) :
  upToDirectives ctx cfg w = (inr t, w1) ->
  senderRefused (t_ctx t) cfg = false ->
  triggerBodyNormalized_of (t_ctx t) = str "stop" ->
  commandBodyNormalized (t_ctx t) cfg = str "stop" ->
  hasCommand (parseActivationCommand (str "stop")) = false ->
  truthy (t_sessionKey t) = true ->
  let r := getReplyFromConfig ctx cfg w in
  fst r = reply_text abort_ack
  /\ (exists e, disk (snd r) !! t_sessionKey t = Some e
                /\ abortedLastRun e = Some true)
  /\ calls (snd r) = calls w.
Proof.
  intros Hdir Hsender Htrigger Hbody Hact Hkey r.
  assert (Hr : r = (reply_text abort_ack,
                    snd (touch_and_save
                           (set_abortedLastRun (Some true) (t_sessionEntry t)) t w1))).
  { subst r. apply (turn_ends_in_commands ctx cfg w t w1 _ _ Hdir).
    now apply commandStage_abort. }
  rewrite Hr. cbn [fst snd].
  destruct (touch_and_save_record
              (set_abortedLastRun (Some true) (t_sessionEntry t)) t w1)
    as [Hrec Hcalls].
  split; [reflexivity|]. split.
  - eexists. split; [exact Hrec | reflexivity].
  - rewrite Hcalls. pose proof (quiet_upToDirectives ctx cfg w) as Hq.
    rewrite Hdir in Hq. exact Hq.
Qed.

End WithCollaborators.
End AbortFacts.

Module AbortExamples.
Import Text Sessions Config Agent Collab Effects Reply Sample AbortFacts.

#[local] Existing Instance answering.

(** The owner of the account, in a chat with themselves, with a session. *)
Lemma stop_aborts_the_session_witness :
  let ctx := message "stop" "+15550001" "+15550001" in
  let w := world {[ str "+15550001" := record "old" 1000 ]} in
  let r := upToDirectives ctx no_config w in
  exists t,
    r = (inr t, snd r)
    /\ senderRefused (t_ctx t) no_config = false
    /\ triggerBodyNormalized_of (t_ctx t) = str "stop"
    /\ commandBodyNormalized (t_ctx t) no_config = str "stop"
    /\ hasCommand (Collab.parseActivationCommand (str "stop")) = false
    /\ truthy (t_sessionKey t) = true
    /\ fst (getReplyFromConfig ctx no_config w) = reply_text abort_ack
    /\ (exists e, disk (snd (getReplyFromConfig ctx no_config w)) !! t_sessionKey t
                  = Some e /\ abortedLastRun e = Some true)
    /\ calls (snd (getReplyFromConfig ctx no_config w)) = calls w.
Proof.
  intros ctx w r.
  destruct r as [[o|t] w1] eqn:Hr; [vm_compute in Hr; discriminate|].
  assert (Ht : t = match fst r with inr t => t | inl _ => t end)
    by (subst r; rewrite Hr; reflexivity).
  exists t. cbn [snd].
  assert (H1 : senderRefused (t_ctx t) no_config = false)
    by (rewrite Ht; vm_compute; reflexivity).
  assert (H2 : triggerBodyNormalized_of (t_ctx t) = str "stop")
    by (rewrite Ht; vm_compute; reflexivity).
  assert (H3 : commandBodyNormalized (t_ctx t) no_config = str "stop")
    by (rewrite Ht; vm_compute; reflexivity).
  assert (H4 : hasCommand (Collab.parseActivationCommand (str "stop")) = false)
    by (vm_compute; reflexivity).
  assert (H5 : truthy (t_sessionKey t) = true)
    by (rewrite Ht; vm_compute; reflexivity).
  do 6 (split; [first [reflexivity | assumption]|]).
  exact (stop_aborts_the_session ctx no_config w t w1 Hr H1 H2 H3 H4 H5).
Defined.

(** Counterexample to C8 as stated: [stop] from a sender who is not on
    the allow list (by default the recipient alone) is dropped by access
    control before the abort check.  The session record exists, yet the
    turn returns nothing and the abort flag is not set. *)
Lemma stop_from_refused_sender_is_dropped :
  let ctx := message "stop" "+15550002" "+15550001" in
  let w := world {[ str "+15550002" := record "old" 1000 ]} in
  let r := getReplyFromConfig ctx no_config w in
  triggerBodyNormalized_of ctx = str "stop"
  /\ is_Some (disk w !! str "+15550002")
  /\ fst r = no_reply
  /\ (disk (snd r) !! str "+15550002") ≫= abortedLastRun = Some false.
Proof.
  vm_compute. split; [reflexivity|]. split; [eexists; reflexivity|].
  split; reflexivity.
Qed.

End AbortExamples.

(** ** The inline model selector *)

Module ModelDirectiveFacts.
Import Text Sessions Config Agent Collab Effects ModelSelection Reply TurnFacts.
Import AbortFacts.

Section WithCollaborators.
Context {col : Collaborators}.

Lemma store_selection_overrides t parsed e :
  let e' := store_selection (selection_of t parsed) e in
  (is_default_pair t parsed = true ->
   modelOverride e' = None /\ providerOverride e' = None)
  /\ (is_default_pair t parsed = false ->
      modelOverride e' = Some (model parsed)
      /\ providerOverride e' = Some (provider parsed)).
Proof.
  unfold store_selection, selection_of. cbn.
  destruct (is_default_pair t parsed); split; intros H;
    first [discriminate | split; reflexivity].
Qed.

Lemma inline_selection_parsed t raw parsed :
  hasModelDirective t = true ->
  rawModelDirective t = Some raw -> truthy raw = true ->
  parseModelRef raw (t_defaultProvider t) = Some parsed ->
  inline_selection t
  = if pair_allowed t parsed then Some (selection_of t parsed) else None.
Proof.
  intros Hhas Hraw Htruthy Hparse. unfold inline_selection, pair_allowed.
  rewrite Hraw, Hhas, Htruthy, Hparse. reflexivity.
Qed.

Lemma answerDirectives_parsed {A} t raw parsed :
  hasModelDirective t = true ->
  rawModelDirective t = Some raw -> truthy raw = true ->
  parseModelRef raw (t_defaultProvider t) = Some parsed ->
  hasThinkDirective t && negb (truthy_opt (inlineThink t)) = false ->
  hasVerboseDirective t && negb (truthy_opt (inlineVerbose t)) = false ->
  @answerDirectives col A t
  = if pair_allowed t parsed
    then commit_directives t (Some (selection_of t parsed))
    else finish (reply_text (model_not_allowed parsed)).
Proof.
  intros Hhas Hraw Htruthy Hparse Hthink Hverbose.
  unfold answerDirectives, pair_allowed.
  rewrite Hraw, Hhas, Hthink, Hverbose, Hparse. cbn [truthy_opt].
  rewrite Htruthy. cbn [negb andb].
  destruct (bool_decide (size (t_allowedModelKeys t) = 0%nat));
    destruct (bool_decide (_ ∈ t_allowedModelKeys t)); reflexivity.
Qed.

End WithCollaborators.
End ModelDirectiveFacts.

(** ** The state of a turn and the persisted store *)

Module SyncFacts.
Import Text Sessions Config Agent Collab Effects ModelSelection Reply TurnFacts.
Import InvalidLevelFacts.

Section WithCollaborators.
Context {col : Collaborators}.

Lemma and_then_goes_on_inv {A B} (c : Stage A) (f : A -> Stage B) w b w' :
  and_then c f w = (inr b, w') ->
  exists a w1, c w = (inr a, w1) /\ f a w1 = (inr b, w').
Proof.
  unfold and_then, bind. cbn zeta.
  destruct (c w) as [[o|a] w1]; cbn [fst snd]; intros H.
  - unfold ret in H. discriminate.
  - exists a, w1. split; [reflexivity | exact H].
Qed.

Lemma kept_refl t : kept t t.
Proof. unfold kept, same_settings. tauto. Qed.

Lemma kept_trans t1 t2 t3 : kept t1 t2 -> kept t2 t3 -> kept t1 t3.
Proof.
  unfold kept, same_settings.
  intros (K1 & I1 & S1 & T1 & V1 & M1 & P1) (K2 & I2 & S2 & T2 & V2 & M2 & P2).
  repeat split; congruence.
Qed.

Lemma touch_and_save_good e t w :
  sessionId e = t_sessionId t ->
  good (fst (touch_and_save e t w)) (snd (touch_and_save e t w)).
Proof.
  intros Hid. unfold touch_and_save, bind, Date_now, saveSessionStore, ret, good,
    synced. cbn. split; [split; [reflexivity | apply lookup_insert_eq] | exact Hid].
Qed.

Lemma touch_and_save_kept e t w :
  same_settings (t_sessionEntry t) e -> kept t (fst (touch_and_save e t w)).
Proof.
  intros Hs. unfold touch_and_save, bind, Date_now, saveSessionStore, ret, kept.
  cbn. split; [reflexivity|]. split; [reflexivity|]. exact Hs.
Qed.

Lemma touch_and_save_disk e t w :
  disk (snd (touch_and_save e t w)) !! t_sessionKey t
  = Some (t_sessionEntry (fst (touch_and_save e t w))).
Proof.
  unfold touch_and_save, bind, Date_now, saveSessionStore, ret. cbn.
  apply lookup_insert_eq.
Qed.

Lemma initSession_good ctx cfg isNew w :
  let r := initSession ctx cfg isNew w in
  disk (snd r) = init_sessionStore (fst r)
  /\ init_sessionStore (fst r) !! init_sessionKey (fst r)
     = Some (init_sessionEntry (fst r))
  /\ sessionId (init_sessionEntry (fst r)) = init_sessionId (fst r).
Proof.
  unfold initSession, bind, loadSessionStore, freshEntry_of. cbn [fst snd].
  set (entry := disk w !! sessionKey_of ctx cfg).
  destruct entry as [e|]; unfold bind, Date_now, ret; cbn [fst snd].
  - destruct (negb isNew && is_fresh (Some e) (clock (ticks w)) (idleMs_of cfg));
      cbn; (split; [reflexivity|]); (split; [apply lookup_insert_eq | reflexivity]).
  - rewrite andb_false_r. cbn.
    split; [reflexivity|]. split; [apply lookup_insert_eq | reflexivity].
Qed.

Lemma validateStoredOverride_good t w :
  good t w ->
  good (fst (validateStoredOverride t w)) (snd (validateStoredOverride t w)).
Proof.
  intros Hgood. unfold validateStoredOverride.
  repeat match goal with
         | |- context [if ?b then _ else _] => destruct b
         | |- context [match ?x with _ => _ end] => destruct x
         end; try exact Hgood.
  unfold bind, ret. cbn [fst snd].
  match goal with
  | |- context [touch_and_save ?e t w] =>
      pose proof (touch_and_save_good e t w (proj2 Hgood)) as Hg
  end.
  destruct Hg as [[Hd Hl] Hid]. split; [split|]; assumption.
Qed.

Lemma openTurn_good ctx cfg w t w1 :
  openTurn ctx cfg w = (inr t, w1) -> good t w1.
Proof.
  unfold openTurn.
  destruct (if _ : bool then transcribeInboundAudio cfg ctx else inr None)
    as [failure|transcribed]; [unfold finish, ret; discriminate|].
  unfold bind at 1.
  match goal with
  | |- context [initSession ?c cfg ?n w] =>
      pose proof (initSession_good c cfg n w) as Hinit;
      destruct (initSession c cfg n w) as [init w0]
  end.
  cbn [fst snd] in Hinit |- *. destruct Hinit as (Hd & Hl & Hid).
  unfold bind at 1.
  match goal with
  | |- context [validateStoredOverride ?t0 w0] =>
      assert (Hg0 : good t0 w0) by (split; [split|]; assumption);
      pose proof (validateStoredOverride_good t0 w0 Hg0) as Hg1;
      destruct (validateStoredOverride t0 w0) as [t1 w2]
  end.
  cbn [fst snd] in Hg1 |- *. unfold continue, ret.
  intros H. injection H as <- <-.
  destruct Hg1 as [[Hd1 Hl1] Hid1]. split; [split|]; assumption.
Qed.

(** *** What the directive stage persists *)

Lemma persist_think_applies t e :
  think_applies t = true ->
  thinkingLevel (persist_think t e) = stored_level (inlineThink t).
Proof.
  unfold think_applies, persist_think, stored_level, truthy_opt. intros H.
  destruct (inlineThink t) as [level|]; [|now rewrite andb_false_r in H].
  rewrite H. unfold store_think. destruct (Text.eqb level (str "off")); reflexivity.
Qed.

Lemma persist_verbose_applies t e :
  verbose_applies t = true ->
  verboseLevel (persist_verbose t e) = stored_level (inlineVerbose t).
Proof.
  unfold verbose_applies, persist_verbose, stored_level, truthy_opt. intros H.
  destruct (inlineVerbose t) as [level|]; [|now rewrite andb_false_r in H].
  rewrite H. unfold store_verbose. destruct (Text.eqb level (str "off")); reflexivity.
Qed.

Lemma persist_levels_keep_rest t e :
  let e' := persist_verbose t (persist_think t e) in
  sessionId e' = sessionId e /\ modelOverride e' = modelOverride e
  /\ providerOverride e' = providerOverride e.
Proof.
  unfold persist_verbose, persist_think, store_verbose, store_think.
  repeat match goal with
         | |- context [match ?x with _ => _ end] => destruct x
         end; cbn; tauto.
Qed.

Lemma store_selection_override sel e :
  providerOverride (store_selection sel e) = fst (override_of sel)
  /\ modelOverride (store_selection sel e) = snd (override_of sel)
  /\ sessionId (store_selection sel e) = sessionId e.
Proof.
  unfold store_selection, override_of. destruct (isDefault sel); cbn; tauto.
Qed.

Lemma directiveStage_goes_on cfg t w t' w' :
  good t w ->
  directiveStage cfg t w = (inr t', w') ->
  good t' w'
  /\ t_sessionKey t' = t_sessionKey t /\ t_sessionId t' = t_sessionId t
  /\ (truthy (t_sessionKey t) = true -> directives_persisted t (t_sessionEntry t')).
Proof.
  intros Hgood. unfold directiveStage.
  destruct (directiveOnly cfg t).
  { (* a pure directive turn always ends *)
    unfold answerDirectives, commit_directives, finish, bind, ret. cbn [fst snd].
    repeat match goal with
           | |- context [if ?b then _ else _] => destruct b
           | |- context [match ?x with _ => _ end] => destruct x
           end; discriminate. }
  unfold bind, continue, ret. cbv zeta. cbn [fst snd].
  intros H.
  assert (Ht' : t' = fst (persistInlineDirectives cfg t w)) by congruence.
  assert (Hw' : w' = snd (persistInlineDirectives cfg t w)) by congruence.
  clear H. subst t' w'.
  unfold persistInlineDirectives.
  destruct (truthy (t_sessionKey t)) eqn:Hkey;
    [|unfold ret; cbn [fst snd];
      split; [exact Hgood|]; split; [reflexivity|]; split; [reflexivity|];
      discriminate].
  set (e1 := persist_verbose t (persist_think t (t_sessionEntry t))).
  pose proof (persist_levels_keep_rest t (t_sessionEntry t)) as Hrest.
  fold e1 in Hrest. cbn zeta in Hrest. destruct Hrest as (Hid1 & Hmo1 & Hpo1).
  assert (Hth1 : think_applies t = true ->
                 thinkingLevel e1 = stored_level (inlineThink t)).
  { intros H. subst e1. rewrite persist_verbose_keeps_think.
    now apply persist_think_applies. }
  assert (Hvb1 : verbose_applies t = true ->
                 verboseLevel e1 = stored_level (inlineVerbose t)).
  { intros H. subst e1. now apply persist_verbose_applies. }
  clearbody e1.
  destruct (inline_selection t) as [sel|] eqn:Hsel.
  - rewrite orb_true_r.
    destruct (store_selection_override sel e1) as (Hp & Hm & Hi).
    destruct (store_selection_keeps_levels sel e1) as [Ht Hv].
    match goal with
    | |- context [touch_and_save ?e ?t1 w] =>
        pose proof (touch_and_save_good e t1 w) as Hg;
        assert (Hentry : t_sessionEntry (fst (touch_and_save e t1 w))
                         = set_updatedAt (clock (ticks w)) e) by reflexivity;
        assert (Hk : t_sessionKey (fst (touch_and_save e t1 w)) = t_sessionKey t)
          by reflexivity;
        assert (Hsid : t_sessionId (fst (touch_and_save e t1 w)) = t_sessionId t)
          by reflexivity
    end.
    split; [apply Hg; cbn; rewrite Hi, Hid1; exact (proj2 Hgood)|].
    split; [exact Hk|]. split; [exact Hsid|].
    intros _. rewrite Hentry. unfold directives_persisted. cbn.
    split; [intros H; rewrite Ht; now apply Hth1|].
    split; [intros H; rewrite Hv; now apply Hvb1|].
    intros sel' Hsel'. rewrite Hsel in Hsel'. injection Hsel' as <-.
    split; assumption.
  - rewrite orb_false_r.
    destruct (think_applies t || verbose_applies t) eqn:Hupd.
    + pose proof (touch_and_save_good e1 t w) as Hg.
      split; [apply Hg; rewrite Hid1; exact (proj2 Hgood)|].
      split; [reflexivity|]. split; [reflexivity|].
      intros _. unfold directives_persisted.
      change (t_sessionEntry (fst (touch_and_save e1 t w)))
        with (set_updatedAt (clock (ticks w)) e1). cbn.
      split; [exact Hth1|]. split; [exact Hvb1|]. intros sel' Hsel'. congruence.
    + unfold ret. cbn [fst snd].
      split; [exact Hgood|]. split; [reflexivity|]. split; [reflexivity|].
      intros _. apply orb_false_iff in Hupd as [Hth Hvb].
      unfold directives_persisted. rewrite Hth, Hvb.
      split; [discriminate|]. split; [discriminate|]. intros sel' Hsel'. congruence.
Qed.

End WithCollaborators.
End SyncFacts.

Module PromptFacts.
Import Text Sessions Config Agent Collab Effects ModelSelection Reply TurnFacts.
Import SyncFacts.

Section WithCollaborators.
Context {col : Collaborators}.

(** The command stage hands the turn on unchanged. *)
Lemma commandStage_goes_on cfg t w t' w' :
  commandStage cfg t w = (inr t', w') -> t' = t /\ w' = w.
Proof.
  unfold commandStage, bind, finish, continue, ret. cbv zeta. cbn [fst snd].
  repeat match goal with
         | |- context [if ?b then _ else _] => destruct b
         | |- context [match ?x with _ => _ end] => destruct x
         end;
    intros H; first [discriminate | split; congruence].
Qed.

Lemma good_same_disk t w w' : good t w -> disk w' = disk w -> good t w'.
Proof. unfold good, synced. intros [[Hd Hl] Hid] Hw. rewrite Hw. tauto. Qed.

Lemma step_ret t w : session_step t w (ret t).
Proof. intros Hg. split; [exact Hg | apply kept_refl]. Qed.

Lemma step_touch t w e :
  same_settings (t_sessionEntry t) e -> session_step t w (touch_and_save e t).
Proof.
  intros Hs Hg. split.
  - apply touch_and_save_good. destruct Hs as [Hid _]. rewrite Hid. exact (proj2 Hg).
  - now apply touch_and_save_kept.
Qed.

Lemma step_replace t w (f : SessionEntry -> SessionEntry) :
  (forall e, same_settings e (f e)) ->
  session_step t w (replace_and_save f t).
Proof.
  intros Hf Hg. unfold replace_and_save. apply step_touch; [|exact Hg].
  destruct (Hf (set_sessionId (t_sessionId t) (t_sessionEntry t)))
    as (Hi & Ht & Hv & Hm & Hp).
  unfold same_settings. rewrite Hi, Ht, Hv, Hm, Hp. cbn.
  split; [symmetry; exact (proj2 Hg)|]. tauto.
Qed.

Lemma with_systemSent_good b t w : good t w -> good (with_systemSent b t) w.
Proof. intros Hg. exact Hg. Qed.

Lemma with_systemSent_kept b t0 t : kept t0 t -> kept t0 (with_systemSent b t).
Proof. intros Hk. exact Hk. Qed.

Lemma promptStage_goes_on cfg t w p w2 :
  good t w ->
  promptStage cfg t w = (inr p, w2) ->
  good (p_turn p) w2 /\ kept t (p_turn p).
Proof.
  intros Hg. unfold promptStage.
  destruct (negb (truthy (trim (baseBodyFinal t))));
    [unfold finish, ret; discriminate|].
  unfold bind at 1.
  set (c1 := if t_abortedLastRun t then _ else ret t).
  assert (H1 : session_step t w c1).
  { subst c1. destruct (t_abortedLastRun t); [|apply step_ret].
    destruct (truthy (t_sessionKey t)).
    - apply step_touch. unfold same_settings. cbn. tauto.
    - unfold bind, ret. cbn. apply step_ret. }
  destruct (H1 Hg) as [Hg1 Hk1]. clearbody c1. destruct (c1 w) as [t1 w1].
  cbn [fst snd] in Hg1, Hk1 |- *. clear H1.
  unfold bind at 1.
  set (c2 := if _ && truthy (t_sessionKey t1) then _ else ret t1).
  assert (H2 : good (fst (c2 w1)) (snd (c2 w1)) /\ kept t1 (fst (c2 w1))).
  { subst c2. destruct (_ && truthy (t_sessionKey t1)); [|now apply step_ret].
    unfold bind, ret. cbn [fst snd].
    match goal with
    | |- context [replace_and_save ?f t1 w1] =>
        destruct (step_replace t1 w1 f) as [Hgr Hkr];
        [intros e; unfold same_settings; cbn; tauto | exact Hg1 |]
    end.
    split; [now apply with_systemSent_good | now apply with_systemSent_kept]. }
  destruct H2 as [Hg2 Hk2]. clearbody c2. destruct (c2 w1) as [t2 w3].
  cbn [fst snd] in Hg2, Hk2 |- *.
  unfold bind at 1.
  match goal with
  | |- context [(if ?b then replace_and_save ?f t2 else ret t2) w3] =>
      set (c3 := if b then replace_and_save f t2 else ret t2);
      assert (H3 : session_step t2 w3 c3);
      [ subst c3; destruct b;
        [ apply step_replace; intros e; unfold same_settings; cbn; tauto
        | apply step_ret ]
      | ]
  end.
  destruct (H3 Hg2) as [Hg3 Hk3]. clearbody c3. destruct (c3 w3) as [t3 w4].
  cbn [fst snd] in Hg3, Hk3 |- *. clear H3.
  unfold bind at 1, call_queue at 1, bind at 1, record_call at 1, ret at 1.
  cbn [fst snd].
  destruct (queueEmbeddedPiMessage _ _).
  - unfold bind, finish, ret. cbv zeta. cbn [fst snd]. discriminate.
  - unfold continue, ret. intros H. injection H as <- <-. cbn [p_turn].
    split.
    + apply (good_same_disk t3 w4); [exact Hg3 | reflexivity].
    + exact (kept_trans _ _ _ (kept_trans _ _ _ Hk1 Hk2) Hk3).
Qed.

End WithCollaborators.
End PromptFacts.

(** ** A rejected run *)

Module RejectionFacts.
Import Text Sessions Config Agent Collab Effects ModelSelection Reply TurnFacts.
Import SyncFacts PromptFacts.

Section WithCollaborators.
Context {col : Collaborators}.

Lemma delegateStage_rejected cfg p w failure :
  runEmbeddedPiAgent (runParams cfg p (uuid (drawn w))) = inl failure ->
  let r := delegateStage cfg p w in
  fst r = inl failure
  /\ calls (snd r) = RunAgent (runParams cfg p (uuid (drawn w))) :: calls w
  /\ disk (snd r) = disk w.
Proof.
  intros Hrej. unfold delegateStage, bind, randomUUID, call_agent, bind,
    record_call, ret. cbn. rewrite Hrej. cbn. repeat split; reflexivity.
Qed.

(** The stages a turn went through when it reaches the agent engine. *)
Lemma stages_of_a_delegated_turn ctx cfg w p w2 :
  upToPrompt ctx cfg w = (inr p, w2) ->
  exists t0 w0 t1 w1,
    openTurn ctx cfg w = (inr t0, w0)
    /\ directiveStage cfg t0 w0 = (inr t1, w1)
    /\ commandStage cfg t1 w1 = (inr t1, w1)
    /\ promptStage cfg t1 w1 = (inr p, w2).
Proof.
  intros H. unfold upToPrompt in H.
  apply and_then_goes_on_inv in H as (tc & wc & Hcmd & Hprompt).
  unfold upToCommands in Hcmd.
  apply and_then_goes_on_inv in Hcmd as (t1 & w1 & Hdir & Hcmd).
  unfold upToDirectives in Hdir.
  apply and_then_goes_on_inv in Hdir as (t0 & w0 & Hopen & Hdir).
  destruct (commandStage_goes_on cfg t1 w1 tc wc Hcmd) as [-> ->].
  exists t0, w0, t1, w1. tauto.
Qed.

(** C7.  If the run of the agent engine rejects, the entry point rejects
    with the same failure; the engine was called once; the persisted store
    is the one at the time of the call, so what the turn wrote before
    stays: the store holds the record of the turn under the key, with the
    identifier of the session that was passed to the engine (the record a
    new session was created with), and with the think level, verbose level
    and model override that the inline directives of the message set. *)
Theorem agent_rejection_propagates_and_keeps_writes
    (ctx : MsgContext) (cfg : ClawdisConfig) (w : World) (p : Prepared)
    (w2 : World) (failure : Failure) :
  upToPrompt ctx cfg w = (inr p, w2) ->
  runEmbeddedPiAgent (runParams cfg p (uuid (drawn w2))) = inl failure ->
  let r := getReplyFromConfig ctx cfg w in
  let params := runParams cfg p (uuid (drawn w2)) in
  let e := t_sessionEntry (p_turn p) in
  fst r = inl failure
  /\ calls (snd r) = RunAgent params :: calls w2
  /\ disk (snd r) = disk w2
  /\ disk (snd r) !! run_sessionKey params = Some e
  /\ sessionId e = run_sessionId params
  /\ (forall t0 w0, openTurn ctx cfg w = (inr t0, w0) ->
      sessionId e = t_sessionId t0
      /\ (truthy (t_sessionKey t0) = true -> directives_persisted t0 e)).
Proof.
  intros Hprompt Hrej r params e.
  destruct (stages_of_a_delegated_turn ctx cfg w p w2 Hprompt)
    as (t0 & w0 & t1 & w1 & Hopen & Hdir & Hcmd & Hpr).
  pose proof (openTurn_good ctx cfg w t0 w0 Hopen) as Hg0.
  destruct (directiveStage_goes_on cfg t0 w0 t1 w1 Hg0 Hdir)
    as (Hg1 & Hk1 & Hid1 & Hpers).
  destruct (promptStage_goes_on cfg t1 w1 p w2 Hg1 Hpr) as [Hg2 Hk2].
  destruct Hg2 as [[Hdisk Hlook] Hsid].
  destruct Hk2 as (Hkey2 & Hid2 & Hs & Ht & Hv & Hm & Hp).
  assert (Hr : r = delegateStage cfg p w2)
    by (subst r; now apply turn_reaches_the_agent).
  destruct (delegateStage_rejected cfg p w2 failure Hrej) as (Hf & Hc & Hd).
  rewrite Hr. split; [exact Hf|]. split; [exact Hc|]. split; [exact Hd|].
  split; [rewrite Hd, Hdisk; exact Hlook|]. split; [exact Hsid|].
  intros t0' w0' Hopen'. rewrite Hopen in Hopen'. injection Hopen' as <- <-.
  split; [subst e; rewrite Hsid, Hid2; exact Hid1|].
  intros Hkey. destruct (Hpers Hkey) as (Hth & Hvb & Hsel).
  subst e. unfold directives_persisted. rewrite Ht, Hv, Hm, Hp.
  split; [exact Hth|]. split; [exact Hvb | exact Hsel].
Qed.

End WithCollaborators.
End RejectionFacts.

Module RejectionExamples.
Import Text Sessions Config Agent Collab Effects ModelSelection Reply Sample.
Import SyncFacts RejectionFacts.

#[local] Existing Instance rejecting.

Lemma agent_rejection_propagates_and_keeps_writes_witness :
  let ctx := message "/think high hello" "+15550001" "+15550001" in
  let w := world ∅ in
  let r0 := upToPrompt ctx no_config w in
  let r := getReplyFromConfig ctx no_config w in
  exists p,
    r0 = (inr p, snd r0)
    /\ runEmbeddedPiAgent (runParams no_config p (uuid (drawn (snd r0))))
       = inl (str "agent failed")
    /\ fst r = inl (str "agent failed")
    /\ disk (snd r) = disk (snd r0)
    /\ (disk (snd r) !! str "+15550001") ≫= thinkingLevel = Some (str "high").
Proof.
  intros ctx w r0 r.
  destruct r0 as [[o|p] w2] eqn:Hr; [vm_compute in Hr; discriminate|].
  assert (Hp : p = match fst r0 with inr p => p | inl _ => p end)
    by (subst r0; rewrite Hr; reflexivity).
  exists p. cbn [snd].
  assert (Hrej : runEmbeddedPiAgent (runParams no_config p (uuid (drawn w2)))
                 = inl (str "agent failed")) by reflexivity.
  split; [reflexivity|]. split; [exact Hrej|].
  destruct (agent_rejection_propagates_and_keeps_writes ctx no_config w p w2
              (str "agent failed") Hr Hrej) as (Hf & _ & Hd & _).
  split; [exact Hf|]. split; [exact Hd|].
  vm_compute. reflexivity.
Defined.

End RejectionExamples.

(** ** A bare reset trigger *)

Module ResetFacts.
Import Text Sessions Config Agent Collab Effects ModelSelection Reply TurnFacts.
Import SyncFacts PromptFacts RejectionFacts.

Section WithCollaborators.
Context {col : Collaborators}.

Lemma scanResetTriggers_exact triggers trimmedBody stripped :
  In trimmedBody triggers -> truthy trimmedBody = true ->
  no_trailing_text triggers trimmedBody stripped ->
  scanResetTriggers triggers trimmedBody stripped = (true, Some []).
Proof.
  induction triggers as [|t1 rest IH]; intros Hin Htruthy Hno; [destruct Hin|].
  cbn [scanResetTriggers].
  assert (Hrest : no_trailing_text rest trimmedBody stripped)
    by (intros t' Ht'; apply Hno; now right).
  destruct (truthy t1) eqn:Ht1; cbn [negb].
  - unfold Text.eqb at 1. destruct (bool_decide (trimmedBody = t1)) eqn:Heq;
      [reflexivity|].
    cbn [orb]. destruct (Text.eqb stripped t1); [reflexivity|].
    destruct (Hno t1 (or_introl eq_refl)) as [-> ->]. cbn [orb].
    apply IH; [|exact Htruthy | exact Hrest].
    destruct Hin as [<-|Hin]; [|exact Hin].
    apply bool_decide_eq_false in Heq. contradiction.
  - apply IH; [|exact Htruthy | exact Hrest].
    destruct Hin as [<-|Hin]; [congruence | exact Hin].
Qed.

Lemma validateStoredOverride_frame t w :
  let t' := fst (validateStoredOverride t w) in
  t_ctx t' = t_ctx t /\ t_think t' = t_think t /\ t_verbose t' = t_verbose t
  /\ t_modelDirective t' = t_modelDirective t
  /\ t_isNewSession t' = t_isNewSession t
  /\ t_abortedLastRun t' = t_abortedLastRun t
  /\ t_transcribedText t' = t_transcribedText t.
Proof.
  unfold validateStoredOverride.
  repeat match goal with
         | |- context [if ?b then _ else _] => destruct b
         | |- context [match ?x with _ => _ end] => destruct x
         end; cbn; tauto.
Qed.

Lemma initSession_after_reset ctx cfg w :
  let r := fst (initSession ctx cfg true w) in
  init_isNewSession r = true /\ init_abortedLastRun r = false.
Proof.
  unfold initSession, bind, loadSessionStore. cbn [fst snd negb andb].
  unfold bind, ret. cbn. split; reflexivity.
Qed.

(** What opening a turn fixes about the directives and the reset. *)
Lemma openTurn_directives ctx cfg w t0 w0 :
  openTurn ctx cfg w = (inr t0, w0) ->
  let reset := resolveReset (t_ctx t0) cfg in
  let body := match snd reset with
              | Some b => b
              | None => default [] (Body (t_ctx t0))
              end in
  t_think t0 = extractThinkDirective (Some body)
  /\ t_verbose t0 = extractVerboseDirective (Some (think_cleaned (t_think t0)))
  /\ t_modelDirective t0
     = extractModelDirective (Some (verbose_cleaned (t_verbose t0)))
  /\ (fst reset = true -> t_isNewSession t0 = true /\ t_abortedLastRun t0 = false).
Proof.
  unfold openTurn.
  destruct (if _ : bool then transcribeInboundAudio cfg ctx else inr None)
    as [failure|transcribed]; [unfold finish, ret; discriminate|].
  unfold bind at 1.
  match goal with
  | |- context [initSession ?c cfg ?n w] =>
      set (ctx' := c);
      pose proof (initSession_after_reset ctx' cfg w) as Hinit;
      destruct (resolveReset ctx' cfg) as [isNew bodyStripped] eqn:Hreset;
      cbn [fst snd] in *;
      destruct (initSession ctx' cfg isNew w) as [init w1] eqn:Hini
  end.
  cbn [fst snd].
  unfold bind at 1.
  match goal with
  | |- context [validateStoredOverride ?t1 w1] =>
      pose proof (validateStoredOverride_frame t1 w1) as Hframe;
      destruct (validateStoredOverride t1 w1) as [t2 w2]
  end.
  cbn [fst snd] in Hframe |- *.
  destruct Hframe as (Hc & Hth & Hvb & Hmd & Hnew & Hab & _).
  unfold continue, ret. intros H. injection H as <- <-.
  cbn [t_ctx t_think t_verbose t_modelDirective t_isNewSession t_abortedLastRun
       applyStoredOverride with_model].
  rewrite Hc. cbn [t_ctx]. rewrite Hreset. cbn [fst snd].
  rewrite Hth, Hvb, Hmd, Hnew, Hab. cbn.
  do 3 (split; [reflexivity|]).
  intros ->. rewrite Hini in Hinit. exact Hinit.
Qed.

(** A message without directives passes the directive stage unchanged. *)
Lemma directiveStage_without_directive cfg t w :
  hasThinkDirective t = false -> hasVerboseDirective t = false ->
  hasModelDirective t = false ->
  directiveStage cfg t w = (inr t, w).
Proof.
  intros Hth Hvb Hmd. unfold directiveStage, directiveOnly.
  rewrite Hth, Hvb, Hmd. cbn [orb negb].
  unfold persistInlineDirectives, inline_selection, think_applies,
    verbose_applies, persist_think, persist_verbose.
  rewrite Hth, Hvb, Hmd. cbn [andb orb].
  unfold bind, continue, ret. cbv zeta. cbn [fst snd].
  destruct (truthy (t_sessionKey t)); [|reflexivity].
  destruct (inlineThink t), (inlineVerbose t), (rawModelDirective t); reflexivity.
Qed.

Lemma promptStage_commandBody cfg t w p w2 :
  promptStage cfg t w = (inr p, w2) ->
  p_commandBody p
  = snd (consumeLeadingLevel (t_resolvedThinkLevel t) (commandBody_of cfg t)).
Proof.
  unfold promptStage.
  destruct (negb (truthy (trim (baseBodyFinal t))));
    [unfold finish, ret; discriminate|].
  unfold bind, call_queue, bind, record_call, continue, finish, ret.
  cbv zeta. cbn [fst snd].
  destruct (queueEmbeddedPiMessage _ _); [discriminate|].
  intros H. apply (f_equal fst) in H. cbn [fst] in H.
  injection H as <-. reflexivity.
Qed.

Lemma quiet_recordUsage cfg t r : quiet (recordUsage cfg t r).
Proof.
  unfold recordUsage.
  repeat first [apply quiet_touch_and_save | TurnFacts.quiet_step].
Qed.

(** A turn that reaches the agent engine runs it, with the arguments of
    the prepared prompt, and calls nothing after it. *)
Lemma delegateStage_calls cfg p w :
  calls (snd (delegateStage cfg p w))
  = RunAgent (runParams cfg p (uuid (drawn w))) :: calls w.
Proof.
  unfold delegateStage.
  unfold bind at 1, randomUUID at 1. cbn [fst snd].
  unfold bind at 1, call_agent at 1, bind at 1, record_call at 1, ret at 1.
  cbn [fst snd].
  match goal with
  | |- calls (snd (?k ?w')) = _ =>
      assert (Hq : quiet k);
      [ repeat first [apply quiet_touch_and_save | apply quiet_recordUsage
                     | TurnFacts.quiet_step]
      | etransitivity; [exact (Hq w') | reflexivity] ]
  end.
Qed.

End WithCollaborators.
End ResetFacts.

Module ResetTheorem.
Import Text Sessions Config Agent Collab Effects ModelSelection Reply TurnFacts.
Import SyncFacts PromptFacts RejectionFacts ResetFacts.

Section WithCollaborators.
Context {col : Collaborators}.

Lemma bootstrap_prompt_first_word :
  head (split_ws BARE_SESSION_RESET_PROMPT) = Some (str "A").
Proof. vm_compute. reflexivity. Qed.

Lemma bootstrap_prompt_not_blank :
  truthy (trim BARE_SESSION_RESET_PROMPT) = true.
Proof. vm_compute. reflexivity. Qed.

Lemma consumeLeadingLevel_bootstrap level :
  normalizeThinkLevel (Some (str "A")) = None ->
  snd (consumeLeadingLevel level BARE_SESSION_RESET_PROMPT)
  = BARE_SESSION_RESET_PROMPT.
Proof.
  intros Hnorm. unfold consumeLeadingLevel.
  destruct (negb (truthy_opt level) && truthy BARE_SESSION_RESET_PROMPT);
    [|reflexivity].
  rewrite bootstrap_prompt_first_word, Hnorm. reflexivity.
Qed.

Lemma commandBody_undecorated cfg t :
  undecorated cfg t -> t_abortedLastRun t = false ->
  commandBody_of cfg t = baseBodyFinal t.
Proof.
  intros (Hsys & Htr & Hmedia) Hab.
  unfold commandBody_of, with_media, with_transcript, prefixedBodyBase,
    with_system_block.
  rewrite Hmedia, Htr, Hab.
  destruct Hsys as [-> | ->]; [reflexivity|].
  destruct (isMainSession cfg t); reflexivity.
Qed.

(** C9, as amended.  When the trimmed body is a configured reset trigger
    and no configured trigger followed by a space starts the message, the
    turn is a new session and the cleaned body is empty (the model
    extractor finding nothing in an empty body); the body of the prompt
    is then the bootstrap prompt, so the guard against an empty body does
    not fire.  If the turn reaches the agent engine -- it was not refused,
    answered as a command or queued -- and nothing is put around the body
    (no system lines, transcript or media note; the first word of the
    prompt is no think level), the prompt of the run is exactly the
    bootstrap prompt. *)
Theorem bare_reset_trigger_sends_bootstrap_prompt
    (ctx : MsgContext) (cfg : ClawdisConfig) (w : World) (t0 : Turn) (w0 : World) :
  openTurn ctx cfg w = (inr t0, w0) ->
  let body := trim (default [] (Body (t_ctx t0))) in
  In body (resetTriggers_of cfg) -> truthy body = true ->
  no_trailing_text (resetTriggers_of cfg) body (strippedForReset_of (t_ctx t0) cfg) ->
  model_hasDirective (extractModelDirective (Some [])) = false ->
  model_cleaned (extractModelDirective (Some [])) = [] ->
  t_isNewSession t0 = true
  /\ modelCleaned t0 = []
  /\ baseBodyFinal t0 = BARE_SESSION_RESET_PROMPT
  /\ (forall p w2,
        upToPrompt ctx cfg w = (inr p, w2) ->
        undecorated cfg t0 ->
        normalizeThinkLevel (Some (str "A")) = None ->
        let params := runParams cfg p (uuid (drawn w2)) in
        prompt params = BARE_SESSION_RESET_PROMPT
        /\ calls (snd (getReplyFromConfig ctx cfg w)) = RunAgent params :: calls w2).
Proof.
  intros Hopen body Hin Htruthy Hno Hnodir Hclean.
  destruct (openTurn_directives ctx cfg w t0 w0 Hopen) as (Hth & Hvb & Hmd & Hnew).
  assert (Hreset : resolveReset (t_ctx t0) cfg = (true, Some [])).
  { unfold resolveReset. now apply scanResetTriggers_exact. }
  rewrite Hreset in Hth, Hnew. cbn [fst snd] in Hth, Hnew.
  destruct (Hnew eq_refl) as [Hisnew Hab].
  assert (Hvb' : t_verbose t0 = extractVerboseDirective (Some []))
    by (rewrite Hvb, Hth; reflexivity).
  assert (Hmd' : t_modelDirective t0 = extractModelDirective (Some []))
    by (rewrite Hmd, Hvb'; reflexivity).
  assert (Hcleaned : modelCleaned t0 = [])
    by (unfold modelCleaned; rewrite Hmd'; exact Hclean).
  assert (Hbase : baseBodyFinal t0 = BARE_SESSION_RESET_PROMPT).
  { unfold baseBodyFinal, isBareSessionReset. rewrite Hisnew, Hcleaned.
    fold body. destruct body; [discriminate|reflexivity]. }
  split; [exact Hisnew|]. split; [exact Hcleaned|]. split; [exact Hbase|].
  intros p w2 Hprompt Hplain Hnorm params.
  destruct (stages_of_a_delegated_turn ctx cfg w p w2 Hprompt)
    as (t0' & w0' & t1 & w1 & Hopen' & Hdir & _ & Hpr).
  rewrite Hopen in Hopen'. injection Hopen' as <- <-.
  rewrite directiveStage_without_directive in Hdir.
  - injection Hdir as <- <-.
    split.
    + subst params. cbn [prompt runParams].
      rewrite (promptStage_commandBody cfg t0 w0 p w2 Hpr).
      rewrite (commandBody_undecorated cfg t0 Hplain Hab), Hbase.
      now apply consumeLeadingLevel_bootstrap.
    + rewrite (turn_reaches_the_agent ctx cfg w p w2 Hprompt).
      apply delegateStage_calls.
  - unfold hasThinkDirective. rewrite Hth. reflexivity.
  - unfold hasVerboseDirective. rewrite Hvb'. reflexivity.
  - unfold hasModelDirective. rewrite Hmd'. exact Hnodir.
Qed.

End WithCollaborators.
End ResetTheorem.

Module ResetExamples.
Import Text Sessions Config Agent Collab Effects ModelSelection Reply Sample.
Import ResetFacts ResetTheorem.

#[local] Existing Instance answering.

Lemma default_triggers_no_trailing_text :
  no_trailing_text (resetTriggers_of no_config) (str "/new") (str "/new").
Proof.
  intros t' [<-|[<-|[]]]; split; vm_compute; reflexivity.
Qed.

Lemma bare_reset_trigger_sends_bootstrap_prompt_witness :
  let ctx := message "/new" "+15550001" "+15550001" in
  let w := world ∅ in
  let r0 := openTurn ctx no_config w in
  let r1 := upToPrompt ctx no_config w in
  exists t0 p,
    r0 = (inr t0, snd r0)
    /\ r1 = (inr p, snd r1)
    /\ In (str "/new") (resetTriggers_of no_config)
    /\ t_isNewSession t0 = true
    /\ baseBodyFinal t0 = BARE_SESSION_RESET_PROMPT
    /\ prompt (runParams no_config p (uuid (drawn (snd r1))))
       = BARE_SESSION_RESET_PROMPT.
Proof.
  intros ctx w r0 r1.
  destruct r0 as [[o|t0] w0] eqn:Hr0; [vm_compute in Hr0; discriminate|].
  destruct r1 as [[o|p] w2] eqn:Hr1; [vm_compute in Hr1; discriminate|].
  assert (Ht : t0 = match fst r0 with inr t => t | inl _ => t0 end)
    by (subst r0; rewrite Hr0; reflexivity).
  exists t0, p. cbn [snd].
  assert (Hbody : trim (default [] (Body (t_ctx t0))) = str "/new")
    by (rewrite Ht; vm_compute; reflexivity).
  assert (Hstripped : strippedForReset_of (t_ctx t0) no_config = str "/new")
    by (rewrite Ht; vm_compute; reflexivity).
  assert (Hin : In (str "/new") (resetTriggers_of no_config))
    by (left; reflexivity).
  assert (Hplain : undecorated no_config t0).
  { rewrite Ht. repeat split; [right|..]; vm_compute; reflexivity. }
  pose proof (bare_reset_trigger_sends_bootstrap_prompt ctx no_config w t0 w0 Hr0)
    as Hthm.
  cbv zeta in Hthm. rewrite Hbody, Hstripped in Hthm.
  destruct (Hthm Hin eq_refl default_triggers_no_trailing_text eq_refl eq_refl)
    as (Hnew & _ & Hbase & Hrun).
  do 3 (split; [first [reflexivity | assumption]|]).
  split; [exact Hnew|]. split; [exact Hbase|].
  exact (proj1 (Hrun p w2 Hr1 Hplain eq_refl)).
Defined.

(** Counterexample to C9 as stated.  First: [/new] from a sender who is
    not on the allow list starts a new session in the store, but the turn
    is dropped by access control: nothing is sent to the agent engine.
    Second: [/new] with a media attachment reaches the agent engine, and
    the prompt is the media note and the reply hint followed by the
    bootstrap prompt, not the bootstrap prompt alone. *)
Lemma bare_reset_does_not_always_send_bootstrap_prompt :
  (let ctx := message "/new" "+15550002" "+15550001" in
   let r := getReplyFromConfig ctx no_config (world ∅) in
   fst (resolveReset ctx no_config) = true
   /\ fst r = no_reply
   /\ calls (snd r) = []
   /\ delegated (snd r) = false)
  /\ (let r := getReplyFromConfig new_with_media no_config (world ∅) in
      fst (resolveReset new_with_media no_config) = true
      /\ exists p rest,
           calls (snd r) = RunAgent p :: rest
           /\ prompt p
              = str "[media attached: /tmp/a.png]" ++ newline
                ++ mediaReplyHint ++ newline ++ BARE_SESSION_RESET_PROMPT
           /\ Text.eqb (prompt p) BARE_SESSION_RESET_PROMPT = false).
Proof.
  split; [vm_compute; repeat split; reflexivity|].
  split; [vm_compute; reflexivity|].
  eexists; eexists. split; [vm_compute; reflexivity|].
  split; vm_compute; reflexivity.
Qed.

End ResetExamples.

(** ** Directive extraction *)

Module RegexFacts.
Import Text Regex.

Lemma star_consumes {R} (p : N -> bool) :
  forall (s : text) (pv : option N) (n : nat)
         (k : option N -> text -> nat -> option R) (res : R),
    star p pv s n k = Some res ->
    exists consumed s' pv',
      s = consumed ++ s' /\ k pv' s' (n + length consumed)%nat = Some res.
Proof.
  induction s as [|c s IH]; intros pv n k res H; cbn [star] in H.
  - exists [], [], pv. cbn. rewrite Nat.add_0_r. split; [reflexivity | exact H].
  - destruct (p c).
    + destruct (star p (Some c) s (S n) k) as [r|] eqn:Hrec.
      * injection H as <-.
        destruct (IH _ _ _ _ Hrec) as (consumed & s' & pv' & -> & Hk).
        exists (c :: consumed), s', pv'. split; [reflexivity|].
        cbn [length]. rewrite <- Hk. f_equal. lia.
      * exists [], (c :: s), pv. cbn. rewrite Nat.add_0_r.
        split; [reflexivity | exact H].
    + exists [], (c :: s), pv. cbn. rewrite Nat.add_0_r.
      split; [reflexivity | exact H].
Qed.

(** A successful match consumes a prefix of the input, hands the rest to
    its continuation, and the prefix holds every code unit the expression
    must consume. *)
Lemma m_consumes (c : N) (r : re) :
  forall {R} (pv : option N) (s : text) (n : nat) (cp : option text)
         (k : K R) (res : R),
    m r pv s n cp k = Some res ->
    exists consumed s' pv' cp',
      s = consumed ++ s'
      /\ k pv' s' (n + length consumed)%nat cp' = Some res
      /\ (must c r = true -> In c consumed).
Proof.
  induction r as [x|p|a IHa b IHb|a IHa b IHb|p|a IHa|ml| | |a IHa|a IHa];
    intros R pv s n cp k res H; cbn [m] in H; cbn [must].
  - (* Chr *)
    destruct s as [|y s]; [discriminate|].
    destruct (y =? x)%N eqn:Hy; [|discriminate].
    apply N.eqb_eq in Hy. subst y.
    exists [x], s, (Some x), cp. split; [reflexivity|].
    split; [cbn; rewrite <- H; f_equal; lia|].
    intros Hc. apply N.eqb_eq in Hc. subst. now left.
  - (* Cls *)
    destruct s as [|y s]; [discriminate|].
    destruct (p y); [|discriminate].
    exists [y], s, (Some y), cp. split; [reflexivity|].
    split; [cbn; rewrite <- H; f_equal; lia | discriminate].
  - (* Seq *)
    destruct (IHa _ _ _ _ _ _ _ H) as (c1 & s1 & pv1 & cp1 & -> & Hk1 & Hm1).
    destruct (IHb _ _ _ _ _ _ _ Hk1) as (c2 & s2 & pv2 & cp2 & -> & Hk2 & Hm2).
    exists (c1 ++ c2), s2, pv2, cp2. split; [now rewrite <- app_assoc|].
    split; [rewrite length_app, Nat.add_assoc; exact Hk2|].
    intros Hc. apply in_or_app. apply orb_true_iff in Hc as [Hc|Hc]; auto.
  - (* Alt *)
    destruct (m a pv s n cp k) as [x|] eqn:Ha.
    + injection H as <-.
      destruct (IHa _ _ _ _ _ _ _ Ha) as (c1 & s1 & pv1 & cp1 & Hs & Hk & Hm).
      exists c1, s1, pv1, cp1. split; [exact Hs|]. split; [exact Hk|].
      intros Hc. apply andb_true_iff in Hc as [Hc _]. auto.
    + destruct (IHb _ _ _ _ _ _ _ H) as (c1 & s1 & pv1 & cp1 & Hs & Hk & Hm).
      exists c1, s1, pv1, cp1. split; [exact Hs|]. split; [exact Hk|].
      intros Hc. apply andb_true_iff in Hc as [_ Hc]. auto.
  - (* Star *)
    destruct (star_consumes p s pv n _ res H) as (c1 & s1 & pv1 & Hs & Hk).
    exists c1, s1, pv1, cp. split; [exact Hs|]. split; [exact Hk | discriminate].
  - (* Opt *)
    destruct (m a pv s n cp k) as [x|] eqn:Ha.
    + injection H as <-.
      destruct (IHa _ _ _ _ _ _ _ Ha) as (c1 & s1 & pv1 & cp1 & Hs & Hk & _).
      exists c1, s1, pv1, cp1. split; [exact Hs|]. split; [exact Hk | discriminate].
    + exists [], s, pv, cp. cbn. rewrite Nat.add_0_r.
      split; [reflexivity|]. split; [exact H | discriminate].
  - (* Bol *)
    destruct (at_bol ml pv); [|discriminate].
    exists [], s, pv, cp. cbn. rewrite Nat.add_0_r.
    split; [reflexivity|]. split; [exact H | discriminate].
  - (* Eol *)
    destruct s; [|discriminate].
    exists [], [], pv, cp. cbn. rewrite Nat.add_0_r.
    split; [reflexivity|]. split; [exact H | discriminate].
  - (* WordB *)
    destruct (xorb _ _); [|discriminate].
    exists [], s, pv, cp. cbn. rewrite Nat.add_0_r.
    split; [reflexivity|]. split; [exact H | discriminate].
  - (* Ahead *)
    destruct (m a pv s n cp _); [|discriminate].
    exists [], s, pv, cp. cbn. rewrite Nat.add_0_r.
    split; [reflexivity|]. split; [exact H | discriminate].
  - (* Grp *)
    destruct (IHa _ _ _ _ _ _ _ H) as (c1 & s1 & pv1 & cp1 & Hs & Hk & Hm).
    exists c1, s1, pv1, (Some (firstn (n + length c1 - n) s)).
    split; [exact Hs|]. split; [exact Hk | exact Hm].
Qed.

Lemma here_consumes c r pv s n cp :
  here r pv s = Some (n, cp) ->
  exists consumed s',
    s = consumed ++ s' /\ n = length consumed /\ (must c r = true -> In c consumed).
Proof.
  unfold here. intros H.
  destruct (m_consumes c r pv s 0 None _ _ H)
    as (consumed & s' & pv' & cp' & Hs & Hk & Hm).
  injection Hk as <- _. exists consumed, s'. tauto.
Qed.

Lemma search_finds c r :
  forall s pv i f,
    search r pv s i = Some f ->
    exists pre consumed post,
      s = pre ++ consumed ++ post
      /\ at_index f = (i + length pre)%nat
      /\ span f = length consumed
      /\ (must c r = true -> In c consumed).
Proof.
  induction s as [|x s IH]; intros pv i f H; cbn [search] in H.
  - destruct (here r pv []) as [[n cp]|] eqn:Hh; [|discriminate].
    injection H as <-.
    destruct (here_consumes c r pv [] n cp Hh) as (consumed & s' & Hs & Hn & Hm).
    exists [], consumed, s'. cbn. rewrite Nat.add_0_r. tauto.
  - destruct (here r pv (x :: s)) as [[n cp]|] eqn:Hh.
    + injection H as <-.
      destruct (here_consumes c r pv _ n cp Hh) as (consumed & s' & Hs & Hn & Hm).
      exists [], consumed, s'. cbn. rewrite Nat.add_0_r. tauto.
    + destruct (IH _ _ _ H) as (pre & consumed & post & -> & Hi & Hsp & Hm).
      exists (x :: pre), consumed, post. cbn [length app].
      split; [reflexivity|]. split; [lia|]. tauto.
Qed.

(** A match of [exec] is a part of the text. *)
Lemma exec_matched c r s f :
  exec r s = Some f ->
  exists pre post,
    s = pre ++ matched s f ++ post /\ (must c r = true -> In c (matched s f)).
Proof.
  unfold exec. intros H.
  destruct (search_finds c r s None 0 f H) as (pre & consumed & post & Hs & Hi & Hsp & Hm).
  assert (Hmatched : matched s f = consumed).
  { unfold matched. rewrite Hi, Hsp, Hs. cbn [Nat.add].
    rewrite drop_app_length, take_app_length. reflexivity. }
  exists pre, post. rewrite Hmatched. tauto.
Qed.

(** A text without a code unit that the expression must consume has no
    match. *)
Lemma exec_none_without c r s :
  must c r = true -> ~ In c s -> exec r s = None.
Proof.
  intros Hmust Hnot. destruct (exec r s) as [f|] eqn:He; [|reflexivity].
  destruct (exec_matched c r s f He) as (pre & post & Hs & Hm).
  exfalso. apply Hnot. rewrite Hs. apply in_or_app. right.
  apply in_or_app. left. now apply Hm.
Qed.

(** *** Removal of the match, white space, trimming *)

Lemma startsWith_split s p :
  startsWith s p = true -> s = p ++ skipn (length p) s.
Proof.
  revert s. induction p as [|a p IH]; intros s H; [reflexivity|].
  destruct s as [|x s]; [discriminate|]. cbn [startsWith] in H.
  apply andb_true_iff in H as [Hx Hp]. apply N.eqb_eq in Hx. subst x.
  cbn [length skipn app]. f_equal. now apply IH.
Qed.

Lemma startsWith_app p post : startsWith (p ++ post) p = true.
Proof.
  induction p as [|a p IH]; [destruct post; reflexivity|].
  cbn. rewrite N.eqb_refl. exact IH.
Qed.

Lemma remove_first_splits p :
  forall s pre post,
    s = pre ++ p ++ post ->
    exists pre' post', s = pre' ++ p ++ post' /\ remove_first p s = pre' ++ post'.
Proof.
  induction s as [|x s IH]; intros pre post Hs.
  - destruct pre; [|discriminate]. destruct p; [|discriminate].
    exists [], []. split; reflexivity.
  - cbn [remove_first]. destruct (startsWith (x :: s) p) eqn:Hst.
    + exists [], (skipn (length p) (x :: s)). cbn [app].
      split; [now apply startsWith_split | reflexivity].
    + destruct pre as [|y pre].
      * cbn [app] in Hs. rewrite Hs, startsWith_app in Hst. discriminate.
      * injection Hs as <- Hs.
        destruct (IH pre post Hs) as (pre' & post' & Hs' & Hr).
        exists (x :: pre'), post'. cbn [app]. rewrite Hr, <- Hs'. tauto.
Qed.

Lemma trimStart_subset c s : In c (trimStart s) -> In c s.
Proof.
  induction s as [|x s IH]; cbn [trimStart]; [tauto|].
  destruct (is_space x); [intros H; right; auto | tauto].
Qed.

Lemma trim_subset c s : In c (trim s) -> In c s.
Proof.
  unfold trim, trimEnd. intros H. apply in_rev in H.
  apply trimStart_subset in H. apply in_rev in H.
  now apply trimStart_subset.
Qed.

Lemma replace_all_go_subset c r rep :
  forall s pv skip,
    In c (replace_all_go r rep pv s skip) -> In c s \/ In c rep.
Proof.
  induction s as [|x s IH]; intros pv skip H.
  - destruct skip; cbn [replace_all_go] in H; [|destruct H].
    destruct (here r pv []) as [[[|j] cp]|]; cbn in H;
      try (rewrite app_nil_r in H); auto.
  - destruct skip as [|j]; cbn [replace_all_go] in H.
    + destruct (here r pv (x :: s)) as [[[|j] cp]|].
      * apply in_app_or in H as [H|H]; [auto|].
        destruct H as [<-|H]; [left; now left|].
        destruct (IH _ _ H); [left; now right | auto].
      * apply in_app_or in H as [H|H]; [auto|].
        destruct (IH _ _ H); [left; now right | auto].
      * destruct H as [<-|H]; [left; now left|].
        destruct (IH _ _ H); [left; now right | auto].
    + destruct (IH _ _ H); [left; now right | auto].
Qed.

Lemma collapse_ws_subset c s :
  In c (collapse_ws s) -> In c s \/ c = cu " ".
Proof.
  unfold collapse_ws, replace_all. intros H.
  destruct (replace_all_go_subset _ _ _ _ _ _ H) as [Hs|[<-|[]]]; auto.
Qed.

End RegexFacts.

(** *** Matches survive the white space around a text

    A text that has a match still has one when white space is put before
    or after it: this is what makes an extractor find in [body] whatever it
    finds in [body.trim()]. *)

Module TrimFacts.
Import Text Regex RegexFacts.

Lemma is_Some_alt {A} (x y : option A) :
  is_Some (match x with Some a => Some a | None => y end)
  <-> is_Some x \/ is_Some y.
Proof.
  destruct x as [a|].
  - split; [intros _; left; eexists; reflexivity | intros _; eexists; reflexivity].
  - split; [intros H; right; exact H | intros [[a Ha]|H]; [discriminate | exact H]].
Qed.

Section Extension.
Variable ws : text.

Lemma extends_Chr c : extends_over ws (Chr c).
Proof.
  intros R R' k k' pv s n cp n' cp' Hk H. unfold follows in Hk. cbn [m] in *.
  destruct s as [|x s]; [destruct H; discriminate|]. cbn [app].
  destruct (x =? c)%N; [|destruct H; discriminate]. (eapply Hk; eassumption).
Qed.

Lemma extends_Cls p : extends_over ws (Cls p).
Proof.
  intros R R' k k' pv s n cp n' cp' Hk H. unfold follows in Hk. cbn [m] in *.
  destruct s as [|x s]; [destruct H; discriminate|]. cbn [app].
  destruct (p x); [|destruct H; discriminate]. (eapply Hk; eassumption).
Qed.

Lemma extends_Seq a b :
  extends_over ws a -> extends_over ws b -> extends_over ws (Seq a b).
Proof.
  intros Ha Hb R R' k k' pv s n cp n' cp' Hk H. cbn [m] in *.
  eapply Ha; [|exact H].
  intros pv1 s1 n1 cp1 n1' cp1' H1. eapply Hb; [|exact H1].
  exact Hk.
Qed.

Lemma extends_Alt a b :
  extends_over ws a -> extends_over ws b -> extends_over ws (Alt a b).
Proof.
  intros Ha Hb R R' k k' pv s n cp n' cp' Hk H. cbn [m] in *.
  apply is_Some_alt in H. apply is_Some_alt.
  destruct H as [H|H]; [left; eapply Ha | right; eapply Hb]; eauto.
Qed.

Lemma extends_Opt a : extends_over ws a -> extends_over ws (Opt a).
Proof.
  intros Ha R R' k k' pv s n cp n' cp' Hk H. cbn [m] in *.
  apply is_Some_alt in H. apply is_Some_alt.
  destruct H as [H|H]; [left; eapply Ha; eauto | right; (eapply Hk; eassumption)].
Qed.

Lemma extends_Grp a : extends_over ws a -> extends_over ws (Grp a).
Proof.
  intros Ha R R' k k' pv s n cp n' cp' Hk H. cbn [m] in *.
  eapply Ha; [|exact H].
  intros pv1 s1 n1 cp1 n1' cp1' H1. (eapply Hk; eassumption).
Qed.

Lemma extends_Bol ml : extends_over ws (Bol ml).
Proof.
  intros R R' k k' pv s n cp n' cp' Hk H. unfold follows in Hk. cbn [m] in *.
  destruct (at_bol ml pv); [(eapply Hk; eassumption) | destruct H; discriminate].
Qed.

(** [star] succeeds wherever its continuation succeeds at once. *)
Lemma star_at_least {R'} p (k' : option N -> text -> nat -> option R') u pv n :
  is_Some (k' pv u n) -> is_Some (star p pv u n k').
Proof.
  intros Hk. destruct u as [|x u]; cbn [star]; [exact Hk|].
  destruct (p x); [|exact Hk]. apply is_Some_alt. right. exact Hk.
Qed.

Lemma extends_star {R R'} p
    (k : option N -> text -> nat -> option R)
    (k' : option N -> text -> nat -> option R') :
  (forall pv s n n', is_Some (k pv s n) -> is_Some (k' pv (s ++ ws) n')) ->
  forall s pv n n',
    is_Some (star p pv s n k) -> is_Some (star p pv (s ++ ws) n' k').
Proof.
  intros Hk. induction s as [|x s IH]; intros pv n n' H; cbn [star app] in *.
  - apply star_at_least. exact (Hk pv [] n n' H).
  - destruct (p x); [|exact (Hk pv (x :: s) n n' H)].
    apply is_Some_alt in H. apply is_Some_alt.
    destruct H as [H|H];
      [left; eapply IH; eauto | right; exact (Hk pv (x :: s) n n' H)].
Qed.

Lemma extends_Star p : extends_over ws (Star p).
Proof.
  intros R R' k k' pv s n cp n' cp' Hk H. unfold follows in Hk. cbn [m] in *.
  eapply extends_star; [|exact H].
  intros pv1 s1 n1 n1' H1. exact (Hk _ _ _ _ _ _ H1).
Qed.

End Extension.

(** *** White space after the text *)

Lemma space_is_no_word c : is_space c = true -> is_word c = false.
Proof.
  unfold is_space, is_word, is_alpha, is_upper, is_lower, is_digit, is_char,
    between. change (cu "_") with 95%N.
  rewrite !orb_true_iff, !andb_true_iff, !N.leb_le, !N.eqb_eq.
  rewrite !orb_false_iff, !andb_false_iff, !N.leb_gt, N.eqb_neq.
  lia.
Qed.

Lemma space_is_not c x : is_space c = true -> is_space x = false -> c <> x.
Proof. intros Hc Hx ->. congruence. Qed.

Lemma word_at_head_blank s ws :
  blank ws -> word_at (head (s ++ ws)) = word_at (head s).
Proof.
  intros Hws. destruct s as [|x s]; [|reflexivity]. cbn [app head].
  destruct Hws as [|w ws Hw _]; [reflexivity|]. cbn.
  now apply space_is_no_word.
Qed.

Lemma extends_WordB ws : blank ws -> extends_over ws WordB.
Proof.
  intros Hws R R' k k' pv s n cp n' cp' Hk H. unfold follows in Hk.
  cbn [m] in *. rewrite word_at_head_blank by exact Hws.
  destruct (xorb _ _); [exact (Hk _ _ _ _ _ _ H) | destruct H; discriminate].
Qed.

(** [(?=$|\s|c)]: the end of the text becomes white space. *)
Lemma extends_lookahead ws c :
  blank ws -> extends_over ws (Ahead (Alt Eol (Alt (Cls is_space) (Chr c)))).
Proof.
  intros Hws R R' k k' pv s n cp n' cp' Hk H. unfold follows in Hk.
  cbn [m] in *.
  destruct s as [|x s].
  - cbn [app]. destruct Hws as [|w ws Hw _]; [exact (Hk _ [] _ _ _ _ H)|].
    rewrite Hw. exact (Hk _ [] _ _ _ _ H).
  - cbn [app]. destruct (is_space x); [exact (Hk _ _ _ _ _ _ H)|].
    destruct (x =? c)%N; [exact (Hk _ _ _ _ _ _ H) | destruct H; discriminate].
Qed.

Lemma here_extends r ws pv s :
  extends_over ws r -> is_Some (here r pv s) -> is_Some (here r pv (s ++ ws)).
Proof.
  intros Hr H. unfold here in *. eapply Hr; [|exact H].
  intros pv1 s1 n1 cp1 n1' cp1' _. eexists. reflexivity.
Qed.

Lemma search_cases r pv s i :
  is_Some (search r pv s i)
  <-> is_Some (here r pv s)
      \/ exists c s', s = c :: s' /\ is_Some (search r (Some c) s' (S i)).
Proof.
  destruct s as [|c s]; cbn [search];
    destruct (here r pv _) as [[n cp]|]; split; intros H.
  - left. eexists. reflexivity.
  - eexists. reflexivity.
  - destruct H; discriminate.
  - destruct H as [[x Hx]|(c & s' & Hs & _)]; discriminate.
  - left. eexists. reflexivity.
  - eexists. reflexivity.
  - right. exists c, s. split; [reflexivity | exact H].
  - destruct H as [[x Hx]|(c' & s' & Hs & H)]; [discriminate|].
    injection Hs as <- <-. exact H.
Qed.

Lemma search_index r : forall s pv i j,
  is_Some (search r pv s i) -> is_Some (search r pv s j).
Proof.
  induction s as [|c s IH]; intros pv i j H; apply search_cases in H;
    apply search_cases; destruct H as [H|(c' & s' & Hs & H)]; auto.
  - discriminate.
  - injection Hs as <- <-. right. exists c, s. split; [reflexivity|]. eauto.
Qed.

Lemma search_extends r ws :
  extends_over ws r ->
  forall s pv i j,
    is_Some (search r pv s i) -> is_Some (search r pv (s ++ ws) j).
Proof.
  intros Hr. induction s as [|c s IH]; intros pv i j H;
    apply search_cases in H; apply search_cases;
    destruct H as [H|(c' & s' & Hs & H)].
  - left. now apply here_extends.
  - discriminate.
  - left. now apply here_extends.
  - injection Hs as <- <-. right. exists c, (s ++ ws).
    split; [reflexivity|]. eauto.
Qed.

(** *** White space before the text

    A directive starts at the beginning of the text or after white space,
    then comes the slash. *)

Lemma search_after_space c tail w s pv i j :
  is_space w = true -> is_space c = false ->
  extends_over [] tail ->
  let r := Seq lead (Seq (Chr c) tail) in
  is_Some (search r None s i) -> is_Some (search r pv (w :: s) j).
Proof.
  intros Hw Hc Htail r H.
  apply search_cases in H. apply search_cases.
  destruct H as [H|(x & s' & Hs & H)].
  - (* a match at the start of [s] *)
    unfold here, r, lead in H. cbn [m at_bol] in H.
    apply is_Some_alt in H. destruct H as [H|H].
    + (* through [^]: now through the white space before it *)
      left. unfold here, r, lead. cbn [m]. apply is_Some_alt. right.
      rewrite Hw. destruct s as [|x s']; [destruct H; discriminate|].
      destruct (x =? c)%N; [|destruct H; discriminate].
      eapply (Htail _ _ _ _ (Some x) s' _ _ _ _) in H.
      * rewrite app_nil_r in H. exact H.
      * intros pv1 s1 n1 cp1 n1' cp1' _. eexists. reflexivity.
    + (* through white space: the same match, one position later *)
      right. exists w, s. split; [reflexivity|].
      apply search_cases. left. unfold here, r, lead. cbn [m at_bol andb].
      destruct s as [|x s']; [destruct H; discriminate|].
      destruct (is_space x); [|destruct H; discriminate].
      destruct s' as [|y s'']; [destruct H; discriminate|].
      destruct (y =? c)%N; [|destruct H; discriminate].
      eapply (Htail _ _ _ _ (Some y) s'' _ _ _ _) in H.
      * rewrite app_nil_r in H. exact H.
      * intros pv1 s1 n1 cp1 n1' cp1' _. eexists. reflexivity.
  - (* a later match *)
    right. exists w, s. split; [reflexivity|].
    apply search_cases. right. exists x, s'. split; [exact Hs|].
    eapply search_index. exact H.
Qed.

Lemma search_after_blank c tail ws s :
  blank ws -> is_space c = false -> extends_over [] tail ->
  let r := Seq lead (Seq (Chr c) tail) in
  is_Some (search r None s 0) -> is_Some (search r None (ws ++ s) 0).
Proof.
  intros Hws Hc Htail r H. induction Hws as [|w ws Hw _ IH]; [exact H|].
  cbn [app]. now apply (search_after_space c tail w (ws ++ s) None 0 0).
Qed.

(** *** Trimming *)

Lemma trimStart_blank s : exists ws, blank ws /\ s = ws ++ trimStart s.
Proof.
  induction s as [|x s (ws & Hws & Hs)]; [exists []; split; [constructor|reflexivity]|].
  cbn [trimStart]. destruct (is_space x) eqn:Hx.
  - exists (x :: ws). split; [now constructor|]. cbn [app]. now f_equal.
  - exists []. split; [constructor | reflexivity].
Qed.

Lemma blank_rev ws : blank ws -> blank (rev ws).
Proof.
  intros H. induction H as [|w ws Hw _ IH]; [constructor|]. cbn [rev].
  apply Forall_app. split; [exact IH | now repeat constructor].
Qed.

Lemma trim_blank s :
  exists ws1 ws2, blank ws1 /\ blank ws2 /\ s = ws1 ++ trim s ++ ws2.
Proof.
  destruct (trimStart_blank s) as (ws1 & H1 & Hs).
  destruct (trimStart_blank (rev (trimStart s))) as (ws2 & H2 & Hr).
  exists ws1, (rev ws2). split; [exact H1|]. split; [now apply blank_rev|].
  unfold trim, trimEnd. rewrite <- rev_app_distr, <- Hr, rev_involutive.
  exact Hs.
Qed.

(** Whatever is found in the trimmed text is found in the text. *)
Lemma exec_in_trimmed c tail s :
  is_space c = false ->
  (forall ws, blank ws -> extends_over ws tail) ->
  let r := Seq lead (Seq (Chr c) tail) in
  exec r s = None -> exec r (trim s) = None.
Proof.
  intros Hc Htail r Hnone.
  destruct (exec r (trim s)) as [f|] eqn:Hf; [|reflexivity].
  exfalso.
  destruct (trim_blank s) as (ws1 & ws2 & H1 & H2 & Hs).
  assert (Hr : extends_over ws2 r).
  { unfold r, lead. apply extends_Seq;
      [apply extends_Alt; [apply extends_Bol | apply extends_Cls]|].
    apply extends_Seq; [apply extends_Chr | now apply Htail]. }
  assert (Hsome : is_Some (search r None (ws1 ++ trim s ++ ws2) 0)).
  { apply search_after_blank; [exact H1 | exact Hc | apply Htail; constructor|].
    apply (search_extends r ws2 Hr _ _ 0%nat). unfold exec in Hf.
    rewrite Hf. eexists. reflexivity. }
  rewrite <- Hs in Hsome. unfold exec in Hnone. rewrite Hnone in Hsome.
  destruct Hsome. discriminate.
Qed.

End TrimFacts.

(** ** Directive extraction on its own cleaned text *)

Module DirectiveFacts.
Import Text Regex Collab RegexFacts TrimFacts.

Lemma blank_extends_think_tail ws :
  blank ws ->
  extends_over ws
    (seqs [ Alt (LitI (str "thinking")) (Alt (LitI (str "think")) (LitI (str "t")));
            Star is_space; Opt (Chr (cu ":")); Star is_space;
            Grp (Plus level_char);
            WordB ]).
Proof.
  intros Hws.
  cbv beta iota delta [seqs LitI Plus str map list_ascii_of_string].
  repeat first
    [ apply extends_Seq | apply extends_Alt | apply extends_Opt
    | apply extends_Grp | apply extends_Cls | apply extends_Chr
    | apply extends_Star | apply (extends_WordB ws Hws) ].
Qed.

Lemma blank_extends_verbose_tail ws :
  blank ws ->
  extends_over ws
    (seqs [ Alt (LitI (str "verbose")) (LitI (str "v"));
            Ahead (Alt Eol (Alt (Cls is_space) (Chr (cu ":"))));
            Star is_space; Opt (Chr (cu ":")); Star is_space;
            Grp (Plus level_char);
            WordB ]).
Proof.
  intros Hws.
  cbv beta iota delta [seqs LitI Plus str map list_ascii_of_string].
  repeat first
    [ apply (extends_lookahead ws _ Hws)
    | apply extends_Seq | apply extends_Alt | apply extends_Opt
    | apply extends_Grp | apply extends_Cls | apply extends_Chr
    | apply extends_Star | apply (extends_WordB ws Hws) ].
Qed.

Lemma count_occ_none (c : N) (s : text) :
  count_occ N.eq_dec s c = 0%nat -> ~ In c s.
Proof. intros H. now apply count_occ_not_In in H. Qed.

(** With one slash in the text, nothing is left to find once the match
    is taken out; without a match the text is only trimmed. *)
Lemma clean_directive_leaves_none tail body :
  (forall ws, blank ws -> extends_over ws tail) ->
  let r := Seq lead (Seq (Chr (cu "/")) tail) in
  (slashes body <= 1)%nat ->
  exec r (clean_directive r body) = None.
Proof.
  intros Htail r Hone. unfold clean_directive.
  destruct (exec r body) as [f|] eqn:He.
  - apply (exec_none_without (cu "/")); [reflexivity|].
    destruct (exec_matched (cu "/") r body f He) as (pre & post & Hs & Hin).
    destruct (remove_first_splits (matched body f) body pre post Hs)
      as (pre' & post' & Hs' & ->).
    specialize (Hin eq_refl).
    apply (count_occ_In N.eq_dec) in Hin.
    unfold slashes in Hone. rewrite Hs' in Hone.
    rewrite !count_occ_app in Hone.
    intros Hc. apply trim_subset in Hc.
    apply collapse_ws_subset in Hc. destruct Hc as [Hc|Hc]; [|discriminate Hc].
    apply (count_occ_In N.eq_dec) in Hc. rewrite count_occ_app in Hc. lia.
  - now apply exec_in_trimmed.
Qed.

Lemma think_re_shape :
  think_re
  = Seq lead (Seq (Chr (cu "/"))
      (seqs [ Alt (LitI (str "thinking")) (Alt (LitI (str "think")) (LitI (str "t")));
              Star is_space; Opt (Chr (cu ":")); Star is_space;
              Grp (Plus level_char);
              WordB ])).
Proof. reflexivity. Qed.

Lemma verbose_re_shape :
  verbose_re
  = Seq lead (Seq (Chr (cu "/"))
      (seqs [ Alt (LitI (str "verbose")) (LitI (str "v"));
              Ahead (Alt Eol (Alt (Cls is_space) (Chr (cu ":"))));
              Star is_space; Opt (Chr (cu ":")); Star is_space;
              Grp (Plus level_char);
              WordB ])).
Proof. reflexivity. Qed.

Section Idempotence.
Context {col : Collaborators}.

Lemma think_none_no_directive s :
  exec think_re s = None ->
  think_hasDirective (extractThinkDirective (Some s)) = false.
Proof.
  intros H. destruct s; [reflexivity|].
  cbn [extractThinkDirective think_hasDirective]. unfold has_match.
  now rewrite H.
Qed.

Lemma verbose_none_no_directive s :
  exec verbose_re s = None ->
  verbose_hasDirective (extractVerboseDirective (Some s)) = false.
Proof.
  intros H. destruct s; [reflexivity|].
  cbn [extractVerboseDirective verbose_hasDirective]. unfold has_match.
  now rewrite H.
Qed.

End Idempotence.

End DirectiveFacts.

(** * Further properties of the code *)

(** ** Trimming and case *)

Module TextFacts.
Import Text Regex RegexFacts TrimFacts.

Lemma trimStart_blank_app ws s : blank ws -> trimStart (ws ++ s) = trimStart s.
Proof.
  intros Hws. induction Hws as [|w ws Hw _ IH]; [reflexivity|].
  cbn [app trimStart]. now rewrite Hw.
Qed.

Lemma trimStart_head s c u : trimStart s = c :: u -> is_space c = false.
Proof.
  induction s as [|x s IH]; cbn [trimStart]; [discriminate|].
  destruct (is_space x) eqn:Hx; [exact IH|]. intros H. injection H as <- _. exact Hx.
Qed.

Lemma trimStart_fixed c u : is_space c = false -> trimStart (c :: u) = c :: u.
Proof. intros Hc. cbn [trimStart]. now rewrite Hc. Qed.

Lemma trimStart_snoc u c :
  trimStart (u ++ [c])
  = if bool_decide (trimStart u = []) && is_space c then []
    else trimStart u ++ [c].
Proof.
  induction u as [|x u IH].
  - cbn. destruct (is_space c); reflexivity.
  - cbn [app trimStart]. destruct (is_space x); [exact IH|]. reflexivity.
Qed.

Lemma trimEnd_cons c s :
  trimEnd (c :: s)
  = if bool_decide (trimEnd s = []) && is_space c then [] else c :: trimEnd s.
Proof.
  unfold trimEnd. cbn [rev]. rewrite trimStart_snoc.
  destruct (trimStart (rev s)) as [|y l] eqn:Hl.
  - cbn. destruct (is_space c); reflexivity.
  - rewrite bool_decide_eq_false_2 by discriminate.
    rewrite bool_decide_eq_false_2.
    + cbn [andb]. now rewrite rev_app_distr.
    + intros H. apply (f_equal (@length N)) in H. rewrite length_rev in H.
      discriminate.
Qed.

Lemma trimEnd_blank_app s ws : blank ws -> trimEnd (s ++ ws) = trimEnd s.
Proof.
  intros Hws. unfold trimEnd. rewrite rev_app_distr.
  now rewrite trimStart_blank_app by now apply blank_rev.
Qed.

(** Removing the white space at the two ends, in either order. *)
Lemma trimStart_trimEnd s : trimStart (trimEnd s) = trimEnd (trimStart s).
Proof.
  induction s as [|c s IH]; [reflexivity|].
  rewrite trimEnd_cons. cbn [trimStart].
  destruct (is_space c) eqn:Hc.
  - rewrite andb_true_r. rewrite <- IH.
    destruct (bool_decide (trimEnd s = [])) eqn:He.
    + apply bool_decide_eq_true in He. now rewrite He.
    + cbn [trimStart]. now rewrite Hc.
  - rewrite andb_false_r. cbn [trimStart]. rewrite Hc.
    rewrite trimEnd_cons, Hc, andb_false_r. reflexivity.
Qed.

Lemma trimStart_idem s : trimStart (trimStart s) = trimStart s.
Proof.
  induction s as [|c s IH]; [reflexivity|]. cbn [trimStart].
  destruct (is_space c) eqn:Hc; [exact IH|]. cbn [trimStart]. now rewrite Hc.
Qed.

Lemma trimEnd_idem s : trimEnd (trimEnd s) = trimEnd s.
Proof. unfold trimEnd. now rewrite rev_involutive, trimStart_idem. Qed.

Lemma trim_idem s : trim (trim s) = trim s.
Proof.
  unfold trim. rewrite <- (trimStart_trimEnd (trimEnd (trimStart s))).
  now rewrite trimEnd_idem, trimStart_trimEnd, trimStart_idem.
Qed.

Lemma trim_blank_around ws1 s ws2 :
  blank ws1 -> blank ws2 -> trim (ws1 ++ s ++ ws2) = trim s.
Proof.
  intros H1 H2. unfold trim. rewrite trimStart_blank_app by exact H1.
  rewrite <- !trimStart_trimEnd. now rewrite trimEnd_blank_app.
Qed.

Lemma trim_fixed_ends s : trim s = s -> trimStart s = s /\ trimEnd s = s.
Proof.
  intros H. split.
  - rewrite <- H at 1. unfold trim. rewrite <- trimStart_trimEnd.
    rewrite trimStart_idem, trimStart_trimEnd. exact H.
  - rewrite <- H at 1. unfold trim. rewrite trimEnd_idem. exact H.
Qed.

Lemma trimStart_fixed_app a u : trimStart a = a -> a <> [] -> trimStart (a ++ u) = a ++ u.
Proof.
  intros Ha Hn. destruct a as [|c a']; [congruence|].
  pose proof (trimStart_head _ _ _ Ha) as Hc. cbn [app trimStart]. now rewrite Hc.
Qed.

Lemma trimEnd_fixed_app u b : trimEnd b = b -> b <> [] -> trimEnd (u ++ b) = u ++ b.
Proof.
  intros Hb Hn. unfold trimEnd in *. rewrite rev_app_distr.
  assert (Hr : trimStart (rev b) = rev b).
  { rewrite <- Hb at 2. now rewrite rev_involutive. }
  rewrite trimStart_fixed_app; [now rewrite rev_app_distr, !rev_involutive | exact Hr |].
  intros H. apply Hn. apply (f_equal (@rev N)) in H. now rewrite rev_involutive in H.
Qed.

(** Two trimmed, non-empty texts with anything between them are trimmed. *)
Lemma trim_fixed_app a mid b :
  trim a = a -> trim b = b -> a <> [] -> b <> [] ->
  trim (a ++ mid ++ b) = a ++ mid ++ b.
Proof.
  intros Ha Hb Hna Hnb.
  destruct (trim_fixed_ends a Ha) as [Hsa _].
  destruct (trim_fixed_ends b Hb) as [_ Heb].
  unfold trim. rewrite trimStart_fixed_app by assumption.
  rewrite app_assoc. rewrite trimEnd_fixed_app by assumption. reflexivity.
Qed.

Lemma truthy_nonempty (s : text) : truthy s = true <-> s <> [].
Proof. destruct s; cbn; split; congruence. Qed.

End TextFacts.

(** ** Model references and the allowed set *)

Module ModelRefFacts.
Import Text Regex ModelSelection RegexFacts TrimFacts TextFacts.

Lemma startsWith_nil s : startsWith s [] = true.
Proof. destruct s; reflexivity. Qed.

Lemma startsWith_one (c x : N) s : startsWith (x :: s) [c] = (x =? c)%N.
Proof. cbn. rewrite startsWith_nil. apply andb_true_r. Qed.

Lemma indexOf_from_first (c : N) (pre post : text) i :
  ~ In c pre -> indexOf_from (pre ++ c :: post) [c] i = Some (i + length pre)%nat.
Proof.
  revert i. induction pre as [|x pre IH]; intros i Hnot.
  - cbn [app indexOf_from]. rewrite startsWith_one, N.eqb_refl. apply f_equal. cbn. lia.
  - cbn [app indexOf_from]. rewrite startsWith_one.
    destruct (N.eqb_spec x c) as [->|Hx]; [exfalso; apply Hnot; now left|].
    rewrite IH; [apply f_equal; cbn [length]; lia|].
    intros H. apply Hnot. now right.
Qed.

Lemma indexOf_from_none (c : N) (s : text) i :
  indexOf_from s [c] i = None -> ~ In c s.
Proof.
  revert i. induction s as [|x s IH]; intros i H; [tauto|].
  cbn [indexOf_from] in H. rewrite startsWith_one in H.
  destruct (N.eqb_spec x c) as [->|Hx]; [discriminate|].
  intros [Hin|Hin]; [congruence | exact (IH _ H Hin)].
Qed.

Lemma indexOf_from_some (c : N) (s : text) i j :
  indexOf_from s [c] i = Some j ->
  exists pre post, s = pre ++ c :: post /\ ~ In c pre /\ j = (i + length pre)%nat.
Proof.
  revert i. induction s as [|x s IH]; intros i H; [discriminate|].
  cbn [indexOf_from] in H. rewrite startsWith_one in H.
  destruct (N.eqb_spec x c) as [->|Hx].
  - injection H as <-. exists [], s. cbn. split; [reflexivity|].
    split; [tauto | lia].
  - destruct (IH _ H) as (pre & post & -> & Hnot & ->).
    exists (x :: pre), post. split; [reflexivity|]. split.
    + intros [Hin|Hin]; [congruence | tauto].
    + cbn. lia.
Qed.

(** X1.  The parts of a parsed reference: the model is never empty and carries
    no white space at its ends; with a slash in the text, so is the
    provider, which holds no slash; without one the provider is the default
    as given. *)
Theorem parseModelRef_parts (raw defaultProvider : text) (r : ModelRef) :
  parseModelRef raw defaultProvider = Some r ->
  model r <> [] /\ trim (model r) = model r
  /\ ((~ In slash raw /\ provider r = defaultProvider /\ model r = trim raw)
      \/ (In slash raw /\ provider r <> [] /\ trim (provider r) = provider r
          /\ ~ In slash (provider r))).
Proof.
  unfold parseModelRef. destruct (truthy (trim raw)) eqn:Ht; [|discriminate].
  cbn [negb]. unfold indexOf.
  destruct (indexOf_from (trim raw) (str "/") 0) as [j|] eqn:Hi.
  - destruct (indexOf_from_some slash _ _ _ Hi) as (pre & post & Hs & Hnot & ->).
    cbn [Nat.add]. unfold slice_to, slice_from. rewrite Hs.
    rewrite take_app_length.
    replace (length pre + 1)%nat with (length (pre ++ [slash])) by (rewrite length_app; reflexivity).
    replace (pre ++ slash :: post) with ((pre ++ [slash]) ++ post)
      by (now rewrite <- app_assoc).
    rewrite drop_app_length.
    destruct (truthy (trim pre)) eqn:Hp; [|discriminate].
    destruct (truthy (trim post)) eqn:Hm; [|discriminate].
    cbn. intros H. injection H as <-. cbn [provider model].
    split; [now apply truthy_nonempty|]. split; [apply trim_idem|].
    right. split.
    + apply trim_subset. rewrite Hs. apply in_or_app. right. now left.
    + split; [now apply truthy_nonempty|]. split; [apply trim_idem|].
      intros Hin. apply Hnot. now apply trim_subset.
  - intros H. injection H as <-. cbn [provider model].
    split; [now apply truthy_nonempty|]. split; [apply trim_idem|].
    left. split; [|split; reflexivity].
    intros Hin. apply (indexOf_from_none slash _ _ Hi).
    (* a slash is no white space, so trimming keeps it *)
    destruct (trim_blank raw) as (ws1 & ws2 & H1 & H2 & Hraw).
    unfold blank in H1, H2. rewrite Forall_forall in H1, H2.
    rewrite Hraw in Hin. apply in_app_or in Hin as [Hin|Hin].
    + exfalso. apply list_elem_of_In in Hin.
      specialize (H1 _ Hin). vm_compute in H1. discriminate.
    + apply in_app_or in Hin as [Hin|Hin]; [exact Hin|].
      exfalso. apply list_elem_of_In in Hin.
      specialize (H2 _ Hin). vm_compute in H2. discriminate.
Qed.

Lemma parseModelRef_parts_witness :
  parseModelRef (str " openai / gpt-5 ") (str "anthropic")
  = Some {| provider := str "openai"; model := str "gpt-5" |}
  /\ model {| provider := str "openai"; model := str "gpt-5" |} <> [].
Proof.
  split; [vm_compute; reflexivity|].
  apply (parseModelRef_parts (str " openai / gpt-5 ") (str "anthropic")).
  vm_compute. reflexivity.
Defined.

(** X2.  The key of a provider and a model parses back to the two, whatever the
    default provider: the text is split at its first slash. *)
Theorem parseModelRef_modelKey (p mo defaultProvider : text) :
  trim p = p -> trim mo = mo -> p <> [] -> mo <> [] -> ~ In slash p ->
  parseModelRef (modelKey p mo) defaultProvider
  = Some {| provider := p; model := mo |}.
Proof.
  intros Hp Hm Hnp Hnm Hnot. unfold parseModelRef, modelKey.
  change (str "/") with [slash].
  rewrite (trim_fixed_app p [slash] mo Hp Hm Hnp Hnm).
  assert (Ht : truthy (p ++ [slash] ++ mo) = true)
    by (destruct p; [congruence | reflexivity]).
  rewrite Ht. cbn [negb app].
  unfold indexOf. rewrite (indexOf_from_first slash p mo 0 Hnot). cbn [Nat.add].
  unfold slice_to, slice_from. rewrite take_app_length.
  replace (length p + 1)%nat with (length (p ++ [slash])) by (rewrite length_app; reflexivity).
  replace (p ++ slash :: mo) with ((p ++ [slash]) ++ mo) by (now rewrite <- app_assoc).
  rewrite drop_app_length, Hp, Hm.
  apply truthy_nonempty in Hnp, Hnm. now rewrite Hnp, Hnm.
Qed.

Lemma parseModelRef_modelKey_witness :
  (trim (str "openai") = str "openai" /\ trim (str "gpt/5 mini") = str "gpt/5 mini")
  /\ parseModelRef (modelKey (str "openai") (str "gpt/5 mini")) (str "anthropic")
     = Some {| provider := str "openai"; model := str "gpt/5 mini" |}.
Proof.
  split; [split; vm_compute; reflexivity|].
  apply (parseModelRef_modelKey (str "openai") (str "gpt/5 mini") (str "anthropic"));
    try (vm_compute; reflexivity); try discriminate.
  vm_compute. intros H. repeat (destruct H as [H|H]; [discriminate|]). exact H.
Defined.

End ModelRefFacts.

Module AllowedSetFacts.
Import Text Regex ModelSelection RegexFacts TrimFacts TextFacts ModelRefFacts.

(** X3.  With non-empty defaults the configured reference is complete: neither
    its provider nor its model is empty, whatever the configuration
    holds. *)
Theorem resolveConfiguredModelRef_complete
    (cfg_provider cfg_model : option text) (defaultProvider defaultModel : text) :
  defaultProvider <> [] -> defaultModel <> [] ->
  let r := resolveConfiguredModelRef cfg_provider cfg_model
             defaultProvider defaultModel in
  provider r <> [] /\ model r <> [].
Proof.
  intros Hp Hm. unfold resolveConfiguredModelRef.
  set (fallback := if truthy (trim_or_empty cfg_provider)
                   then trim_or_empty cfg_provider else defaultProvider).
  assert (Hf : fallback <> []).
  { subst fallback. destruct (truthy (trim_or_empty cfg_provider)) eqn:Ht;
      [now apply truthy_nonempty | exact Hp]. }
  destruct (truthy (trim_or_empty cfg_model)) eqn:Hmodel; cbn zeta.
  - destruct (parseModelRef (trim_or_empty cfg_model) fallback) as [parsed|] eqn:Hparse.
    + destruct (parseModelRef_parts _ _ _ Hparse)
        as (Hne & _ & [(_ & Hprov & _)|(_ & Hprov & _)]).
      * split; [now rewrite Hprov | exact Hne].
      * split; [exact Hprov | exact Hne].
    + cbn. split; [exact Hf | now apply truthy_nonempty].
  - cbn. split; [exact Hf | exact Hm].
Qed.

Lemma resolveConfiguredModelRef_complete_witness :
  let r := resolveConfiguredModelRef (Some (str " ")) (Some (str "/x"))
             (str "anthropic") (str "claude-opus-4-5") in
  r = {| provider := str "anthropic"; model := str "/x" |}
  /\ provider r <> [] /\ model r <> [].
Proof.
  split; [vm_compute; reflexivity|].
  apply (resolveConfiguredModelRef_complete (Some (str " ")) (Some (str "/x"))
           (str "anthropic") (str "claude-opus-4-5")); discriminate.
Defined.

(** What the loop over the allow-list collects. *)
Lemma collectAllowed_spec keys dp raws : forall acc k,
  k ∈ collectAllowed keys dp raws acc
  <-> k ∈ acc
      \/ (k ∈ keys
          /\ exists raw parsed,
               In raw raws /\ parseModelRef raw dp = Some parsed
               /\ modelKey (provider parsed) (model parsed) = k).
Proof.
  induction raws as [|raw rest IH]; intros acc k; cbn [collectAllowed].
  - split; [auto | intros [H|(_ & raw & _ & [] & _)]; exact H].
  - destruct (parseModelRef raw dp) as [parsed|] eqn:Hp.
    + cbv zeta.
      destruct (bool_decide (modelKey (provider parsed) (model parsed) ∈ keys)) eqn:Hk.
      * apply bool_decide_eq_true in Hk. rewrite IH. split.
        -- intros [H|(Hin & raw' & p' & Hr & Hp' & He)].
           ++ apply elem_of_union in H as [H|H]; [|now left].
              apply elem_of_singleton in H. subst k. right.
              split; [exact Hk|]. exists raw, parsed. split; [now left | auto].
           ++ right. split; [exact Hin|]. exists raw', p'. split; [now right | auto].
        -- intros [H|(Hin & raw' & p' & [<-|Hr] & Hp' & He)].
           ++ left. apply elem_of_union. now right.
           ++ left. apply elem_of_union. left. apply elem_of_singleton.
              congruence.
           ++ right. split; [exact Hin|]. exists raw', p'. auto.
      * apply bool_decide_eq_false in Hk. rewrite IH. split.
        -- intros [H|(Hin & raw' & p' & Hr & Hp' & He)]; [now left|].
           right. split; [exact Hin|]. exists raw', p'. split; [now right | auto].
        -- intros [H|(Hin & raw' & p' & [<-|Hr] & Hp' & He)]; [now left | |].
           ++ exfalso. apply Hk. congruence.
           ++ right. split; [exact Hin|]. exists raw', p'. auto.
    + rewrite IH. split.
      * intros [H|(Hin & raw' & p' & Hr & Hp' & He)]; [now left|].
        right. split; [exact Hin|]. exists raw', p'. split; [now right | auto].
      * intros [H|(Hin & raw' & p' & [<-|Hr] & Hp' & He)]; [now left | congruence |].
        right. split; [exact Hin|]. exists raw', p'. auto.
Qed.

Lemma catalogKeys_spec catalog k :
  k ∈ catalogKeys catalog <-> exists e, In e catalog /\ entryKey e = k.
Proof.
  unfold catalogKeys. rewrite elem_of_list_to_set, list_elem_of_In, in_map_iff.
  split; intros (e & H1 & H2); exists e; tauto.
Qed.

(** X4.  Whatever the allow-list, the allowed keys are keys of the catalog, the
    allowed entries are exactly the catalog entries with an allowed key,
    and some entry is allowed unless the catalog is empty. *)
Theorem buildAllowedModelSet_consistent
    (allowedModels : option (list text)) (catalog : list ModelCatalogEntry)
    (defaultProvider : text) :
  let r := buildAllowedModelSet allowedModels catalog defaultProvider in
  allowedKeys r ⊆ catalogKeys catalog
  /\ (forall e, In e (allowedCatalog r) <-> In e catalog /\ entryKey e ∈ allowedKeys r)
  /\ (catalog <> [] -> allowedCatalog r <> []).
Proof.
  assert (Hall : forall e, In e catalog <-> In e catalog /\ entryKey e ∈ catalogKeys catalog).
  { intros e. split; [|tauto]. intros He. split; [exact He|].
    apply catalogKeys_spec. now exists e. }
  unfold buildAllowedModelSet. cbv zeta.
  destruct (bool_decide (length (default [] allowedModels) = 0%nat));
    [cbn; split; [reflexivity | split; [exact Hall | tauto]]|].
  destruct (bool_decide (length (List.filter _ catalog) = 0%nat)) eqn:Hempty;
    [cbn; split; [reflexivity | split; [exact Hall | tauto]]|].
  apply bool_decide_eq_false in Hempty. cbn [allowedKeys allowedCatalog]. split.
  - intros k Hk. apply collectAllowed_spec in Hk as [Hk|[Hk _]]; [|exact Hk].
    now apply elem_of_empty in Hk.
  - split.
    + intros e. rewrite filter_In. split.
      * intros [He Hk]. apply bool_decide_eq_true in Hk. tauto.
      * intros [He Hk]. split; [exact He | now apply bool_decide_eq_true].
    + intros _ H. apply Hempty. now rewrite H.
Qed.

(** X5.  An allow-list with a valid entry is enforced: not every model is
    allowed, and the allowed keys are exactly the catalog keys that some
    entry of the list parses to. *)
Theorem allowlist_with_valid_entry_is_enforced
    (rawAllowlist : list text) (catalog : list ModelCatalogEntry)
    (defaultProvider : text) :
  existsb (valid_entry catalog defaultProvider) rawAllowlist = true ->
  let r := buildAllowedModelSet (Some rawAllowlist) catalog defaultProvider in
  allowAny r = false
  /\ forall k, k ∈ allowedKeys r
               <-> k ∈ catalogKeys catalog
                   /\ exists raw parsed,
                        In raw rawAllowlist
                        /\ parseModelRef raw defaultProvider = Some parsed
                        /\ modelKey (provider parsed) (model parsed) = k.
Proof.
  intros Hvalid. apply existsb_exists in Hvalid as (raw & Hraw & Hv).
  unfold valid_entry in Hv.
  destruct (parseModelRef raw defaultProvider) as [parsed|] eqn:Hp; [|discriminate].
  apply bool_decide_eq_true in Hv.
  set (k0 := modelKey (provider parsed) (model parsed)) in *.
  assert (Hk0 : k0 ∈ collectAllowed (catalogKeys catalog) defaultProvider rawAllowlist ∅).
  { apply collectAllowed_spec. right. split; [exact Hv|]. now exists raw, parsed. }
  destruct (proj1 (catalogKeys_spec catalog k0) Hv) as (e0 & He0 & Hkey0).
  unfold buildAllowedModelSet. cbv zeta.
  change (default [] (Some rawAllowlist)) with rawAllowlist.
  rewrite bool_decide_eq_false_2 by (destruct rawAllowlist; [destruct Hraw | discriminate]).
  rewrite bool_decide_eq_false_2.
  - cbn [allowAny allowedKeys]. split; [reflexivity|].
    intros k. rewrite collectAllowed_spec. split.
    + intros [H|H]; [now apply elem_of_empty in H | exact H].
    + intros H. now right.
  - intros Hlen. apply length_zero_iff_nil in Hlen.
    assert (Hin : In e0 (List.filter
                           (fun e => bool_decide
                              (entryKey e ∈ collectAllowed (catalogKeys catalog)
                                              defaultProvider rawAllowlist ∅))
                           catalog)).
    { apply filter_In. split; [exact He0|]. apply bool_decide_eq_true.
      now rewrite Hkey0. }
    rewrite Hlen in Hin. destruct Hin.
Qed.

End AllowedSetFacts.

Module AllowedSetExamples.
Import Text ModelSelection AllowedSetFacts.

Lemma allowlist_with_valid_entry_is_enforced_witness :
  existsb (valid_entry Sample.catalog (str "anthropic"))
    [str "nope/none"; str "openai/gpt-5"] = true
  /\ allowAny (buildAllowedModelSet (Some [str "nope/none"; str "openai/gpt-5"])
                 Sample.catalog (str "anthropic")) = false.
Proof.
  split; [vm_compute; reflexivity|].
  apply (allowlist_with_valid_entry_is_enforced
           [str "nope/none"; str "openai/gpt-5"] Sample.catalog (str "anthropic")).
  vm_compute. reflexivity.
Defined.

End AllowedSetExamples.

(** ** Abort words and directives *)

Module WordFacts.
Import Text Regex Collab RegexFacts TrimFacts TextFacts.

Lemma lower_char_keeps_space c : is_space (lower_char c) = is_space c.
Proof.
  unfold lower_char.
  destruct (is_upper c || between 192 222 c && negb (c =? 215)%N) eqn:Hup;
    [|reflexivity].
  assert (Hc : (65 <= c <= 90 \/ 192 <= c <= 222)%N).
  { unfold is_upper, between in Hup.
    rewrite orb_true_iff, !andb_true_iff, !N.leb_le in Hup. lia. }
  transitivity false; [|symmetry];
    unfold is_space, between;
    rewrite !orb_false_iff, !andb_false_iff, !N.leb_gt, !N.eqb_neq; lia.
Qed.

Lemma lower_char_idem c : lower_char (lower_char c) = lower_char c.
Proof.
  unfold lower_char at 2.
  destruct (is_upper c || between 192 222 c && negb (c =? 215)%N) eqn:Hup;
    [|unfold lower_char; now rewrite Hup].
  assert (Hc : (65 <= c <= 90 \/ 192 <= c <= 222)%N).
  { unfold is_upper, between in Hup.
    rewrite orb_true_iff, !andb_true_iff, !N.leb_le in Hup. lia. }
  unfold lower_char. rewrite Hup.
  replace (is_upper (c + 32) || between 192 222 (c + 32) && negb (c + 32 =? 215)%N)
    with false; [reflexivity|].
  symmetry. unfold is_upper, between.
  rewrite orb_false_iff, !andb_false_iff, !N.leb_gt. lia.
Qed.

Lemma trimStart_lower s :
  trimStart (map lower_char s) = map lower_char (trimStart s).
Proof.
  induction s as [|c s IH]; [reflexivity|].
  cbn [map trimStart]. rewrite lower_char_keeps_space.
  destruct (is_space c); [exact IH | reflexivity].
Qed.

Lemma trimEnd_lower s : trimEnd (map lower_char s) = map lower_char (trimEnd s).
Proof.
  unfold trimEnd. rewrite <- map_rev, trimStart_lower. now rewrite map_rev.
Qed.

Lemma trim_lower s : trim (toLowerCase s) = toLowerCase (trim s).
Proof. unfold trim, toLowerCase. now rewrite trimStart_lower, trimEnd_lower. Qed.

Lemma toLowerCase_idem s : toLowerCase (toLowerCase s) = toLowerCase s.
Proof.
  unfold toLowerCase. rewrite map_map. apply map_ext. intros c. apply lower_char_idem.
Qed.

Lemma isAbortTrigger_alt t :
  isAbortTrigger (Some t) = mem (toLowerCase (trim t)) ABORT_TRIGGERS.
Proof. destruct t; reflexivity. Qed.

(** X6.  White space around the text and the case of its letters make no
    difference to the abort check. *)
Theorem isAbortTrigger_ignores_space_and_case (t ws1 ws2 : text) :
  blank ws1 -> blank ws2 ->
  isAbortTrigger (Some (ws1 ++ t ++ ws2)) = isAbortTrigger (Some t)
  /\ isAbortTrigger (Some (toLowerCase t)) = isAbortTrigger (Some t).
Proof.
  intros H1 H2. rewrite !isAbortTrigger_alt. split.
  - now rewrite trim_blank_around.
  - now rewrite trim_lower, toLowerCase_idem.
Qed.

Lemma isAbortTrigger_ignores_space_and_case_witness :
  isAbortTrigger (Some (str "  " ++ str "StOp" ++ [10%N])) = true
  /\ isAbortTrigger (Some (str "  " ++ str "StOp" ++ [10%N]))
     = isAbortTrigger (Some (str "StOp")).
Proof.
  split; [vm_compute; reflexivity|].
  apply (isAbortTrigger_ignores_space_and_case (str "StOp") (str "  ") [10%N]);
    repeat constructor.
Defined.

Section Directives.
Context {col : Collaborators}.

(** X7.  Both directives start with a slash: a body without one holds none, and
    comes back trimmed. *)
Theorem body_without_slash_has_no_directive (body : text) :
  ~ In (cu "/") body ->
  let t := extractThinkDirective (Some body) in
  let v := extractVerboseDirective (Some body) in
  (think_hasDirective t = false /\ think_rawLevel t = None
   /\ think_cleaned t = trim body)
  /\ (verbose_hasDirective v = false /\ verbose_rawLevel v = None
      /\ verbose_cleaned v = trim body).
Proof.
  intros Hnot.
  assert (Ht : exec think_re body = None)
    by (apply (exec_none_without (cu "/")); [reflexivity | exact Hnot]).
  assert (Hv : exec verbose_re body = None)
    by (apply (exec_none_without (cu "/")); [reflexivity | exact Hnot]).
  destruct body as [|c body]; [repeat split; reflexivity|].
  cbn [extractThinkDirective extractVerboseDirective think_hasDirective
       think_rawLevel think_cleaned verbose_hasDirective verbose_rawLevel
       verbose_cleaned].
  unfold has_match, rawLevel_of, clean_directive. rewrite Ht, Hv.
  repeat split; reflexivity.
Qed.

End Directives.
End WordFacts.

(** ** A directive with its level *)

Module ParseFacts.
Import Text Regex Collab RegexFacts TrimFacts TextFacts.

(** Greedy repetition over a run of matching code units, when the run
    cannot be extended and what follows it succeeds. *)
Lemma star_run {R} (p : N -> bool) (k : option N -> text -> nat -> option R) res :
  forall (w rest : text) (pv : option N) (n : nat),
    Forall (fun c => p c = true) w ->
    (forall c, head rest = Some c -> p c = false) ->
    k (fold_left (fun _ c => Some c) w pv) rest (n + length w)%nat = Some res ->
    star p pv (w ++ rest) n k = Some res.
Proof.
  induction w as [|c w IH]; intros rest pv n Hw Hrest Hk.
  - cbn [app fold_left length] in *. rewrite Nat.add_0_r in Hk.
    destruct rest as [|x rest]; [exact Hk|]. cbn [star].
    now rewrite (Hrest x eq_refl).
  - cbn [app star]. inversion Hw as [|? ? Hc Hw']; subst. rewrite Hc.
    rewrite (IH rest (Some c) (S n) Hw' Hrest); [reflexivity|].
    cbn [fold_left length] in Hk. now rewrite Nat.add_succ_r in Hk.
Qed.

Lemma alpha_is_word c : is_alpha c = true -> is_word c = true.
Proof. unfold is_word. now intros ->. Qed.

Lemma alpha_is_level c : is_alpha c = true -> level_char c = true.
Proof. unfold level_char. now intros ->. Qed.

Lemma alpha_is_no_space c : is_alpha c = true -> is_space c = false.
Proof.
  intros H. destruct (is_space c) eqn:Hs; [|reflexivity].
  apply space_is_no_word in Hs. apply alpha_is_word in H. congruence.
Qed.

Lemma space_is_no_level c : is_space c = true -> level_char c = false.
Proof.
  intros H. unfold level_char. apply orb_false_iff. split.
  - destruct (is_alpha c) eqn:Ha; [|reflexivity].
    apply alpha_is_no_space in Ha. congruence.
  - unfold is_char. apply N.eqb_neq. intros ->. vm_compute in H. discriminate.
Qed.

Lemma alpha_is_no_colon c : is_alpha c = true -> (c =? cu ":")%N = false.
Proof. intros H. apply N.eqb_neq. intros ->. vm_compute in H. discriminate. Qed.

Lemma word_after_run w : forall c,
  is_alpha c = true -> Forall (fun c => is_alpha c = true) w ->
  word_at (fold_left (fun _ x => Some x) w (Some c)) = true.
Proof.
  induction w as [|x w IH]; intros c Hc Hw; cbn [fold_left].
  - now apply alpha_is_word.
  - inversion Hw; subst. now apply IH.
Qed.

(** After the keyword: white space, an optional colon, white space, the
    level and a word boundary. *)
Lemma level_after_keyword pv level rest n cp :
  level <> [] -> Forall (fun c => is_alpha c = true) level ->
  (forall c, head rest = Some c -> is_space c = true) ->
  m (seqs [ Star is_space; Opt (Chr (cu ":")); Star is_space;
            Grp (Plus level_char); WordB ])
    pv (cu " " :: level ++ rest) n cp (fun _ _ n' cp' => Some (n', cp'))
  = Some ((n + 1 + length level)%nat, Some level).
Proof.
  intros Hne Hal Hrest.
  destruct level as [|l0 level']; [congruence|].
  inversion Hal as [|? ? Hl0 Hal']; subst.
  cbn [seqs m]. unfold Plus. cbn [m].
  apply (star_run is_space _ _ [cu " "] ((l0 :: level') ++ rest) pv n).
  { repeat constructor. }
  { intros c [= <-]. now apply alpha_is_no_space. }
  cbn [fold_left length app]. rewrite (alpha_is_no_colon l0 Hl0).
  apply (star_run is_space _ _ [] (l0 :: level' ++ rest)).
  { constructor. }
  { intros c [= <-]. now apply alpha_is_no_space. }
  cbn [fold_left length app]. rewrite (alpha_is_level l0 Hl0).
  apply (star_run level_char _ _ level' rest).
  { eapply Forall_impl; [exact Hal'|]. intros c. apply alpha_is_level. }
  { intros c Hc. apply space_is_no_level. now apply Hrest. }
  rewrite (word_after_run level' l0 Hl0 Hal').
  assert (Hw : word_at (head rest) = false).
  { destruct rest as [|c rest']; [reflexivity|]. cbn.
    apply space_is_no_word. now apply Hrest. }
  rewrite Hw. cbn [xorb]. f_equal. f_equal.
  - lia.
  - f_equal.
    match goal with
    | |- take ?a _ = _ =>
        replace a with (length (l0 :: level')) by (cbn [length]; lia)
    end.
    exact (take_app_length (l0 :: level') rest).
Qed.

Lemma first_alt {R} (x y : option R) res :
  x = Some res -> match x with Some a => Some a | None => y end = Some res.
Proof. now intros ->. Qed.

Lemma thinking_stops {R} (rest : text) pv n cp (k : K R) :
  m (LitI (str "thinking")) pv (str "think " ++ rest) n cp k = None.
Proof. reflexivity. Qed.

Lemma think_passes {R} (rest : text) pv n cp (k : K R) :
  m (LitI (str "think")) pv (str "think " ++ rest) n cp k
  = k (Some (cu "k")) (cu " " :: rest) (5 + n)%nat cp.
Proof. reflexivity. Qed.

Lemma verbose_passes {R} (rest : text) pv n cp (k : K R) :
  m (LitI (str "verbose")) pv (str "verbose " ++ rest) n cp k
  = k (Some (cu "e")) (cu " " :: rest) (7 + n)%nat cp.
Proof. reflexivity. Qed.

Lemma think_here level rest :
  level <> [] -> Forall (fun c => is_alpha c = true) level ->
  (forall c, head rest = Some c -> is_space c = true) ->
  here think_re None (str "/think " ++ level ++ rest)
  = Some ((7 + length level)%nat, Some level).
Proof.
  intros Hne Hal Hrest. unfold here, think_re. cbn [seqs m at_bol].
  apply first_alt.
  change (str "/think " ++ level ++ rest)
    with (cu "/" :: (str "think " ++ level ++ rest)).
  cbv beta iota. rewrite N.eqb_refl, thinking_stops.
  apply first_alt. rewrite think_passes.
  now apply (level_after_keyword (Some (cu "k")) level rest 6 None).
Qed.

Lemma verbose_here level rest :
  level <> [] -> Forall (fun c => is_alpha c = true) level ->
  (forall c, head rest = Some c -> is_space c = true) ->
  here verbose_re None (str "/verbose " ++ level ++ rest)
  = Some ((9 + length level)%nat, Some level).
Proof.
  intros Hne Hal Hrest. unfold here, verbose_re. cbn [seqs m at_bol].
  apply first_alt.
  change (str "/verbose " ++ level ++ rest)
    with (cu "/" :: (str "verbose " ++ level ++ rest)).
  cbv beta iota. rewrite N.eqb_refl.
  apply first_alt. rewrite verbose_passes.
  cbv beta iota. change (is_space (cu " ")) with true. cbv beta iota.
  now apply (level_after_keyword (Some (cu "e")) level rest 8 None).
Qed.

Lemma exec_at_start r s n cp :
  here r None s = Some (n, cp) ->
  exec r s = Some {| at_index := 0; span := n; group1 := cp |}.
Proof. unfold exec. destruct s; cbn [search]; now intros ->. Qed.

Lemma remove_first_prefix p rest : remove_first p (p ++ rest) = rest.
Proof.
  destruct (p ++ rest) as [|c s] eqn:E; cbn [remove_first]; rewrite <- E;
    now rewrite startsWith_app, drop_app_length.
Qed.

Lemma clean_directive_at_start r prefix rest cp :
  here r None (prefix ++ rest) = Some (length prefix, cp) ->
  clean_directive r (prefix ++ rest) = trim (collapse_ws rest)
  /\ rawLevel_of r (prefix ++ rest) = cp
  /\ has_match r (prefix ++ rest) = true.
Proof.
  intros H. apply exec_at_start in H.
  unfold clean_directive, rawLevel_of, has_match. rewrite H.
  unfold matched. cbn [span at_index group1]. change (skipn 0 (prefix ++ rest)) with (prefix ++ rest).
  now rewrite take_app_length, remove_first_prefix.
Qed.

Section Directives.
Context {col : Collaborators}.

(** X8.  A directive at the start of the body, with a level of letters followed
    by the end of the body or by white space, is found: the raw level is the
    level as written, and the cleaned text is what follows it, with white
    space collapsed and trimmed. *)
Theorem directive_with_level_is_parsed (level rest : text) :
  level <> [] -> Forall (fun c => is_alpha c = true) level ->
  (forall c, head rest = Some c -> is_space c = true) ->
  let t := extractThinkDirective (Some (str "/think " ++ level ++ rest)) in
  let v := extractVerboseDirective (Some (str "/verbose " ++ level ++ rest)) in
  (think_hasDirective t = true /\ think_rawLevel t = Some level
   /\ think_level t = normalizeThinkLevel (Some level)
   /\ think_cleaned t = trim (collapse_ws rest))
  /\ (verbose_hasDirective v = true /\ verbose_rawLevel v = Some level
      /\ verbose_level v = normalizeVerboseLevel (Some level)
      /\ verbose_cleaned v = trim (collapse_ws rest)).
Proof.
  intros Hne Hal Hrest.
  pose proof (think_here level rest Hne Hal Hrest) as Ht.
  pose proof (verbose_here level rest Hne Hal Hrest) as Hv.
  rewrite app_assoc in Ht, Hv.
  replace (7 + length level)%nat with (length (str "/think " ++ level)) in Ht
    by (rewrite length_app; reflexivity).
  replace (9 + length level)%nat with (length (str "/verbose " ++ level)) in Hv
    by (rewrite length_app; reflexivity).
  apply clean_directive_at_start in Ht as (Htc & Htr & Hth).
  apply clean_directive_at_start in Hv as (Hvc & Hvr & Hvh).
  rewrite <- app_assoc in Htc, Htr, Hth, Hvc, Hvr, Hvh.
  split.
  - change (str "/think " ++ level ++ rest)
      with (cu "/" :: (str "think " ++ level ++ rest)) in *.
    cbn [extractThinkDirective think_hasDirective think_rawLevel think_level
         think_cleaned].
    rewrite Htr. auto.
  - change (str "/verbose " ++ level ++ rest)
      with (cu "/" :: (str "verbose " ++ level ++ rest)) in *.
    cbn [extractVerboseDirective verbose_hasDirective verbose_rawLevel
         verbose_level verbose_cleaned].
    rewrite Hvr. auto.
Qed.

End Directives.
End ParseFacts.

Module ParseExamples.
Import Text Regex Collab ParseFacts WordFacts.

#[local] Existing Instance Sample.answering.

Lemma directive_with_level_is_parsed_witness :
  think_cleaned (extractThinkDirective (Some (str "/think " ++ str "HIGH" ++ str "  what   now ")))
  = str "what now"
  /\ think_rawLevel
       (extractThinkDirective (Some (str "/think " ++ str "HIGH" ++ str "  what   now ")))
     = Some (str "HIGH").
Proof.
  split; [vm_compute; reflexivity|].
  apply (directive_with_level_is_parsed (str "HIGH") (str "  what   now ")).
  - discriminate.
  - repeat constructor.
  - intros c [= <-]. reflexivity.
Defined.

Lemma body_without_slash_has_no_directive_witness :
  ~ In (cu "/") (str " hello there ")
  /\ think_cleaned (extractThinkDirective (Some (str " hello there ")))
     = trim (str " hello there ").
Proof.
  assert (H : ~ In (cu "/") (str " hello there ")).
  { vm_compute. intros H. repeat (destruct H as [H|H]; [discriminate|]). exact H. }
  split; [exact H|].
  apply (body_without_slash_has_no_directive (str " hello there ") H).
Defined.

End ParseExamples.

Module StripFacts.
Import Text Regex Collab RegexFacts TrimFacts TextFacts ModelRefFacts.

Lemma here_none_without c r pv s :
  must c r = true -> ~ In c s -> here r pv s = None.
Proof.
  intros Hm Hnot. destruct (here r pv s) as [[n cp]|] eqn:H; [|reflexivity].
  destruct (here_consumes c r pv s n cp H) as (consumed & s' & Hs & _ & Hin).
  exfalso. apply Hnot. rewrite Hs. apply in_or_app. left. now apply Hin.
Qed.

Lemma replace_all_without c r rep s :
  must c r = true -> ~ In c s -> replace_all r rep s = s.
Proof.
  intros Hm. unfold replace_all. generalize (@None N).
  induction s as [|x s IH]; intros pv Hnot; cbn [replace_all_go];
    rewrite (here_none_without c r pv _ Hm Hnot); [reflexivity|].
  f_equal. apply IH. intros H. apply Hnot. now right.
Qed.

Lemma indexOf_from_head s p c i j :
  indexOf_from s (c :: p) i = Some j -> In c s.
Proof.
  revert i. induction s as [|x s IH]; intros i H.
  - cbn in H. discriminate.
  - cbn [indexOf_from startsWith] in H.
    destruct (N.eqb_spec x c) as [->|Hx]; [now left|].
    cbn [andb] in H. right. exact (IH _ H).
Qed.

(** X9.  A text without a bracket and without a colon has no structural prefix:
    it comes back with its white space collapsed and trimmed, and nothing
    else changed. *)
Theorem stripStructuralPrefixes_plain (t : text) :
  ~ In (cu "[") t -> ~ In (cu ":") t ->
  stripStructuralPrefixes t = trim (collapse_ws t).
Proof.
  intros Hbr Hcolon. unfold stripStructuralPrefixes.
  destruct (indexOf t current_marker) as [i|] eqn:Hi.
  - exfalso. apply Hbr. unfold indexOf, current_marker in Hi.
    exact (indexOf_from_head _ _ _ _ _ Hi).
  - rewrite (replace_all_without (cu "[") bracket_re [] t eq_refl Hbr).
    now rewrite (replace_all_without (cu ":") label_re [] t eq_refl Hcolon).
Qed.

Lemma stripStructuralPrefixes_plain_witness :
  stripStructuralPrefixes (str "  what   now ") = str "what now".
Proof.
  etransitivity; [apply stripStructuralPrefixes_plain|vm_compute; reflexivity];
    vm_compute; intros H; repeat (destruct H as [H|H]; [discriminate|]); exact H.
Defined.

End StripFacts.

(** ** Sessions: what a new one starts with *)

Module SessionFacts.
Import Text Sessions Config Agent Collab Effects ModelSelection Reply.

Section WithCollaborators.
Context {col : Collaborators}.

(** X10.  Session initialisation writes one record, under the key of the
    message.  A new session (a reset trigger, a stale record or none)
    starts from nothing: a generated identifier and none of the settings of
    the record it replaces.  A reused session keeps identifier and
    settings. *)
Theorem new_session_drops_settings
    (ctx : MsgContext) (cfg : ClawdisConfig) (isNewSession : bool) (w : World) :
  let r := initSession ctx cfg isNewSession w in
  let e := init_sessionEntry (fst r) in
  let key := sessionKey_of ctx cfg in
  disk (snd r) = <[key := e]> (disk w)
  /\ (init_isNewSession (fst r) = true ->
      sessionId e = uuid (drawn w)
      /\ thinkingLevel e = None /\ verboseLevel e = None
      /\ modelOverride e = None /\ providerOverride e = None
      /\ groupActivation e = None
      /\ systemSent e = Some false /\ abortedLastRun e = Some false)
  /\ (init_isNewSession (fst r) = false ->
      isNewSession = false
      /\ exists old, disk w !! key = Some old
           /\ sessionId e = sessionId old
           /\ thinkingLevel e = thinkingLevel old
           /\ verboseLevel e = verboseLevel old
           /\ modelOverride e = modelOverride old
           /\ providerOverride e = providerOverride old
           /\ groupActivation e = groupActivation old).
Proof.
  unfold initSession, bind, loadSessionStore, freshEntry_of. cbn [fst snd].
  destruct (disk w !! sessionKey_of ctx cfg) as [old|] eqn:Hold.
  - unfold bind, Date_now, ret. cbn [fst snd].
    destruct isNewSession; cbn [negb andb].
    + cbn. repeat split; try reflexivity; discriminate.
    + destruct (is_fresh (Some old) (clock (ticks w)) (idleMs_of cfg)); cbn.
      * split; [reflexivity|]. split; [discriminate|]. intros _.
        split; [reflexivity|]. exists old. repeat split; reflexivity.
      * repeat split; try reflexivity; discriminate.
  - unfold bind, Date_now, randomUUID, ret. cbn [fst snd]. rewrite andb_false_r.
    cbn. repeat split; try reflexivity; discriminate.
Qed.

End WithCollaborators.
End SessionFacts.

(** ** The scheduled turn: session, failure, summary and target *)

Module CronRunFacts.
Import Text Sessions Config Agent Collab Effects ModelSelection Cron CronDelivery.
Import RegexFacts TrimFacts TextFacts.

Section WithCollaborators.
Context {col : Collaborators}.

Lemma idleMs_at_least_a_minute cfg : 60000 <= idleMs_of cfg.
Proof. unfold idleMs_of. lia. Qed.

(** X18.  The session of a scheduled turn: a record is reused when it is at most
    the idle window old, the window being at least a minute whatever is
    configured; otherwise the session is new.  The store is only read. *)
Theorem cron_session_is_reused_within_idle_window
    (cfg : ClawdisConfig) (sessionKey : text) (nowMs : Z) (w : World) :
  let r := resolveCronSession cfg sessionKey nowMs w in
  let cs := fst r in
  disk (snd r) = disk w
  /\ 60000 <= idleMs_of cfg
  /\ updatedAt (cron_sessionEntry cs) = nowMs
  /\ systemSent (cron_sessionEntry cs) = Some (cron_systemSent cs)
  /\ (forall e, disk w !! sessionKey = Some e ->
        nowMs - updatedAt e <= idleMs_of cfg ->
        cron_isNewSession cs = false
        /\ sessionId (cron_sessionEntry cs) = sessionId e
        /\ cron_systemSent cs = default false (systemSent e)
        /\ snd r = w)
  /\ (disk w !! sessionKey = None
      \/ (exists e, disk w !! sessionKey = Some e
                    /\ nowMs - updatedAt e > idleMs_of cfg) ->
      cron_isNewSession cs = true
      /\ sessionId (cron_sessionEntry cs) = uuid (drawn w)
      /\ cron_systemSent cs = false).
Proof.
  unfold resolveCronSession, bind, loadSessionStore, ret. cbn [fst snd].
  split; [|split; [apply idleMs_at_least_a_minute|]].
  { destruct (disk w !! sessionKey) as [e|];
      [destruct (is_fresh (Some e) nowMs (idleMs_of cfg))|]; reflexivity. }
  destruct (disk w !! sessionKey) as [e|] eqn:He.
  - unfold is_fresh.
    destruct (Z.leb_spec (nowMs - updatedAt e) (idleMs_of cfg)) as [Hle|Hgt]; cbn.
    + split; [reflexivity|]. split; [reflexivity|]. split.
      * intros e' [= <-] _. destruct w; repeat split; reflexivity.
      * intros [H|(e' & [= <-] & H)]; [discriminate | lia].
    + split; [reflexivity|]. split; [reflexivity|]. split.
      * intros e' [= <-] H. lia.
      * intros _. repeat split; reflexivity.
  - cbn. split; [reflexivity|]. split; [reflexivity|]. split.
    + intros e' H. discriminate.
    + intros _. repeat split; reflexivity.
Qed.

(** X19.  A run that the agent engine rejects does not make the scheduled turn
    reject: the turn resolves with the status [error] and the text of the
    failure, without a summary.  The engine was called once, and the
    record written before the call, marked [systemSent], stays in the
    store. *)
Theorem cron_run_failure_is_reported
    (cfg : ClawdisConfig) (job : CronJob) (message sessionKey : text)
    (lane : option text) (w : World) :
  let r := runCronIsolatedAgentTurn cfg job message sessionKey lane w in
  exists p,
    calls (snd r) = RunAgent p :: calls w
    /\ prompt p = cron_prompt job message
    /\ run_sessionKey p = sessionKey
    /\ runId p = run_sessionId p
    /\ forall err, runEmbeddedPiAgent p = inl err ->
         fst r = {| status := StatusError; summary := None; error := Some err |}
         /\ exists e, disk (snd r) !! sessionKey = Some e
                      /\ sessionId e = run_sessionId p
                      /\ systemSent e = Some true.
Proof.
  destruct (runCronIsolatedAgentTurn cfg job message sessionKey lane w)
    as [res w'] eqn:Hrun.
  cbn [fst snd].
  unfold runCronIsolatedAgentTurn in Hrun.
  unfold bind at 1 in Hrun. unfold Date_now at 1 in Hrun. cbn [fst snd] in Hrun.
  unfold bind at 1 in Hrun.
  match type of Hrun with
  | context [resolveCronSession cfg sessionKey ?n ?w1] =>
      pose proof (cron_session_is_reused_within_idle_window cfg sessionKey n w1)
        as (_ & _ & _ & Hsent & _);
      assert (Hcalls : calls (snd (resolveCronSession cfg sessionKey n w1)) = calls w);
      [ unfold resolveCronSession, bind, loadSessionStore, ret; cbn [fst snd];
        destruct (disk w1 !! sessionKey) as [e0|];
        [destruct (is_fresh (Some e0) n (idleMs_of cfg))|]; reflexivity
      | destruct (resolveCronSession cfg sessionKey n w1) as [cs w2] ]
  end.
  cbn [fst snd] in Hsent, Hcalls, Hrun.
  unfold bind at 1 in Hrun.
  match type of Hrun with
  | context [(if ?c then ?a else ret ?b) w2] =>
      set (es1 := (if c then a else ret b) w2) in Hrun;
      assert (Hes1 : systemSent (fst (fst es1)) = Some (cron_systemSent cs)
                     /\ calls (snd es1) = calls w);
      [ subst es1; destruct c;
        [ unfold bind, Date_now, put_and_save, saveSessionStore, ret;
          cbn [fst snd calls]; split; [exact Hsent | exact Hcalls]
        | unfold ret; cbn [fst snd]; split; [exact Hsent | exact Hcalls] ]
      | ]
  end.
  destruct es1 as [[entry1 store1] w3]. cbn [fst snd] in Hes1, Hrun.
  destruct Hes1 as [Hsent1 Hcalls3].
  match type of Hrun with
  | context [put_and_save store1 sessionKey ?e] =>
      set (entry2 := e) in Hrun;
      assert (Hsent2 : systemSent entry2 = Some true);
      [ subst entry2;
        destruct (cron_isNewSession cs) ; cbn [orb];
        [ reflexivity
        | destruct (cron_systemSent cs); cbn [negb]; [exact Hsent1 | reflexivity] ]
      | clearbody entry2 ]
  end.
  unfold bind at 1, put_and_save at 1, bind at 1, saveSessionStore at 1,
    ret at 1 in Hrun.
  cbn [fst snd] in Hrun.
  unfold bind at 1, call_agent at 1, bind at 1, record_call at 1, ret at 1 in Hrun.
  cbn [fst snd] in Hrun.
  match type of Hrun with
  | context [runEmbeddedPiAgent ?p] => set (params := p) in Hrun
  end.
  exists params.
  assert (Hcalls' : calls w' = RunAgent params :: calls w).
  { destruct (runEmbeddedPiAgent params) as [failure|runResult].
    - unfold ret in Hrun. injection Hrun as <- <-. cbn [calls]. now rewrite Hcalls3.
    - unfold bind at 1, put_and_save at 1, bind at 1, saveSessionStore at 1,
        ret in Hrun.
      cbn [fst snd] in Hrun. injection Hrun as <- <-. cbn [calls].
      now rewrite Hcalls3. }
  split; [exact Hcalls'|]. split; [reflexivity|]. split; [reflexivity|].
  split; [reflexivity|].
  intros err Herr. rewrite Herr in Hrun. unfold ret in Hrun.
  injection Hrun as <- <-. split; [reflexivity|].
  exists entry2. cbn [disk]. split; [apply lookup_insert_eq|].
  split; [reflexivity | exact Hsent2].
Qed.

End WithCollaborators.
End CronRunFacts.

Module CronDeliveryFacts.
Import Text Sessions Config Agent Collab Effects ModelSelection Cron CronDelivery.
Import RegexFacts TrimFacts TextFacts.

Section WithCollaborators.
Context {col : Collaborators}.

(** X20.  The summary of an output: none for a blank text; otherwise the trimmed
    text, cut after [SUMMARY_LIMIT] code units with the tail appended, so
    never empty and never longer than the limit and the tail. *)
Theorem pickSummaryFromOutput_bounds (t : option text) :
  let clean := trim (default [] t) in
  (pickSummaryFromOutput t = None <-> clean = [])
  /\ forall s, pickSummaryFromOutput t = Some s ->
       s <> []
       /\ (length s <= SUMMARY_LIMIT + length SUMMARY_TAIL)%nat
       /\ ((length clean <= SUMMARY_LIMIT)%nat -> s = clean)
       /\ ((SUMMARY_LIMIT < length clean)%nat ->
           s = take SUMMARY_LIMIT clean ++ SUMMARY_TAIL
           /\ length s = (SUMMARY_LIMIT + length SUMMARY_TAIL)%nat).
Proof.
  intros clean. unfold pickSummaryFromOutput. fold clean.
  destruct clean as [|c clean'] eqn:Hclean; cbn [truthy negb].
  - split; [tauto | discriminate].
  - rewrite <- Hclean.
    assert (Hlen : length clean = S (length clean')) by now rewrite Hclean.
    split; [split; [|intros H; rewrite Hclean in H; discriminate]|].
    { destruct (SUMMARY_LIMIT <? length clean)%nat; discriminate. }
    intros s. unfold slice_to.
    destruct (Nat.ltb_spec SUMMARY_LIMIT (length clean)) as [Hlt|Hle];
      intros [= <-].
    + assert (Hs : length (take SUMMARY_LIMIT clean ++ SUMMARY_TAIL)
                   = (SUMMARY_LIMIT + length SUMMARY_TAIL)%nat).
      { rewrite length_app, length_take. lia. }
      split; [intros H; rewrite H in Hs; cbn in Hs; lia|].
      split; [lia|]. split; [lia | tauto].
    + split; [rewrite Hclean; discriminate|].
      split; [lia|]. split; [reflexivity | lia].
Qed.

Lemma pickSummaryFromOutput_truthy t s :
  pickSummaryFromOutput t = Some s -> truthy s = true.
Proof.
  intros H. apply (proj2 (pickSummaryFromOutput_bounds t)) in H as [Hne _].
  now apply truthy_nonempty.
Qed.

Lemma pickSummary_down_app qs rest :
  Forall (fun q => pickSummaryFromOutput (payload_text q) = None) qs ->
  pickSummary_down (qs ++ rest) = pickSummary_down rest.
Proof.
  intros H. induction H as [|q qs Hq _ IH]; [reflexivity|].
  cbn [app pickSummary_down]. now rewrite Hq.
Qed.

Lemma pickSummary_down_none l :
  pickSummary_down l = None
  <-> Forall (fun q => pickSummaryFromOutput (payload_text q) = None) l.
Proof.
  induction l as [|q l IH]; cbn [pickSummary_down].
  - split; [constructor | reflexivity].
  - destruct (pickSummaryFromOutput (payload_text q)) as [s|] eqn:Hq.
    + rewrite (pickSummaryFromOutput_truthy _ _ Hq). split; [discriminate|].
      intros H. inversion H; subst. congruence.
    + rewrite IH. split; [now constructor | intros H; now inversion H].
Qed.

(** X21.  The summary of a run is that of the last payload whose text is not
    blank; there is none exactly when every payload is blank. *)
Theorem pickSummaryFromPayloads_takes_last :
  (forall (before : list ReplyPayload) (p : ReplyPayload) (after : list ReplyPayload),
     Forall (fun q => pickSummaryFromOutput (payload_text q) = None) after ->
     is_Some (pickSummaryFromOutput (payload_text p)) ->
     pickSummaryFromPayloads (before ++ p :: after)
     = pickSummaryFromOutput (payload_text p))
  /\ (forall payloads : list ReplyPayload,
        pickSummaryFromPayloads payloads = None
        <-> Forall (fun q => pickSummaryFromOutput (payload_text q) = None) payloads).
Proof.
  assert (Hrev : forall l : list ReplyPayload,
            Forall (fun q => pickSummaryFromOutput (payload_text q) = None) (rev l)
            <-> Forall (fun q => pickSummaryFromOutput (payload_text q) = None) l).
  { intros l. rewrite !Forall_forall. split; intros H q Hq; apply H;
      apply list_elem_of_In; apply list_elem_of_In in Hq;
      [now apply in_rev in Hq | now apply in_rev]. }
  split.
  - intros before p after Hafter [s Hs]. unfold pickSummaryFromPayloads.
    rewrite rev_app_distr. cbn [rev]. rewrite <- app_assoc.
    rewrite pickSummary_down_app by now apply Hrev.
    cbn [app pickSummary_down]. rewrite Hs.
    now rewrite (pickSummaryFromOutput_truthy _ _ Hs).
  - intros payloads. unfold pickSummaryFromPayloads.
    now rewrite pickSummary_down_none, Hrev.
Qed.

(** X22.  The channel of a delivery is never the web chat, and a WhatsApp
    recipient is taken from the normalised allow list whenever that list
    is in force (it has no wildcard and is not empty): a recipient outside
    it is replaced by the first entry.  The store is only read. *)
Theorem delivery_target_respects_allow_list
    (cfg : ClawdisConfig) (channel to : option text) (w : World) :
  let r := resolveDeliveryTarget cfg channel to w in
  let rawAllow := default [] (routing_opt allowFrom cfg) in
  snd r = w
  /\ target_channel (fst r) <> str "webchat"
  /\ (target_channel (fst r) = str "whatsapp" ->
      existsb (Text.eqb (str "*")) rawAllow = false ->
      normalizedAllowFrom rawAllow <> [] ->
      exists x, target_to (fst r) = Some x /\ In x (normalizedAllowFrom rawAllow)).
Proof.
  unfold resolveDeliveryTarget, bind, loadSessionStore, ret. cbv zeta.
  cbn [fst snd target_channel target_to].
  split; [reflexivity|].
  set (requested := default (str "last") channel).
  set (lastCh := match _ ≫= lastChannel with Some c => _ | None => None end).
  set (ch := if Text.eqb requested (str "whatsapp") || _ then requested else _).
  set (to' := match match to with Some t => _ | None => None end with
              | Some t => Some t | None => _ end).
  split.
  - subst ch. destruct (Text.eqb requested (str "whatsapp")) eqn:Hw.
    + apply bool_decide_eq_true in Hw. rewrite Hw. discriminate.
    + destruct (Text.eqb requested (str "telegram")) eqn:Ht; cbn [orb].
      * apply bool_decide_eq_true in Ht. rewrite Ht. discriminate.
      * subst lastCh.
        destruct (_ ≫= lastChannel) as [c|]; [|discriminate].
        destruct (truthy c && negb (Text.eqb c (str "webchat"))) eqn:Hc;
          [|discriminate].
        apply andb_true_iff in Hc as [_ Hc]. apply negb_true_iff in Hc.
        apply bool_decide_eq_false in Hc. exact Hc.
  - intros Hch Hstar Hne. rewrite Hch.
    replace (Text.eqb (str "whatsapp") (str "whatsapp")) with true by reflexivity.
    unfold sanitizedWhatsappTo.
    replace (Text.eqb (str "whatsapp") (str "whatsapp")) with true by reflexivity.
    cbn [negb]. rewrite Hstar.
    destruct (normalizedAllowFrom _) as [|first rest] eqn:Hallow; [congruence|].
    destruct to' as [t|].
    + destruct (existsb (Text.eqb (normalizeE164 t)) (first :: rest)) eqn:Hin.
      * exists (normalizeE164 t). split; [reflexivity|].
        apply existsb_exists in Hin as (x & Hx & Heq).
        apply bool_decide_eq_true in Heq. now subst x.
      * exists first. split; [reflexivity | now left].
    + exists first. split; [reflexivity | now left].
Qed.

End WithCollaborators.
End CronDeliveryFacts.

Module CronDeliveryExamples.
Import Text Sessions Config Agent Collab Effects CronDelivery CronDeliveryFacts.

#[local] Existing Instance Sample.answering.

Lemma pickSummaryFromPayloads_takes_last_witness :
  pickSummaryFromPayloads
    ([text_payload (str "first")] ++ text_payload (str " second ")
       :: [text_payload (str "  ")])
  = Some (str "second").
Proof.
  etransitivity;
    [apply (proj1 pickSummaryFromPayloads_takes_last [text_payload (str "first")]
              (text_payload (str " second ")) [text_payload (str "  ")])|].
  - repeat constructor.
  - vm_compute. eexists. reflexivity.
  - vm_compute. reflexivity.
Defined.

End CronDeliveryExamples.

(** ** Access control and the commands of a turn *)

Module AccessFacts.
Import Text Sessions Config Agent Collab Effects ModelSelection Reply TurnFacts.
Import InvalidLevelFacts AbortFacts SyncFacts PromptFacts ResetFacts.

Section WithCollaborators.
Context {col : Collaborators}.

Lemma senderRefused_same_ends c1 c2 cfg :
  From c1 = From c2 -> To c1 = To c2 ->
  senderRefused c1 cfg = senderRefused c2 cfg.
Proof.
  intros Hf Ht.
  unfold senderRefused, isSamePhone, isGroup_of, allowFrom_of, from_of, to_of.
  now rewrite Hf, Ht.
Qed.

Lemma touch_and_save_ctx e t w : t_ctx (fst (touch_and_save e t w)) = t_ctx t.
Proof. reflexivity. Qed.

Lemma validateStoredOverride_ctx t w :
  t_ctx (fst (validateStoredOverride t w)) = t_ctx t.
Proof. apply validateStoredOverride_frame. Qed.

(** The sender and the recipient of the turn are those of the message. *)
Lemma openTurn_ends ctx cfg w t w1 :
  openTurn ctx cfg w = (inr t, w1) ->
  From (t_ctx t) = From ctx /\ To (t_ctx t) = To ctx.
Proof.
  unfold openTurn.
  destruct (if _ && _ then _ else _) as [failure|transcribed];
    [unfold finish, ret; discriminate|].
  unfold bind at 1. cbv zeta.
  intros H. unfold bind at 1, continue, ret in H. cbn [fst snd] in H.
  injection H as <- _. unfold applyStoredOverride. cbn [t_ctx with_model].
  rewrite validateStoredOverride_ctx. cbn [t_ctx].
  destruct (if truthy_opt transcribed then transcribed else None); split; reflexivity.
Qed.

Lemma directiveStage_ctx cfg t w t' w' :
  directiveStage cfg t w = (inr t', w') -> t_ctx t' = t_ctx t.
Proof.
  unfold directiveStage. destruct (directiveOnly cfg t).
  - unfold answerDirectives, commit_directives, bind, finish, ret. cbv zeta.
    repeat match goal with
           | |- context [if ?b then _ else _] => destruct b
           | |- context [match ?x with _ => _ end] => destruct x
           end; discriminate.
  - unfold bind, continue, ret. cbn [fst snd]. intros H. injection H as <- _.
    unfold persistInlineDirectives.
    repeat match goal with
           | |- context [if ?b then _ else _] => destruct b
           | |- context [match ?x with _ => _ end] => destruct x
           end; reflexivity.
Qed.

Lemma upToDirectives_ends ctx cfg w t w1 :
  upToDirectives ctx cfg w = (inr t, w1) ->
  From (t_ctx t) = From ctx /\ To (t_ctx t) = To ctx.
Proof.
  intros H. apply and_then_goes_on_inv in H as (t0 & w0 & Hopen & Hdir).
  apply openTurn_ends in Hopen. apply directiveStage_ctx in Hdir.
  now rewrite Hdir.
Qed.

(** X11.  A direct message from a sender whom the allow list refuses never
    reaches a collaborator: the agent engine is not run, nothing is queued
    and nothing is restarted; unless the message was answered as a pure
    directive turn before the check, it gets no reply. *)
Theorem refused_sender_is_dropped (ctx : MsgContext) (cfg : ClawdisConfig) (w : World) :
  senderRefused ctx cfg = true ->
  let r := getReplyFromConfig ctx cfg w in
  calls (snd r) = calls w
  /\ (forall t w1, upToDirectives ctx cfg w = (inr t, w1) -> r = (no_reply, w1)).
Proof.
  intros Hrefused r. subst r.
  pose proof (quiet_upToDirectives ctx cfg w) as Hq.
  destruct (upToDirectives ctx cfg w) as [[o|t] w1] eqn:Hdir; cbn [snd] in Hq.
  - assert (Hend : getReplyFromConfig ctx cfg w = (o, w1)).
    { apply turn_ends_before_the_agent. unfold upToPrompt, upToCommands.
      now do 2 apply and_then_ends. }
    rewrite Hend. split; [exact Hq | discriminate].
  - assert (Hcmd : commandStage cfg t w1 = (inl no_reply, w1)).
    { destruct (upToDirectives_ends _ _ _ _ _ Hdir) as [Hf Ht].
      unfold commandStage.
      rewrite (senderRefused_same_ends (t_ctx t) ctx cfg Hf Ht), Hrefused.
      reflexivity. }
    rewrite (turn_ends_in_commands ctx cfg w t w1 _ _ Hdir Hcmd).
    split; [exact Hq|]. intros t' w' H. now injection H as <- <-.
Qed.

(** X12.  A message that holds nothing but valid think and verbose directives is
    acknowledged and the levels are stored under the session key; the
    sender is not looked at, and no collaborator is called. *)
Theorem pure_directive_turn_is_acknowledged
    (ctx : MsgContext) (cfg : ClawdisConfig) (w : World) (t : Turn) (w1 : World) :
  openTurn ctx cfg w = (inr t, w1) ->
  directiveOnly cfg t = true ->
  hasModelDirective t = false ->
  hasThinkDirective t && negb (truthy_opt (inlineThink t)) = false ->
  hasVerboseDirective t && negb (truthy_opt (inlineVerbose t)) = false ->
  truthy (t_sessionKey t) = true ->
  let r := getReplyFromConfig ctx cfg w in
  fst r = reply_text (directive_ack t None)
  /\ calls (snd r) = calls w
  /\ exists e, disk (snd r) !! t_sessionKey t = Some e
               /\ sessionId e = sessionId (t_sessionEntry t)
               /\ (think_applies t = true ->
                   thinkingLevel e = stored_level (inlineThink t))
               /\ (verbose_applies t = true ->
                   verboseLevel e = stored_level (inlineVerbose t)).
Proof.
  intros Hopen Honly Hmodel Hthink Hverbose Hkey r. subst r.
  set (e2 := persist_verbose t (persist_think t (t_sessionEntry t))).
  assert (Hdir : directiveStage cfg t w1
                 = (inl (reply_text (directive_ack t None)),
                    snd (touch_and_save e2 t w1))).
  { unfold directiveStage. rewrite Honly. unfold answerDirectives.
    rewrite Hmodel, Hthink, Hverbose. cbn [andb].
    assert (Hc : @commit_directives col Turn t None w1
                 = (inl (reply_text (directive_ack t None)),
                    snd (touch_and_save e2 t w1))).
    { unfold commit_directives. rewrite Hkey. reflexivity. }
    destruct (rawModelDirective t); exact Hc. }
  rewrite (turn_ends_in_directives ctx cfg w t w1 _ _ Hopen Hdir). cbn [fst snd].
  destruct (touch_and_save_record e2 t w1) as [Hrec Hcalls].
  split; [reflexivity|]. split.
  - rewrite Hcalls.
    pose proof (quiet_openTurn ctx cfg w) as Hq. now rewrite Hopen in Hq.
  - eexists. split; [exact Hrec|]. cbn. subst e2.
    split; [apply persist_levels_keep_rest|]. split.
    + intros Ha. rewrite persist_verbose_keeps_think. now apply persist_think_applies.
    + intros Ha. now apply persist_verbose_applies.
Qed.

End WithCollaborators.
End AccessFacts.

Module CommandFacts.
Import Text Sessions Config Agent Collab Effects ModelSelection Reply TurnFacts.
Import InvalidLevelFacts AbortFacts SyncFacts PromptFacts ResetFacts AccessFacts.

Section WithCollaborators.
Context {col : Collaborators}.

Lemma upToCommands_inv ctx cfg w t w1 :
  upToCommands ctx cfg w = (inr t, w1) ->
  upToDirectives ctx cfg w = (inr t, w1)
  /\ commandStage cfg t w1 = (inr t, w1)
  /\ calls w1 = calls w.
Proof.
  intros H. apply and_then_goes_on_inv in H as (t0 & w0 & Hdir & Hcmd).
  destruct (commandStage_goes_on _ _ _ _ _ Hcmd) as [-> ->].
  split; [exact Hdir|]. split; [exact Hcmd|].
  pose proof (quiet_upToDirectives ctx cfg w) as Hq. now rewrite Hdir in Hq.
Qed.

(** X13.  The restart command of a sender who passes access control (in a
    group: of an owner) is answered without the agent engine: the restart
    is triggered once, the reply is the acknowledgement, and the store
    stays as the turn had written it. *)
Theorem restart_is_answered_without_agent
    (ctx : MsgContext) (cfg : ClawdisConfig) (w : World) (t : Turn) (w1 : World) :
  upToDirectives ctx cfg w = (inr t, w1) ->
  senderRefused (t_ctx t) cfg = false ->
  hasCommand (parseActivationCommand (commandBodyNormalized (t_ctx t) cfg)) = false ->
  isGroup_of (t_ctx t) && negb (isOwnerSender (t_ctx t) cfg) = false ->
  isRestartCommand (commandBodyNormalized (t_ctx t) cfg) = true ->
  let r := getReplyFromConfig ctx cfg w in
  fst r = reply_text restart_ack
  /\ calls (snd r) = Restart :: calls w
  /\ disk (snd r) = disk w1
  /\ abortMemory (snd r) = abortMemory w1.
Proof.
  intros Hdir Hsender Hact Howner Hrestart r. subst r.
  pose proof (quiet_upToDirectives ctx cfg w) as Hq. rewrite Hdir in Hq.
  cbn [snd] in Hq.
  assert (Hcmd : commandStage cfg t w1
                 = (inl (reply_text restart_ack),
                    snd (triggerClawdisRestart w1))).
  { unfold commandStage. rewrite Hsender, Hact, Hrestart, Howner. reflexivity. }
  rewrite (turn_ends_in_commands ctx cfg w t w1 _ _ Hdir Hcmd). cbn [fst snd].
  split; [reflexivity|]. split; [now rewrite <- Hq|]. split; reflexivity.
Qed.

(** X14.  A body that is blank once the directives are taken out is answered
    with the request to resend; the agent engine is not run. *)
Theorem blank_body_is_answered_without_agent
    (ctx : MsgContext) (cfg : ClawdisConfig) (w : World) (t : Turn) (w1 : World) :
  upToCommands ctx cfg w = (inr t, w1) ->
  truthy (trim (baseBodyFinal t)) = false ->
  getReplyFromConfig ctx cfg w = (reply_text empty_body_reply, w1)
  /\ calls w1 = calls w.
Proof.
  intros Hcmd Hblank.
  destruct (upToCommands_inv _ _ _ _ _ Hcmd) as (_ & _ & Hcalls).
  split; [|exact Hcalls].
  apply turn_ends_before_the_agent. unfold upToPrompt.
  rewrite (and_then_goes_on _ _ _ _ _ Hcmd).
  unfold promptStage. rewrite Hblank. reflexivity.
Qed.

Lemma quiet_replace_and_save f t : quiet (replace_and_save f t).
Proof. unfold replace_and_save. apply quiet_touch_and_save. Qed.

(** The prompt stage up to the hand-over to a running agent: one call, the
    one that offers the message to the queue. *)
Lemma promptStage_calls cfg t w res w' :
  truthy (trim (baseBodyFinal t)) = true ->
  promptStage cfg t w = (res, w') ->
  let queuedBody := with_media (t_ctx t) (with_transcript t (baseBodyFinal t)) in
  calls w' = QueueMessage (t_sessionId t) queuedBody :: calls w
  /\ (queueEmbeddedPiMessage (t_sessionId t) queuedBody = true ->
      res = inl no_reply).
Proof.
  intros Hbody Hp queuedBody. unfold promptStage in Hp. rewrite Hbody in Hp.
  cbn [negb] in Hp. unfold bind at 1 in Hp.
  match type of Hp with
  | context [snd (?c w)] =>
      assert (H1 : calls (snd (c w)) = calls w);
      [ refine ((_ : quiet c) w);
        repeat first [apply quiet_touch_and_save | quiet_step]
      | destruct (c w) as [t1 w2]; cbn [fst snd] in H1, Hp ]
  end.
  unfold bind at 1 in Hp.
  match type of Hp with
  | context [snd (?c w2)] =>
      assert (H2 : calls (snd (c w2)) = calls w2);
      [ refine ((_ : quiet c) w2);
        repeat first [apply quiet_replace_and_save | quiet_step]
      | destruct (c w2) as [t2 w3]; cbn [fst snd] in H2, Hp ]
  end.
  unfold bind at 1 in Hp.
  match type of Hp with
  | context [snd (?c w3)] =>
      assert (H3 : calls (snd (c w3)) = calls w3);
      [ refine ((_ : quiet c) w3);
        repeat first [apply quiet_replace_and_save | quiet_step]
      | destruct (c w3) as [t3 w4]; cbn [fst snd] in H3, Hp ]
  end.
  unfold bind at 1, call_queue at 1, bind at 1, record_call at 1, ret at 1 in Hp.
  cbn [fst snd] in Hp. fold queuedBody in Hp.
  destruct (queueEmbeddedPiMessage (t_sessionId t) queuedBody).
  - unfold bind, finish, ret in Hp. cbv zeta in Hp. cbn [fst snd] in Hp.
    destruct (truthy (t_sessionKey t3)); cbn in Hp; injection Hp as <- <-;
      cbn [calls]; split; [congruence | reflexivity | congruence | reflexivity].
  - unfold continue, ret in Hp. injection Hp as <- <-. cbn [calls].
    split; [congruence | discriminate].
Qed.

(** X15.  A message that the running agent takes into its queue starts no second
    run and gets no reply of its own. *)
Theorem queued_message_starts_no_run
    (ctx : MsgContext) (cfg : ClawdisConfig) (w : World) (t : Turn) (w1 : World) :
  upToCommands ctx cfg w = (inr t, w1) ->
  truthy (trim (baseBodyFinal t)) = true ->
  let queuedBody := with_media (t_ctx t) (with_transcript t (baseBodyFinal t)) in
  queueEmbeddedPiMessage (t_sessionId t) queuedBody = true ->
  let r := getReplyFromConfig ctx cfg w in
  fst r = no_reply
  /\ calls (snd r) = QueueMessage (t_sessionId t) queuedBody :: calls w.
Proof.
  intros Hcmd Hbody queuedBody Hqueue r. subst r.
  destruct (upToCommands_inv _ _ _ _ _ Hcmd) as (_ & _ & Hcalls).
  destruct (promptStage cfg t w1) as [res w2] eqn:Hp.
  destruct (promptStage_calls cfg t w1 res w2 Hbody Hp) as [Hc Hno].
  specialize (Hno Hqueue). subst res.
  assert (Hend : getReplyFromConfig ctx cfg w = (no_reply, w2)).
  { apply turn_ends_before_the_agent. unfold upToPrompt.
    now rewrite (and_then_goes_on _ _ _ _ _ Hcmd). }
  rewrite Hend. cbn [fst snd]. split; [reflexivity|].
  now rewrite Hc, Hcalls.
Qed.

End WithCollaborators.
End CommandFacts.

Module ModelChoiceFacts.
Import Text Sessions Config Agent Collab Effects ModelSelection Reply TurnFacts.
Import InvalidLevelFacts AbortFacts SyncFacts PromptFacts ResetFacts AccessFacts.

Section WithCollaborators.
Context {col : Collaborators}.

Lemma validateStoredOverride_model t w :
  let t' := fst (validateStoredOverride t w) in
  t_provider t' = t_provider t /\ t_model t' = t_model t
  /\ t_defaultProvider t' = t_defaultProvider t
  /\ t_defaultModel t' = t_defaultModel t
  /\ t_allowedModelKeys t' = t_allowedModelKeys t.
Proof.
  unfold validateStoredOverride.
  repeat match goal with
         | |- context [if ?b then _ else _] => destruct b
         | |- context [match ?x with _ => _ end] => destruct x
         end; cbn; tauto.
Qed.

Lemma applyStoredOverride_in_bounds cfg t :
  model_in_bounds t -> model_in_bounds (applyStoredOverride cfg t).
Proof.
  intros Hb. unfold applyStoredOverride, model_in_bounds.
  cbn [with_model t_provider t_model t_defaultProvider t_defaultModel
       t_allowedModelKeys].
  destruct (opt_trim (modelOverride (t_sessionEntry t))) as [mo|]; [|exact Hb].
  destruct (truthy mo); [|exact Hb].
  destruct (bool_decide (size (t_allowedModelKeys t) = 0%nat)) eqn:Hsize.
  - apply bool_decide_eq_true in Hsize. cbn. tauto.
  - cbn [orb].
    destruct (bool_decide (_ ∈ t_allowedModelKeys t)) eqn:Hin; [|exact Hb].
    apply bool_decide_eq_true in Hin. cbn [fst snd]. tauto.
Qed.

Lemma openTurn_in_bounds ctx cfg w t w1 :
  openTurn ctx cfg w = (inr t, w1) -> model_in_bounds t.
Proof.
  unfold openTurn.
  destruct (if _ && _ then _ else _) as [failure|transcribed];
    [unfold finish, ret; discriminate|].
  unfold bind at 1. cbv zeta.
  intros H. unfold bind at 1, continue, ret in H. cbn [fst snd] in H.
  injection H as <- _. apply applyStoredOverride_in_bounds.
  unfold model_in_bounds.
  match goal with
  | |- context [validateStoredOverride ?t0 ?w0] =>
      destruct (validateStoredOverride_model t0 w0) as (-> & -> & -> & -> & _)
  end.
  left. split; reflexivity.
Qed.

Lemma touch_and_save_in_bounds e t w :
  model_in_bounds t -> model_in_bounds (fst (touch_and_save e t w)).
Proof. intros H. exact H. Qed.

Lemma directiveStage_in_bounds cfg t w t' w' :
  model_in_bounds t ->
  directiveStage cfg t w = (inr t', w') -> model_in_bounds t'.
Proof.
  intros Hb. unfold directiveStage. destruct (directiveOnly cfg t).
  - unfold answerDirectives, commit_directives, bind, finish, ret. cbv zeta.
    repeat match goal with
           | |- context [if ?b then _ else _] => destruct b
           | |- context [match ?x with _ => _ end] => destruct x
           end; discriminate.
  - unfold bind, continue, ret. cbn [fst snd]. intros H. injection H as <- _.
    unfold persistInlineDirectives.
    destruct (truthy (t_sessionKey t)); [|exact Hb]. cbv zeta.
    assert (Hsel : model_in_bounds
                     match inline_selection t with
                     | Some ms =>
                         with_model (sel_provider ms) (sel_model ms)
                           (contextTokens_for cfg (sel_model ms)) t
                     | None => t
                     end).
    { unfold inline_selection.
      destruct (rawModelDirective t) as [raw|]; [|exact Hb].
      destruct (hasModelDirective t && truthy raw); [|exact Hb].
      destruct (parseModelRef raw (t_defaultProvider t)) as [parsed|]; [|exact Hb].
      cbv zeta.
      destruct (bool_decide (size (t_allowedModelKeys t) = 0%nat)) eqn:Hsize.
      - apply bool_decide_eq_true in Hsize. right. left. exact Hsize.
      - cbn [orb].
        destruct (bool_decide (_ ∈ t_allowedModelKeys t)) eqn:Hin; [|exact Hb].
        apply bool_decide_eq_true in Hin. right. right. exact Hin. }
    destruct (_ || _ || _); exact Hsel.
Qed.

Lemma openTurn_allowed_keys ctx cfg w t w1 :
  openTurn ctx cfg w = (inr t, w1) ->
  default [] (agent_opt allowedModels cfg) <> [] ->
  t_allowedModelKeys t
  = allowedKeys (buildAllowedModelSet (agent_opt allowedModels cfg)
                   (loadModelCatalog cfg) (t_defaultProvider t)).
Proof.
  unfold openTurn.
  destruct (if _ && _ then _ else _) as [failure|transcribed];
    [unfold finish, ret; discriminate|].
  unfold bind at 1. cbv zeta.
  intros H Hlist. unfold bind at 1, continue, ret in H. cbn [fst snd] in H.
  injection H as <- _. unfold applyStoredOverride.
  cbn [with_model t_allowedModelKeys t_defaultProvider].
  match goal with
  | |- context [validateStoredOverride ?t0 ?w0] =>
      destruct (validateStoredOverride_model t0 w0) as (_ & _ & -> & _ & ->)
  end.
  cbn [t_allowedModelKeys t_defaultProvider].
  rewrite (bool_decide_eq_false_2
             (length (default [] (agent_opt allowedModels cfg)) = 0%nat)).
  - cbn [negb]. rewrite orb_true_r. reflexivity.
  - intros Hlen. apply Hlist. now apply length_zero_iff_nil.
Qed.

Lemma directiveStage_allowed_keys cfg t w t' w' :
  directiveStage cfg t w = (inr t', w') ->
  t_allowedModelKeys t' = t_allowedModelKeys t
  /\ t_defaultProvider t' = t_defaultProvider t.
Proof.
  unfold directiveStage. destruct (directiveOnly cfg t).
  - unfold answerDirectives, commit_directives, bind, finish, ret. cbv zeta.
    repeat match goal with
           | |- context [if ?b then _ else _] => destruct b
           | |- context [match ?x with _ => _ end] => destruct x
           end; discriminate.
  - unfold bind, continue, ret. cbn [fst snd]. intros H. injection H as <- _.
    unfold persistInlineDirectives.
    repeat match goal with
           | |- context [if ?b then _ else _] => destruct b
           | |- context [match ?x with _ => _ end] => destruct x
           end; split; reflexivity.
Qed.

(** X16.  The model of a turn is the configured default, or it passed the check
    against the allowed set: neither a stored override nor an inline
    selection puts the turn on a model outside a non-empty allowed set.
    With an allow-list configured, the set is the one built from it. *)
Theorem turn_model_is_default_or_allowed
    (ctx : MsgContext) (cfg : ClawdisConfig) (w : World) (t : Turn) (w1 : World) :
  upToDirectives ctx cfg w = (inr t, w1) ->
  model_in_bounds t
  /\ (default [] (agent_opt allowedModels cfg) <> [] ->
      t_allowedModelKeys t
      = allowedKeys (buildAllowedModelSet (agent_opt allowedModels cfg)
                       (loadModelCatalog cfg) (t_defaultProvider t))).
Proof.
  intros H. apply and_then_goes_on_inv in H as (t0 & w0 & Hopen & Hdir).
  split.
  - apply openTurn_in_bounds in Hopen.
    exact (directiveStage_in_bounds cfg t0 w0 t w1 Hopen Hdir).
  - intros Hlist.
    destruct (directiveStage_allowed_keys _ _ _ _ _ Hdir) as [-> ->].
    now apply (openTurn_allowed_keys ctx cfg w t0 w0).
Qed.

End WithCollaborators.
End ModelChoiceFacts.

Module AccessExamples.
Import Text Sessions Config Agent Collab Effects ModelSelection Reply Sample.
Import AccessFacts CommandFacts ModelChoiceFacts.

Section Answering.
#[local] Existing Instance answering.

(** A stranger writes to the account: by default only the account itself
    is allowed. *)
Lemma refused_sender_is_dropped_witness :
  let ctx := message "hello" "+15550002" "+15550001" in
  senderRefused ctx no_config = true
  /\ fst (getReplyFromConfig ctx no_config (world ∅)) = no_reply
  /\ calls (snd (getReplyFromConfig ctx no_config (world ∅))) = [].
Proof.
  intros ctx.
  assert (H : senderRefused ctx no_config = true) by (vm_compute; reflexivity).
  split; [exact H|]. split; [vm_compute; reflexivity|].
  exact (proj1 (refused_sender_is_dropped ctx no_config (world ∅) H)).
Defined.

(** The same stranger sets the think level of the session with a message
    that is only a directive. *)
Lemma pure_directive_turn_is_acknowledged_witness :
  let ctx := message "/think high" "+15550002" "+15550001" in
  let w := world ∅ in
  let r := openTurn ctx no_config w in
  exists t,
    r = (inr t, snd r)
    /\ senderRefused ctx no_config = true
    /\ fst (getReplyFromConfig ctx no_config w)
       = reply_text (str "Thinking level set to high.")
    /\ fst (getReplyFromConfig ctx no_config w) = reply_text (directive_ack t None)
    /\ ((disk (snd (getReplyFromConfig ctx no_config w)) !! str "+15550002")
          ≫= thinkingLevel) = Some (str "high").
Proof.
  intros ctx w r.
  destruct r as [[o|t] w1] eqn:Hr; [vm_compute in Hr; discriminate|].
  assert (Ht : t = match fst r with inr t => t | inl _ => t end)
    by (subst r; rewrite Hr; reflexivity).
  exists t. cbn [snd].
  assert (H1 : directiveOnly no_config t = true)
    by (rewrite Ht; vm_compute; reflexivity).
  assert (H2 : hasModelDirective t = false)
    by (rewrite Ht; vm_compute; reflexivity).
  assert (H3 : hasThinkDirective t && negb (truthy_opt (inlineThink t)) = false)
    by (rewrite Ht; vm_compute; reflexivity).
  assert (H4 : hasVerboseDirective t && negb (truthy_opt (inlineVerbose t)) = false)
    by (rewrite Ht; vm_compute; reflexivity).
  assert (H5 : truthy (t_sessionKey t) = true)
    by (rewrite Ht; vm_compute; reflexivity).
  split; [reflexivity|]. split; [vm_compute; reflexivity|].
  split; [vm_compute; reflexivity|].
  split; [|vm_compute; reflexivity].
  exact (proj1 (pure_directive_turn_is_acknowledged ctx no_config w t w1
                  Hr H1 H2 H3 H4 H5)).
Defined.

Lemma restart_is_answered_without_agent_witness :
  let ctx := message "/restart" "+15550001" "+15550001" in
  let w := world ∅ in
  let r := upToDirectives ctx no_config w in
  exists t,
    r = (inr t, snd r)
    /\ isRestartCommand (commandBodyNormalized (t_ctx t) no_config) = true
    /\ fst (getReplyFromConfig ctx no_config w) = reply_text restart_ack
    /\ calls (snd (getReplyFromConfig ctx no_config w)) = Restart :: calls w.
Proof.
  intros ctx w r.
  destruct r as [[o|t] w1] eqn:Hr; [vm_compute in Hr; discriminate|].
  assert (Ht : t = match fst r with inr t => t | inl _ => t end)
    by (subst r; rewrite Hr; reflexivity).
  exists t. cbn [snd].
  assert (H1 : senderRefused (t_ctx t) no_config = false)
    by (rewrite Ht; vm_compute; reflexivity).
  assert (H2 : hasCommand (Collab.parseActivationCommand
                             (commandBodyNormalized (t_ctx t) no_config)) = false)
    by (rewrite Ht; vm_compute; reflexivity).
  assert (H3 : isGroup_of (t_ctx t) && negb (isOwnerSender (t_ctx t) no_config) = false)
    by (rewrite Ht; vm_compute; reflexivity).
  assert (H4 : isRestartCommand (commandBodyNormalized (t_ctx t) no_config) = true)
    by (rewrite Ht; vm_compute; reflexivity).
  split; [reflexivity|]. split; [exact H4|].
  destruct (restart_is_answered_without_agent ctx no_config w t w1 Hr H1 H2 H3 H4)
    as (Ha & Hb & _).
  split; [exact Ha | exact Hb].
Defined.

Lemma blank_body_is_answered_without_agent_witness :
  let ctx := message "   " "+15550001" "+15550001" in
  let w := world ∅ in
  let r := upToCommands ctx no_config w in
  exists t,
    r = (inr t, snd r)
    /\ truthy (trim (baseBodyFinal t)) = false
    /\ getReplyFromConfig ctx no_config w = (reply_text empty_body_reply, snd r)
    /\ calls (snd r) = calls w.
Proof.
  intros ctx w r.
  destruct r as [[o|t] w1] eqn:Hr; [vm_compute in Hr; discriminate|].
  assert (Ht : t = match fst r with inr t => t | inl _ => t end)
    by (subst r; rewrite Hr; reflexivity).
  exists t. cbn [snd].
  assert (H1 : truthy (trim (baseBodyFinal t)) = false)
    by (rewrite Ht; vm_compute; reflexivity).
  split; [reflexivity|]. split; [exact H1|].
  exact (blank_body_is_answered_without_agent ctx no_config w t w1 Hr H1).
Defined.

(** An inline selection of a catalog model, with text after it. *)
Lemma turn_model_is_default_or_allowed_witness :
  let ctx := message "/model openai/gpt-5 hello" "+15550001" "+15550001" in
  let r := upToDirectives ctx no_config (world ∅) in
  exists t,
    r = (inr t, snd r)
    /\ t_provider t = str "openai" /\ t_model t = str "gpt-5"
    /\ model_in_bounds t.
Proof.
  intros ctx r.
  destruct r as [[o|t] w1] eqn:Hr; [vm_compute in Hr; discriminate|].
  assert (Ht : t = match fst r with inr t => t | inl _ => t end)
    by (subst r; rewrite Hr; reflexivity).
  exists t. cbn [snd].
  split; [reflexivity|].
  split; [rewrite Ht; vm_compute; reflexivity|].
  split; [rewrite Ht; vm_compute; reflexivity|].
  exact (proj1 (turn_model_is_default_or_allowed ctx no_config (world ∅) t w1 Hr)).
Defined.

End Answering.

Section Queueing.
#[local] Existing Instance queueing.

Lemma queued_message_starts_no_run_witness :
  let ctx := message "one more thing" "+15550001" "+15550001" in
  let w := world ∅ in
  let r := upToCommands ctx no_config w in
  exists t,
    r = (inr t, snd r)
    /\ truthy (trim (baseBodyFinal t)) = true
    /\ fst (getReplyFromConfig ctx no_config w) = no_reply
    /\ calls (snd (getReplyFromConfig ctx no_config w))
       = [QueueMessage (str "id0") (str "one more thing")].
Proof.
  intros ctx w r.
  destruct r as [[o|t] w1] eqn:Hr; [vm_compute in Hr; discriminate|].
  assert (Ht : t = match fst r with inr t => t | inl _ => t end)
    by (subst r; rewrite Hr; reflexivity).
  exists t. cbn [snd].
  assert (H1 : truthy (trim (baseBodyFinal t)) = true)
    by (rewrite Ht; vm_compute; reflexivity).
  split; [reflexivity|]. split; [exact H1|].
  split; [|vm_compute; reflexivity].
  exact (proj1 (queued_message_starts_no_run ctx no_config w t w1 Hr H1 eq_refl)).
Defined.

End Queueing.
End AccessExamples.

Module RunFacts.
Import Text Sessions Config Agent Collab Effects ModelSelection Reply TurnFacts.
Import InvalidLevelFacts AbortFacts SyncFacts PromptFacts RejectionFacts ResetFacts.

Section WithCollaborators.
Context {col : Collaborators}.

Lemma delegateStage_resolved cfg p w rr :
  runEmbeddedPiAgent (runParams cfg p (uuid (drawn w))) = inr rr ->
  good (p_turn p) w ->
  truthy (t_sessionKey (p_turn p)) = true ->
  let r := delegateStage cfg p w in
  let key := t_sessionKey (p_turn p) in
  let old := t_sessionEntry (p_turn p) in
  match default [] (payloads rr) with
  | [] =>
      fst r = no_reply
      /\ exists e, disk (snd r) !! key = Some e
                   /\ inputTokens e = inputTokens old
                   /\ outputTokens e = outputTokens old
                   /\ totalTokens e = totalTokens old
  | pl :: pls =>
      fst r = finalReply p pl pls
      /\ forall u, agentMeta rr ≫= usage = Some u ->
           exists e, disk (snd r) !! key = Some e
                     /\ sessionId e = sessionId old
                     /\ inputTokens e = Some (default 0 (usage_input u))
                     /\ outputTokens e = Some (default 0 (usage_output u))
                     /\ totalTokens e = totalTokens (Cron.apply_usage u old)
                     /\ Sessions.model e
                        = Some (default (t_defaultModel (p_turn p))
                                  (agentMeta rr ≫= meta_model))
  end.
Proof.
  intros Hrun Hgood Hkey r key old. subst r key old.
  destruct Hgood as [[Hdisk Hlook] Hid].
  destruct (delegateStage cfg p w) as [res w'] eqn:Hd. cbn [fst snd].
  unfold delegateStage, call_agent, bind, randomUUID, record_call, ret in Hd.
  cbv zeta in Hd. cbn [fst snd drawn] in Hd. rewrite Hrun in Hd.
  match type of Hd with
  | context [(if ?c then touch_and_save ?e ?t else ?f) ?w0] =>
      set (r1 := (if c then touch_and_save e t else f) w0) in Hd;
      assert (H1 : disk (snd r1) !! t_sessionKey (p_turn p)
                   = Some (t_sessionEntry (fst r1))
               /\ t_sessionKey (fst r1) = t_sessionKey (p_turn p)
               /\ t_defaultModel (fst r1) = t_defaultModel (p_turn p)
               /\ sessionId (t_sessionEntry (fst r1))
                  = sessionId (t_sessionEntry (p_turn p))
               /\ inputTokens (t_sessionEntry (fst r1))
                  = inputTokens (t_sessionEntry (p_turn p))
               /\ outputTokens (t_sessionEntry (fst r1))
                  = outputTokens (t_sessionEntry (p_turn p))
               /\ totalTokens (t_sessionEntry (fst r1))
                  = totalTokens (t_sessionEntry (p_turn p)));
      [ subst r1; destruct c;
        [ unfold touch_and_save, bind, Date_now, saveSessionStore, ret; cbn;
          split; [apply lookup_insert_eq | repeat split; reflexivity]
        | cbn [fst snd disk]; rewrite Hdisk;
          split; [exact Hlook | repeat split; reflexivity] ]
      | clearbody r1 ]
  end.
  destruct r1 as [t1 w2]. cbn [fst snd] in H1, Hd.
  destruct H1 as (Hl1 & Hk1 & Hm1 & Hs1 & Hi1 & Ho1 & Ht1).
  destruct (default [] (payloads rr)) as [|pl pls].
  - injection Hd as <- <-. split; [reflexivity|].
    exists (t_sessionEntry t1). tauto.
  - injection Hd as <- <-. split; [reflexivity|].
    intros u Hu. unfold recordUsage. rewrite Hk1, Hkey, Hu.
    unfold touch_and_save, bind, Date_now, saveSessionStore, ret. cbn [fst snd disk].
    eexists. rewrite Hk1. split; [apply lookup_insert_eq|].
    cbn. rewrite ?Hm1. repeat split; first [reflexivity | exact Hs1].
Qed.

(** X17.  When the run of the agent engine resolves: without payloads the turn
    returns nothing and the token counters of the record stay as they
    were; with payloads the turn returns them (one payload alone, several
    as a list, after the session hint when it applies) and the usage the
    run reports is stored in the record of the session. *)
Theorem resolved_run_is_returned_and_recorded
    (ctx : MsgContext) (cfg : ClawdisConfig) (w : World) (p : Prepared)
    (w2 : World) (rr : RunResult) :
  upToPrompt ctx cfg w = (inr p, w2) ->
  runEmbeddedPiAgent (runParams cfg p (uuid (drawn w2))) = inr rr ->
  truthy (t_sessionKey (p_turn p)) = true ->
  let r := getReplyFromConfig ctx cfg w in
  let key := t_sessionKey (p_turn p) in
  let old := t_sessionEntry (p_turn p) in
  match default [] (payloads rr) with
  | [] =>
      fst r = no_reply
      /\ exists e, disk (snd r) !! key = Some e
                   /\ inputTokens e = inputTokens old
                   /\ outputTokens e = outputTokens old
                   /\ totalTokens e = totalTokens old
  | pl :: pls =>
      fst r = finalReply p pl pls
      /\ forall u, agentMeta rr ≫= usage = Some u ->
           exists e, disk (snd r) !! key = Some e
                     /\ sessionId e = sessionId old
                     /\ inputTokens e = Some (default 0 (usage_input u))
                     /\ outputTokens e = Some (default 0 (usage_output u))
                     /\ totalTokens e = totalTokens (Cron.apply_usage u old)
                     /\ Sessions.model e
                        = Some (default (t_defaultModel (p_turn p))
                                  (agentMeta rr ≫= meta_model))
  end.
Proof.
  intros Hprompt Hrun Hkey.
  destruct (stages_of_a_delegated_turn ctx cfg w p w2 Hprompt)
    as (t0 & w0 & t1 & w1 & Hopen & Hdir & Hcmd & Hp).
  pose proof (openTurn_good _ _ _ _ _ Hopen) as Hg0.
  destruct (directiveStage_goes_on _ _ _ _ _ Hg0 Hdir) as (Hg1 & _).
  destruct (promptStage_goes_on _ _ _ _ _ Hg1 Hp) as [Hg2 _].
  rewrite (turn_reaches_the_agent ctx cfg w p w2 Hprompt).
  exact (delegateStage_resolved cfg p w2 rr Hrun Hg2 Hkey).
Qed.

End WithCollaborators.
End RunFacts.

Module RunExamples.
Import Text Sessions Config Agent Collab Effects ModelSelection Reply Sample.
Import RunFacts.

#[local] Existing Instance answering.

Lemma resolved_run_is_returned_and_recorded_witness :
  let ctx := message "hello" "+15550001" "+15550001" in
  let w := world ∅ in
  let r0 := upToPrompt ctx no_config w in
  let r := getReplyFromConfig ctx no_config w in
  exists p,
    r0 = (inr p, snd r0)
    /\ truthy (t_sessionKey (p_turn p)) = true
    /\ fst r = reply_text (str "hello")
    /\ fst r = finalReply p (text_payload (p_commandBody p)) [].
Proof.
  intros ctx w r0 r.
  destruct r0 as [[o|p] w2] eqn:Hr; [vm_compute in Hr; discriminate|].
  assert (Hp : p = match fst r0 with inr p => p | inl _ => p end)
    by (subst r0; rewrite Hr; reflexivity).
  exists p. cbn [snd].
  assert (Hkey : truthy (t_sessionKey (p_turn p)) = true)
    by (rewrite Hp; vm_compute; reflexivity).
  split; [reflexivity|]. split; [exact Hkey|]. split; [vm_compute; reflexivity|].
  exact (proj1 (resolved_run_is_returned_and_recorded ctx no_config w p w2
                  {| payloads := Some [text_payload (p_commandBody p)];
                     agentMeta := None |}
                  Hr eq_refl Hkey)).
Defined.

End RunExamples.

(** ** Reset triggers and the activation command *)

Module TriggerFacts.
Import Text Sessions Config Agent Collab Effects ModelSelection Reply TurnFacts.
Import InvalidLevelFacts AbortFacts SyncFacts PromptFacts ResetFacts AccessFacts.

Section WithCollaborators.
Context {col : Collaborators}.

(** X23.  The loop over the reset triggers, whatever the two texts it
    compares them with: it reports a reset exactly when some non-empty
    trigger is one of the two texts, or is followed by a space at the
    start of one of them; only then is a stripped body set. *)
Theorem reset_exactly_on_trigger (triggers : list text) (trimmedBody stripped : text) :
  let r := scanResetTriggers triggers trimmedBody stripped in
  (fst r = true
   <-> exists trigger,
         In trigger triggers /\ trigger <> []
         /\ (trimmedBody = trigger \/ stripped = trigger
             \/ startsWith trimmedBody (trigger ++ str " ") = true
             \/ startsWith stripped (trigger ++ str " ") = true))
  /\ (fst r = false -> snd r = None)
  /\ (fst r = true -> is_Some (snd r)).
Proof.
  cbv zeta.
  induction triggers as [|trigger rest IH]; cbn [scanResetTriggers].
  - cbn. split; [|split; [reflexivity | discriminate]].
    split; [discriminate | intros (t & [] & _)].
  - destruct IH as (IH1 & IH2 & IH3).
    destruct (truthy trigger) eqn:Htr; cbn [negb].
    + assert (Hne : trigger <> []) by (destruct trigger; [discriminate | congruence]).
      destruct (Text.eqb trimmedBody trigger || Text.eqb stripped trigger) eqn:Heq.
      * cbn [fst snd]. split; [|split; [discriminate | intros _; eexists; reflexivity]].
        split; [intros _ | reflexivity].
        exists trigger. split; [now left|]. split; [exact Hne|].
        apply orb_true_iff in Heq as [H|H]; apply bool_decide_eq_true in H; tauto.
      * apply orb_false_iff in Heq as [He1 He2].
        apply bool_decide_eq_false in He1, He2. cbv zeta.
        destruct (startsWith trimmedBody (trigger ++ str " ")
                  || startsWith stripped (trigger ++ str " ")) eqn:Hpre.
        -- cbn [fst snd].
           split; [|split; [discriminate | intros _; eexists; reflexivity]].
           split; [intros _ | reflexivity].
           exists trigger. split; [now left|]. split; [exact Hne|].
           apply orb_true_iff in Hpre. tauto.
        -- apply orb_false_iff in Hpre as [Hp1 Hp2].
           split; [|split; assumption]. rewrite IH1. split.
           ++ intros (t & Hin & Hn & H). exists t. split; [now right | tauto].
           ++ intros (t & [<-|Hin] & Hn & H).
              ** exfalso. destruct H as [H|[H|[H|H]]]; congruence.
              ** exists t. tauto.
    + split; [|split; assumption]. rewrite IH1. split.
      * intros (t & Hin & Hn & H). exists t. split; [now right | tauto].
      * intros (t & [<-|Hin] & Hn & H).
        -- exfalso. destruct trigger; [congruence | discriminate].
        -- exists t. tauto.
Qed.

(** X24.  The activation command: in a direct chat it is answered with the note
    that it applies to groups only and nothing is written; in a group, from
    an owner and with a mode, the mode is stored in the record of the
    session together with the request for a new system introduction.  The
    agent engine is not run. *)
Theorem activation_command_is_handled
    (ctx : MsgContext) (cfg : ClawdisConfig) (w : World) (t : Turn) (w1 : World) :
  upToDirectives ctx cfg w = (inr t, w1) ->
  senderRefused (t_ctx t) cfg = false ->
  let cmd := parseActivationCommand (commandBodyNormalized (t_ctx t) cfg) in
  hasCommand cmd = true ->
  let r := getReplyFromConfig ctx cfg w in
  calls (snd r) = calls w
  /\ (isGroup_of (t_ctx t) = false ->
      r = (reply_text activation_not_group, w1))
  /\ (isGroup_of (t_ctx t) = true -> isOwnerSender (t_ctx t) cfg = true ->
      forall md, mode cmd = Some md -> md <> [] ->
        truthy (t_sessionKey t) = true ->
        fst r = reply_text (activation_set md)
        /\ exists e, disk (snd r) !! t_sessionKey t = Some e
                     /\ groupActivation e = Some md
                     /\ groupActivationNeedsSystemIntro e = Some true
                     /\ sessionId e = sessionId (t_sessionEntry t)).
Proof.
  intros Hdir Hsender cmd Hcmd r. subst r.
  pose proof (quiet_upToDirectives ctx cfg w) as Hq. rewrite Hdir in Hq.
  cbn [snd] in Hq.
  destruct (commandStage cfg t w1) as [res w2] eqn:Hstage.
  assert (Hquiet : calls w2 = calls w1).
  { assert (H : quiet (commandStage cfg t)).
    { unfold commandStage. fold cmd. rewrite Hsender, Hcmd.
      repeat first [apply quiet_touch_and_save | quiet_step]. }
    specialize (H w1). now rewrite Hstage in H. }
  assert (Hres : exists o, res = inl o).
  { unfold commandStage in Hstage. fold cmd in Hstage.
    rewrite Hsender, Hcmd in Hstage.
    unfold bind, finish, ret in Hstage. cbv zeta in Hstage.
    repeat match type of Hstage with
           | context [if ?b then _ else _] => destruct b
           | context [match ?x with _ => _ end] => destruct x
           end; injection Hstage as <- _; eexists; reflexivity. }
  destruct Hres as [o ->].
  rewrite (turn_ends_in_commands ctx cfg w t w1 _ _ Hdir Hstage). cbn [fst snd].
  split; [congruence|].
  unfold commandStage in Hstage. fold cmd in Hstage. rewrite Hsender, Hcmd in Hstage.
  split.
  - intros Hgroup. rewrite Hgroup in Hstage. cbn [negb] in Hstage.
    unfold finish, ret in Hstage. now injection Hstage as <- <-.
  - intros Hgroup Howner md Hmode Hmd Hkey.
    rewrite Hgroup, Howner, Hmode in Hstage. cbn [negb] in Hstage.
    assert (Htruthy : truthy md = true) by (destruct md; [congruence | reflexivity]).
    rewrite Htruthy, Hkey in Hstage.
    unfold bind, finish, ret in Hstage. cbn [fst snd] in Hstage.
    injection Hstage as <- <-. split; [reflexivity|].
    destruct (touch_and_save_record
                (set_groupActivationNeedsSystemIntro (Some true)
                   (set_groupActivation (Some md) (t_sessionEntry t))) t w1)
      as [Hrec _].
    eexists. split; [exact Hrec|]. repeat split; reflexivity.
Qed.

End WithCollaborators.
End TriggerFacts.

(** ** The hint after an aborted run *)

Module AbortHintFacts.
Import Text Sessions Config Agent Collab Effects ModelSelection Reply TurnFacts.
Import InvalidLevelFacts AbortFacts SyncFacts PromptFacts ResetFacts AccessFacts.
Import CommandFacts RejectionFacts.

Section WithCollaborators.
Context {col : Collaborators}.

Lemma promptStage_clears_abort cfg t w p w2 :
  t_abortedLastRun t = true ->
  truthy (t_sessionKey t) = true ->
  promptStage cfg t w = (inr p, w2) ->
  abortedLastRun (t_sessionEntry (p_turn p)) = Some false
  /\ disk w2 !! t_sessionKey t = Some (t_sessionEntry (p_turn p)).
Proof.
  intros Hab Hkey Hp. unfold promptStage in Hp.
  destruct (negb (truthy (trim (baseBodyFinal t))));
    [unfold finish, ret in Hp; discriminate|].
  rewrite Hab, Hkey in Hp.
  unfold call_queue, record_call, replace_and_save, touch_and_save, bind,
    Date_now, saveSessionStore, ret, finish, continue in Hp.
  cbv zeta in Hp. cbn [fst snd t_sessionKey with_session] in Hp.
  rewrite ?Hkey in Hp. rewrite ?andb_true_r in Hp.
  destruct (isFirstTurnInSession t) eqn:Hfirst; cbn [fst snd] in Hp.
  - cbn [t_sessionKey t_sessionEntry t_sessionId with_session with_systemSent
         skillsSnapshot set_updatedAt set_skillsSnapshot set_systemSent
         set_sessionId set_abortedLastRun negb andb] in Hp.
    rewrite ?andb_false_r in Hp. cbn [fst snd] in Hp.
    destruct (queueEmbeddedPiMessage _ _); [discriminate|].
    injection Hp as <- <-. cbn. split; [reflexivity | apply lookup_insert_eq].
  - cbn [t_sessionKey t_sessionEntry t_sessionId with_session with_systemSent
         skillsSnapshot set_updatedAt set_skillsSnapshot set_systemSent
         set_sessionId set_abortedLastRun negb andb] in Hp.
    rewrite ?Hkey in Hp. rewrite ?andb_true_r in Hp.
    destruct (bool_decide _ && negb (bool_decide _)) eqn:Hsk in Hp;
      cbn [fst snd t_sessionKey t_sessionEntry t_sessionId with_session] in Hp;
      (destruct (queueEmbeddedPiMessage _ _); [discriminate|]);
      injection Hp as <- <-; cbn; (split; [reflexivity | apply lookup_insert_eq]).
Qed.

Lemma initSession_aborted ctx cfg isNew w e :
  let r := fst (initSession ctx cfg isNew w) in
  disk w !! init_sessionKey r = Some e ->
  init_isNewSession r = false ->
  init_abortedLastRun r = default false (abortedLastRun e)
  /\ init_sessionId r = sessionId e.
Proof.
  unfold initSession, bind, loadSessionStore, freshEntry_of. cbn [fst snd].
  destruct (disk w !! sessionKey_of ctx cfg) as [old|] eqn:Hold.
  - unfold bind, Date_now, ret. cbn [fst snd].
    destruct (negb isNew && is_fresh (Some old) (clock (ticks w)) (idleMs_of cfg));
      cbn; [|discriminate].
    rewrite Hold. intros [= <-] _. split; reflexivity.
  - unfold bind, Date_now, randomUUID, ret. cbn [fst snd]. rewrite andb_false_r.
    cbn. discriminate.
Qed.

Lemma validateStoredOverride_key t w :
  t_sessionKey (fst (validateStoredOverride t w)) = t_sessionKey t
  /\ t_sessionId (fst (validateStoredOverride t w)) = t_sessionId t.
Proof.
  unfold validateStoredOverride.
  repeat match goal with
         | |- context [if ?b then _ else _] => destruct b
         | |- context [match ?x with _ => _ end] => destruct x
         end; split; reflexivity.
Qed.

Lemma openTurn_aborted ctx cfg w t w0 e :
  openTurn ctx cfg w = (inr t, w0) ->
  disk w !! t_sessionKey t = Some e ->
  t_isNewSession t = false ->
  t_abortedLastRun t = default false (abortedLastRun e)
  /\ t_sessionId t = sessionId e.
Proof.
  unfold openTurn.
  destruct (if _ && _ then _ else _) as [failure|transcribed];
    [unfold finish, ret; discriminate|].
  unfold bind at 1. cbv zeta.
  intros H. unfold bind at 1, continue, ret in H. cbn [fst snd] in H.
  injection H as <- _. unfold applyStoredOverride.
  cbn [with_model t_sessionKey t_sessionId t_isNewSession t_abortedLastRun].
  match goal with
  | |- context [validateStoredOverride ?t0 ?w0] =>
      destruct (validateStoredOverride_frame t0 w0) as (_ & _ & _ & _ & -> & -> & _);
      destruct (validateStoredOverride_key t0 w0) as [-> ->]
  end.
  cbn [t_sessionKey t_sessionId t_isNewSession t_abortedLastRun].
  apply initSession_aborted.
Qed.

Lemma directiveStage_flags cfg t w t' w' :
  directiveStage cfg t w = (inr t', w') ->
  t_abortedLastRun t' = t_abortedLastRun t
  /\ t_isNewSession t' = t_isNewSession t.
Proof.
  unfold directiveStage. destruct (directiveOnly cfg t).
  - unfold answerDirectives, commit_directives, bind, finish, ret. cbv zeta.
    repeat match goal with
           | |- context [if ?b then _ else _] => destruct b
           | |- context [match ?x with _ => _ end] => destruct x
           end; discriminate.
  - unfold bind, continue, ret. cbn [fst snd]. intros H. injection H as <- _.
    unfold persistInlineDirectives.
    repeat match goal with
           | |- context [if ?b then _ else _] => destruct b
           | |- context [match ?x with _ => _ end] => destruct x
           end; split; reflexivity.
Qed.

(** X25.  An abort is reported to the agent once.  When the stored record of a
    reused session carries the abort flag and the turn reaches the prompt,
    the body of the prompt is preceded by the hint that the previous run
    was aborted, and the flag is cleared in the stored record of the same
    session. *)
Theorem aborted_run_is_reported_once
    (ctx : MsgContext) (cfg : ClawdisConfig) (w : World) (e : SessionEntry)
    (t : Turn) (w1 : World) (p : Prepared) (w2 : World) :
  upToCommands ctx cfg w = (inr t, w1) ->
  promptStage cfg t w1 = (inr p, w2) ->
  disk w !! t_sessionKey t = Some e ->
  abortedLastRun e = Some true ->
  t_isNewSession t = false ->
  truthy (t_sessionKey t) = true ->
  p_commandBody p
  = snd (consumeLeadingLevel (t_resolvedThinkLevel t)
           (with_media (t_ctx t)
              (with_transcript t
                 (with_system_block cfg t
                    (abortedHint ++ newline ++ newline ++ baseBodyFinal t)))))
  /\ exists e', disk w2 !! t_sessionKey t = Some e'
                /\ abortedLastRun e' = Some false
                /\ sessionId e' = sessionId e.
Proof.
  intros Hcmd Hp Hstored Hflag Hreused Hkey.
  destruct (upToCommands_inv _ _ _ _ _ Hcmd) as (Hdirs & _ & _).
  apply and_then_goes_on_inv in Hdirs as (t0 & w0 & Hopen & Hdir).
  pose proof (openTurn_good _ _ _ _ _ Hopen) as Hg0.
  destruct (directiveStage_goes_on _ _ _ _ _ Hg0 Hdir) as (Hg1 & Hk1 & Hi1 & _).
  destruct (promptStage_goes_on _ _ _ _ _ Hg1 Hp) as [Hg2 (Hk2 & Hi2 & Hs2)].
  destruct (directiveStage_flags _ _ _ _ _ Hdir) as [Ha1 Hn1].
  rewrite Hk1 in Hstored. rewrite Hn1 in Hreused.
  destruct (openTurn_aborted ctx cfg w t0 w0 e Hopen Hstored Hreused) as [Ha0 Hid0].
  assert (Hab : t_abortedLastRun t = true).
  { rewrite Ha1, Ha0, Hflag. reflexivity. }
  split.
  - rewrite (promptStage_commandBody cfg t w1 p w2 Hp).
    unfold commandBody_of, prefixedBodyBase. now rewrite Hab.
  - destruct (promptStage_clears_abort cfg t w1 p w2 Hab Hkey Hp) as [Hclear Hdisk].
    exists (t_sessionEntry (p_turn p)). split; [exact Hdisk|]. split; [exact Hclear|].
    destruct Hg2 as [_ Hid2]. now rewrite Hid2, Hi2, Hi1.
Qed.

End WithCollaborators.
End AbortHintFacts.

(** ** Examples for the triggers, the activation command and the hint *)

Module TriggerExamples.
Import Text Sessions Config Agent Collab Effects ModelSelection Reply Sample.
Import TriggerFacts AbortHintFacts.

Section Answering.
#[local] Existing Instance answering.

(** The owner of the account switches a group to answering every message. *)
Lemma activation_command_is_handled_witness :
  let ctx := activation_in_group in
  let w := world ∅ in
  let r := upToDirectives ctx no_config w in
  exists t,
    r = (inr t, snd r)
    /\ isGroup_of (t_ctx t) = true
    /\ isOwnerSender (t_ctx t) no_config = true
    /\ fst (getReplyFromConfig ctx no_config w)
       = reply_text (activation_set (str "always"))
    /\ calls (snd (getReplyFromConfig ctx no_config w)) = []
    /\ exists e,
         disk (snd (getReplyFromConfig ctx no_config w)) !! t_sessionKey t = Some e
         /\ groupActivation e = Some (str "always")
         /\ groupActivationNeedsSystemIntro e = Some true.
Proof.
  intros ctx w r.
  destruct r as [[o|t] w1] eqn:Hr; [vm_compute in Hr; discriminate|].
  assert (Ht : t = match fst r with inr t => t | inl _ => t end)
    by (subst r; rewrite Hr; reflexivity).
  exists t. cbn [snd].
  assert (H1 : senderRefused (t_ctx t) no_config = false)
    by (rewrite Ht; vm_compute; reflexivity).
  assert (H2 : hasCommand (Collab.parseActivationCommand
                             (commandBodyNormalized (t_ctx t) no_config)) = true)
    by (rewrite Ht; vm_compute; reflexivity).
  assert (H3 : isGroup_of (t_ctx t) = true)
    by (rewrite Ht; vm_compute; reflexivity).
  assert (H4 : isOwnerSender (t_ctx t) no_config = true)
    by (rewrite Ht; vm_compute; reflexivity).
  assert (H5 : mode (Collab.parseActivationCommand
                       (commandBodyNormalized (t_ctx t) no_config))
               = Some (str "always"))
    by (rewrite Ht; vm_compute; reflexivity).
  assert (H6 : truthy (t_sessionKey t) = true)
    by (rewrite Ht; vm_compute; reflexivity).
  destruct (activation_command_is_handled ctx no_config w t w1 Hr H1 H2)
    as (Hcalls & _ & Hgroup).
  destruct (Hgroup H3 H4 (str "always") H5 ltac:(discriminate) H6)
    as (Hreply & e & He & Hmode & Hintro & _).
  split; [reflexivity|]. split; [exact H3|]. split; [exact H4|].
  split; [exact Hreply|]. split; [exact Hcalls|].
  exists e. split; [exact He|]. split; [exact Hmode | exact Hintro].
Defined.

(** The owner writes again after a run of the session was aborted. *)
Lemma aborted_run_is_reported_once_witness :
  let ctx := message "hello" "+15550001" "+15550001" in
  let w := world aborted_store in
  let r := upToCommands ctx no_config w in
  exists t p,
    r = (inr t, snd r)
    /\ fst (promptStage no_config t (snd r)) = inr p
    /\ t_sessionKey t = str "+15550001"
    /\ p_commandBody p = abortedHint ++ newline ++ newline ++ str "hello"
    /\ exists e',
         disk (snd (promptStage no_config t (snd r))) !! t_sessionKey t = Some e'
         /\ abortedLastRun e' = Some false
         /\ sessionId e' = str "old".
Proof.
  intros ctx w r.
  destruct r as [[o|t] w1] eqn:Hr; [vm_compute in Hr; discriminate|].
  assert (Ht : t = match fst r with inr t => t | inl _ => t end)
    by (subst r; rewrite Hr; reflexivity).
  assert (Hw : w1 = snd r) by (subst r; rewrite Hr; reflexivity).
  cbn [snd].
  destruct (promptStage no_config t w1) as [[o|p] w2] eqn:Hp.
  { exfalso.
    assert (H : fst (promptStage no_config t w1) = inl o) by (rewrite Hp; reflexivity).
    rewrite Ht, Hw in H. vm_compute in H. discriminate. }
  exists t, p. rewrite Hp. cbn [fst snd].
  assert (Hk : t_sessionKey t = str "+15550001")
    by (rewrite Ht; vm_compute; reflexivity).
  assert (H1 : disk w !! t_sessionKey t
               = Some (set_abortedLastRun (Some true) (record "old" 1000)))
    by (rewrite Hk; vm_compute; reflexivity).
  assert (H2 : t_isNewSession t = false) by (rewrite Ht; vm_compute; reflexivity).
  assert (H3 : truthy (t_sessionKey t) = true) by (rewrite Hk; reflexivity).
  destruct (aborted_run_is_reported_once ctx no_config w _ t w1 p w2
              Hr Hp H1 eq_refl H2 H3) as (Hbody & e' & He & Hclear & Hid).
  split; [reflexivity|]. split; [reflexivity|]. split; [exact Hk|].
  split.
  - rewrite Hbody, Ht. vm_compute. reflexivity.
  - exists e'. split; [exact He|]. split; [exact Hclear | exact Hid].
Defined.

End Answering.
End TriggerExamples.

(** * The turn as a whole

    What a turn has written when it reaches the commands, from the stored
    record it started with; then the directives, from the text of the
    message. *)

(** ** The record after the directives *)

Module RecordFacts.
Import Text Sessions Config Agent Collab Effects ModelSelection Reply TurnFacts.
Import InvalidLevelFacts AbortFacts SyncFacts PromptFacts ResetFacts AccessFacts.

Section WithCollaborators.
Context {col : Collaborators}.

(** The record session initialisation writes, field by field. *)
Lemma initSession_record ctx cfg isNew w :
  let r := initSession ctx cfg isNew w in
  let i := fst r in
  let e := init_sessionEntry i in
  let base := if init_isNewSession i then None
              else disk w !! init_sessionKey i in
  disk (snd r) = <[init_sessionKey i := e]> (disk w)
  /\ abortMemory (snd r) = abortMemory w
  /\ updatedAt e = clock (Nat.pred (ticks (snd r)))
  /\ init_sessionId i
     = match base with Some b => sessionId b | None => uuid (drawn w) end
  /\ systemSent e = Some (default false (base ≫= systemSent))
  /\ abortedLastRun e = Some (default false (base ≫= abortedLastRun))
  /\ thinkingLevel e = base ≫= thinkingLevel
  /\ verboseLevel e = base ≫= verboseLevel
  /\ providerOverride e = base ≫= providerOverride
  /\ modelOverride e = base ≫= modelOverride
  /\ carried_over base e.
Proof.
  unfold initSession, bind, loadSessionStore, freshEntry_of, carried_over.
  cbn [fst snd].
  destruct (disk w !! sessionKey_of ctx cfg) as [old|] eqn:Hold.
  - unfold bind, Date_now, ret. cbn [fst snd].
    destruct (negb isNew && is_fresh (Some old) (clock (ticks w)) (idleMs_of cfg));
      cbn; rewrite ?Hold; cbn; repeat split; reflexivity.
  - unfold bind, Date_now, randomUUID, ret. cbn [fst snd]. rewrite andb_false_r.
    cbn. repeat split; reflexivity.
Qed.

(** The check of the stored override changes the override fields only,
    and deletes them exactly when the override is stale. *)
Lemma validateStoredOverride_record t w :
  good t w ->
  let r := validateStoredOverride t w in
  let e := t_sessionEntry t in
  let e' := t_sessionEntry (fst r) in
  disk (snd r) = <[t_sessionKey t := e']> (disk w)
  /\ abortMemory (snd r) = abortMemory w
  /\ (updatedAt e = clock (Nat.pred (ticks w)) ->
      updatedAt e' = clock (Nat.pred (ticks (snd r))))
  /\ (providerOverride e', modelOverride e')
     = (if override_stale t e then (None, None)
        else (providerOverride e, modelOverride e))
  /\ sessionId e' = sessionId e
  /\ systemSent e' = systemSent e /\ abortedLastRun e' = abortedLastRun e
  /\ thinkingLevel e' = thinkingLevel e /\ verboseLevel e' = verboseLevel e
  /\ (forall base, carried_over base e -> carried_over base e')
  /\ t_sessionKey (fst r) = t_sessionKey t
  /\ t_sessionId (fst r) = t_sessionId t
  /\ t_allowedModelKeys (fst r) = t_allowedModelKeys t
  /\ t_defaultProvider (fst r) = t_defaultProvider t.
Proof.
  intros [[Hd Hl] Hid]. cbv zeta.
  assert (Hsame : disk w = <[t_sessionKey t := t_sessionEntry t]> (disk w)).
  { rewrite Hd. symmetry. now apply insert_id. }
  unfold validateStoredOverride, override_stale.
  destruct (truthy (t_sessionKey t)); cbn [andb];
    [|unfold ret; cbn; (repeat split; auto); unfold carried_over in *; tauto].
  destruct (truthy_opt (modelOverride (t_sessionEntry t))
            || truthy_opt (providerOverride (t_sessionEntry t))); cbn [andb];
    [|unfold ret; cbn; (repeat split; auto); unfold carried_over in *; tauto].
  destruct (opt_trim (modelOverride (t_sessionEntry t))) as [om|];
    [|unfold ret; cbn; (repeat split; auto); unfold carried_over in *; tauto].
  destruct (truthy om); cbn [andb];
    [|unfold ret; cbn; (repeat split; auto); unfold carried_over in *; tauto].
  destruct (negb (bool_decide (size (t_allowedModelKeys t) = 0%nat))
            && negb (bool_decide (_ ∈ t_allowedModelKeys t)));
    [|unfold ret; cbn; (repeat split; auto); unfold carried_over in *; tauto].
  unfold bind, touch_and_save, bind, Date_now, saveSessionStore, ret,
    carried_over in *.
  cbn. rewrite Hd. (repeat split; auto); tauto.
Qed.

Lemma override_stale_ext t t' e e' :
  t_sessionKey t' = t_sessionKey t ->
  t_allowedModelKeys t' = t_allowedModelKeys t ->
  t_defaultProvider t' = t_defaultProvider t ->
  providerOverride e' = providerOverride e ->
  modelOverride e' = modelOverride e ->
  override_stale t' e' = override_stale t e.
Proof. unfold override_stale. now intros -> -> -> -> ->. Qed.

Lemma override_stale_none t e :
  providerOverride e = None -> modelOverride e = None ->
  override_stale t e = false.
Proof.
  unfold override_stale. intros -> ->. cbn. now rewrite andb_false_r.
Qed.

(** What the store holds under the key once the turn is opened. *)
Lemma openTurn_record ctx cfg w t w0 :
  openTurn ctx cfg w = (inr t, w0) ->
  let base := base_record t w in
  let e := t_sessionEntry t in
  disk w0 = <[t_sessionKey t := e]> (disk w)
  /\ abortMemory w0 = abortMemory w
  /\ updatedAt e = clock (Nat.pred (ticks w0))
  /\ sessionId e
     = match base with Some b => sessionId b | None => uuid (drawn w) end
  /\ systemSent e = Some (default false (base ≫= systemSent))
  /\ abortedLastRun e = Some (default false (base ≫= abortedLastRun))
  /\ thinkingLevel e = base ≫= thinkingLevel
  /\ verboseLevel e = base ≫= verboseLevel
  /\ (providerOverride e, modelOverride e) = opened_override t base
  /\ carried_over base e.
Proof.
  unfold openTurn.
  destruct (if _ : bool then transcribeInboundAudio cfg ctx else inr None)
    as [failure|transcribed]; [unfold finish, ret; discriminate|].
  unfold bind at 1.
  match goal with
  | |- context [initSession ?c cfg ?n w] =>
      pose proof (initSession_good c cfg n w) as Hinit;
      pose proof (initSession_record c cfg n w) as Hrec;
      destruct (initSession c cfg n w) as [init w1]
  end.
  cbn [fst snd] in Hinit, Hrec |- *. cbv zeta in Hrec.
  destruct Hinit as (Hd & Hl & Hid).
  destruct Hrec as (Hdisk & Hab & Hup & Hid0 & Hss & Har & Hth & Hvb & Hpo & Hmo & Hco).
  unfold bind at 1.
  match goal with
  | |- context [validateStoredOverride ?tt w1] =>
      set (t0 := tt);
      assert (Hg0 : good t0 w1) by (split; [split|]; assumption);
      pose proof (validateStoredOverride_record t0 w1 Hg0) as Hval;
      pose proof (validateStoredOverride_frame t0 w1) as Hframe;
      destruct (validateStoredOverride t0 w1) as [t1 w2]
  end.
  cbn [fst snd] in Hval, Hframe |- *. cbv zeta in Hval, Hframe.
  destruct Hframe as (_ & _ & _ & _ & Hnew & _).
  destruct Hval as (Hdisk2 & Hab2 & Hup2 & Hov & Hid2 & Hss2 & Har2 & Hth2 & Hvb2
                    & Hco2 & Hk2 & Hsid2 & Hal2 & Hdp2).
  unfold continue, ret. intros H. injection H as <- <-.
  unfold applyStoredOverride, base_record.
  cbn [with_model t_sessionKey t_sessionEntry t_isNewSession].
  change (t_sessionKey t0) with (init_sessionKey init) in *.
  change (t_sessionEntry t0) with (init_sessionEntry init) in *.
  change (t_isNewSession t0) with (init_isNewSession init) in Hnew.
  rewrite Hk2, Hnew.
  set (base := if init_isNewSession init then None
               else disk w !! init_sessionKey init) in *.
  split; [rewrite Hdisk2, Hdisk; apply insert_insert_eq|].
  split; [congruence|].
  split; [exact (Hup2 Hup)|].
  split; [rewrite Hid2, Hid; exact Hid0|].
  split; [congruence|]. split; [congruence|].
  split; [congruence|]. split; [congruence|].
  split; [|now apply Hco2].
  rewrite Hov. unfold opened_override.
  destruct base as [b|]; cbn in Hpo, Hmo.
  - rewrite (override_stale_ext t0 (with_model _ _ _ t1) (init_sessionEntry init) b);
      [rewrite Hpo, Hmo; reflexivity | | | | congruence | congruence];
      cbn [with_model t_sessionKey t_allowedModelKeys t_defaultProvider];
      first [exact Hk2 | exact Hal2 | exact Hdp2].
  - rewrite (override_stale_none t0 _ Hpo Hmo). now rewrite Hpo, Hmo.
Qed.

(** What the directive stage writes when the turn goes on after it: the
    levels and the selection the message carries, under the key, and
    nothing else. *)
Lemma directiveStage_record cfg t w t' w' :
  good t w ->
  directiveStage cfg t w = (inr t', w') ->
  let e := t_sessionEntry t in
  let e' := t_sessionEntry t' in
  let persisted := truthy (t_sessionKey t) in
  disk w' = <[t_sessionKey t := e']> (disk w)
  /\ abortMemory w' = abortMemory w
  /\ (updatedAt e = clock (Nat.pred (ticks w)) ->
      updatedAt e' = clock (Nat.pred (ticks w')))
  /\ sessionId e' = sessionId e
  /\ systemSent e' = systemSent e /\ abortedLastRun e' = abortedLastRun e
  /\ thinkingLevel e'
     = (if persisted && think_applies t then stored_level (inlineThink t)
        else thinkingLevel e)
  /\ verboseLevel e'
     = (if persisted && verbose_applies t then stored_level (inlineVerbose t)
        else verboseLevel e)
  /\ (providerOverride e', modelOverride e')
     = match (if persisted then inline_selection t else None) with
       | Some sel => override_of sel
       | None => (providerOverride e, modelOverride e)
       end
  /\ (forall base, carried_over base e -> carried_over base e')
  /\ t_sessionKey t' = t_sessionKey t
  /\ t_isNewSession t' = t_isNewSession t
  /\ t_allowedModelKeys t' = t_allowedModelKeys t
  /\ t_defaultProvider t' = t_defaultProvider t
  /\ think_applies t' = think_applies t
  /\ verbose_applies t' = verbose_applies t
  /\ inlineThink t' = inlineThink t
  /\ inlineVerbose t' = inlineVerbose t
  /\ inline_selection t' = inline_selection t.
Proof.
  intros [[Hd Hl] Hid]. cbv zeta.
  assert (Hsame : disk w = <[t_sessionKey t := t_sessionEntry t]> (disk w)).
  { rewrite Hd. symmetry. now apply insert_id. }
  unfold directiveStage. destruct (directiveOnly cfg t).
  { unfold answerDirectives, commit_directives, finish, bind, ret. cbn [fst snd].
    repeat match goal with
           | |- context [if ?b then _ else _] => destruct b
           | |- context [match ?x with _ => _ end] => destruct x
           end; discriminate. }
  unfold bind, continue, ret. cbv zeta. cbn [fst snd].
  intros H.
  assert (Ht' : t' = fst (persistInlineDirectives cfg t w)) by congruence.
  assert (Hw' : w' = snd (persistInlineDirectives cfg t w)) by congruence.
  clear H. subst t' w'.
  unfold persistInlineDirectives.
  destruct (truthy (t_sessionKey t)) eqn:Hkey; cbn [andb];
    [|unfold ret, carried_over; cbn [fst snd]; (repeat split; auto); tauto].
  assert (Hth : thinkingLevel (persist_verbose t (persist_think t (t_sessionEntry t)))
                = (if think_applies t then stored_level (inlineThink t)
                   else thinkingLevel (t_sessionEntry t))).
  { rewrite persist_verbose_keeps_think.
    destruct (think_applies t) eqn:Ha; [now apply persist_think_applies|].
    unfold persist_think, think_applies, truthy_opt in *.
    destruct (inlineThink t) as [l|]; [|reflexivity].
    now rewrite Ha. }
  assert (Hvb : verboseLevel (persist_verbose t (persist_think t (t_sessionEntry t)))
                = (if verbose_applies t then stored_level (inlineVerbose t)
                   else verboseLevel (t_sessionEntry t))).
  { destruct (verbose_applies t) eqn:Ha; [now apply persist_verbose_applies|].
    unfold persist_verbose, verbose_applies, truthy_opt in *.
    destruct (inlineVerbose t) as [l|]; [|apply persist_think_keeps_verbose].
    rewrite Ha. apply persist_think_keeps_verbose. }
  set (e1 := persist_verbose t (persist_think t (t_sessionEntry t))) in *.
  assert (He1 : sessionId e1 = sessionId (t_sessionEntry t)
                /\ systemSent e1 = systemSent (t_sessionEntry t)
                /\ abortedLastRun e1 = abortedLastRun (t_sessionEntry t)
                /\ providerOverride e1 = providerOverride (t_sessionEntry t)
                /\ modelOverride e1 = modelOverride (t_sessionEntry t)
                /\ (forall base, carried_over base (t_sessionEntry t) ->
                    carried_over base e1)).
  { subst e1. unfold persist_verbose, persist_think, store_verbose, store_think,
      carried_over.
    repeat match goal with
           | |- context [match ?x with _ => _ end] => destruct x
           end; cbn; (repeat split; auto); tauto. }
  destruct He1 as (Hi1 & Hs1 & Ha1 & Hp1 & Hm1 & Hc1).
  clearbody e1.
  destruct (inline_selection t) as [sel|] eqn:Hsel.
  - rewrite orb_true_r.
    unfold touch_and_save, bind, Date_now, saveSessionStore, ret.
    cbn [fst snd disk abortMemory with_session with_model t_sessionKey
         t_sessionEntry t_sessionStore t_isNewSession t_allowedModelKeys
         t_defaultProvider].
    rewrite Hd.
    unfold store_selection, override_of, carried_over in *.
    destruct (isDefault sel); cbn;
      (split; [reflexivity|]); (repeat split; auto); try tauto;
      try (unfold think_applies, verbose_applies, inlineThink, inlineVerbose,
             hasThinkDirective, hasVerboseDirective; reflexivity);
      try (unfold inline_selection, rawModelDirective, hasModelDirective,
             is_default_pair; reflexivity).
    all: match goal with Hb : _ /\ _ |- _ => specialize (Hc1 _ Hb); tauto end.
  - rewrite orb_false_r.
    destruct (think_applies t || verbose_applies t) eqn:Hupd.
    + unfold touch_and_save, bind, Date_now, saveSessionStore, ret,
        carried_over in *.
      cbn [fst snd disk abortMemory with_session with_model t_sessionKey
           t_sessionEntry t_sessionStore t_isNewSession t_allowedModelKeys
           t_defaultProvider]. rewrite Hd.
      (split; [reflexivity|]); (repeat split; auto); try tauto.
      all: try match goal with Hb : _ /\ _ |- _ => specialize (Hc1 _ Hb); tauto end.
      all: first [exact Hsel | cbn; congruence].
    + unfold ret. cbn [fst snd].
      apply orb_false_iff in Hupd as [Hu1 Hu2].
      rewrite Hu1, Hu2. unfold carried_over in *. (repeat split; auto); tauto.
Qed.

Lemma opened_override_ext t t' base :
  t_sessionKey t' = t_sessionKey t ->
  t_allowedModelKeys t' = t_allowedModelKeys t ->
  t_defaultProvider t' = t_defaultProvider t ->
  opened_override t' base = opened_override t base.
Proof.
  intros Hk Ha Hp. unfold opened_override. destruct base as [b|]; [|reflexivity].
  now rewrite (override_stale_ext t t' b b Hk Ha Hp).
Qed.

(** The store when the turn reaches access control. *)
Lemma upToDirectives_record ctx cfg w t w1 :
  upToDirectives ctx cfg w = (inr t, w1) -> written_before_commands t w w1.
Proof.
  intros H. apply and_then_goes_on_inv in H as (t0 & w0 & Hopen & Hdir).
  pose proof (openTurn_good _ _ _ _ _ Hopen) as Hg0.
  pose proof (openTurn_record _ _ _ _ _ Hopen) as H0. cbv zeta in H0.
  pose proof (directiveStage_record _ _ _ _ _ Hg0 Hdir) as H1. cbv zeta in H1.
  destruct H0 as (Hd0 & Hab0 & Hup0 & Hid0 & Hss0 & Har0 & Hth0 & Hvb0 & Hov0 & Hco0).
  destruct H1 as (Hd1 & Hab1 & Hup1 & Hid1 & Hss1 & Har1 & Hth1 & Hvb1 & Hov1 & Hco1
                  & Hk & Hnew & Hal & Hdp & Hta & Hva & Hit & Hiv & Hsel).
  unfold written_before_commands, base_record in *.
  rewrite Hk, Hnew, Hta, Hva, Hit, Hiv, Hsel.
  rewrite (opened_override_ext t0 t _ Hk Hal Hdp).
  set (base := if t_isNewSession t0 then None else disk w !! t_sessionKey t0) in *.
  split; [rewrite Hd1, Hd0; apply insert_insert_eq|].
  split; [congruence|].
  split; [exact (Hup1 Hup0)|].
  split; [congruence|]. split; [congruence|]. split; [congruence|].
  split; [rewrite Hth1, Hth0; reflexivity|].
  split; [rewrite Hvb1, Hvb0; reflexivity|].
  split; [rewrite Hov1, Hov0; reflexivity|].
  now apply Hco1.
Qed.

End WithCollaborators.
End RecordFacts.

(** ** Group owner gating *)

Module GroupGateTheorem.
Import Text Sessions Config Agent Collab Effects ModelSelection Reply TurnFacts.
Import GroupGateFacts RecordFacts.

Section WithCollaborators.
Context {col : Collaborators}.

(** C5, as amended.  A group message whose command body is an
    [/activation] or [/restart] command, from a sender who is not an
    owner, and which is not answered as a pure directive turn, gets no
    reply; no collaborator is called (no agent run, no queueing, no
    restart); and the turn has written what every turn writes before it
    reaches the commands, and nothing else: the record under the key of
    the session, built by session initialisation, without a stale
    override, with the levels and the selection that directives in the
    message persist.  In particular no activation mode and no abort flag
    is set, and no other key of the store changes. *)
Theorem group_command_from_non_owner_is_dropped
    (ctx : MsgContext) (cfg : ClawdisConfig) (w : World) (t : Turn) (w1 : World) :
  upToDirectives ctx cfg w = (inr t, w1) ->
  isGroup_of (t_ctx t) = true ->
  isOwnerSender (t_ctx t) cfg = false ->
  hasCommand (parseActivationCommand (commandBodyNormalized (t_ctx t) cfg)) = true
  \/ isRestartCommand (commandBodyNormalized (t_ctx t) cfg) = true ->
  getReplyFromConfig ctx cfg w = (no_reply, w1)
  /\ calls w1 = calls w
  /\ written_before_commands t w w1.
Proof.
  intros Hdir Hgroup Howner Hcmd. split; [|split].
  - apply (turn_ends_in_commands ctx cfg w t w1 _ _ Hdir).
    now apply commandStage_drops_non_owner.
  - pose proof (quiet_upToDirectives ctx cfg w) as Hq.
    rewrite Hdir in Hq. exact Hq.
  - exact (upToDirectives_record ctx cfg w t w1 Hdir).
Qed.

End WithCollaborators.
End GroupGateTheorem.

Module GroupGateExamples.
Import Text Sessions Config Agent Collab Effects Reply Sample GroupGateTheorem.

#[local] Existing Instance answering.

Lemma group_command_from_non_owner_is_dropped_witness :
  let w := world ∅ in
  let r := upToDirectives restart_in_group no_config w in
  exists t,
    r = (inr t, snd r)
    /\ isGroup_of (t_ctx t) = true
    /\ isOwnerSender (t_ctx t) no_config = false
    /\ isRestartCommand (commandBodyNormalized (t_ctx t) no_config) = true
    /\ getReplyFromConfig restart_in_group no_config w = (no_reply, snd r)
    /\ calls (snd r) = calls w
    /\ written_before_commands t w (snd r).
Proof.
  intros w r.
  destruct r as [[o|t] w1] eqn:Hr; [vm_compute in Hr; discriminate|].
  assert (Ht : t = match fst r with inr t => t | inl _ => t end)
    by (subst r; rewrite Hr; reflexivity).
  exists t. cbn [snd].
  assert (Hgroup : isGroup_of (t_ctx t) = true)
    by (rewrite Ht; vm_compute; reflexivity).
  assert (Howner : isOwnerSender (t_ctx t) no_config = false)
    by (rewrite Ht; vm_compute; reflexivity).
  assert (Hcmd : isRestartCommand (commandBodyNormalized (t_ctx t) no_config) = true)
    by (rewrite Ht; vm_compute; reflexivity).
  do 4 (split; [first [reflexivity | assumption]|]).
  exact (group_command_from_non_owner_is_dropped restart_in_group no_config w
           t w1 Hr Hgroup Howner (or_intror Hcmd)).
Defined.

(** Counterexample to C5 as stated: the same message does change the
    persisted store.  With an empty store, the turn leaves a record for
    the group, written by session initialisation before the gate is
    reached; with a stored record whose override names a model outside
    the catalog, the turn deletes the override. *)
Lemma dropped_group_command_still_writes_the_store :
  (let w := world ∅ in
   let r := getReplyFromConfig restart_in_group no_config w in
   fst r = no_reply
   /\ disk w !! str "120363@g.us" = None
   /\ sessionId <$> disk (snd r) !! str "120363@g.us" = Some (str "id0"))
  /\ (let w := world {[ str "120363@g.us" := stale_override ]} in
      let r := getReplyFromConfig restart_in_group no_config w in
      fst r = no_reply
      /\ (disk w !! str "120363@g.us") ≫= modelOverride = Some (str "llama")
      /\ sessionId <$> disk (snd r) !! str "120363@g.us" = Some (str "old")
      /\ (disk (snd r) !! str "120363@g.us") ≫= modelOverride = None
      /\ (disk (snd r) !! str "120363@g.us") ≫= providerOverride = None).
Proof. vm_compute. repeat split; reflexivity. Qed.

End GroupGateExamples.

(** ** The inline model selector *)

Module ModelDirectiveTheorem.
Import Text Sessions Config Agent Collab Effects ModelSelection Reply TurnFacts.
Import AbortFacts ModelDirectiveFacts SyncFacts RecordFacts.

Section WithCollaborators.
Context {col : Collaborators}.

Lemma override_of_selection t parsed :
  override_of (selection_of t parsed)
  = if is_default_pair t parsed then (None, None)
    else (Some (provider parsed), Some (model parsed)).
Proof.
  unfold override_of, selection_of. cbn. now destruct (is_default_pair t parsed).
Qed.

Lemma store_selection_pair sel e :
  (providerOverride (store_selection sel e), modelOverride (store_selection sel e))
  = override_of sel.
Proof.
  destruct (store_selection_override sel e) as (Hp & Hm & _).
  rewrite Hp, Hm. now destruct (override_of sel).
Qed.

(** C3, as amended.  A turn whose message carries a model directive
    naming a pair that parses, under a non-empty session key.  The
    selection is applied when the pair passes the check against the
    allowed set, unless the message consists of directives only and
    carries a think or verbose directive whose level is not recognised.
    When it is applied, the record under the key has no override if the
    pair is the configured default, and exactly the pair otherwise.  When
    it is not applied, the override fields of the record are as the
    opening of the turn left them: those of the stored record the session
    reuses, none when the session is new or when the stored override was
    itself not allowed and has been deleted.  A message of directives only
    is answered: with the correction of the level, else with the
    acknowledgement when the pair is allowed, else with the message that
    the model is not allowed; when the selection is not applied nothing is
    written after the opening of the turn.  A message with other text is
    not answered here: the turn goes on, with the pair as its model when
    the pair is allowed and with its model unchanged otherwise. *)
Theorem model_selector_round_trip
    (ctx : MsgContext) (cfg : ClawdisConfig) (w : World) (t : Turn) (w0 : World)
    (raw : text) (parsed : ModelRef) :
  openTurn ctx cfg w = (inr t, w0) ->
  hasModelDirective t = true ->
  rawModelDirective t = Some raw -> truthy raw = true ->
  parseModelRef raw (t_defaultProvider t) = Some parsed ->
  truthy (t_sessionKey t) = true ->
  let r := upToDirectives ctx cfg w in
  let bad_think := hasThinkDirective t && negb (truthy_opt (inlineThink t)) in
  let bad_verbose := hasVerboseDirective t && negb (truthy_opt (inlineVerbose t)) in
  let applied :=
    negb (directiveOnly cfg t && (bad_think || bad_verbose))
    && pair_allowed t parsed in
  (exists e,
     disk (snd r) !! t_sessionKey t = Some e
     /\ (providerOverride e, modelOverride e)
        = if applied
          then (if is_default_pair t parsed then (None, None)
                else (Some (provider parsed), Some (model parsed)))
          else opened_override t (base_record t w))
  /\ (directiveOnly cfg t = true ->
      getReplyFromConfig ctx cfg w
      = (reply_text
           (if bad_think then unrecognized_think t
            else if bad_verbose then unrecognized_verbose t
            else if pair_allowed t parsed
                 then directive_ack t (Some (selection_of t parsed))
                 else model_not_allowed parsed),
         snd r)
      /\ (applied = false -> snd r = w0))
  /\ (directiveOnly cfg t = false ->
      exists t',
        fst r = inr t'
        /\ (t_provider t', t_model t')
           = if pair_allowed t parsed then (provider parsed, model parsed)
             else (t_provider t, t_model t)).
Proof.
  intros Hopen Hhas Hraw Htruthy Hparse Hkey r bad_think bad_verbose applied.
  assert (Hr : r = directiveStage cfg t w0).
  { subst r. unfold upToDirectives. now apply and_then_goes_on. }
  pose proof (openTurn_good _ _ _ _ _ Hopen) as Hg0.
  pose proof (openTurn_record _ _ _ _ _ Hopen) as H0. cbv zeta in H0.
  destruct H0 as (Hd0 & _ & _ & _ & _ & _ & _ & _ & Hov0 & _).
  pose proof (inline_selection_parsed t raw parsed Hhas Hraw Htruthy Hparse) as Hsel.
  assert (Hstored0 : disk w0 !! t_sessionKey t = Some (t_sessionEntry t))
    by (rewrite Hd0; apply lookup_insert_eq).
  destruct (directiveOnly cfg t) eqn:Honly.
  - (* a message of directives only *)
    assert (Hstage : directiveStage cfg t w0 = @answerDirectives col Turn t w0)
      by (unfold directiveStage; now rewrite Honly).
    assert (Hend : forall o w', directiveStage cfg t w0 = (inl o, w') ->
                                getReplyFromConfig ctx cfg w = (o, w'))
      by (intros o w'; apply (turn_ends_in_directives ctx cfg w t w0 o w' Hopen)).
    subst applied. cbn [andb].
    destruct bad_think eqn:Hbt.
    + (* the turn ends with the correction of the think level *)
      assert (Hans : @answerDirectives col Turn t w0
                     = (inl (reply_text (unrecognized_think t)), w0)).
      { unfold answerDirectives. rewrite Hraw, Hhas. cbn [truthy_opt].
        rewrite Htruthy. cbn [negb andb]. subst bad_think. rewrite Hbt.
        reflexivity. }
      rewrite Hstage, Hans in Hr. rewrite Hr. cbn [fst snd orb negb andb].
      split; [exists (t_sessionEntry t); split; [exact Hstored0|now symmetry]|].
      split; [intros _|discriminate].
      split; [|reflexivity]. apply Hend. now rewrite Hstage.
    + destruct bad_verbose eqn:Hbv.
      * assert (Hans : @answerDirectives col Turn t w0
                       = (inl (reply_text (unrecognized_verbose t)), w0)).
        { unfold answerDirectives. rewrite Hraw, Hhas. cbn [truthy_opt].
          rewrite Htruthy. cbn [negb andb]. subst bad_think bad_verbose.
          rewrite Hbt, Hbv. reflexivity. }
        rewrite Hstage, Hans in Hr. rewrite Hr. cbn [fst snd orb negb andb].
        split; [exists (t_sessionEntry t); split; [exact Hstored0|now symmetry]|].
        split; [intros _|discriminate].
        split; [|reflexivity]. apply Hend. now rewrite Hstage.
      * pose proof (@answerDirectives_parsed col Turn t raw parsed Hhas Hraw
                      Htruthy Hparse Hbt Hbv) as Hans.
        cbn [orb negb andb].
        destruct (pair_allowed t parsed) eqn:Hok.
        -- (* the selection is applied and acknowledged *)
           rewrite Hstage, Hans in Hr.
           unfold commit_directives in Hr. rewrite Hkey in Hr.
           unfold bind, finish, ret in Hr. cbn [fst snd] in Hr.
           rewrite Hr. cbn [fst snd].
           split.
           ++ eexists. split; [apply touch_and_save_record|].
              cbn [providerOverride modelOverride set_updatedAt].
              rewrite <- override_of_selection. apply store_selection_pair.
           ++ split; [intros _|discriminate].
              split; [|discriminate].
              apply Hend. rewrite Hstage, Hans.
              unfold commit_directives. rewrite Hkey. reflexivity.
        -- (* the selection is refused with a message *)
           rewrite Hstage, Hans in Hr. rewrite Hr. cbn [fst snd].
           split; [exists (t_sessionEntry t); split; [exact Hstored0|now symmetry]|].
           split; [intros _|discriminate].
           split; [|reflexivity]. apply Hend. now rewrite Hstage, Hans.
  - (* other text accompanies the directive *)
    subst applied. cbn [andb negb].
    destruct (directiveStage cfg t w0) as [[o|t'] w1] eqn:Hstage.
    { exfalso. unfold directiveStage in Hstage. rewrite Honly in Hstage.
      unfold bind, continue, ret in Hstage. discriminate. }
    pose proof (directiveStage_record _ _ _ _ _ Hg0 Hstage) as H1. cbv zeta in H1.
    destruct H1 as (Hd1 & _ & _ & _ & _ & _ & _ & _ & Hov1 & _).
    rewrite Hkey, Hsel in Hov1.
    rewrite Hr. cbn [fst snd].
    split.
    + exists (t_sessionEntry t'). split; [rewrite Hd1; apply lookup_insert_eq|].
      rewrite Hov1. destruct (pair_allowed t parsed).
      * apply override_of_selection.
      * exact Hov0.
    + split; [discriminate|]. intros _. exists t'. split; [reflexivity|].
      unfold directiveStage in Hstage. rewrite Honly in Hstage.
      unfold bind, continue, ret in Hstage. cbn [fst snd] in Hstage.
      injection Hstage as <- _.
      unfold persistInlineDirectives. rewrite Hkey, Hsel.
      destruct (pair_allowed t parsed).
      * rewrite orb_true_r. reflexivity.
      * destruct (think_applies t || verbose_applies t || bool_decide (is_Some None));
          reflexivity.
Qed.

End WithCollaborators.
End ModelDirectiveTheorem.

Module ModelDirectiveExamples.
Import Text Sessions Config Agent Collab Effects ModelSelection Reply Sample.
Import ModelDirectiveTheorem.

#[local] Existing Instance answering.

(** A non-default pair of the catalog is persisted exactly. *)
Lemma model_selector_round_trip_witness :
  let ctx := message "/model openai/gpt-5" "+15550001" "+15550001" in
  let w := world ∅ in
  let r0 := openTurn ctx no_config w in
  exists t,
    r0 = (inr t, snd r0)
    /\ hasModelDirective t = true
    /\ rawModelDirective t = Some (str "openai/gpt-5")
    /\ truthy (str "openai/gpt-5") = true
    /\ parseModelRef (str "openai/gpt-5") (t_defaultProvider t) = Some gpt5
    /\ truthy (t_sessionKey t) = true
    /\ (exists e,
          disk (snd (upToDirectives ctx no_config w)) !! t_sessionKey t = Some e
          /\ (providerOverride e, modelOverride e)
             = (Some (str "openai"), Some (str "gpt-5")))
    /\ getReplyFromConfig ctx no_config w
       = (reply_text (directive_ack t (Some (selection_of t gpt5))),
          snd (upToDirectives ctx no_config w)).
Proof.
  intros ctx w r0.
  destruct r0 as [[o|t] w1] eqn:Hr; [vm_compute in Hr; discriminate|].
  assert (Ht : t = match fst r0 with inr t => t | inl _ => t end)
    by (subst r0; rewrite Hr; reflexivity).
  exists t. cbn [snd].
  assert (H1 : hasModelDirective t = true) by (rewrite Ht; vm_compute; reflexivity).
  assert (H2 : rawModelDirective t = Some (str "openai/gpt-5"))
    by (rewrite Ht; vm_compute; reflexivity).
  assert (H3 : truthy (str "openai/gpt-5") = true) by reflexivity.
  assert (H4 : parseModelRef (str "openai/gpt-5") (t_defaultProvider t) = Some gpt5)
    by (rewrite Ht; vm_compute; reflexivity).
  assert (H5 : truthy (t_sessionKey t) = true) by (rewrite Ht; vm_compute; reflexivity).
  assert (H6 : directiveOnly no_config t = true) by (rewrite Ht; vm_compute; reflexivity).
  assert (H7 : hasThinkDirective t = false) by (rewrite Ht; vm_compute; reflexivity).
  assert (H8 : hasVerboseDirective t = false) by (rewrite Ht; vm_compute; reflexivity).
  assert (H9 : pair_allowed t gpt5 = true) by (rewrite Ht; vm_compute; reflexivity).
  assert (H10 : is_default_pair t gpt5 = false) by (rewrite Ht; vm_compute; reflexivity).
  do 6 (split; [first [reflexivity | assumption]|]).
  destruct (model_selector_round_trip ctx no_config w t w1 _ gpt5 Hr H1 H2 H3 H4 H5)
    as ((e & He & Hov) & Honly & _).
  rewrite H6, H7, H8, H9, H10 in Hov. cbn [andb orb negb] in Hov.
  split; [exists e; split; [exact He | exact Hov]|].
  destruct (Honly H6) as [Hreply _].
  rewrite H7, H8, H9 in Hreply. exact Hreply.
Defined.

(** Counterexample to C3 as stated, on each of its clauses.  First: a
    selector for a pair that is not allowed, followed by text, is not
    answered with a message; it is skipped and the text is sent to the
    agent engine.  Second: selecting exactly the configured default pair
    does not clear the override when that pair is not in the allowed set;
    the selection is refused and the stored override stays.  Third: a
    refused selection does not leave the override fields unchanged when
    the stored override names a model outside the catalog; the turn
    deletes it.  Fourth: an allowed pair is not persisted when the
    message also carries a level that is not recognised; the correction
    of the level is the reply. *)
Lemma model_selector_skipped_or_default_refused :
  (let ctx := message "/model bad/model hello" "+15550001" "+15550001" in
   let r := getReplyFromConfig ctx no_config (world ∅) in
   fst r = reply_text (str "hello") /\ delegated (snd r) = true)
  /\ (let ctx := message "/model custom/llama" "+15550001" "+15550001" in
      let w := world {[ str "+15550001" := with_override ]} in
      let r := getReplyFromConfig ctx custom_default w in
      fst r = reply_text
                (model_not_allowed
                   {| provider := str "custom"; model := str "llama" |})
      /\ (disk (snd r) !! str "+15550001") ≫= modelOverride = Some (str "gpt-5")
      /\ (disk (snd r) !! str "+15550001") ≫= providerOverride = Some (str "openai"))
  /\ (let ctx := message "/model bad/model" "+15550001" "+15550001" in
      let w := world {[ str "+15550001" := stale_override ]} in
      let r := getReplyFromConfig ctx no_config w in
      fst r = reply_text
                (model_not_allowed
                   {| provider := str "bad"; model := str "model" |})
      /\ (disk w !! str "+15550001") ≫= modelOverride = Some (str "llama")
      /\ (disk (snd r) !! str "+15550001") ≫= modelOverride = None
      /\ (disk (snd r) !! str "+15550001") ≫= providerOverride = None)
  /\ (let ctx := message "/think bogus /model openai/gpt-5" "+15550001" "+15550001" in
      let r := getReplyFromConfig ctx no_config (world ∅) in
      fst r = reply_text
                (str "Unrecognized thinking level " ++ dquote ++ str "bogus" ++ dquote
                 ++ str ". Valid levels: off, minimal, low, medium, high.")
      /\ (disk (snd r) !! str "+15550001") ≫= modelOverride = None
      /\ (disk (snd r) !! str "+15550001") ≫= providerOverride = None).
Proof. vm_compute. repeat split; reflexivity. Qed.

End ModelDirectiveExamples.

(** ** A directive alone in a message *)

Module LoneDirectiveFacts.
Import Text Regex Collab RegexFacts TrimFacts TextFacts ParseFacts.

Lemma space_is_no_lower c : is_space c = true -> is_lower c = false.
Proof.
  intros H. apply space_is_no_word in H. unfold is_word, is_alpha in H.
  apply orb_false_iff in H as [H _]. apply orb_false_iff in H as [H _].
  now apply orb_false_iff in H as [_ H].
Qed.

Lemma separator_head sep :
  separator sep -> exists c sep', sep = c :: sep' /\ sep_char c.
Proof.
  intros [[Hb Hne]|(ws1 & ws2 & H1 & H2 & ->)].
  - destruct sep as [|c sep']; [congruence|]. exists c, sep'.
    split; [reflexivity|]. left. now inversion Hb.
  - destruct ws1 as [|c ws1'].
    + exists (cu ":"), ws2. split; [reflexivity | now right].
    + exists c, (ws1' ++ str ":" ++ ws2). split; [reflexivity|]. left.
      now inversion H1.
Qed.

Lemma fold_char_alpha x : is_alpha x = true -> is_alpha (fold_char x) = true.
Proof.
  unfold fold_char. destruct (is_lower x) eqn:Hl; [|auto]. intros _.
  unfold is_lower, between in Hl. apply andb_true_iff in Hl as [H1 H2].
  apply N.leb_le in H1, H2. unfold is_alpha, is_upper, between.
  apply orb_true_iff. left. apply andb_true_iff. split; apply N.leb_le; lia.
Qed.

Lemma sep_char_no_letter x c :
  is_alpha x = true -> sep_char c -> ci x c = false.
Proof.
  intros Hx Hc. apply fold_char_alpha in Hx. unfold ci.
  apply N.eqb_neq. intros H. rewrite <- H in Hx. clear H.
  destruct Hc as [Hc| ->].
  - unfold fold_char in Hx. rewrite (space_is_no_lower c Hc) in Hx.
    apply alpha_is_no_space in Hx. congruence.
  - vm_compute in Hx. discriminate.
Qed.

Lemma sep_char_lookahead c : sep_char c -> is_space c || (c =? cu ":")%N = true.
Proof. intros [-> | ->]; [reflexivity | now rewrite orb_true_r]. Qed.

Lemma fold_left_last_app (w1 w2 : text) pv :
  fold_left (fun _ c => Some c) (w1 ++ w2) pv
  = fold_left (fun _ c => Some c) w2 (fold_left (fun _ c => Some c) w1 pv).
Proof. apply fold_left_app. Qed.

(** After the keyword: the separator, the level and a word boundary. *)
Lemma level_after_separator pv sep level rest n cp :
  separator sep -> level_token level ->
  (forall c, head rest = Some c -> is_space c = true) ->
  m (seqs [ Star is_space; Opt (Chr (cu ":")); Star is_space;
            Grp (Plus level_char); WordB ])
    pv (sep ++ level ++ rest) n cp (fun _ _ n' cp' => Some (n', cp'))
  = Some ((n + length sep + length level)%nat, Some level).
Proof.
  intros Hsep [Hne Hal] Hrest.
  destruct level as [|l0 level']; [congruence|].
  inversion Hal as [|? ? Hl0 Hal']; subst.
  assert (Hlevel : forall pv' n',
    m (seqs [Grp (Plus level_char); WordB]) pv' ((l0 :: level') ++ rest) n' cp
      (fun _ _ n'' cp'' => Some (n'', cp''))
    = Some ((n' + length (l0 :: level'))%nat, Some (l0 :: level'))).
  { intros pv' n'. cbn [seqs m]. unfold Plus. cbn [m app].
    rewrite (alpha_is_level l0 Hl0).
    apply (star_run level_char _ _ level' rest).
    { eapply Forall_impl; [exact Hal'|]. intros c. apply alpha_is_level. }
    { intros c Hc. apply space_is_no_level. now apply Hrest. }
    rewrite (word_after_run level' l0 Hl0 Hal').
    assert (Hw : word_at (head rest) = false).
    { destruct rest as [|c rest']; [reflexivity|]. cbn.
      apply space_is_no_word. now apply Hrest. }
    rewrite Hw. cbn [xorb]. f_equal. f_equal.
    - cbn [length]. lia.
    - f_equal.
      match goal with
      | |- take ?a _ = _ =>
          replace a with (length (l0 :: level')) by (cbn [length]; lia)
      end.
      exact (take_app_length (l0 :: level') rest). }
  destruct Hsep as [[Hb Hn]|(ws1 & ws2 & H1 & H2 & ->)].
  - (* white space only *)
    cbn [seqs m].
    apply (star_run is_space _ _ sep ((l0 :: level') ++ rest) pv n Hb).
    { intros c [= <-]. now apply alpha_is_no_space. }
    cbn [app]. rewrite (alpha_is_no_colon l0 Hl0).
    apply (star_run is_space _ _ [] (l0 :: level' ++ rest)).
    { constructor. }
    { intros c [= <-]. now apply alpha_is_no_space. }
    cbn [fold_left length]. rewrite Nat.add_0_r.
    specialize (Hlevel (fold_left (fun _ c => Some c) sep pv) (n + length sep)%nat).
    cbn [seqs m] in Hlevel. exact Hlevel.
  - (* white space, the colon, white space *)
    cbn [seqs m]. rewrite <- !app_assoc.
    apply (star_run is_space _ _ ws1 (str ":" ++ ws2 ++ (l0 :: level') ++ rest)
             pv n H1).
    { intros c [= <-]. reflexivity. }
    change (str ":" ++ ws2 ++ (l0 :: level') ++ rest)
      with (cu ":" :: ws2 ++ (l0 :: level') ++ rest).
    cbv beta. cbn [m]. rewrite N.eqb_refl.
    apply first_alt.
    apply (star_run is_space _ _ ws2 ((l0 :: level') ++ rest) _ _ H2).
    { intros c [= <-]. now apply alpha_is_no_space. }
    specialize (Hlevel (fold_left (fun _ c => Some c) ws2 (Some (cu ":")))
                  (S (n + length ws1) + length ws2)%nat).
    cbn [seqs m] in Hlevel. rewrite Hlevel. f_equal. f_equal.
    rewrite !length_app. cbn [length str map list_ascii_of_string]. lia.
Qed.

(** The keywords, one after the other, on a text that starts with one of
    them and goes on with a separator. *)
Lemma thinking_passes {R} (s : text) pv n cp (k : K R) :
  m (LitI (str "thinking")) pv (str "thinking" ++ s) n cp k
  = k (Some (cu "g")) s (8 + n)%nat cp.
Proof. reflexivity. Qed.

Lemma think_passes_any {R} (s : text) pv n cp (k : K R) :
  m (LitI (str "think")) pv (str "think" ++ s) n cp k
  = k (Some (cu "k")) s (5 + n)%nat cp.
Proof. reflexivity. Qed.

Lemma t_passes {R} (s : text) pv n cp (k : K R) :
  m (LitI (str "t")) pv (str "t" ++ s) n cp k = k (Some (cu "t")) s (1 + n)%nat cp.
Proof. reflexivity. Qed.

Lemma verbose_passes_any {R} (s : text) pv n cp (k : K R) :
  m (LitI (str "verbose")) pv (str "verbose" ++ s) n cp k
  = k (Some (cu "e")) s (7 + n)%nat cp.
Proof. reflexivity. Qed.

Lemma v_passes {R} (s : text) pv n cp (k : K R) :
  m (LitI (str "v")) pv (str "v" ++ s) n cp k = k (Some (cu "v")) s (1 + n)%nat cp.
Proof. reflexivity. Qed.

Lemma ci_same x : ci x x = true.
Proof. apply N.eqb_refl. Qed.

Lemma thinking_stops_after_think {R} c (s : text) pv n cp (k : K R) :
  sep_char c ->
  m (LitI (str "thinking")) pv (str "think" ++ c :: s) n cp k = None.
Proof.
  intros Hc. pose proof (sep_char_no_letter (cu "i") c eq_refl Hc) as H.
  cbn [LitI str map list_ascii_of_string m app].
  rewrite ?ci_same. now rewrite H.
Qed.

Lemma thinking_stops_after_t {R} c (s : text) pv n cp (k : K R) :
  sep_char c ->
  m (LitI (str "thinking")) pv (str "t" ++ c :: s) n cp k = None.
Proof.
  intros Hc. pose proof (sep_char_no_letter (cu "h") c eq_refl Hc) as H.
  cbn [LitI str map list_ascii_of_string m app].
  rewrite ?ci_same. now rewrite H.
Qed.

Lemma think_stops_after_t {R} c (s : text) pv n cp (k : K R) :
  sep_char c ->
  m (LitI (str "think")) pv (str "t" ++ c :: s) n cp k = None.
Proof.
  intros Hc. pose proof (sep_char_no_letter (cu "h") c eq_refl Hc) as H.
  cbn [LitI str map list_ascii_of_string m app].
  rewrite ?ci_same. now rewrite H.
Qed.

Lemma verbose_stops_after_v {R} c (s : text) pv n cp (k : K R) :
  sep_char c ->
  m (LitI (str "verbose")) pv (str "v" ++ c :: s) n cp k = None.
Proof.
  intros Hc. pose proof (sep_char_no_letter (cu "e") c eq_refl Hc) as H.
  cbn [LitI str map list_ascii_of_string m app].
  rewrite ?ci_same. now rewrite H.
Qed.

(** A lone think directive is found at the start of the text, with the
    level as written. *)
Lemma think_lone_here kw sep level rest :
  In kw think_keywords -> separator sep -> level_token level ->
  (forall c, head rest = Some c -> is_space c = true) ->
  here think_re None (str "/" ++ kw ++ sep ++ level ++ rest)
  = Some ((1 + length kw + length sep + length level)%nat, Some level).
Proof.
  intros Hkw Hsep Hlevel Hrest.
  destruct (separator_head sep Hsep) as (c & sep' & Hs & Hc).
  pose proof (fun pv n => level_after_separator pv sep level rest n None
                            Hsep Hlevel Hrest) as Htail.
  unfold here, think_re. cbn [seqs m at_bol]. apply first_alt.
  change (str "/" ++ kw ++ sep ++ level ++ rest)
    with (cu "/" :: kw ++ sep ++ level ++ rest).
  cbv beta iota. rewrite N.eqb_refl.
  destruct Hkw as [<-|[<-|[<-|[]]]].
  - apply first_alt. rewrite thinking_passes.
    exact (Htail (Some (cu "g")) 9%nat).
  - match goal with
    | |- context [m (LitI (str "thinking")) ?pv ?s ?n ?cp ?k] =>
        replace (m (LitI (str "thinking")) pv s n cp k)
          with (@None (nat * option text))
          by (symmetry; rewrite Hs; cbn [app];
              apply thinking_stops_after_think; exact Hc)
    end.
    apply first_alt. rewrite think_passes_any.
    exact (Htail (Some (cu "k")) 6%nat).
  - match goal with
    | |- context [m (LitI (str "thinking")) ?pv ?s ?n ?cp ?k] =>
        replace (m (LitI (str "thinking")) pv s n cp k)
          with (@None (nat * option text))
          by (symmetry; rewrite Hs; cbn [app];
              apply thinking_stops_after_t; exact Hc)
    end.
    match goal with
    | |- context [m (LitI (str "think")) ?pv ?s ?n ?cp ?k] =>
        replace (m (LitI (str "think")) pv s n cp k)
          with (@None (nat * option text))
          by (symmetry; rewrite Hs; cbn [app];
              apply think_stops_after_t; exact Hc)
    end.
    rewrite t_passes.
    exact (Htail (Some (cu "t")) 2%nat).
Qed.

Lemma lookahead_passes {R} c (s : text) pv n cp (k : K R) :
  sep_char c ->
  m (Ahead (Alt Eol (Alt (Cls is_space) (Chr (cu ":"))))) pv (c :: s) n cp k
  = k pv (c :: s) n cp.
Proof.
  intros Hc. cbn [m]. destruct Hc as [Hc| ->].
  - now rewrite Hc.
  - reflexivity.
Qed.

(** A lone verbose directive is found at the start of the text. *)
Lemma verbose_lone_here kw sep level rest :
  In kw verbose_keywords -> separator sep -> level_token level ->
  (forall c, head rest = Some c -> is_space c = true) ->
  here verbose_re None (str "/" ++ kw ++ sep ++ level ++ rest)
  = Some ((1 + length kw + length sep + length level)%nat, Some level).
Proof.
  intros Hkw Hsep Hlevel Hrest.
  destruct (separator_head sep Hsep) as (c & sep' & Hs & Hc).
  pose proof (fun pv n => level_after_separator pv sep level rest n None
                            Hsep Hlevel Hrest) as Htail.
  unfold here, verbose_re. cbn [seqs m at_bol]. apply first_alt.
  change (str "/" ++ kw ++ sep ++ level ++ rest)
    with (cu "/" :: kw ++ sep ++ level ++ rest).
  cbv beta iota. rewrite N.eqb_refl.
  assert (Hahead : forall pv n,
    m (Ahead (Alt Eol (Alt (Cls is_space) (Chr (cu ":"))))) pv
      (sep ++ level ++ rest) n None
      (fun pv' s' n' cp' =>
         m (seqs [ Star is_space; Opt (Chr (cu ":")); Star is_space;
                   Grp (Plus level_char); WordB ]) pv' s' n' cp'
           (fun _ _ n'' cp'' => Some (n'', cp'')))
    = Some ((n + length sep + length level)%nat, Some level)).
  { intros pv n. rewrite Hs at 1. cbn [app].
    rewrite (lookahead_passes c _ _ _ _ _ Hc).
    change (c :: sep' ++ level ++ rest) with ((c :: sep') ++ level ++ rest).
    rewrite <- Hs. apply Htail. }
  destruct Hkw as [<-|[<-|[]]].
  - apply first_alt. rewrite verbose_passes_any.
    exact (Hahead (Some (cu "e")) 8%nat).
  - match goal with
    | |- context [m (LitI (str "verbose")) ?pv ?s ?n ?cp ?k] =>
        replace (m (LitI (str "verbose")) pv s n cp k)
          with (@None (nat * option text))
          by (symmetry; rewrite Hs; cbn [app];
              apply verbose_stops_after_v; exact Hc)
    end.
    rewrite v_passes.
    exact (Hahead (Some (cu "v")) 2%nat).
Qed.

(** *** White space only *)

Lemma blank_forall (s : text) :
  blank s <-> forall c, In c s -> is_space c = true.
Proof. unfold blank. now rewrite List.Forall_forall. Qed.

Lemma replace_all_blank r (s : text) :
  blank s -> blank (replace_all r (str " ") s).
Proof.
  rewrite !blank_forall. intros Hs c Hc. unfold replace_all in Hc.
  destruct (replace_all_go_subset _ _ _ _ _ _ Hc) as [H|[<-|[]]];
    [now apply Hs | reflexivity].
Qed.

Lemma collapse_ws_blank (s : text) : blank s -> blank (collapse_ws s).
Proof. apply replace_all_blank. Qed.

Lemma trim_of_blank (s : text) : blank s -> trim s = [].
Proof.
  intros Hs. rewrite <- (app_nil_r s). change (s ++ []) with (s ++ [] ++ []).
  now rewrite (trim_blank_around s [] []) by (exact Hs || constructor).
Qed.

Lemma squeeze_blank (s : text) : blank s -> trim (collapse_ws s) = [].
Proof. intros Hs. apply trim_of_blank. now apply collapse_ws_blank. Qed.

End LoneDirectiveFacts.

Module LoneDirectiveParse.
Import Text Regex Collab RegexFacts TrimFacts TextFacts ParseFacts.
Import LoneDirectiveFacts.

Lemma search_none_without c r s pv i :
  must c r = true -> ~ In c s -> search r pv s i = None.
Proof.
  intros Hmust Hnot. destruct (search r pv s i) as [f|] eqn:He; [|reflexivity].
  destruct (search_finds c r s pv i f He) as (pre & consumed & post & Hs & _ & _ & Hm).
  exfalso. apply Hnot. rewrite Hs. apply in_or_app. right.
  apply in_or_app. left. now apply Hm.
Qed.

Lemma blank_no_slash (s : text) : blank s -> ~ In (cu "/") s.
Proof. rewrite blank_forall. intros Hs Hin. now apply Hs in Hin. Qed.

Lemma level_no_slash (level : text) :
  Forall (fun c => is_alpha c = true) level -> ~ In (cu "/") level.
Proof. rewrite List.Forall_forall. intros H Hin. now apply H in Hin. Qed.

Lemma separator_no_slash sep : separator sep -> ~ In (cu "/") sep.
Proof.
  intros [[Hb _]|(ws1 & ws2 & H1 & H2 & ->)]; [now apply blank_no_slash|].
  intros Hin. apply in_app_or in Hin as [Hin|Hin];
    [now apply (blank_no_slash ws1)|].
  apply in_app_or in Hin as [Hin|Hin]; [|now apply (blank_no_slash ws2)].
  destruct Hin as [Hin|[]]. discriminate Hin.
Qed.

Lemma prefix_length kw sep level :
  length (str "/" ++ kw ++ sep ++ level)
  = (1 + length kw + length sep + length level)%nat.
Proof. rewrite !length_app. cbn [length str map list_ascii_of_string]. lia. Qed.

Section Directives.
Context {col : Collaborators}.

(** The think extractor on a lone think directive. *)
Lemma lone_think_extracted level body :
  lone_directive think_keywords level body ->
  let t := extractThinkDirective (Some body) in
  think_hasDirective t = true /\ think_rawLevel t = Some level
  /\ think_level t = normalizeThinkLevel (Some level)
  /\ think_cleaned t = [].
Proof.
  intros (kw & sep & trail & Hkw & Hsep & Hlevel & Htrail & ->).
  assert (Hrest : forall c, head trail = Some c -> is_space c = true).
  { intros c Hc. destruct trail as [|x trail']; [discriminate|].
    injection Hc as ->. now inversion Htrail. }
  pose proof (think_lone_here kw sep level trail Hkw Hsep Hlevel Hrest) as H.
  rewrite <- prefix_length in H.
  replace (str "/" ++ kw ++ sep ++ level ++ trail)
    with ((str "/" ++ kw ++ sep ++ level) ++ trail) in *
    by (now rewrite <- !app_assoc).
  apply clean_directive_at_start in H as (Hc & Hr & Hh).
  rewrite (squeeze_blank trail Htrail) in Hc.
  replace ((str "/" ++ kw ++ sep ++ level) ++ trail)
    with (cu "/" :: (kw ++ sep ++ level) ++ trail) in *
    by (cbn; now rewrite <- !app_assoc).
  cbn [extractThinkDirective think_hasDirective think_rawLevel think_level
       think_cleaned].
  rewrite Hr. auto.
Qed.

(** The two extractors, one after the other, on a lone verbose
    directive: the first finds nothing and trims the text. *)
Lemma lone_verbose_extracted level body :
  lone_directive verbose_keywords level body ->
  let t := extractThinkDirective (Some body) in
  let v := extractVerboseDirective (Some (think_cleaned t)) in
  think_hasDirective t = false
  /\ verbose_hasDirective v = true /\ verbose_rawLevel v = Some level
  /\ verbose_level v = normalizeVerboseLevel (Some level)
  /\ verbose_cleaned v = [].
Proof.
  intros (kw & sep & trail & Hkw & Hsep & Hlevel & Htrail & ->).
  assert (Hnone : exec think_re (str "/" ++ kw ++ sep ++ level ++ trail) = None).
  { unfold exec.
    change (str "/" ++ kw ++ sep ++ level ++ trail)
      with (cu "/" :: kw ++ sep ++ level ++ trail).
    cbn [search].
    assert (Hhere : here think_re None (cu "/" :: kw ++ sep ++ level ++ trail)
                    = None).
    { destruct Hkw as [<-|[<-|[]]]; reflexivity. }
    rewrite Hhere. apply (search_none_without (cu "/")); [reflexivity|].
    intros Hin. apply in_app_or in Hin as [Hin|Hin].
    { destruct Hkw as [<-|[<-|[]]]; cbn in Hin;
        repeat (destruct Hin as [Hin|Hin]; [discriminate Hin|]); exact Hin. }
    apply in_app_or in Hin as [Hin|Hin]; [now apply (separator_no_slash sep)|].
    apply in_app_or in Hin as [Hin|Hin];
      [now apply (level_no_slash level (proj2 Hlevel))
      |now apply (blank_no_slash trail)]. }
  assert (Htrim : trim (str "/" ++ kw ++ sep ++ level ++ trail)
                  = str "/" ++ kw ++ sep ++ level ++ []).
  { destruct Hlevel as [Hne Hal].
    destruct (exists_last Hne) as (level' & l & ->).
    apply Forall_app in Hal as [_ Hl]. inversion Hl as [|? ? Hl0 _]; subst.
    replace (str "/" ++ kw ++ sep ++ (level' ++ [l]) ++ trail)
      with ([] ++ (str "/" ++ (kw ++ sep ++ level') ++ [l]) ++ trail)
      by (cbn [app]; now rewrite <- !app_assoc).
    rewrite (trim_blank_around [] _ trail) by (constructor || exact Htrail).
    rewrite (trim_fixed_app (str "/") (kw ++ sep ++ level') [l]);
      [rewrite app_nil_r, <- !app_assoc; reflexivity
      | reflexivity
      | unfold trim, trimEnd; cbn [trimStart rev app];
        rewrite (alpha_is_no_space l Hl0); cbn [rev app trimStart];
        now rewrite (alpha_is_no_space l Hl0)
      | discriminate | discriminate]. }
  assert (Hrest : forall c, head (@nil N) = Some c -> is_space c = true)
    by discriminate.
  pose proof (verbose_lone_here kw sep level [] Hkw Hsep Hlevel Hrest) as H.
  rewrite <- prefix_length in H.
  replace (str "/" ++ kw ++ sep ++ level ++ [])
    with ((str "/" ++ kw ++ sep ++ level) ++ []) in *
    by (now rewrite <- !app_assoc).
  apply clean_directive_at_start in H as (Hc & Hr & Hh).
  rewrite (squeeze_blank [] ltac:(constructor)) in Hc.
  change (str "/" ++ kw ++ sep ++ level ++ trail)
    with (cu "/" :: kw ++ sep ++ level ++ trail) in *.
  cbn [extractThinkDirective think_hasDirective think_cleaned].
  unfold has_match, clean_directive. rewrite Hnone, Htrim.
  replace ((str "/" ++ kw ++ sep ++ level) ++ [])
    with (cu "/" :: (kw ++ sep ++ level) ++ []) in *
    by (cbn; now rewrite <- !app_assoc).
  cbn [extractVerboseDirective verbose_hasDirective verbose_rawLevel
       verbose_level verbose_cleaned].
  rewrite Hr. auto.
Qed.

End Directives.
End LoneDirectiveParse.

Module InvalidLevelTheorem.
Import Text Regex Sessions Config Agent Collab Effects ModelSelection Reply.
Import TurnFacts InvalidLevelFacts AbortFacts ResetFacts AccessFacts.
Import RegexFacts TrimFacts TextFacts LoneDirectiveFacts LoneDirectiveParse.

Section WithCollaborators.
Context {col : Collaborators}.

Lemma scanResetTriggers_false triggers trimmedBody stripped :
  fst (scanResetTriggers triggers trimmedBody stripped) = false ->
  snd (scanResetTriggers triggers trimmedBody stripped) = None.
Proof.
  induction triggers as [|t1 rest IH]; cbn [scanResetTriggers]; [reflexivity|].
  destruct (negb (truthy t1)); [exact IH|].
  destruct (_ || _); [discriminate|]. cbv zeta.
  destruct (_ || _); [discriminate | exact IH].
Qed.

Lemma apply_patterns_blank patterns (s : text) :
  blank s -> blank (apply_patterns patterns s).
Proof.
  unfold apply_patterns. revert s.
  induction patterns as [|p patterns IH]; intros s Hs; [exact Hs|].
  cbn [fold_left]. apply IH. destruct p; [now apply replace_all_blank | exact Hs].
Qed.

(** Nothing is left of white space once the mentions are taken out. *)
Lemma stripMentions_blank (s : text) ctx cfg :
  blank s -> stripMentions s ctx cfg = [].
Proof.
  intros Hs. unfold stripMentions. apply squeeze_blank.
  apply replace_all_blank.
  destruct (truthy _);
    [do 2 apply replace_all_blank|]; now apply apply_patterns_blank.
Qed.

(** A message that is not an audio to transcribe is opened as it is. *)
Lemma openTurn_text ctx cfg w :
  default false (transcribeAudio <$> routing cfg) && isAudio (MediaType ctx) = false ->
  exists t w1, openTurn ctx cfg w = (inr t, w1) /\ t_ctx t = ctx.
Proof.
  intros Hno. unfold openTurn. rewrite Hno. cbn [truthy_opt].
  unfold bind, continue, ret. cbn [fst snd].
  eexists. eexists. split; [reflexivity|].
  unfold applyStoredOverride. cbn [t_ctx with_model].
  now rewrite validateStoredOverride_ctx.
Qed.

Lemma directiveOnly_alone cfg t :
  hasThinkDirective t || hasVerboseDirective t || hasModelDirective t = true ->
  directives_alone (t_ctx t) cfg (modelCleaned t) ->
  directiveOnly cfg t = true.
Proof.
  intros Hany Halone. unfold directiveOnly. rewrite Hany. cbn [negb].
  unfold directives_alone in Halone. cbv zeta in Halone |- *.
  rewrite Halone. reflexivity.
Qed.

Lemma directives_alone_nil ctx cfg : directives_alone ctx cfg [].
Proof.
  unfold directives_alone. change (stripStructuralPrefixes []) with (@nil N).
  destruct (isGroup_of ctx); [|reflexivity].
  apply stripMentions_blank. constructor.
Qed.

(** C6, as amended.  A message that is no audio to transcribe and no reset
    trigger.  When nothing is left of it once the think, verbose and model
    directives are taken out (and the structural prefixes and, in a
    group, the mentions), and it does not ask for the list of models:
    if [extractThinkDirective] finds a directive whose level is not
    recognised, the reply is the correction that quotes the level as
    written and lists the valid levels; else, if [extractVerboseDirective]
    finds one, the reply is the correction for verbose.  The turn ends
    there: nothing is written after the opening of the turn and no
    collaborator is called.  In particular this is so for a message that
    is one directive alone: the keyword [/thinking], [/think] or [/t]
    (or [/verbose], [/v]), a separator of white space with at most one
    colon, a level made of letters that is not recognised, and at most
    white space after it; here the model extractor, which is not among
    the sources, is taken to find nothing in an empty text. *)
Theorem invalid_level_corrected_in_directive_only_turn
    (ctx : MsgContext) (cfg : ClawdisConfig) (w : World) (body : text) :
  default false (transcribeAudio <$> routing cfg) && isAudio (MediaType ctx) = false ->
  Body ctx = Some body ->
  fst (resolveReset ctx cfg) = false ->
  let th := extractThinkDirective (Some body) in
  let vb := extractVerboseDirective (Some (think_cleaned th)) in
  let md := extractModelDirective (Some (verbose_cleaned vb)) in
  let r := getReplyFromConfig ctx cfg w in
  let corrected (message : text) :=
    fst r = reply_text message
    /\ snd r = snd (openTurn ctx cfg w) /\ calls (snd r) = calls w in
  (directives_alone ctx cfg (model_cleaned md) ->
   model_hasDirective md && negb (truthy_opt (rawModel md)) = false ->
   (think_hasDirective th = true -> truthy_opt (think_level th) = false ->
    corrected (think_correction (default [] (think_rawLevel th))))
   /\ (think_hasDirective th && negb (truthy_opt (think_level th)) = false ->
       verbose_hasDirective vb = true -> truthy_opt (verbose_level vb) = false ->
       corrected (verbose_correction (default [] (verbose_rawLevel vb)))))
  /\ (model_hasDirective (extractModelDirective (Some [])) = false ->
      model_cleaned (extractModelDirective (Some [])) = [] ->
      forall level,
        (lone_directive think_keywords level body ->
         truthy_opt (normalizeThinkLevel (Some level)) = false ->
         corrected (think_correction level))
        /\ (lone_directive verbose_keywords level body ->
            truthy_opt (normalizeVerboseLevel (Some level)) = false ->
            corrected (verbose_correction level))).
Proof.
  intros Hno Hbody Hreset th vb md r corrected.
  destruct (openTurn_text ctx cfg w Hno) as (t & w1 & Hopen & Hctx).
  destruct (openTurn_directives ctx cfg w t w1 Hopen) as (Hth & Hvb & Hmd & _).
  cbv zeta in Hth. rewrite Hctx in Hth.
  unfold resolveReset in Hreset. unfold resolveReset in Hth.
  rewrite (scanResetTriggers_false _ _ _ Hreset), Hbody in Hth. cbn [default] in Hth.
  change (id body) with body in Hth. fold th in Hth.
  rewrite Hth in Hvb. fold vb in Hvb. rewrite Hvb in Hmd. fold md in Hmd.
  assert (Hcalls : calls w1 = calls w).
  { pose proof (quiet_openTurn ctx cfg w) as Hq. now rewrite Hopen in Hq. }
  assert (Hgeneral :
    directives_alone ctx cfg (model_cleaned md) ->
    model_hasDirective md && negb (truthy_opt (rawModel md)) = false ->
    (think_hasDirective th = true -> truthy_opt (think_level th) = false ->
     corrected (think_correction (default [] (think_rawLevel th))))
    /\ (think_hasDirective th && negb (truthy_opt (think_level th)) = false ->
        verbose_hasDirective vb = true -> truthy_opt (verbose_level vb) = false ->
        corrected (verbose_correction (default [] (verbose_rawLevel vb))))).
  { intros Halone Hlisting.
    assert (Hlisting' : hasModelDirective t && negb (truthy_opt (rawModelDirective t))
                        = false)
      by (unfold hasModelDirective, rawModelDirective; now rewrite Hmd).
    destruct (invalid_level_where_directives_are_handled ctx cfg w t w1 Hopen Hlisting')
      as (Hcorr & _ & _).
    assert (Halone' : directives_alone (t_ctx t) cfg (modelCleaned t))
      by (unfold modelCleaned; now rewrite Hctx, Hmd).
    split.
    - intros Hhas Hbad.
      assert (Hht : hasThinkDirective t = true)
        by (unfold hasThinkDirective; now rewrite Hth).
      assert (Hit : truthy_opt (inlineThink t) = false)
        by (unfold inlineThink; now rewrite Hth).
      assert (Honly : directiveOnly cfg t = true)
        by (apply directiveOnly_alone; [now rewrite Hht | exact Halone']).
      pose proof (proj1 (Hcorr Honly) Hht Hit) as Hr.
      unfold corrected. subst r. rewrite Hr, Hopen. cbn [fst snd].
      unfold unrecognized_think, think_correction. rewrite Hth.
      split; [reflexivity|]. split; [reflexivity | exact Hcalls].
    - intros Hthink Hhas Hbad.
      assert (Hht : hasThinkDirective t && negb (truthy_opt (inlineThink t)) = false)
        by (unfold hasThinkDirective, inlineThink; now rewrite Hth).
      assert (Hhv : hasVerboseDirective t = true)
        by (unfold hasVerboseDirective; now rewrite Hvb).
      assert (Hiv : truthy_opt (inlineVerbose t) = false)
        by (unfold inlineVerbose; now rewrite Hvb).
      assert (Honly : directiveOnly cfg t = true)
        by (apply directiveOnly_alone;
            [now rewrite Hhv, orb_true_r | exact Halone']).
      pose proof (proj2 (Hcorr Honly) Hht Hhv Hiv) as Hr.
      unfold corrected. subst r. rewrite Hr, Hopen. cbn [fst snd].
      unfold unrecognized_verbose, verbose_correction. rewrite Hvb.
      split; [reflexivity|]. split; [reflexivity | exact Hcalls]. }
  split; [exact Hgeneral|].
  intros Hm1 Hm2 level. split.
  - intros Hlone Hbad.
    destruct (lone_think_extracted level body Hlone) as (Hh & Hr & Hl & Hc).
    fold th in Hh, Hr, Hl, Hc.
    assert (Hvb0 : vb = extractVerboseDirective (Some []))
      by (unfold vb; now rewrite Hc).
    assert (Hmd0 : md = extractModelDirective (Some []))
      by (unfold md; rewrite Hvb0; reflexivity).
    destruct Hgeneral as [Hthink _].
    + rewrite Hmd0, Hm2. apply directives_alone_nil.
    + now rewrite Hmd0, Hm1.
    + rewrite Hr in Hthink. apply Hthink; [exact Hh | now rewrite Hl].
  - intros Hlone Hbad.
    destruct (lone_verbose_extracted level body Hlone)
      as (Hnt & Hh & Hr & Hl & Hc).
    cbv zeta in Hh, Hr, Hl, Hc. fold th in Hnt, Hh, Hr, Hl, Hc.
    fold vb in Hh, Hr, Hl, Hc.
    assert (Hmd0 : md = extractModelDirective (Some []))
      by (unfold md; now rewrite Hc).
    destruct Hgeneral as [_ Hverbose].
    + rewrite Hmd0, Hm2. apply directives_alone_nil.
    + now rewrite Hmd0, Hm1.
    + rewrite Hr in Hverbose.
      apply Hverbose; [now rewrite Hnt | exact Hh | now rewrite Hl].
Qed.

End WithCollaborators.
End InvalidLevelTheorem.

Module InvalidLevelExamples.
Import Text Regex Sessions Config Agent Collab Effects Reply Sample InvalidLevelTheorem.

#[local] Existing Instance answering.

Lemma invalid_level_corrected_in_directive_only_turn_witness :
  let ctx := message "/think bogus" "+15550001" "+15550001" in
  let w := world ∅ in
  let r := getReplyFromConfig ctx no_config w in
  lone_directive think_keywords (str "bogus") (str "/think bogus")
  /\ truthy_opt (normalizeThinkLevel (Some (str "bogus"))) = false
  /\ fst r = reply_text (think_correction (str "bogus"))
  /\ snd r = snd (openTurn ctx no_config w)
  /\ calls (snd r) = calls w.
Proof.
  intros ctx w r.
  assert (Hlone : lone_directive think_keywords (str "bogus") (str "/think bogus")).
  { exists (str "think"), (str " "), []. repeat split.
    - right; left; reflexivity.
    - left. split; [repeat constructor | discriminate].
    - discriminate.
    - repeat constructor.
    - constructor. }
  assert (Hbad : truthy_opt (normalizeThinkLevel (Some (str "bogus"))) = false)
    by (vm_compute; reflexivity).
  destruct (invalid_level_corrected_in_directive_only_turn
              ctx no_config w (str "/think bogus"))
    as (_ & Hlone_case);
    [vm_compute; reflexivity | reflexivity | vm_compute; reflexivity |].
  destruct (Hlone_case ltac:(vm_compute; reflexivity) ltac:(vm_compute; reflexivity)
              (str "bogus")) as [Hthink _].
  split; [exact Hlone|]. split; [exact Hbad|].
  exact (Hthink Hlone Hbad).
Defined.

(** Counterexample to C6 as stated: with text after the invalid level
    the turn produces no correction; the directive is dropped from the
    text and the rest is sent to the agent engine as the prompt.  Nor
    does a token that is not made of letters give a correction: in
    [/think 5] the expression reads the keyword [/t] with the level
    [hink] and leaves [5]; [/verbose 1] holds no directive at all; both
    are sent to the agent engine. *)
Lemma invalid_level_with_text_reaches_the_agent :
  let run body := getReplyFromConfig (message body "+15550001" "+15550001")
                    no_config (world ∅) in
  let sent r text :=
    fst r = reply_text text /\ delegated (snd r) = true
    /\ exists p rest, calls (snd r) = RunAgent p :: rest /\ prompt p = text in
  sent (run "/think bogus hello") (str "hello")
  /\ sent (run "/think 5") (str "5")
  /\ sent (run "/verbose 1") (str "/verbose 1").
Proof.
  vm_compute.
  repeat split; try (eexists; eexists; split; reflexivity).
Qed.

End InvalidLevelExamples.

(** ** What the expressions match

    The matcher finds only matches of the expression, and greedy
    repetition takes the longest run that lets the rest succeed: this
    gives the form of a directive and of the text after it. *)

Module MatchFacts.
Import Text Regex Collab RegexFacts TrimFacts TextFacts ParseFacts LoneDirectiveFacts.

Lemma prev_app pv u1 u2 : prev pv (u1 ++ u2) = prev (prev pv u1) u2.
Proof. unfold prev. apply fold_left_app. Qed.

Lemma prev_last pv u x : prev pv (u ++ [x]) = Some x.
Proof. now rewrite prev_app. Qed.

Lemma prev_nonempty pv pv' u : u <> [] -> prev pv u = prev pv' u.
Proof.
  destruct u as [|x u] using rev_ind; [congruence|]. intros _.
  now rewrite !prev_last.
Qed.

Lemma prev_is_some u : forall x, prev (Some x) u <> None.
Proof. induction u as [|y u IH]; intros x; [discriminate | exact (IH y)]. Qed.

Lemma star_sound {R} (p : N -> bool) :
  forall (s : text) (pv : option N) (n : nat)
         (k : option N -> text -> nat -> option R) (res : R),
    star p pv s n k = Some res ->
    exists u s',
      s = u ++ s' /\ Forall (fun c => p c = true) u
      /\ k (prev pv u) s' (n + length u)%nat = Some res.
Proof.
  induction s as [|c s IH]; intros pv n k res H; cbn [star] in H.
  - exists [], []. cbn. rewrite Nat.add_0_r. repeat split; [constructor | exact H].
  - destruct (p c) eqn:Hc.
    + destruct (star p (Some c) s (S n) k) as [r|] eqn:Hrec.
      * injection H as <-.
        destruct (IH _ _ _ _ Hrec) as (u & s' & -> & Hu & Hk).
        exists (c :: u), s'. split; [reflexivity|]. split; [now constructor|].
        cbn [length prev fold_left]. rewrite <- Hk. f_equal. lia.
      * exists [], (c :: s). cbn. rewrite Nat.add_0_r.
        repeat split; [constructor | exact H].
    + exists [], (c :: s). cbn. rewrite Nat.add_0_r.
      repeat split; [constructor | exact H].
Qed.

(** The matcher is sound: what it finds is a match, and the result comes
    from the continuation called after it. *)
Lemma m_sound (r : re) :
  forall {R} (pv : option N) (s : text) (n : nat) (cp : option text)
         (k : K R) (res : R),
    m r pv s n cp k = Some res ->
    exists u s' cp',
      s = u ++ s' /\ matches r pv u s'
      /\ k (prev pv u) s' (n + length u)%nat cp' = Some res.
Proof.
  induction r as [x|p|a IHa b IHb|a IHa b IHb|p|a IHa|ml| | |a IHa|a IHa];
    intros R pv s n cp k res H; cbn [m] in H.
  - destruct s as [|y s]; [discriminate|].
    destruct (y =? x)%N eqn:Hy; [|discriminate].
    apply N.eqb_eq in Hy. subst y.
    exists [x], s, cp. split; [reflexivity|]. split; [constructor|].
    cbn. rewrite <- H. f_equal. lia.
  - destruct s as [|y s]; [discriminate|].
    destruct (p y) eqn:Hy; [|discriminate].
    exists [y], s, cp. split; [reflexivity|]. split; [now constructor|].
    cbn. rewrite <- H. f_equal. lia.
  - destruct (IHa _ _ _ _ _ _ _ H) as (u1 & s1 & cp1 & -> & Hm1 & Hk1).
    destruct (IHb _ _ _ _ _ _ _ Hk1) as (u2 & s2 & cp2 & -> & Hm2 & Hk2).
    exists (u1 ++ u2), s2, cp2. split; [now rewrite <- app_assoc|].
    split; [now constructor|].
    rewrite prev_app, length_app, Nat.add_assoc. exact Hk2.
  - destruct (m a pv s n cp k) as [x|] eqn:Ha.
    + injection H as <-.
      destruct (IHa _ _ _ _ _ _ _ Ha) as (u & s1 & cp1 & Hs & Hm & Hk).
      exists u, s1, cp1. split; [exact Hs|]. split; [now apply matches_Alt_l | exact Hk].
    + destruct (IHb _ _ _ _ _ _ _ H) as (u & s1 & cp1 & Hs & Hm & Hk).
      exists u, s1, cp1. split; [exact Hs|]. split; [now apply matches_Alt_r | exact Hk].
  - destruct (star_sound p s pv n _ res H) as (u & s1 & Hs & Hu & Hk).
    exists u, s1, cp. split; [exact Hs|]. split; [now constructor | exact Hk].
  - destruct (m a pv s n cp k) as [x|] eqn:Ha.
    + injection H as <-.
      destruct (IHa _ _ _ _ _ _ _ Ha) as (u & s1 & cp1 & Hs & Hm & Hk).
      exists u, s1, cp1. split; [exact Hs|]. split; [now apply matches_Opt_some | exact Hk].
    + exists [], s, cp. cbn. rewrite Nat.add_0_r.
      split; [reflexivity|]. split; [apply matches_Opt_none | exact H].
  - destruct (at_bol ml pv) eqn:Hb; [|discriminate].
    exists [], s, cp. cbn. rewrite Nat.add_0_r.
    split; [reflexivity|]. split; [now constructor | exact H].
  - destruct s; [|discriminate].
    exists [], [], cp. cbn. rewrite Nat.add_0_r.
    split; [reflexivity|]. split; [constructor | exact H].
  - destruct (xorb _ _) eqn:Hb; [|discriminate].
    exists [], s, cp. cbn. rewrite Nat.add_0_r.
    split; [reflexivity|]. split; [now constructor | exact H].
  - destruct (m a pv s n cp _) as [[]|] eqn:Ha; [|discriminate].
    destruct (IHa _ _ _ _ _ _ _ Ha) as (u & s1 & cp1 & -> & Hm & _).
    exists [], (u ++ s1), cp. cbn. rewrite Nat.add_0_r.
    split; [reflexivity|]. split; [now constructor | exact H].
  - destruct (IHa _ _ _ _ _ _ _ H) as (u & s1 & cp1 & Hs & Hm & Hk).
    exists u, s1, (Some (firstn (n + length u - n) s)).
    split; [exact Hs|]. split; [now constructor | exact Hk].
Qed.

Lemma m_Seq_sound {R} a b pv s n cp (k : K R) res :
  m (Seq a b) pv s n cp k = Some res ->
  exists u s' cp',
    s = u ++ s' /\ matches a pv u s'
    /\ m b (prev pv u) s' (n + length u)%nat cp' k = Some res.
Proof. cbn [m]. intros H. exact (m_sound a _ _ _ _ _ _ H). Qed.

(** Greedy repetition tries every run before it gives up. *)
Lemma star_none {R} (p : N -> bool) (k : option N -> text -> nat -> option R) :
  forall (s : text) (pv : option N) (n : nat),
    star p pv s n k = None ->
    forall u s', s = u ++ s' -> Forall (fun c => p c = true) u ->
      k (prev pv u) s' (n + length u)%nat = None.
Proof.
  induction s as [|c s IH]; intros pv n H u s' Hs Hu.
  - symmetry in Hs. apply app_eq_nil in Hs as [-> ->]. cbn.
    rewrite Nat.add_0_r. exact H.
  - cbn [star] in H. destruct u as [|x u].
    + cbn in Hs. subst s'. cbn. rewrite Nat.add_0_r.
      destruct (p c); [|exact H].
      destruct (star p (Some c) s (S n) k); [discriminate | exact H].
    + injection Hs as <- ->. inversion Hu as [|? ? Hx Hu']; subst.
      rewrite Hx in H.
      destruct (star p (Some c) (u ++ s') (S n) k) eqn:Hrec; [discriminate|].
      cbn [prev fold_left length].
      replace (n + S (length u))%nat with (S n + length u)%nat by lia.
      exact (IH _ _ Hrec u s' eq_refl Hu').
Qed.

(** Followed by a word boundary, greedy repetition stops at the longest
    run that ends at one. *)
Lemma star_greedy {R} (p : N -> bool) (g : nat -> R)
    (k : option N -> text -> nat -> option R) :
  (forall pv s n, k pv s n = if boundary pv s then Some (g n) else None) ->
  forall (s : text) (pv : option N) (n : nat) res,
    star p pv s n k = Some res ->
    exists u s',
      s = u ++ s' /\ Forall (fun c => p c = true) u
      /\ boundary (prev pv u) s' = true
      /\ res = g (n + length u)%nat
      /\ (forall x y, s' = x ++ y -> x <> [] -> Forall (fun c => p c = true) x ->
            boundary (prev None x) y = false).
Proof.
  intros Hk.
  assert (Hnone : forall pv s n, k pv s n = None -> boundary pv s = false).
  { intros pv s n H. rewrite Hk in H. now destruct (boundary pv s). }
  assert (Hsome : forall pv s n res, k pv s n = Some res ->
                    boundary pv s = true /\ res = g n).
  { intros pv s n res H. rewrite Hk in H. destruct (boundary pv s); [|discriminate].
    injection H as <-. auto. }
  induction s as [|c s IH]; intros pv n res H; cbn [star] in H.
  - apply Hsome in H as [Hb ->].
    exists [], []. cbn [app length prev fold_left]. rewrite Nat.add_0_r.
    repeat split; [constructor | exact Hb |].
    intros x y Hxy Hx. symmetry in Hxy. apply app_eq_nil in Hxy as [-> _].
    congruence.
  - destruct (p c) eqn:Hc.
    + destruct (star p (Some c) s (S n) k) as [r|] eqn:Hrec.
      * injection H as <-.
        destruct (IH _ _ _ Hrec) as (u & s' & -> & Hu & Hb & -> & Hmax).
        exists (c :: u), s'. split; [reflexivity|]. split; [now constructor|].
        split; [exact Hb|]. split; [cbn [length]; f_equal; lia | exact Hmax].
      * apply Hsome in H as [Hb ->].
        exists [], (c :: s). cbn [app length prev fold_left]. rewrite Nat.add_0_r.
        repeat split; [constructor | exact Hb |].
        intros x y Hxy Hx Hpx. destruct x as [|x0 x]; [congruence|].
        injection Hxy as <- ->.
        inversion Hpx as [|? ? _ Hpx']; subst.
        pose proof (star_none p k _ _ _ Hrec x y eq_refl Hpx') as Hn.
        apply Hnone in Hn. exact Hn.
    + apply Hsome in H as [Hb ->].
      exists [], (c :: s). cbn [app length prev fold_left]. rewrite Nat.add_0_r.
      repeat split; [constructor | exact Hb |].
      intros x y Hxy Hx Hpx. destruct x as [|x0 x]; [congruence|].
      injection Hxy as <- ->. inversion Hpx; subst. congruence.
Qed.

(** The level and the word boundary that end both directive expressions. *)
Lemma level_greedy pv (s : text) n cp n' cp' :
  m (Seq (Grp (Plus level_char)) WordB) pv s n cp (fun _ _ n cp => Some (n, cp))
  = Some (n', cp') ->
  exists level post,
    s = level ++ post /\ n' = (n + length level)%nat
    /\ level <> [] /\ Forall (fun c => level_char c = true) level
    /\ boundary (prev None level) post = true
    /\ maximal_level post.
Proof.
  unfold Plus. cbn [m]. intros H.
  destruct s as [|x s]; [discriminate|].
  destruct (level_char x) eqn:Hx; [|discriminate].
  apply (star_greedy level_char (fun n' => (n', Some (firstn (n' - n) (x :: s)))))
    in H as (u & s' & -> & Hu & Hb & Hres & Hmax); [|reflexivity].
  injection Hres as -> _.
  exists (x :: u), s'. split; [reflexivity|].
  split; [cbn [length]; lia|]. split; [discriminate|].
  split; [now constructor|]. split; [|exact Hmax].
  now rewrite (prev_nonempty None (Some x) (x :: u)) by discriminate.
Qed.

(** *** The parts of the two expressions *)

Lemma matches_lead pv u rest :
  matches (Alt (Bol false) (Cls is_space)) pv u rest ->
  u = [] /\ pv = None \/ exists x, u = [x] /\ is_space x = true.
Proof.
  intros H. inversion H as [| | |? ? ? ? ? Ha|? ? ? ? ? Hb| | | | | | | |]; subst.
  - inversion Ha as [| | | | | | | |? ? ? Hbol| | | |]; subst. left.
    destruct pv; [discriminate Hbol | auto].
  - inversion Hb; subst. right. eauto.
Qed.

Lemma matches_slash pv u rest : matches (Chr (cu "/")) pv u rest -> u = [cu "/"].
Proof. intros H. now inversion H. Qed.

Lemma matches_spaces pv u rest : matches (Star is_space) pv u rest -> blank u.
Proof. intros H. now inversion H. Qed.

Lemma matches_colon pv u rest :
  matches (Opt (Chr (cu ":"))) pv u rest -> u = [] \/ u = [cu ":"].
Proof.
  intros H. inversion H as [| | | | | |? ? ? ? Ha| | | | | |]; subst; [|auto].
  inversion Ha. auto.
Qed.

Lemma matches_lookahead a pv u rest : matches (Ahead a) pv u rest -> u = [].
Proof. intros H. now inversion H. Qed.

Lemma matches_LitI (w : text) : forall pv u rest,
  matches (LitI w) pv u rest -> Forall2 (fun x c => ci c x = true) u w.
Proof.
  induction w as [|c w IH]; intros pv u rest H.
  - cbn [LitI] in H. inversion H as [| | | | | |? ? ? ? Ha| | | | | |]; subst;
      [|constructor]. inversion Ha; subst. discriminate.
  - destruct w as [|c' w'].
    + cbn [LitI] in H. inversion H; subst. repeat constructor. assumption.
    + change (LitI (c :: c' :: w')) with (Seq (Cls (ci c)) (LitI (c' :: w'))) in H.
      inversion H as [| |? ? ? ? ? ? Ha Hb| | | | | | | | | |]; subst.
      inversion Ha; subst. cbn [app]. constructor; [assumption|].
      exact (IH _ _ _ Hb).
Qed.

Lemma ci_alpha c x : is_lower c = true -> ci c x = true -> is_alpha x = true.
Proof.
  unfold ci, fold_char, is_alpha, is_upper, is_lower, between.
  intros Hc. rewrite Hc. intros H. apply N.eqb_eq in H.
  apply andb_true_iff in Hc as [H1 H2]. apply N.leb_le in H1, H2.
  destruct ((97 <=? x)%N && (x <=? 122)%N) eqn:Hx;
    [now rewrite orb_true_r|].
  rewrite orb_false_r. apply andb_true_iff. split; apply N.leb_le; lia.
Qed.

Lemma literal_is_keyword (w : text) c w' u :
  w = c :: w' -> Forall (fun x => is_lower x = true) w ->
  Forall2 (fun x c => ci c x = true) u w -> keyword c u.
Proof.
  intros -> Hw H. split.
  - inversion H; subst. eauto.
  - revert H Hw. generalize (c :: w') as lit. intros lit H.
    induction H as [|x c0 u0 lit0 Hx _ IH]; intros Hw; [constructor|].
    inversion Hw; subst. constructor; [now apply (ci_alpha c0) | now apply IH].
Qed.

Lemma matches_Alt_inv a b pv u rest :
  matches (Alt a b) pv u rest -> matches a pv u rest \/ matches b pv u rest.
Proof. intros H. inversion H; auto. Qed.

Lemma matches_think_keyword pv u rest :
  matches (Alt (LitI (str "thinking")) (Alt (LitI (str "think")) (LitI (str "t"))))
    pv u rest ->
  keyword (cu "t") u.
Proof.
  intros H. apply matches_Alt_inv in H as [H|H];
    [|apply matches_Alt_inv in H as [H|H]];
    apply matches_LitI in H;
    match type of H with
    | Forall2 _ _ ?w =>
        apply (literal_is_keyword w (cu "t") (tail w)); [reflexivity| |exact H]
    end; repeat constructor.
Qed.

Lemma matches_verbose_keyword pv u rest :
  matches (Alt (LitI (str "verbose")) (LitI (str "v"))) pv u rest ->
  keyword (cu "v") u.
Proof.
  intros H. apply matches_Alt_inv in H as [H|H];
    apply matches_LitI in H;
    match type of H with
    | Forall2 _ _ ?w =>
        apply (literal_is_keyword w (cu "v") (tail w)); [reflexivity| |exact H]
    end; repeat constructor.
Qed.

Lemma separator_chars u4 u5 u6 :
  blank u4 -> u5 = [] \/ u5 = [cu ":"] -> blank u6 ->
  Forall sep_char (u4 ++ u5 ++ u6).
Proof.
  intros H4 H5 H6. apply Forall_app. split.
  - eapply Forall_impl; [exact H4|]. intros c Hc. now left.
  - apply Forall_app. split.
    + destruct H5 as [->| ->]; [constructor|].
      constructor; [now right | constructor].
    + eapply Forall_impl; [exact H6|]. intros c Hc. now left.
Qed.

Ltac seq_step H u Hm :=
  let s' := fresh "s" in
  let cp' := fresh "cp" in
  apply m_Seq_sound in H as (u & s' & cp' & -> & Hm & H).

(** What [think_re] matches at a position. *)
Lemma think_here_shape pv s n cp :
  here think_re pv s = Some (n, cp) -> directive_here (cu "t") pv s n.
Proof.
  unfold here, think_re. cbn [seqs]. intros H.
  seq_step H u1 H1. seq_step H u2 H2. seq_step H u3 H3. seq_step H u4 H4.
  seq_step H u5 H5. seq_step H u6 H6.
  apply level_greedy in H as (level & post & -> & -> & Hne & Hlevel & Hb & Hmax).
  apply matches_lead in H1. apply matches_slash in H2. subst u2.
  apply matches_think_keyword in H3. apply matches_spaces in H4, H6.
  apply matches_colon in H5.
  exists u1, u3, (u4 ++ u5 ++ u6), level, post.
  split; [cbn [app]; now rewrite <- !app_assoc|].
  split; [rewrite !length_app; cbn [length]; rewrite !length_app; lia|].
  split; [exact H1|]. split; [exact H3|].
  split; [now apply separator_chars|]. auto.
Qed.

(** What [verbose_re] matches at a position. *)
Lemma verbose_here_shape pv s n cp :
  here verbose_re pv s = Some (n, cp) -> directive_here (cu "v") pv s n.
Proof.
  unfold here, verbose_re. cbn [seqs]. intros H.
  seq_step H u1 H1. seq_step H u2 H2. seq_step H u3 H3. seq_step H u0 H0.
  seq_step H u4 H4. seq_step H u5 H5. seq_step H u6 H6.
  apply level_greedy in H as (level & post & -> & -> & Hne & Hlevel & Hb & Hmax).
  apply matches_lead in H1. apply matches_slash in H2. subst u2.
  apply matches_verbose_keyword in H3. apply matches_spaces in H4, H6.
  apply matches_colon in H5. apply matches_lookahead in H0. subst u0.
  exists u1, u3, (u4 ++ u5 ++ u6), level, post.
  split; [cbn [app]; now rewrite <- !app_assoc|].
  split; [rewrite !length_app; cbn [length]; rewrite !length_app; cbn [length]; lia|].
  split; [exact H1|]. split; [exact H3|].
  split; [now apply separator_chars|]. auto.
Qed.

End MatchFacts.

(** ** Collapsed white space *)

Module SqueezeFacts.
Import Text Regex Collab RegexFacts TrimFacts TextFacts ParseFacts LoneDirectiveFacts MatchFacts.

(** *** What [collapse_ws] does *)

Lemma blank_run (s : text) :
  exists w rest, s = w ++ rest /\ blank w
    /\ (forall c, head rest = Some c -> is_space c = false).
Proof.
  induction s as [|x s (w & rest & -> & Hw & Hrest)].
  - exists [], []. repeat split; [constructor | discriminate].
  - destruct (is_space x) eqn:Hx.
    + exists (x :: w), rest. repeat split; [now constructor | exact Hrest].
    + exists [], (x :: w ++ rest). repeat split; [constructor|].
      intros c [= <-]. exact Hx.
Qed.

Lemma here_spaces pv x (w rest : text) :
  is_space x = true -> blank w ->
  (forall c, head rest = Some c -> is_space c = false) ->
  here (Plus is_space) pv (x :: w ++ rest) = Some (S (length w), None).
Proof.
  intros Hx Hw Hrest. unfold here, Plus. cbn [m]. rewrite Hx.
  now apply star_run.
Qed.

Lemma here_no_space pv x (s : text) :
  is_space x = false -> here (Plus is_space) pv (x :: s) = None.
Proof. intros Hx. unfold here, Plus. cbn [m]. now rewrite Hx. Qed.

Lemma replace_all_go_skip r rep (w : text) : forall rest pv,
  replace_all_go r rep pv (w ++ rest) (length w)
  = match w with
    | [] => replace_all_go r rep pv rest 0
    | _ :: _ => replace_all_go r rep (prev pv w) rest 0
    end.
Proof.
  induction w as [|x w IH]; intros rest pv; [reflexivity|].
  cbn [app length replace_all_go]. rewrite IH.
  destruct w; reflexivity.
Qed.

Lemma collapse_expands_go : forall (n : nat) (s : text) pv,
  (length s <= n)%nat ->
  expands (replace_all_go (Plus is_space) (str " ") pv s 0) s.
Proof.
  induction n as [|n IH]; intros s pv Hn.
  - destruct s; [|cbn in Hn; lia]. cbn. constructor.
  - destruct s as [|x s]; [cbn; constructor|].
    destruct (is_space x) eqn:Hx.
    + destruct (blank_run s) as (w & rest & -> & Hw & Hrest).
      cbn [replace_all_go]. rewrite (here_spaces pv x w rest Hx Hw Hrest).
      rewrite replace_all_go_skip.
      change (str " " ++ ?t) with (cu " " :: t).
      change (x :: w ++ rest) with ((x :: w) ++ rest).
      apply expands_space; [discriminate | now constructor|].
      cbn [length] in Hn. rewrite length_app in Hn.
      destruct w; apply IH; cbn [length] in *; lia.
    + cbn [replace_all_go]. rewrite (here_no_space pv x s Hx).
      apply expands_char; [exact Hx|]. apply IH. cbn [length] in Hn. lia.
Qed.

Lemma collapse_expands (s : text) : expands (collapse_ws s) s.
Proof. exact (collapse_expands_go (length s) s None (le_n _)). Qed.

(** *** What a text and its collapsed form share *)

Lemma expands_nil_inv s : expands [] s -> s = [].
Proof. intros H. now inversion H. Qed.

Lemma expands_app_inv a : forall b s,
  expands (a ++ b) s ->
  exists sa sb, s = sa ++ sb /\ expands a sa /\ expands b sb.
Proof.
  induction a as [|x a IH]; intros b s H.
  - exists [], s. repeat split; [constructor | exact H].
  - cbn [app] in H. inversion H as [|? ? ? Hx Hrec|ws ? ? Hne Hws Hrec]; subst.
    + destruct (IH _ _ Hrec) as (sa & sb & -> & Ha & Hb).
      exists (x :: sa), sb. repeat split; [now constructor | exact Hb].
    + destruct (IH _ _ Hrec) as (sa & sb & -> & Ha & Hb).
      exists (ws ++ sa), sb. rewrite <- app_assoc.
      repeat split; [now constructor | exact Hb].
Qed.

Lemma expands_solid a : forall sa,
  Forall (fun c => is_space c = false) a -> expands a sa -> sa = a.
Proof.
  induction a as [|x a IH]; intros sa Ha H.
  - now apply expands_nil_inv.
  - inversion Ha as [|? ? Hx Ha']; subst.
    inversion H as [|? ? ? _ Hrec|ws ? ? Hne Hws Hrec]; subst.
    + f_equal. now apply IH.
    + vm_compute in Hx. discriminate.
Qed.

Lemma blank_sep ws : blank ws -> Forall sep_char ws.
Proof. intros H. eapply Forall_impl; [exact H|]. intros c Hc. now left. Qed.

Lemma expands_sep a : forall sa,
  Forall sep_char a -> expands a sa -> Forall sep_char sa.
Proof.
  induction a as [|x a IH]; intros sa Ha H.
  - apply expands_nil_inv in H. subst. constructor.
  - inversion Ha as [|? ? Hx Ha']; subst.
    inversion H as [|? ? ? _ Hrec|ws ? ? Hne Hws Hrec]; subst.
    + constructor; [exact Hx | now apply IH].
    + apply Forall_app. split; [now apply blank_sep | now apply IH].
Qed.

Lemma expands_head b sb :
  expands b sb -> word_at (head sb) = word_at (head b).
Proof.
  intros H. inversion H as [|? ? ? _ _|ws ? ? Hne Hws _]; subst; [reflexivity..|].
  destruct ws as [|w ws]; [congruence|]. inversion Hws; subst. cbn.
  now apply space_is_no_word.
Qed.

Lemma blank_last ws :
  blank ws -> ws <> [] -> exists ws0 y, ws = ws0 ++ [y] /\ is_space y = true.
Proof.
  intros Hws Hne. destruct ws as [|y ws0] using rev_ind; [congruence|].
  apply Forall_app in Hws as [_ Hy]. inversion Hy; subst. eauto.
Qed.

Lemma expands_lead a sa : lead_ok a -> expands a sa -> lead_ok sa.
Proof.
  intros [->|(b & x & -> & Hx)] H.
  - apply expands_nil_inv in H. now left.
  - apply expands_app_inv in H as (sb & sx & -> & _ & H).
    inversion H as [|? ? ? Hx' _|ws ? ? Hne Hws Hrec]; subst; [congruence|].
    apply expands_nil_inv in Hrec. subst. rewrite app_nil_r.
    destruct (blank_last ws Hws Hne) as (ws0 & y & -> & Hy).
    right. exists (sb ++ ws0), y. now rewrite <- app_assoc.
Qed.

Lemma level_is_no_space c : level_char c = true -> is_space c = false.
Proof.
  intros H. destruct (is_space c) eqn:Hs; [|reflexivity].
  apply space_is_no_level in Hs. congruence.
Qed.

Lemma keyword_solid c kw : keyword c kw -> Forall (fun x => is_space x = false) kw.
Proof.
  intros [_ H]. eapply Forall_impl; [exact H|]. intros x. apply alpha_is_no_space.
Qed.

Lemma level_solid level :
  Forall (fun x => level_char x = true) level ->
  Forall (fun x => is_space x = false) level.
Proof. intros H. eapply Forall_impl; [exact H|]. intros x. apply level_is_no_space. Qed.

(** A directive of the collapsed text is one of the text. *)
Lemma holds_expands c (t s : text) :
  expands t s -> holds_directive c t -> holds_directive c s.
Proof.
  intros H (before & kw & sep & level & post & -> & Hlead & Hkw & Hsep & Hne & Hlevel & Hb).
  apply expands_app_inv in H as (s1 & r1 & -> & H1 & H).
  change (cu "/" :: kw ++ sep ++ level ++ post)
    with ((cu "/" :: kw) ++ sep ++ level ++ post) in H.
  apply expands_app_inv in H as (s2 & r2 & -> & H2 & H).
  apply expands_app_inv in H as (s3 & r3 & -> & H3 & H).
  apply expands_app_inv in H as (s4 & s5 & -> & H4 & H5).
  apply expands_solid in H2;
    [|constructor; [reflexivity | now apply (keyword_solid c)]].
  apply expands_solid in H4; [|now apply level_solid]. subst s2 s4.
  exists s1, kw, s3, level, s5. split; [reflexivity|].
  split; [now apply (expands_lead before)|]. split; [exact Hkw|].
  split; [now apply (expands_sep sep)|]. split; [exact Hne|].
  split; [exact Hlevel|].
  unfold boundary in *. now rewrite (expands_head post s5 H5).
Qed.

(** A directive of the trimmed text is one of the text. *)
Lemma holds_trim c (s : text) :
  holds_directive c (trim s) -> holds_directive c s.
Proof.
  intros (before & kw & sep & level & post & Hs & Hlead & Hkw & Hsep & Hne & Hlevel & Hb).
  destruct (trim_blank s) as (ws1 & ws2 & H1 & H2 & Hsplit).
  exists (ws1 ++ before), kw, sep, level, (post ++ ws2).
  split.
  { rewrite Hsplit at 1. rewrite Hs. rewrite <- !app_assoc. cbn [app].
    now rewrite <- !app_assoc. }
  split.
  { destruct Hlead as [->|(b & x & -> & Hx)].
    - rewrite app_nil_r. destruct ws1 as [|w ws1]; [now left|].
      destruct (blank_last (w :: ws1) H1) as (ws0 & y & -> & Hy); [discriminate|].
      right. eauto.
    - right. exists (ws1 ++ b), x. now rewrite <- app_assoc. }
  repeat (split; [assumption|]).
  unfold boundary in *. now rewrite word_at_head_blank.
Qed.

(** *** Where the search stops *)

Lemma search_here r : forall (s : text) pv i f,
  search r pv s i = Some f ->
  exists pre s',
    s = pre ++ s'
    /\ here r (match pre with [] => pv | _ :: _ => prev pv pre end) s'
       = Some (span f, group1 f)
    /\ at_index f = (i + length pre)%nat.
Proof.
  induction s as [|x s IH]; intros pv i f H; cbn [search] in H.
  - destruct (here r pv []) as [[n cp]|] eqn:Hh; [|discriminate].
    injection H as <-. exists [], []. cbn. rewrite Nat.add_0_r. auto.
  - destruct (here r pv (x :: s)) as [[n cp]|] eqn:Hh.
    + injection H as <-. exists [], (x :: s). cbn. rewrite Nat.add_0_r. auto.
    + destruct (IH _ _ _ H) as (pre & s' & -> & Hhere & Hi).
      exists (x :: pre), s'. split; [reflexivity|].
      split; [|cbn [length]; lia].
      destruct pre; exact Hhere.
Qed.

(** What [exec] finds is a directive, and the text after it starts no
    longer level. *)
Lemma exec_directive c r (s : text) f :
  (forall pv s n cp, here r pv s = Some (n, cp) -> directive_here c pv s n) ->
  exec r s = Some f ->
  exists before l kw sep level post,
    s = before ++ (l ++ cu "/" :: kw ++ sep ++ level) ++ post
    /\ matched s f = l ++ cu "/" :: kw ++ sep ++ level
    /\ lead_ok (before ++ l)
    /\ keyword c kw /\ Forall sep_char sep
    /\ level <> [] /\ Forall (fun x => level_char x = true) level
    /\ boundary (prev None level) post = true
    /\ maximal_level post.
Proof.
  intros Hshape H. unfold exec in H.
  destruct (search_here r s None 0 f H) as (pre & s' & -> & Hhere & Hi).
  apply Hshape in Hhere
    as (l & kw & sep & level & post & -> & Hn & Hl & Hkw & Hsep & Hne & Hlevel & Hb & Hmax).
  exists pre, l, kw, sep, level, post.
  split; [rewrite <- !app_assoc; cbn [app]; now rewrite <- !app_assoc|].
  split.
  { unfold matched. rewrite Hi, Hn. cbn [Nat.add].
    rewrite drop_app_length.
    replace (l ++ cu "/" :: kw ++ sep ++ level ++ post)
      with ((l ++ cu "/" :: kw ++ sep ++ level) ++ post)
      by (rewrite <- !app_assoc; cbn [app]; now rewrite <- !app_assoc).
    apply take_app_length. }
  split.
  { destruct Hl as [[-> Hpv]|(x & -> & Hx)].
    - rewrite app_nil_r. destruct pre as [|p pre]; [now left|].
      exfalso. exact (prev_is_some pre p Hpv).
    - right. eauto. }
  auto 10.
Qed.

Lemma directive_holds c (s before l kw sep level post : text) :
  s = before ++ (l ++ cu "/" :: kw ++ sep ++ level) ++ post ->
  lead_ok (before ++ l) -> keyword c kw -> Forall sep_char sep ->
  level <> [] -> Forall (fun x => level_char x = true) level ->
  boundary (prev None level) post = true ->
  holds_directive c s.
Proof.
  intros -> Hlead Hkw Hsep Hne Hlevel Hb.
  exists (before ++ l), kw, sep, level, post.
  split; [|auto 10].
  rewrite <- !app_assoc. cbn [app]. now rewrite <- !app_assoc.
Qed.

End SqueezeFacts.

(** ** Directive extraction on its own cleaned text, in general *)

Module IdempotenceFacts.
Import Text Regex Collab RegexFacts TrimFacts TextFacts ParseFacts DirectiveFacts.
Import LoneDirectiveFacts MatchFacts SqueezeFacts.

(** *** Counting the places where a directive can start *)

Lemma marks_cons c x s : (marks c s <= marks c (x :: s))%nat.
Proof. cbn [marks]. lia. Qed.

Lemma marks_app c a : forall b, (marks c a + marks c b <= marks c (a ++ b))%nat.
Proof.
  induction a as [|x a IH]; intros b; [cbn; lia|].
  cbn [app marks]. specialize (IH b).
  destruct a as [|y a]; [cbn [app marks andb] in *; rewrite andb_false_r; lia|].
  cbn [app] in *. lia.
Qed.

Lemma marks_mark c y b :
  ci c y = true -> marks c (cu "/" :: y :: b) = S (marks c (y :: b)).
Proof.
  intros Hy. change (marks c (cu "/" :: y :: b))
    with ((if (cu "/" =? cu "/")%N && ci c y then 1 else 0) + marks c (y :: b))%nat.
  now rewrite N.eqb_refl, Hy.
Qed.

Lemma marks_here c y b : ci c y = true -> (1 <= marks c (cu "/" :: y :: b))%nat.
Proof. intros Hy. rewrite (marks_mark c y b Hy). lia. Qed.

Lemma marks_inside c a y b :
  ci c y = true -> (1 <= marks c (a ++ cu "/" :: y :: b))%nat.
Proof.
  intros Hy. pose proof (marks_app c a (cu "/" :: y :: b)).
  pose proof (marks_here c y b Hy). lia.
Qed.

Lemma cons_eq {A} (x y : A) (a b : list A) : x :: a = y :: b -> x = y /\ a = b.
Proof. intros H. now injection H. Qed.

(** Two different places are two marks. *)
Lemma marks_two c a1 : forall a2 y1 y2 b1 b2,
  a1 ++ cu "/" :: y1 :: b1 = a2 ++ cu "/" :: y2 :: b2 ->
  (length a1 < length a2)%nat -> ci c y1 = true -> ci c y2 = true ->
  (2 <= marks c (a1 ++ cu "/" :: y1 :: b1))%nat.
Proof.
  induction a1 as [|x a1 IH]; intros a2 y1 y2 b1 b2 Heq Hlen H1 H2.
  - destruct a2 as [|z a2]; [cbn in Hlen; lia|].
    cbn [app] in Heq. apply cons_eq in Heq as [_ Heq].
    cbn [app]. rewrite (marks_mark c y1 b1 H1), Heq.
    pose proof (marks_inside c a2 y2 b2 H2). lia.
  - destruct a2 as [|z a2]; [cbn in Hlen; lia|].
    cbn [app] in Heq. apply cons_eq in Heq as [_ Heq].
    cbn [length] in Hlen. apply Nat.succ_lt_mono in Hlen.
    pose proof (IH a2 y1 y2 b1 b2 Heq Hlen H1 H2).
    pose proof (marks_cons c x (a1 ++ cu "/" :: y1 :: b1)).
    cbn [app]. lia.
Qed.

Lemma regroup (pre l : text) x y rest post :
  pre ++ (l ++ x :: y :: rest) ++ post = (pre ++ l) ++ x :: y :: (rest ++ post).
Proof. rewrite <- !app_assoc. cbn [app]. reflexivity. Qed.

(** With at most one mark, a part that holds one is at one place only. *)
Lemma one_place c (body pre1 pre2 l : text) y (rest post1 post2 : text) :
  body = pre1 ++ (l ++ cu "/" :: y :: rest) ++ post1 ->
  body = pre2 ++ (l ++ cu "/" :: y :: rest) ++ post2 ->
  ci c y = true -> (marks c body <= 1)%nat ->
  length pre1 = length pre2.
Proof.
  rewrite !regroup. intros H1 H2 Hy Hone.
  destruct (Nat.lt_trichotomy (length pre1) (length pre2)) as [Hlt|[Heq|Hgt]];
    [exfalso | exact Heq | exfalso].
  - pose proof (marks_two c (pre1 ++ l) (pre2 ++ l) y y _ _
                  (eq_trans (eq_sym H1) H2)) as Htwo.
    rewrite <- H1, !length_app in Htwo.
    apply Nat.add_lt_mono_r with (p := length l) in Hlt.
    specialize (Htwo Hlt Hy Hy). lia.
  - pose proof (marks_two c (pre2 ++ l) (pre1 ++ l) y y _ _
                  (eq_trans (eq_sym H2) H1)) as Htwo.
    rewrite <- H2, !length_app in Htwo.
    apply Nat.add_lt_mono_r with (p := length l) in Hgt.
    specialize (Htwo Hgt Hy Hy). lia.
Qed.

(** Where a mark can be in two texts without one, put together. *)
Lemma marks_joint c (pre post before : text) y b :
  pre ++ post = before ++ cu "/" :: y :: b -> ci c y = true ->
  marks c pre = 0%nat -> marks c post = 0%nat ->
  pre = before ++ [cu "/"] /\ post = y :: b.
Proof.
  intros Heq Hy Hpre Hpost.
  apply app_eq_app in Heq as [e [[-> He]|[-> ->]]].
  - destruct e as [|e0 e].
    + cbn [app] in He. subst post.
      pose proof (marks_here c y b Hy). lia.
    + cbn [app] in He. apply cons_eq in He as [<- He].
      destruct e as [|e1 e].
      * cbn [app] in He. now subst post.
      * cbn [app] in He. apply cons_eq in He as [<- He].
        pose proof (marks_inside c before y e Hy). lia.
  - pose proof (marks_inside c e y b Hy). lia.
Qed.

Lemma marks_le_slashes c (s : text) : (marks c s <= slashes s)%nat.
Proof.
  unfold slashes. induction s as [|x s IH]; [reflexivity|].
  cbn [marks count_occ].
  destruct (N.eq_dec x (cu "/")) as [->|Hne].
  - rewrite N.eqb_refl. destruct (_ && _); lia.
  - apply N.eqb_neq in Hne. rewrite Hne. cbn [andb]. lia.
Qed.

Lemma ci_letter c y :
  is_lower c = true -> (ci c y = true <-> y = c \/ y = (c - 32)%N).
Proof.
  unfold ci, fold_char, is_lower, between. intros Hc. rewrite Hc.
  apply andb_true_iff in Hc as [H1 H2]. apply N.leb_le in H1, H2.
  rewrite N.eqb_eq.
  destruct ((97 <=? y)%N && (y <=? 122)%N) eqn:Hy.
  - apply andb_true_iff in Hy as [H3 H4]. apply N.leb_le in H3, H4. lia.
  - apply andb_false_iff in Hy as [Hy|Hy]; apply N.leb_gt in Hy; lia.
Qed.

(** *** The text that is left holds no directive *)

Lemma same_prefix {A} (a1 a2 b1 b2 : list A) :
  a1 ++ b1 = a2 ++ b2 -> length a1 = length a2 -> a1 = a2 /\ b1 = b2.
Proof.
  revert a2. induction a1 as [|x a1 IH]; intros [|y a2] Heq Hlen;
    try discriminate; [auto|].
  injection Heq as -> Heq. injection Hlen as Hlen.
  destruct (IH _ Heq Hlen) as [-> ->]. auto.
Qed.

Lemma keyword_is_level c kw :
  keyword c kw -> Forall (fun x => level_char x = true) kw.
Proof.
  intros [_ H]. eapply Forall_impl; [exact H|]. intros x. apply alpha_is_level.
Qed.

Lemma keyword_ends_in_word c kw : keyword c kw -> word_at (prev None kw) = true.
Proof.
  intros [(y & rest & -> & _) H]. inversion H; subst.
  now apply word_after_run.
Qed.

Lemma sep_char_no_word x : sep_char x -> is_word x = false.
Proof.
  intros [H| ->]; [now apply space_is_no_word | reflexivity].
Qed.

(** After the longest level that ends at a word boundary, no directive
    with the same first letter starts. *)
Lemma maximal_level_stops c (kw sep level post : text) :
  maximal_level (kw ++ sep ++ level ++ post) ->
  keyword c kw -> Forall sep_char sep ->
  level <> [] -> Forall (fun x => level_char x = true) level ->
  boundary (prev None level) post = true ->
  False.
Proof.
  intros Hmax Hkw Hsep Hne Hlevel Hb.
  assert (Hkw0 : kw <> []) by (destruct Hkw as [(y & rest & -> & _) _]; discriminate).
  destruct sep as [|x sep].
  - cbn [app] in Hmax.
    specialize (Hmax (kw ++ level) post). rewrite <- app_assoc in Hmax.
    specialize (Hmax eq_refl).
    rewrite prev_app, (prev_nonempty _ None level Hne), Hb in Hmax.
    enough (true = false) by discriminate. apply Hmax.
    + destruct kw; [congruence | discriminate].
    + apply Forall_app. split; [now apply (keyword_is_level c) | exact Hlevel].
  - specialize (Hmax kw ((x :: sep) ++ level ++ post) eq_refl Hkw0
                  (keyword_is_level c kw Hkw)).
    unfold boundary in Hmax. rewrite (keyword_ends_in_word c kw Hkw) in Hmax.
    cbn [app head word_at] in Hmax. inversion Hsep; subst.
    rewrite sep_char_no_word in Hmax by assumption. discriminate.
Qed.

Section Cleaning.
Variables (c : N) (r : re).
Hypothesis Htrim : forall s, exec r s = None -> exec r (trim s) = None.
Hypothesis Hshape :
  forall pv s n cp, here r pv s = Some (n, cp) -> directive_here c pv s n.

Lemma exec_holds (s : text) f : exec r s = Some f -> holds_directive c s.
Proof.
  intros H.
  destruct (exec_directive c r s f Hshape H)
    as (before & l & kw & sep & level & post & Hs & _ & Hlead & Hkw & Hsep
        & Hne & Hlevel & Hb & _).
  now apply (directive_holds c s before l kw sep level post).
Qed.

(** With one place where a directive can start, nothing is left to find
    once the match is taken out. *)
Lemma clean_directive_leaves_no_directive (body : text) :
  (marks c body <= 1)%nat -> exec r (clean_directive r body) = None.
Proof.
  intros Hone. unfold clean_directive.
  destruct (exec r body) as [f|] eqn:He; [|now apply Htrim].
  destruct (exec r (trim (collapse_ws (remove_first (matched body f) body))))
    as [g|] eqn:Hg; [exfalso | reflexivity].
  destruct (exec_directive c r body f Hshape He)
    as (pre & l & kw & sep & level & post & Hs & HM & _ & Hkw & _ & _ & _ & _ & Hmax).
  destruct (remove_first_splits (matched body f) body pre post)
    as (pre' & post' & Hs' & Hrem); [now rewrite HM|].
  destruct Hkw as [(y & kwrest & -> & Hy) Hkw].
  (* the match holds a mark *)
  assert (HMmark : matched body f = l ++ cu "/" :: y :: (kwrest ++ sep ++ level))
    by (now rewrite HM).
  (* so the occurrence taken out is the match *)
  assert (Hsame : pre' = pre /\ post' = post).
  { rewrite HMmark in Hs'. cbn [app] in Hs.
    assert (Hlen : length pre' = length pre)
      by exact (one_place c body pre' pre l y (kwrest ++ sep ++ level) post' post
                  Hs' Hs Hy Hone).
    assert (Heq : pre' ++ (l ++ cu "/" :: y :: kwrest ++ sep ++ level) ++ post'
                  = pre ++ (l ++ cu "/" :: y :: kwrest ++ sep ++ level) ++ post)
      by (rewrite <- Hs'; exact Hs).
    destruct (same_prefix _ _ _ _ Heq Hlen) as [-> Hrest].
    split; [reflexivity|]. now apply app_inv_head in Hrest. }
  destruct Hsame as [-> ->]. clear Hs'.
  (* no mark is left on either side *)
  assert (Hparts : marks c pre = 0%nat /\ marks c post = 0%nat).
  { pose proof (marks_app c pre ((l ++ cu "/" :: (y :: kwrest) ++ sep ++ level) ++ post)).
    pose proof (marks_app c (l ++ cu "/" :: (y :: kwrest) ++ sep ++ level) post).
    pose proof (marks_inside c l y (kwrest ++ sep ++ level) Hy) as Hin.
    cbn [app] in *. rewrite <- Hs in *. lia. }
  destruct Hparts as [Hpre Hpost].
  (* a directive of the cleaned text would start at the joint *)
  apply exec_holds in Hg. apply holds_trim in Hg.
  apply (holds_expands c _ _ (collapse_expands _)) in Hg.
  rewrite Hrem in Hg.
  destruct Hg as (before & kw' & sep' & level' & post'' & Hs'' & _ & Hkw' & Hsep' & Hne' & Hlevel' & Hb').
  pose proof Hkw' as [(y' & kwrest' & -> & Hy') _].
  cbn [app] in Hs''.
  destruct (marks_joint c pre post before y' _ Hs'' Hy' Hpre Hpost) as [_ Hpost'].
  rewrite Hpost' in Hmax.
  exact (maximal_level_stops c (y' :: kwrest') sep' level' post''
           Hmax Hkw' Hsep' Hne' Hlevel' Hb').
Qed.

End Cleaning.

Section Idempotence.
Context {col : Collaborators}.

Lemma think_in_trimmed s :
  exec think_re s = None -> exec think_re (trim s) = None.
Proof.
  rewrite think_re_shape.
  apply exec_in_trimmed; [reflexivity | exact blank_extends_think_tail].
Qed.

Lemma verbose_in_trimmed s :
  exec verbose_re s = None -> exec verbose_re (trim s) = None.
Proof.
  rewrite verbose_re_shape.
  apply exec_in_trimmed; [reflexivity | exact blank_extends_verbose_tail].
Qed.

(** C2, as amended.  When at most one slash of the input is directly
    followed by the letter t, in either case, running
    [extractThinkDirective] again on the cleaned text it returned yields
    [hasDirective = false]; likewise [extractVerboseDirective] when at most
    one slash is directly followed by the letter v.  Other slashes, as in
    paths and dates, make no difference. *)
Theorem single_directive_extraction_is_idempotent (body : text) :
  ((marks (cu "t") body <= 1)%nat ->
   think_hasDirective
     (extractThinkDirective
        (Some (think_cleaned (extractThinkDirective (Some body))))) = false)
  /\ ((marks (cu "v") body <= 1)%nat ->
      verbose_hasDirective
        (extractVerboseDirective
           (Some (verbose_cleaned (extractVerboseDirective (Some body))))) = false).
Proof.
  split; intros Hone.
  - apply think_none_no_directive.
    destruct body as [|x body]; [reflexivity|].
    cbn [extractThinkDirective think_cleaned].
    apply (clean_directive_leaves_no_directive (cu "t"));
      [exact think_in_trimmed | exact think_here_shape | exact Hone].
  - apply verbose_none_no_directive.
    destruct body as [|x body]; [reflexivity|].
    cbn [extractVerboseDirective verbose_cleaned].
    apply (clean_directive_leaves_no_directive (cu "v"));
      [exact verbose_in_trimmed | exact verbose_here_shape | exact Hone].
Qed.

End Idempotence.
End IdempotenceFacts.

Module IdempotenceExamples.
Import Text Regex Collab IdempotenceFacts.

#[local] Existing Instance Sample.answering.

(** A body with two slashes, one of which can start a directive. *)
Lemma single_directive_extraction_is_idempotent_witness :
  let body := str "  /think high see a/b " in
  marks (cu "t") body = 1%nat /\ marks (cu "v") body = 0%nat
  /\ slashes body = 2%nat
  /\ think_cleaned (extractThinkDirective (Some body)) = str "see a/b"
  /\ think_hasDirective
       (extractThinkDirective
          (Some (think_cleaned (extractThinkDirective (Some body))))) = false
  /\ verbose_hasDirective
       (extractVerboseDirective
          (Some (verbose_cleaned (extractVerboseDirective (Some body))))) = false.
Proof.
  intros body.
  assert (Ht : marks (cu "t") body = 1%nat) by (vm_compute; reflexivity).
  assert (Hv : marks (cu "v") body = 0%nat) by (vm_compute; reflexivity).
  split; [exact Ht|]. split; [exact Hv|].
  split; [vm_compute; reflexivity|]. split; [vm_compute; reflexivity|].
  destruct (single_directive_extraction_is_idempotent body) as [Hthink Hverbose].
  split; [apply Hthink; rewrite Ht; lia | apply Hverbose; rewrite Hv; lia].
Defined.

(** C2 (as stated) fails: only the first occurrence is taken out, and the
    second one is found when the cleaned text is parsed again; so is a
    path that starts with the letter of the keyword. *)
Lemma repeated_directive_is_found_again :
  (marks (cu "t") (str "/think high /think low") = 2%nat
   /\ think_cleaned (extractThinkDirective (Some (str "/think high /think low")))
      = str "/think low"
   /\ think_hasDirective
        (extractThinkDirective
           (Some (think_cleaned
                    (extractThinkDirective (Some (str "/think high /think low"))))))
      = true)
  /\ (marks (cu "v") (str "/verbose on /v off") = 2%nat
      /\ verbose_cleaned (extractVerboseDirective (Some (str "/verbose on /v off")))
         = str "/v off"
      /\ verbose_hasDirective
           (extractVerboseDirective
              (Some (verbose_cleaned
                       (extractVerboseDirective (Some (str "/verbose on /v off"))))))
         = true)
  /\ (marks (cu "t") (str "/think high /tmp/x") = 2%nat
      /\ think_cleaned (extractThinkDirective (Some (str "/think high /tmp/x")))
         = str "/tmp/x"
      /\ think_hasDirective
           (extractThinkDirective
              (Some (think_cleaned
                       (extractThinkDirective (Some (str "/think high /tmp/x"))))))
         = true).
Proof. vm_compute. repeat split; reflexivity. Qed.

End IdempotenceExamples.
